(* ===== verification/_CoqProject ===== *)
-Q . S2P
Prelude.v
GoLib.v
GoFmt.v
GoErrors.v
PgErrors.v
QueryCore.v
Select.v
Insert.v
Update.v
Delete.v
Bindings.v
Interfaces.v
PoolConfig.v
Pool.v
TxManager.v
PgTransactions.v
PgInterfaces.v
Migrate.v
RedisErrors.v
RedisServer.v
RedisClient.v
Lock.v
LockProgress.v
RateLimit.v
SlidingWindow.v
Cache.v
RateReset.v
CacheValues.v
Session.v
SessionIndex.v
RedisTyping.v
