(* ===== verification/Prelude.v ===== *)
(** * txova-go-db: a verification development

    ** The program

    txova-go-db is a Go library with two packages.  [postgres] holds a builder for
    SQL statements (query.go, insert.go, update.go, delete.go), a wrapper around
    the pgx driver (pool.go, conn.go, tx.go, interfaces.go), a transaction manager
    with retry (txmanager.go), a migration runner (migrate.go) and an error
    classification (errors.go).  [redis] holds a client wrapper (client.go),
    distributed locks (lock.go), rate limiting (ratelimit.go), a cache (cache.go),
    a session store (session.go) and its own error classification (errors.go).
    The transaction manager uses only the [Pool] and [Tx] interfaces; the
    components over Redis share the server and send it single commands,
    pipelines and Lua scripts.

    ** The files

    Paths are under src/.  Definitions keep the Go names where Rocq allows it;
    where several components of one package share a name the Rocq name carries a
    prefix ([Select_Where], [pg_Timeout]), and a file stands for a Go package
    qualifier ([Cache.Get], [Session.Get]).

    - [Prelude]: results, outcomes (return or panic), state passing
      [M W A := W → A * W], 64-bit wrap-around, tactics and hint databases.
    - [GoLib]: the language and its standard library: [range] over a string,
      [strings], [hex], [time.Duration], anchored regular expressions, decimal
      printing and parsing.
    - [GoFmt]: [fmt.Sprintf] for literal text and the verbs d, s, v and %%; other
      formats have no value.
    - [GoErrors]: error values as trees with [errors.Is] and [errors.As]; the
      error types of both packages; the core error package as [CoreErrors].
    - [PgErrors]: postgres/errors.go.
    - [QueryCore], [Select]: postgres/query.go.  [Insert]: postgres/insert.go.
      [Update]: postgres/update.go.  [Delete]: postgres/delete.go.  [Bindings]:
      chains of UPDATE and DELETE calls.
    - [Interfaces]: what txmanager.go asks of postgres/interfaces.go, as the class
      [TxPool] with the promise [TxPoolOk].
    - [PoolConfig]: the configuration half of postgres/pool.go.  [Pool]: the rest
      of it with conn.go and tx.go; [pgxPool_TxPool] and [pgxPool_TxPoolOk]
      discharge the interface and its promise.
    - [TxManager]: postgres/txmanager.go, against the interface.
    - [PgTransactions]: the manager over the pgx pool, with the transactions the
      server has committed.  [PgInterfaces]: postgres/interfaces.go in full, and the
      pgx-backed implementation of it.
    - [Migrate]: postgres/migrate.go.
    - [RedisErrors]: redis/errors.go.
    - [RedisServer]: the interfaces to the server and to go-redis, and the model
      [MemServer] that satisfies them.
    - [RedisClient]: redis/client.go.  [Lock]: redis/lock.go.  [RateLimit]:
      redis/ratelimit.go.  [Cache]: redis/cache.go.  [Session]: redis/session.go.
    - Properties with files of their own: [LockProgress] (waiting for a lock),
      [SlidingWindow] and [RateReset] (rate limits), [CacheValues] (several keys,
      compute on miss), [SessionIndex] (the index of a user's sessions), and
      [RedisTyping] (the errors of the whole redis package).

    ** How state and effects are represented

    The builders mutate a struct and return it: a call is a function on the
    record, a chain of calls a list of them ([select_run] and its siblings).  The
    pool's wrappers run over the driver's world together with a log
    ([Logged W]).  The transaction manager adds a trace of its begins, callback
    runs, commits, rollbacks, waits and log entries ([TmWorld]).  The Redis
    components run over a world [W] that contains a server state
    ([rc_server]); in [RedisClientOk W S others] every request is one server
    step with [others] before and after it, where [others] is a relation that
    says what the remaining clients and the passing of time may do.  Theorems
    about locks, rate limits, cache and sessions choose that relation, so they
    hold for every interleaving it allows.  A lock or session passed by pointer
    is returned in its updated form.

    ** What the theorems show

    - Statement builders.  [Build] is specified by a template of literal text,
      values and user conditions; [render] numbers the placeholders from left to
      right.  [Select_Build_refines_template], [Update_Build_refines_template] and
      [Insert_Build_row_major] say that [Build] succeeds exactly on valid builders
      and then produces the template's text and its values in the same order
      ([Delete_Build_spec] is the lemma for DELETE); [Select_calls_bind] and
      [write_calls_bind] carry this to chains of calls.  [Select_allowlist_enforced]
      and [Delete_never_unrestricted] are the safety properties, and
      [replacePlaceholders_numbers] the rewriting of question marks, byte by byte.
    - Errors.  [FromPgError_spec], [FromRedisError_spec] and
      [containsIgnoreCase_spec] (against the letters of ASCII, spelled out) are total
      classifications; [FromPgError_preserves_Is]
      says that wrapping never hides a sentinel.  [pgx_errors_typed] and
      [redis_errors_typed] say of both packages that the errors they return are
      their own error type with a consistent core code, callback errors apart.
    - Pools.  [wrappers_exec_query] for the wrappers with their log.
    - Transactions.  [WithTx_atomic]: at most [MaxRetries + 1] transactions, each
      closed once, nil exactly when one committed; [WithTx_result]: what each
      result means; [WithTx_pool_failures_final] and [calculateRetryDelay_bounds]
      for errors and delays.  Over the pgx pool: [WithTx_at_most_once], no
      statement that a callback sends by [Exec] is ever applied twice, and
      [statement_errors_retried], which SQLSTATEs lead to a retry.
    - Migrations.  [Migrator_results].
    - Locks.  [lock_mutual_exclusion] on the server; [AcquireWithTTL_holds],
      [WithLock_releases], [AcquireWithRetry_cost] and [AcquireWithRetry_live] for
      the client.
    - Rate limits.  [allow_script_spec]; [fixed_window_safe], for non-negative
      counts; [sliding_window_safe], for requests that reach the server at most
      [lag] milliseconds after the time they carry; [GetStatus_agrees],
      [Reset_restores_quota].
    - Cache and sessions.  [Cache_set_get], [MSet_then_MGet],
      [GetOrSet_computes_on_miss], [DeleteByPattern_removes], [Create_then_get],
      [Create_then_list], [Delete_removes], [DeleteByUserID_removes].

    Lemmas beside the components complete them, among them [mapSQLState_classifies],
    [FromDatabaseConfig_clamps], [NewPoolFromConfig_validates], [NewWithConfig_spec],
    [Insert_rejects_ragged_rows], [Delete_returning_unchecked],
    [WithTx_joins_context], [lock_scripts_spec], [Release_clears_handle],
    [AllowN_decides].

    Behaviour that differs from the documentation is recorded the same way:
    [retry_delay_overflows], [sliding_window_same_ms_unlimited],
    [delayed_request_exceeds], [sliding_key_collision], [negative_n_refills],
    [resent_acquire_refused], [empty_value_reads_as_miss], [touch_resurrects],
    [update_stores_old_expiry], [DeleteByUserID_counts_index],
    [index_expires_first], [overlapping_creations_cut_index], [Key_ambiguous].

    ** Parameters

    Code outside the repository is a parameter, with the behaviour the sources
    rely on as laws: the pgx driver ([Pgx]), txova-go-core's errors ([CoreErrors],
    [CoreErrorsOk]), txova-go-types' pagination ([Pagination]), golang-migrate
    ([GolangMigrate]), go-redis and the server ([RedisServer], [RedisClient],
    [GoRedis], [CacheDriver], with [RedisServerOk], [RedisClientOk],
    [CacheDriverOk], [ScanOk]), the encoding of values ([Json], [SessionJsonOk]), the
    server's transactions as the driver shows them ([PgSession], [PgSessionOk]), the
    Unicode case table ([UnicodeTables]), the clock and the random source
    ([Runtime], [RedisClient]).  Each theorem that assumes such laws has a concrete
    run beside it, over an implementation for which they are proved
    ([simple_core], [CountingPool], [ScriptedPg], [StepDriver], [MemServer],
    [MemDriver], [Codec]).

    ** Bounds and fuel

    Durations and counts are [Z]; [wrap64] is applied where the code can overflow
    (the retry delay, the rate limiter's sums and products); the conversion to
    int32 in [FromDatabaseConfig] is shown not to.  Numbers in Lua scripts are doubles ([dbl], exact up to [2^53]).
    Loops over lists and counters are structural.  Only [DeleteByPattern], which
    ends when the server's scan does, has fuel: one unit per key the scan yields
    and one for its end, and more is never needed ([DeleteByPattern_removes]).

    ** Not modelled

    Requests that go-redis sends again by itself after a network error: an answered
    request is one execution ([RedisClientOk]), a failed one none or one.  Log
    output of the redis package and its logger options; formats of
    [fmt.Sprintf] outside [GoFmt]; the [Scanner] interface, which no code uses; the
    reading of rows through the driver ([pgx.Rows], [pgx.Row]); the real passing of
    time and goroutine scheduling (clean-up goroutines are values, run by
    [Session.cleanup]).

    ** Open

    Modelled without a theorem of their own so far: [Session.Extend] and the life
    time of the index it maintains, [GetOrSetJSON], nested transactions over
    savepoints, and locks that outlive their callback. *)

From Stdlib Require Import ZArith Lia.
From stdpp Require Export base tactics list list_numbers option numbers strings gmap sets.


(** ** Scope, results and the state monad *)

Declare Scope go_scope.
Delimit Scope go_scope with go.

(** A Go function [func (...) (T, error)] returns [Ok v] for [(v, nil)] and
    [Err e] for [(_, e)] with [e != nil]. *)
Inductive result (A E : Type) : Type :=
| Ok (a : A)
| Err (e : E).
Arguments Ok {A E} a.
Arguments Err {A E} e.

Definition rbind {A B E} (r : result A E) (k : A → result B E) : result B E :=
  match r with Ok a => k a | Err e => Err e end.

Definition rmap {A B E} (f : A → B) (r : result A E) : result B E :=
  match r with Ok a => Ok (f a) | Err e => Err e end.

(** The value of a result that was computed to be one. *)
Lemma result_Ok {A E} (r : result A E) (P : A → Prop) :
  match r with Ok a => P a | Err _ => False end → ∃ a, r = Ok a ∧ P a.
Proof. destruct r; [eauto|done]. Qed.

Definition is_ok {A E} (r : result A E) : bool :=
  match r with Ok _ => true | Err _ => false end.

Notation "'let?' x := m 'in' k" := (rbind m (λ x, k))
  (at level 10, x pattern, m at level 100, k at level 200) : go_scope.

(** A Go call that either returns or panics with a value. *)
Inductive outcome (A P : Type) : Type :=
| Returns (a : A)
| Panics (p : P).
Arguments Returns {A P} a.
Arguments Panics {A P} p.

(** Effects are explicit state passing: a computation over the world [W]. *)
Definition M (W A : Type) : Type := W → A * W.

Definition sret {W A} (a : A) : M W A := λ w, (a, w).
Definition mthen {W A B} (m : M W A) (k : A → M W B) : M W B :=
  λ w, let '(a, w') := m w in k a w'.

Notation "'let!' x := m 'in' k" := (mthen m (λ x, k))
  (at level 10, x pattern, m at level 100, k at level 200) : go_scope.

(** ** Machine integers *)

Definition two63 : Z := 9223372036854775808.
Definition two64 : Z := 18446744073709551616.

(** [int64] (and [int], [time.Duration]) arithmetic wraps around. *)
Definition wrap64 (z : Z) : Z := (z + two63) `mod` two64 - two63.

Definition in_int64 (z : Z) : Prop := (- two63 ≤ z < two63)%Z.

Definition maxInt32 : Z := 2147483647.
Definition in_int32 (z : Z) : Prop := (-2147483648 ≤ z ≤ maxInt32)%Z.

#[export] Instance in_int64_dec z : Decision (in_int64 z).
Proof. unfold in_int64. apply _. Defined.
#[export] Instance in_int32_dec z : Decision (in_int32 z).
Proof. unfold in_int32. apply _. Defined.

(** ** Tactics and hints *)

Create HintDb godb.

(** Case analysis on the discriminee of a [match] in the goal, keeping its equation. *)
Ltac case_goal :=
  match goal with
  | |- context [match ?x with _ => _ end] =>
      first [ is_var x; destruct x | let E := fresh "E" in destruct x eqn:E ]
  end.

(** The same for a [match] in a hypothesis. *)
Ltac case_hyp H :=
  match type of H with
  | context [match ?x with _ => _ end] =>
      first [ is_var x; destruct x | let E := fresh "E" in destruct x eqn:E ]
  end.

(** Invert [Ok _ = Ok _], [Err _ = Err _] and their contradictions. *)
Ltac inv_result :=
  repeat match goal with
  | H : Ok _ = Ok _ |- _ => injection H as H
  | H : Err _ = Err _ |- _ => injection H as H
  | H : Ok _ = Err _ |- _ => discriminate H
  | H : Err _ = Ok _ |- _ => discriminate H
  end; simplify_eq.

(** Boolean tests of the code become propositions. *)
Ltac reflect_bool :=
  repeat match goal with
  | H : (_ && _)%bool = true |- _ => apply andb_true_iff in H; destruct H
  | H : (_ || _)%bool = false |- _ => apply orb_false_iff in H; destruct H
  | H : negb _ = true |- _ => apply negb_true_iff in H
  | H : negb _ = false |- _ => apply negb_false_iff in H
  | H : bool_decide _ = true |- _ => apply bool_decide_eq_true in H
  | H : bool_decide _ = false |- _ => apply bool_decide_eq_false in H
  | H : (_ =? _)%Z = true |- _ => apply Z.eqb_eq in H
  | H : (_ =? _)%Z = false |- _ => apply Z.eqb_neq in H
  | H : (_ <? _)%Z = true |- _ => apply Z.ltb_lt in H
  | H : (_ <? _)%Z = false |- _ => apply Z.ltb_ge in H
  | H : (_ <=? _)%Z = true |- _ => apply Z.leb_le in H
  | H : (_ <=? _)%Z = false |- _ => apply Z.leb_gt in H
  end.

(** Linear arithmetic with division and remainder by constants. *)
Ltac dlia := Z.div_mod_to_equations; lia.

(** ** Lemmas on integers *)

Lemma wrap64_small z : in_int64 z → wrap64 z = z.
Proof. unfold in_int64, wrap64, two63, two64. intros. rewrite Z.mod_small; lia. Qed.

Lemma wrap64_range z : in_int64 (wrap64 z).
Proof.
  unfold in_int64, wrap64, two63, two64.
  pose proof (Z.mod_pos_bound (z + 9223372036854775808) 18446744073709551616). lia.
Qed.

(** ** Lemmas on results *)

Lemma rbind_ok {A B E} (r : result A E) (k : A → result B E) b :
  rbind r k = Ok b ↔ ∃ a, r = Ok a ∧ k a = Ok b.
Proof. destruct r; simpl; naive_solver. Qed.

Lemma rbind_err {A B E} (r : result A E) (k : A → result B E) e :
  rbind r k = Err e ↔ r = Err e ∨ ∃ a, r = Ok a ∧ k a = Err e.
Proof. destruct r; simpl; naive_solver. Qed.

(** [injection] would simplify large terms; these do not. *)
Lemma Ok_inj {A E} (a b : A) : @Ok A E a = Ok b → a = b.
Proof. congruence. Qed.

Lemma Ok_pair_inj {A B E} (a c : A) (b d : B) : @Ok _ E (a, b) = Ok (c, d) → a = c ∧ b = d.
Proof. intros H. split; congruence. Qed.

Lemma mthen_run {W A B} (m : M W A) (k : A → M W B) w a w' :
  m w = (a, w') → mthen m k w = k a w'.
Proof. unfold mthen. by intros ->. Qed.

(** A loop [for _, x := range l { if err := f(x); err != nil { return err } }]. *)
Fixpoint first_err {A E} (f : A → option E) (l : list A) : option E :=
  match l with
  | [] => None
  | x :: r => match f x with Some e => Some e | None => first_err f r end
  end.

Lemma first_err_None {A E} (f : A → option E) l :
  first_err f l = None ↔ Forall (λ x, f x = None) l.
Proof.
  induction l as [|x r IH]; simpl; [by split|].
  rewrite Forall_cons, <-IH. destruct (f x); naive_solver.
Qed.

Lemma first_err_Some {A E} (f : A → option E) l e :
  first_err f l = Some e ↔
  ∃ l1 x l2, l = l1 ++ x :: l2 ∧ Forall (λ y, f y = None) l1 ∧ f x = Some e.
Proof.
  induction l as [|x r IH]; simpl.
  { split; [done|]. intros (l1 & x & l2 & Hl & _). by destruct l1. }
  destruct (f x) eqn:Hx.
  - split.
    + intros [= <-]. by exists [], x, r.
    + intros ([|y l1] & z & l2 & Hl & Hall & Hz); simplify_eq/=; [congruence|].
      apply Forall_cons in Hall as [? _]. congruence.
  - rewrite IH. split.
    + intros (l1 & y & l2 & -> & Hall & Hy). exists (x :: l1), y, l2. by auto.
    + intros ([|y l1] & z & l2 & Hl & Hall & Hz); simplify_eq/=.
      apply Forall_cons in Hall as [_ Hall]. by exists l1, z, l2.
Qed.

#[export] Hint Resolve wrap64_range : godb.
#[export] Hint Rewrite @first_err_None : godb.

(** ** Lemmas on strings *)

Lemma string_app_nil_l (s : string) : "" +:+ s = s.
Proof. done. Qed.

Lemma string_app_cons a (s t : string) : String a s +:+ t = String a (s +:+ t).
Proof. done. Qed.

Lemma string_app_nil_r (s : string) : s +:+ "" = s.
Proof. induction s as [|a s IH]; [done|]. by rewrite string_app_cons, IH. Qed.

Lemma string_app_assoc (s1 s2 s3 : string) : s1 +:+ (s2 +:+ s3) = (s1 +:+ s2) +:+ s3.
Proof. induction s1 as [|a s1 IH]; [done|]. by rewrite !string_app_cons, IH. Qed.

Lemma string_length_app (s1 s2 : string) :
  String.length (s1 +:+ s2) = (String.length s1 + String.length s2)%nat.
Proof. induction s1 as [|a s1 IH]; [done|]. rewrite string_app_cons. simpl. by rewrite IH. Qed.

Lemma string_app_inj_l (s1 s2 t1 t2 : string) :
  String.length s1 = String.length t1 → s1 +:+ s2 = t1 +:+ t2 → s1 = t1 ∧ s2 = t2.
Proof.
  revert t1. induction s1 as [|a s1 IH]; intros [|b t1] Hl; simplify_eq/=; [done|].
  rewrite !string_app_cons. intros [= -> Heq]. destruct (IH t1 Hl Heq). by subst.
Qed.

(** [gostr] normalises concatenations: nested to the right, no empty pieces. *)
Create HintDb gostr.
#[export] Hint Rewrite string_app_nil_l string_app_nil_r : gostr.
#[export] Hint Rewrite <- string_app_assoc : gostr.
