(* ===== verification/GoLib.v ===== *)
(** * The parts of the Go language and its standard library the sources use

    Strings are byte strings ([String.string], one [ascii] per byte).  The file
    models [range] over a string (UTF-8 decoding, with [RuneError] for an
    invalid byte), [strings.Builder.WriteRune], [strings.Join], [TrimSpace],
    [ToUpper], [fmt]'s [%d], [hex.EncodeToString], [time.Duration], and regular
    expressions with Go's full-match reading of an anchored pattern.  The Unicode case table
    (generated data) is the parameter [UnicodeTables]. *)

From Stdlib Require Export ZArith Lia Ascii.
From stdpp Require Export pretty.
From S2P Require Import Prelude.

Open Scope Z_scope.

(** ** Bytes and runes *)

Definition byte_val (a : ascii) : Z := Z.of_N (N_of_ascii a).
Definition byte_of (z : Z) : ascii := ascii_of_N (Z.to_N z).

Definition in_range (lo hi z : Z) : bool := (lo <=? z) && (z <=? hi).

(** [utf8.RuneError], U+FFFD. *)
Definition RuneError : Z := 65533.

(** Accepted range of the second byte of a three-byte sequence. *)
Definition accept3 (b0 b1 : Z) : bool :=
  if b0 =? 224 then in_range 160 191 b1
  else if b0 =? 237 then in_range 128 159 b1
  else in_range 128 191 b1.

(** Accepted range of the second byte of a four-byte sequence. *)
Definition accept4 (b0 b1 : Z) : bool :=
  if b0 =? 240 then in_range 144 191 b1
  else if b0 =? 244 then in_range 128 143 b1
  else in_range 128 191 b1.

Definition rune2 (b0 b1 : Z) : Z := (b0 - 192) * 64 + (b1 - 128).
Definition rune3 (b0 b1 b2 : Z) : Z := (b0 - 224) * 4096 + (b1 - 128) * 64 + (b2 - 128).
Definition rune4 (b0 b1 b2 b3 : Z) : Z :=
  (b0 - 240) * 262144 + (b1 - 128) * 4096 + (b2 - 128) * 64 + (b3 - 128).

(** [utf8.DecodeRuneInString]: the first rune and its width in bytes; an
    invalid sequence is [RuneError] with width 1. *)
Definition DecodeRuneInString (s : string) : Z * nat :=
  let bad := (RuneError, 1%nat) in
  match s with
  | EmptyString => (RuneError, 0%nat)
  | String a s1 =>
      let b0 := byte_val a in
      if b0 <? 128 then (b0, 1%nat)
      else if in_range 194 223 b0 then
        match s1 with
        | String c1 _ =>
            if in_range 128 191 (byte_val c1) then (rune2 b0 (byte_val c1), 2%nat) else bad
        | _ => bad
        end
      else if in_range 224 239 b0 then
        match s1 with
        | String c1 (String c2 _) =>
            if accept3 b0 (byte_val c1) && in_range 128 191 (byte_val c2)
            then (rune3 b0 (byte_val c1) (byte_val c2), 3%nat) else bad
        | _ => bad
        end
      else if in_range 240 244 b0 then
        match s1 with
        | String c1 (String c2 (String c3 _)) =>
            if accept4 b0 (byte_val c1) && in_range 128 191 (byte_val c2)
               && in_range 128 191 (byte_val c3)
            then (rune4 b0 (byte_val c1) (byte_val c2) (byte_val c3), 4%nat) else bad
        | _ => bad
        end
      else bad
  end.

(** [s[:n]]: the first [n] bytes. *)
Fixpoint take_bytes (n : nat) (s : string) : string :=
  match n, s with
  | S n', String a r => String a (take_bytes n' r)
  | _, _ => ""
  end.

(** [for _, ch := range s]: the runes of [s], each with the bytes it was decoded
    from; [skip] bytes of the rune decoded last are still to be passed. *)
Fixpoint chunks_from (skip : nat) (s : string) : list (Z * string) :=
  match s with
  | EmptyString => []
  | String _ s1 =>
      match skip with
      | S k => chunks_from k s1
      | O => let '(r, width) := DecodeRuneInString s in
             (r, take_bytes width s) :: chunks_from (width - 1) s1
      end
  end.

Definition chunks_of (s : string) : list (Z * string) := chunks_from 0 s.

Definition runes_of (s : string) : list Z := (chunks_of s).*1.

(** A Unicode scalar value: what a valid UTF-8 sequence can denote. *)
Definition is_scalar (r : Z) : bool := in_range 0 55295 r || in_range 57344 1114111 r.

(** [strings.Builder.WriteRune]: an invalid code point is written as [RuneError]. *)
Definition encode_valid (r : Z) : string :=
  if r <? 128 then String (byte_of r) ""
  else if r <? 2048 then
    String (byte_of (192 + r / 64)) (String (byte_of (128 + r mod 64)) "")
  else if r <? 65536 then
    String (byte_of (224 + r / 4096))
      (String (byte_of (128 + (r / 64) mod 64)) (String (byte_of (128 + r mod 64)) ""))
  else
    String (byte_of (240 + r / 262144))
      (String (byte_of (128 + (r / 4096) mod 64))
         (String (byte_of (128 + (r / 64) mod 64)) (String (byte_of (128 + r mod 64)) ""))).

Definition encode_rune (r : Z) : string :=
  encode_valid (if is_scalar r then r else RuneError).

(** Concatenation of a list of pieces (a [strings.Builder] written piece by piece). *)
Fixpoint concat_str (l : list string) : string :=
  match l with
  | [] => ""
  | s :: r => s +:+ concat_str r
  end.

Definition string_of_runes (rs : list Z) : string := concat_str (map encode_rune rs).

(** A byte string is valid UTF-8 when it encodes a list of scalar values. *)
Definition utf8_valid (s : string) : Prop :=
  ∃ rs, Forall (λ r, is_scalar r = true) rs ∧ s = string_of_runes rs.

(** ** Package [strings] *)

(** [strings.Join(l, sep)]. *)
Fixpoint strings_Join (l : list string) (sep : string) : string :=
  match l with
  | [] => ""
  | [s] => s
  | s :: r => s +:+ sep +:+ strings_Join r sep
  end.

(** [unicode.IsSpace]. *)
Definition unicode_IsSpace (r : Z) : bool :=
  in_range 9 13 r || (r =? 32) || (r =? 133) || (r =? 160) || (r =? 5760)
  || in_range 8192 8202 r || in_range 8232 8233 r || (r =? 8239) || (r =? 8287) || (r =? 12288).

Fixpoint drop_while {A} (p : A → bool) (l : list A) : list A :=
  match l with
  | [] => []
  | x :: r => if p x then drop_while p r else l
  end.

(** [strings.TrimSpace]: a substring, so the bytes of the kept runes are unchanged. *)
Definition strings_TrimSpace (s : string) : string :=
  let sp := λ c : Z * string, unicode_IsSpace c.1 in
  concat_str (rev (drop_while sp (rev (drop_while sp (chunks_of s))))).*2.

(** The table behind [unicode.ToUpper] for non-ASCII code points. *)
Class UnicodeTables := { unicode_ToUpper : Z → Z }.

Fixpoint is_ascii (s : string) : bool :=
  match s with
  | EmptyString => true
  | String a r => (byte_val a <? 128) && is_ascii r
  end.

Definition upper_byte (a : ascii) : ascii :=
  if in_range 97 122 (byte_val a) then byte_of (byte_val a - 32) else a.

Fixpoint map_bytes (f : ascii → ascii) (s : string) : string :=
  match s with
  | EmptyString => ""
  | String a r => String (f a) (map_bytes f r)
  end.

(** [strings.ToUpper]: bytewise on ASCII, [strings.Map(unicode.ToUpper, s)] otherwise. *)
Definition strings_ToUpper `{UnicodeTables} (s : string) : string :=
  if is_ascii s then map_bytes upper_byte s
  else concat_str (map (λ r, if unicode_ToUpper r <? 0 then "" else encode_rune (unicode_ToUpper r))
                     (runes_of s)).

Definition len (s : string) : Z := Z.of_nat (String.length s).

(** Bytes of a string satisfying [p] everywhere. *)
Fixpoint all_bytes (p : ascii → bool) (s : string) : bool :=
  match s with
  | EmptyString => true
  | String a r => p a && all_bytes p r
  end.

(** ** [fmt] and [hex] *)

(** [fmt.Sprintf("%d", n)]. *)
Definition itoa (n : Z) : string := pretty n.

(** [strconv.ParseInt(s, 10, 64)]: an optional sign, at least one digit, and a
    value of 64 bits; [None] is a non-nil error. *)
Fixpoint parse_digits (acc : Z) (s : string) : option Z :=
  match s with
  | EmptyString => Some acc
  | String a r =>
      if in_range 48 57 (byte_val a) then parse_digits (10 * acc + (byte_val a - 48)) r else None
  end.

Definition parse_nat (s : string) : option Z :=
  match s with EmptyString => None | _ => parse_digits 0 s end.

Definition ParseInt (s : string) : option Z :=
  let v := match s with
           | String "-" r => option_map Z.opp (parse_nat r)
           | String "+" r => parse_nat r
           | _ => parse_nat s
           end in
  match v with
  | Some n => if bool_decide (in_int64 n) then Some n else None
  | None => None
  end.

Definition hex_digit (n : Z) : ascii :=
  if n <? 10 then byte_of (48 + n) else byte_of (87 + n).

(** [hex.EncodeToString]; a [byte] is its value in [0, 256). *)
Fixpoint hex_EncodeToString (b : list Z) : string :=
  match b with
  | [] => ""
  | x :: r => String (hex_digit (x / 16)) (String (hex_digit (x mod 16)) (hex_EncodeToString r))
  end.

Definition is_byte (b : Z) : Prop := 0 ≤ b < 256.

(** ** Durations and times (in nanoseconds) *)

Definition Nanosecond : Z := 1.
Definition Millisecond : Z := 1000000.
Definition Second : Z := 1000 * Millisecond.
Definition Minute : Z := 60 * Second.
Definition Hour : Z := 60 * Minute.

(** [time.Duration.Milliseconds]: integer division truncates towards zero. *)
Definition Milliseconds (d : Z) : Z := Z.quot d Millisecond.

(** ** Regular expressions *)

Inductive regex : Type :=
| RNone
| REps
| RClass (p : ascii → bool)
| RSeq (r1 r2 : regex)
| RAlt (r1 r2 : regex)
| RStar (r : regex).

Definition ROpt (r : regex) : regex := RAlt REps r.

(** The language of a pattern. *)
Inductive matches : regex → string → Prop :=
| m_eps : matches REps ""
| m_class p a : p a = true → matches (RClass p) (String a "")
| m_seq r1 r2 s1 s2 : matches r1 s1 → matches r2 s2 → matches (RSeq r1 r2) (s1 +:+ s2)
| m_alt_l r1 r2 s : matches r1 s → matches (RAlt r1 r2) s
| m_alt_r r1 r2 s : matches r2 s → matches (RAlt r1 r2) s
| m_star_nil r : matches (RStar r) ""
| m_star_cons r s1 s2 : matches r s1 → matches (RStar r) s2 → matches (RStar r) (s1 +:+ s2).

Fixpoint nullable (r : regex) : bool :=
  match r with
  | RNone | RClass _ => false
  | REps | RStar _ => true
  | RSeq r1 r2 => nullable r1 && nullable r2
  | RAlt r1 r2 => nullable r1 || nullable r2
  end.

Fixpoint deriv (a : ascii) (r : regex) : regex :=
  match r with
  | RNone | REps => RNone
  | RClass p => if p a then REps else RNone
  | RSeq r1 r2 =>
      if nullable r1 then RAlt (RSeq (deriv a r1) r2) (deriv a r2) else RSeq (deriv a r1) r2
  | RAlt r1 r2 => RAlt (deriv a r1) (deriv a r2)
  | RStar r => RSeq (deriv a r) (RStar r)
  end.

(** [regexp.MatchString] of the anchored pattern [^r$]. *)
Fixpoint MatchString (r : regex) (s : string) : bool :=
  match s with
  | EmptyString => nullable r
  | String a s' => MatchString (deriv a r) s'
  end.

(** ** Lemmas: pieces and bytes *)

Lemma concat_str_app l1 l2 : concat_str (l1 ++ l2) = concat_str l1 +:+ concat_str l2.
Proof.
  induction l1 as [|s l1 IH]; simpl; [done|]. by rewrite IH, string_app_assoc.
Qed.

Lemma byte_val_range a : 0 ≤ byte_val a < 256.
Proof.
  unfold byte_val. pose proof (N_ascii_bounded a). lia.
Qed.

Lemma byte_val_of z : 0 ≤ z < 256 → byte_val (byte_of z) = z.
Proof.
  intros. unfold byte_val, byte_of. rewrite N_ascii_embedding; lia.
Qed.

Lemma byte_of_val a : byte_of (byte_val a) = a.
Proof. unfold byte_val, byte_of. by rewrite N2Z.id, ascii_N_embedding. Qed.

Lemma in_range_true lo hi z : in_range lo hi z = true ↔ lo ≤ z ≤ hi.
Proof. unfold in_range. rewrite andb_true_iff, !Z.leb_le. done. Qed.

Lemma in_range_false lo hi z : in_range lo hi z = false ↔ z < lo ∨ hi < z.
Proof. unfold in_range. rewrite andb_false_iff, !Z.leb_gt. lia. Qed.

Lemma strings_Join_cons x l sep :
  l ≠ [] → strings_Join (x :: l) sep = x +:+ sep +:+ strings_Join l sep.
Proof. by destruct l. Qed.

(** ** Lemmas: UTF-8 *)

(** Decide every range test of the goal by linear arithmetic. *)
Ltac decide_tests :=
  repeat match goal with
  | |- context [(?x <? ?y)] =>
      first [ rewrite (proj2 (Z.ltb_lt x y)) by dlia | rewrite (proj2 (Z.ltb_ge x y)) by dlia ]
  | |- context [(?x =? ?y)] =>
      first [ rewrite (proj2 (Z.eqb_eq x y)) by dlia | rewrite (proj2 (Z.eqb_neq x y)) by dlia ]
  | |- context [in_range ?lo ?hi ?z] =>
      first [ rewrite (proj2 (in_range_true lo hi z)) by dlia
            | rewrite (proj2 (in_range_false lo hi z)) by dlia ]
  end; simpl.

Lemma take_bytes_app c t : take_bytes (String.length c) (c +:+ t) = c.
Proof.
  induction c as [|a c IH]; [by destruct t|]. rewrite string_app_cons. simpl. by rewrite IH.
Qed.

Lemma chunks_from_skip c t : chunks_from (String.length c) (c +:+ t) = chunks_of t.
Proof. induction c as [|a c IH]; [done|]. by rewrite string_app_cons. Qed.

(** One step of [range]. *)
Lemma chunks_of_step c t r :
  c ≠ "" → DecodeRuneInString (c +:+ t) = (r, String.length c) →
  chunks_of (c +:+ t) = (r, c) :: chunks_of t.
Proof.
  destruct c as [|a c]; [done|]. intros _ Hd.
  pose proof (take_bytes_app (String a c) t) as Ht. revert Hd Ht.
  unfold chunks_of at 1. rewrite string_app_cons. cbn [chunks_from]. intros -> ->.
  cbn [String.length]. rewrite Nat.sub_succ, Nat.sub_0_r. by rewrite chunks_from_skip.
Qed.

Lemma scalar_range r : is_scalar r = true ↔ (0 ≤ r ≤ 55295 ∨ 57344 ≤ r ≤ 1114111).
Proof. unfold is_scalar. by rewrite orb_true_iff, !in_range_true. Qed.

Lemma accept3_encoded r :
  2048 ≤ r < 65536 → is_scalar r = true →
  accept3 (224 + r / 4096) (128 + (r / 64) mod 64) = true.
Proof.
  intros Hr Hs%scalar_range. unfold accept3.
  destruct (Z.eqb_spec (224 + r / 4096) 224), (Z.eqb_spec (224 + r / 4096) 237);
    rewrite in_range_true; dlia.
Qed.

Lemma accept4_encoded r :
  65536 ≤ r ≤ 1114111 → accept4 (240 + r / 262144) (128 + (r / 4096) mod 64) = true.
Proof.
  intros Hr. unfold accept4.
  destruct (Z.eqb_spec (240 + r / 262144) 240), (Z.eqb_spec (240 + r / 262144) 244);
    rewrite in_range_true; dlia.
Qed.

(** Decoding inverts encoding, one rune at a time. *)
Lemma decode_encode r s :
  is_scalar r = true →
  DecodeRuneInString (encode_rune r +:+ s) = (r, String.length (encode_rune r)).
Proof.
  intros Hs. unfold encode_rune. rewrite Hs. pose proof (proj1 (scalar_range r) Hs) as Hr.
  unfold encode_valid.
  destruct (Z.ltb_spec r 128); [|destruct (Z.ltb_spec r 2048);
    [|destruct (Z.ltb_spec r 65536)]]; rewrite !string_app_cons, string_app_nil_l;
    cbn [DecodeRuneInString String.length]; rewrite !byte_val_of by dlia; decide_tests.
  - done.
  - f_equal. unfold rune2. dlia.
  - rewrite accept3_encoded by (done || lia). simpl. f_equal. unfold rune3. dlia.
  - rewrite accept4_encoded by lia. simpl. f_equal. unfold rune4. dlia.
Qed.

Lemma encode_rune_nonempty r : encode_rune r ≠ "".
Proof. unfold encode_rune, encode_valid. by repeat case_match. Qed.

Lemma chunks_encode r s :
  is_scalar r = true → chunks_of (encode_rune r +:+ s) = (r, encode_rune r) :: chunks_of s.
Proof.
  intros. apply chunks_of_step; [apply encode_rune_nonempty|by apply decode_encode].
Qed.

Lemma runes_of_encoded rs :
  Forall (λ r, is_scalar r = true) rs → runes_of (string_of_runes rs) = rs.
Proof.
  unfold runes_of, string_of_runes.
  induction 1 as [|r rs Hr _ IH]; simpl; [done|]. by rewrite chunks_encode, fmap_cons, IH.
Qed.

Lemma utf8_valid_runes s : utf8_valid s → string_of_runes (runes_of s) = s.
Proof. intros (rs & Hrs & ->). by rewrite runes_of_encoded. Qed.

Lemma utf8_valid_app s t : utf8_valid s → utf8_valid t → utf8_valid (s +:+ t).
Proof.
  intros (rs & ? & ->) (ts & ? & ->). exists (rs ++ ts).
  split; [by apply Forall_app|]. unfold string_of_runes. by rewrite map_app, concat_str_app.
Qed.

Lemma runes_of_app s t : utf8_valid s → runes_of (s +:+ t) = runes_of s ++ runes_of t.
Proof.
  intros (rs & Hrs & ->). rewrite runes_of_encoded by done. revert Hrs.
  unfold runes_of, string_of_runes.
  induction 1 as [|r rs Hr _ IH]; simpl; [done|].
  by rewrite <-string_app_assoc, chunks_encode, fmap_cons, IH.
Qed.

Lemma encode_ascii r : 0 ≤ r < 128 → encode_rune r = String (byte_of r) "".
Proof.
  intros. unfold encode_rune, is_scalar. decide_tests.
  unfold encode_valid. by decide_tests.
Qed.

Lemma is_ascii_valid s : is_ascii s = true → utf8_valid s.
Proof.
  induction s as [|a s IH]; simpl; intros H; [by exists []|].
  apply andb_true_iff in H as [Ha%Z.ltb_lt Hs]. pose proof (byte_val_range a).
  destruct (IH Hs) as (rs & Hrs & ->). exists (byte_val a :: rs). split.
  - constructor; [|done]. unfold is_scalar. by decide_tests.
  - unfold string_of_runes. simpl. rewrite encode_ascii by lia. by rewrite byte_of_val.
Qed.

(** The decoded width is positive and never exceeds the string. *)
Lemma decode_width s :
  s ≠ "" → ∃ c t, s = c +:+ t ∧ c ≠ "" ∧ (DecodeRuneInString s).2 = String.length c.
Proof.
  destruct s as [|a s1]; [done|]. intros _.
  assert (∀ w, (0 < w ≤ String.length (String a s1))%nat → ∃ c t,
    String a s1 = c +:+ t ∧ c ≠ "" ∧ w = String.length c) as Hw.
  { intros w. generalize (String a s1). induction w as [|w IH]; [lia|].
    intros [|b s]; simpl; [lia|]. intros Hlen. destruct (decide (w = 0%nat)) as [->|].
    - by exists (String b ""), s.
    - destruct (IH s) as (c & t & -> & _ & ->); [lia|]. by exists (String b c), t. }
  apply Hw. unfold DecodeRuneInString. repeat case_match; simpl; lia.
Qed.

(** The bytes of the chunks are the bytes of the string. *)
Lemma chunks_concat s : concat_str (chunks_of s).*2 = s.
Proof.
  induction s as [s IH] using (induction_ltof1 _ String.length). unfold ltof in IH.
  destruct (decide (s = "")) as [->|Hs]; [done|].
  destruct (decode_width s Hs) as (c & t & -> & Hc & Hw).
  destruct (DecodeRuneInString (c +:+ t)) as [r w] eqn:Hd. simplify_eq/=.
  rewrite (chunks_of_step c t r) by done. simpl. f_equal. apply IH.
  rewrite string_length_app. destruct c; simpl in *; [done|lia].
Qed.

(** ** Lemmas: regular expressions *)

#[export] Hint Constructors matches : godb.

Lemma nullable_spec r : nullable r = true ↔ matches r "".
Proof.
  split.
  - induction r; simpl; intros Hn; try discriminate; auto with godb.
    + apply andb_true_iff in Hn as [??]. apply (m_seq _ _ "" ""); auto.
    + apply orb_true_iff in Hn as [?|?]; auto with godb.
  - intros Hm. remember "" as s eqn:Hs.
    induction Hm as [| |r1 r2 s1 s2 _ IH1 _ IH2|r1 r2 s _ IH|r1 r2 s _ IH| |]; try done.
    + destruct s1, s2; simpl in Hs; try discriminate Hs. simpl. by rewrite IH1, IH2.
    + simpl. by rewrite IH.
    + simpl. rewrite IH by done. by rewrite orb_true_r.
Qed.

Lemma matches_star_inv r a s :
  matches (RStar r) (String a s) →
  ∃ s1 s2, s = s1 +:+ s2 ∧ matches r (String a s1) ∧ matches (RStar r) s2.
Proof.
  intros Hm. remember (RStar r) as q eqn:Hq. remember (String a s) as u eqn:Hu.
  induction Hm as [| | | | | |r' s1 s2 H1 _ H2 IH2]; try done; simplify_eq.
  destruct s1 as [|b s1]; [by apply IH2|].
  rewrite string_app_cons in Hu. simplify_eq. by exists s1, s2.
Qed.

Lemma deriv_spec r a s : matches (deriv a r) s ↔ matches r (String a s).
Proof.
  revert s. induction r as [| |p|r1 IH1 r2 IH2|r1 IH1 r2 IH2|r IH]; intros s; simpl.
  - split; inversion 1.
  - split; inversion 1.
  - split.
    + destruct (p a) eqn:Hp; inversion 1. by constructor.
    + inversion 1 as [|q b Hb| | | | |]; simplify_eq. rewrite Hb. constructor.
  - assert (matches (RSeq (deriv a r1) r2) s ↔
      ∃ s1 s2, s = s1 +:+ s2 ∧ matches r1 (String a s1) ∧ matches r2 s2) as Hseq.
    { split.
      - inversion 1; simplify_eq. eexists _, _. by rewrite <-IH1.
      - intros (s1 & s2 & -> & H1 & H2). constructor; [by apply IH1|done]. }
    assert (matches (RSeq r1 r2) (String a s) ↔
      matches (RSeq (deriv a r1) r2) s ∨ (matches r1 "" ∧ matches r2 (String a s))) as Hinv.
    { rewrite Hseq. split.
      - intros Hm. inversion Hm as [| |q1 q2 s1 s2 H1 H2 E1 Hu| | | |]; subst.
        destruct s1 as [|b s1].
        + right. by rewrite string_app_nil_l in Hu; subst.
        + left. rewrite string_app_cons in Hu. simplify_eq. by exists s1, s2.
      - intros [(s1 & s2 & -> & H1 & H2)|[H1 H2]].
        + rewrite <-string_app_cons. by constructor.
        + rewrite <-(string_app_nil_l (String a s)). by constructor. }
    rewrite Hinv. destruct (nullable r1) eqn:Hn.
    + apply nullable_spec in Hn. split.
      * inversion 1; subst; [by left|]. right. split; [done|]. by apply IH2.
      * intros [?|[_ ?]]; [by apply m_alt_l|apply m_alt_r; by apply IH2].
    + split; [by left|]. intros [?|[H1 _]]; [done|].
      apply nullable_spec in H1. congruence.
  - split.
    + inversion 1; subst; [apply m_alt_l; by apply IH1|apply m_alt_r; by apply IH2].
    + inversion 1; subst; [apply m_alt_l; by apply IH1|apply m_alt_r; by apply IH2].
  - split.
    + inversion 1; subst. rewrite <-string_app_cons. constructor; [by apply IH|done].
    + intros (s1 & s2 & -> & H1 & H2)%matches_star_inv. constructor; [by apply IH|done].
Qed.

(** The executable matcher decides the language of the pattern. *)
Lemma MatchString_spec r s : MatchString r s = true ↔ matches r s.
Proof.
  revert r. induction s as [|a s IH]; intros r; simpl; [apply nullable_spec|].
  by rewrite IH, deriv_spec.
Qed.

(** Every class of the pattern is included in [p]. *)
Fixpoint regex_within (p : ascii → bool) (r : regex) : Prop :=
  match r with
  | RNone | REps => True
  | RClass q => ∀ a, q a = true → p a = true
  | RSeq r1 r2 | RAlt r1 r2 => regex_within p r1 ∧ regex_within p r2
  | RStar r => regex_within p r
  end.

Lemma all_bytes_app p s t : all_bytes p (s +:+ t) = all_bytes p s && all_bytes p t.
Proof.
  induction s as [|a s IH]; [done|]. rewrite string_app_cons. simpl.
  by rewrite IH, andb_assoc.
Qed.

Lemma matches_all_bytes p r s : matches r s → regex_within p r → all_bytes p s = true.
Proof.
  induction 1; simpl; intros Hw; rewrite ?all_bytes_app, ?andb_true_iff;
    destruct_and?; simpl; rewrite ?andb_true_r; auto.
Qed.

(** ** Lemmas: hexadecimal *)

Definition is_hex_digit (a : ascii) : bool :=
  in_range 48 57 (byte_val a) || in_range 97 102 (byte_val a).

Lemma hex_digit_val n : 0 ≤ n < 16 → byte_val (hex_digit n) = if n <? 10 then 48 + n else 87 + n.
Proof. intros. unfold hex_digit. destruct (Z.ltb_spec n 10); apply byte_val_of; lia. Qed.

Lemma hex_digit_inj m n : 0 ≤ m < 16 → 0 ≤ n < 16 → hex_digit m = hex_digit n → m = n.
Proof.
  intros Hm Hn Heq. apply (f_equal byte_val) in Heq. rewrite !hex_digit_val in Heq by done.
  destruct (Z.ltb_spec m 10), (Z.ltb_spec n 10); lia.
Qed.

Lemma hex_digit_is n : 0 ≤ n < 16 → is_hex_digit (hex_digit n) = true.
Proof.
  intros. unfold is_hex_digit. rewrite hex_digit_val by done.
  apply orb_true_iff. rewrite !in_range_true. destruct (Z.ltb_spec n 10); lia.
Qed.

Lemma hex_all_digits b : Forall is_byte b → all_bytes is_hex_digit (hex_EncodeToString b) = true.
Proof.
  induction 1 as [|x b Hx _ IH]; simpl; [done|]. unfold is_byte in Hx.
  by rewrite !hex_digit_is, IH by dlia.
Qed.

Lemma hex_length b : String.length (hex_EncodeToString b) = (2 * length b)%nat.
Proof. induction b as [|x b IH]; simpl; [done|]. rewrite IH. lia. Qed.

(** Distinct random byte strings have distinct encodings. *)
Lemma hex_EncodeToString_inj b c :
  Forall is_byte b → Forall is_byte c → hex_EncodeToString b = hex_EncodeToString c → b = c.
Proof.
  intros Hb. revert c. induction Hb as [|x b Hx _ IH]; intros [|y c] Hc Heq; try done.
  apply Forall_cons in Hc as [Hy Hc]. unfold is_byte in *. simpl in Heq.
  injection Heq as H1 H2 H3.
  apply hex_digit_inj in H1, H2; [|dlia..]. f_equal; [dlia|by apply IH].
Qed.

(** ** Lemmas: decimal numbers *)

Lemma pretty_N_char_val n : (n < 10)%N → byte_val (pretty_N_char n) = 48 + Z.of_N n.
Proof.
  intros Hn. destruct n as [|p]; [done|].
  destruct p as [[[[p|p|]|[p|p|]|]|[[p|p|]|[p|p|]|]|]|[[[p|p|]|[p|p|]|]|[[p|p|]|[p|p|]|]|]|];
    (done || lia).
Qed.

Lemma parse_pretty_go n s : parse_digits 0 (pretty_N_go n s) = parse_digits (Z.of_N n) s.
Proof.
  revert s. induction (N.lt_wf_0 n) as [n _ IH]. intros s.
  destruct (decide (n = 0)%N) as [->|Hn]; [by rewrite pretty_N_go_0|].
  rewrite pretty_N_go_step by lia. rewrite IH by (apply N.div_lt; lia).
  pose proof (N.mod_lt n 10 ltac:(done)) as Hm.
  assert (Z.of_N n = 10 * Z.of_N (n / 10) + Z.of_N (n mod 10)) as Hdm.
  { pose proof (N.div_mod n 10 ltac:(done)). lia. }
  set (q := (n / 10)%N) in *. set (r := (n mod 10)%N) in *.
  cbn [parse_digits]. rewrite pretty_N_char_val by done.
  replace (in_range 48 57 (48 + Z.of_N r)) with true by (symmetry; apply in_range_true; lia).
  f_equal. lia.
Qed.

Lemma pretty_N_go_nonempty n s : s ≠ "" → pretty_N_go n s ≠ "".
Proof.
  revert s. induction (N.lt_wf_0 n) as [n _ IH]. intros s Hs.
  destruct (decide (n = 0)%N) as [->|Hn]; [by rewrite pretty_N_go_0|].
  rewrite pretty_N_go_step by lia. apply IH; [apply N.div_lt; lia|done].
Qed.

Lemma parse_nat_pretty (n : N) : parse_nat (pretty n) = Some (Z.of_N n).
Proof.
  unfold pretty, pretty_N. case_decide as Hn; [by subst|].
  assert (parse_digits 0 (pretty_N_go n "") = Some (Z.of_N n)) as Hp by (by rewrite parse_pretty_go).
  unfold parse_nat. destruct (pretty_N_go n "") eqn:Hs; [|done].
  rewrite pretty_N_go_step in Hs by lia. by apply pretty_N_go_nonempty in Hs.
Qed.

(** The first byte of a decimal natural is a digit. *)
Lemma parse_nat_unsigned s n :
  parse_nat s = Some n →
  match s with
  | String "-" r => option_map Z.opp (parse_nat r)
  | String "+" r => parse_nat r
  | _ => parse_nat s
  end = Some n.
Proof.
  intros Hs. destruct s as [|[[] [] [] [] [] [] [] []] s]; try exact Hs; discriminate Hs.
Qed.

Lemma ParseInt_itoa n : in_int64 n → ParseInt (itoa n) = Some n.
Proof.
  intros Hn. unfold ParseInt, itoa, pretty, pretty_Z.
  destruct n as [|p|p].
  - by vm_compute.
  - rewrite (parse_nat_unsigned _ (Z.pos p)) by apply (parse_nat_pretty (Npos p)).
    by rewrite bool_decide_eq_true_2.
  - change (match option_map Z.opp (parse_nat (pretty (Npos p))) with
            | Some n => if bool_decide (in_int64 n) then Some n else None
            | None => None
            end = Some (Zneg p)).
    rewrite parse_nat_pretty. simpl. by rewrite bool_decide_eq_true_2.
Qed.

#[export] Hint Rewrite ParseInt_itoa using assumption : godb.

(** ** Lemmas: fields separated by colons *)

Definition not_colon (a : ascii) : bool := negb (bool_decide (a = ":"%char)).

Lemma pretty_N_go_no_colon n s : all_bytes not_colon s = true → all_bytes not_colon (pretty_N_go n s) = true.
Proof.
  revert s. induction (N.lt_wf_0 n) as [n _ IH]. intros s Hs.
  destruct (decide (n = 0)%N) as [->|Hn]; [by rewrite pretty_N_go_0|].
  rewrite pretty_N_go_step by lia. apply IH; [apply N.div_lt; lia|]. simpl. rewrite Hs, andb_true_r.
  unfold not_colon. rewrite bool_decide_eq_false_2; [done|]. intros Ha.
  pose proof (N.mod_lt n 10 ltac:(done)) as Hm. apply (f_equal byte_val) in Ha.
  rewrite pretty_N_char_val in Ha by done. change (byte_val ":"%char) with 58 in Ha. lia.
Qed.

Lemma pretty_N_no_colon (n : N) : all_bytes not_colon (pretty n) = true.
Proof. unfold pretty, pretty_N. case_decide; [done|by apply pretty_N_go_no_colon]. Qed.

Lemma itoa_no_colon z : all_bytes not_colon (itoa z) = true.
Proof. unfold itoa, pretty, pretty_Z. destruct z; [done|apply pretty_N_no_colon..]. Qed.

(** A field without colons ends at the first colon. *)
Lemma colon_field_inj p q s t :
  all_bytes not_colon p = true → all_bytes not_colon q = true →
  p +:+ ":" +:+ s = q +:+ ":" +:+ t → p = q ∧ s = t.
Proof.
  revert q. induction p as [|a p IH]; intros [|b q] Hp Hq Heq.
  - rewrite !string_app_nil_l in Heq. split; [done|]. by injection Heq.
  - injection Heq as <- _. done.
  - injection Heq as -> _. done.
  - simpl in Hp, Hq. apply andb_true_iff in Hp as [_ Hp], Hq as [_ Hq].
    rewrite !string_app_cons in Heq. injection Heq as -> Heq.
    by destruct (IH q Hp Hq Heq) as [-> ->].
Qed.
