(* ===== verification/GoFmt.v ===== *)
(** * [fmt.Sprintf] on integers and strings

    The printf-style constructors of both packages pass their arguments on to
    [fmt.Sprintf].  Modelled are arguments of type [int] and [string] and the
    verbs %d, %s, %v and %%, with what Go prints for a wrong type, a missing and
    an extra argument; flags, widths and other verbs are outside the model
    ([None]). *)

From Stdlib Require Import ZArith Lia.
From S2P Require Import Prelude GoLib.

Open Scope go_scope.

Inductive fmt_arg : Type :=
| FInt (n : Z)
| FStr (s : string).

Definition arg_type (a : fmt_arg) : string := match a with FInt _ => "int" | FStr _ => "string" end.
Definition arg_text (a : fmt_arg) : string := match a with FInt n => itoa n | FStr s => s end.

(** [%!d(string=hi)]. *)
Definition bad_verb (verb : string) (a : fmt_arg) : string :=
  "%!" +:+ verb +:+ "(" +:+ arg_type a +:+ "=" +:+ arg_text a +:+ ")".

(** One verb with its argument, if one is left. *)
Definition fmt_verb (verb : ascii) (args : list fmt_arg) : option (string * list fmt_arg) :=
  if decide (verb = "%"%char) then Some ("%", args)
  else if decide (verb ∈ ["d"; "s"; "v"]%char) then
    match args with
    | [] => Some ("%!" +:+ String verb "" +:+ "(MISSING)", [])
    | a :: args =>
        Some (match a with
              | FInt _ => if decide (verb = "s"%char) then bad_verb "s" a else arg_text a
              | FStr _ => if decide (verb = "d"%char) then bad_verb "d" a else arg_text a
              end, args)
    end
  else None.

(** [%!(EXTRA int=5, string=hi)]. *)
Definition fmt_extra (args : list fmt_arg) : string :=
  match args with
  | [] => ""
  | _ => "%!(EXTRA " +:+ strings_Join (map (λ a, arg_type a +:+ "=" +:+ arg_text a) args) ", " +:+ ")"
  end.

Fixpoint fmt_loop (format : string) (args : list fmt_arg) : option string :=
  match format with
  | EmptyString => Some (fmt_extra args)
  | String c format =>
      if decide (c = "%"%char) then
        match format with
        | EmptyString => Some ("%!(NOVERB)" +:+ fmt_extra args)
        | String verb format =>
            match fmt_verb verb args with
            | Some (text, args) => option_map (λ rest, text +:+ rest) (fmt_loop format args)
            | None => None
            end
        end
      else option_map (String c) (fmt_loop format args)
  end.

Definition Sprintf (format : string) (args : list fmt_arg) : option string := fmt_loop format args.

(** ** Lemmas *)

Definition not_percent (a : ascii) : bool := negb (bool_decide (a = "%"%char)).

(** Text without verbs is copied. *)
Lemma Sprintf_text p format args :
  all_bytes not_percent p = true →
  Sprintf (p +:+ format) args = option_map (λ rest, p +:+ rest) (Sprintf format args).
Proof.
  unfold Sprintf. induction p as [|a p IH]; intros Hp.
  { rewrite string_app_nil_l. by destruct (fmt_loop format args). }
  simpl in Hp. apply andb_true_iff in Hp as [Ha Hp]. unfold not_percent in Ha.
  apply negb_true_iff, bool_decide_eq_false in Ha. rewrite string_app_cons. cbn [fmt_loop].
  rewrite decide_False, IH by done. by destruct (fmt_loop format args).
Qed.

Lemma Sprintf_literal p : all_bytes not_percent p = true → Sprintf p [] = Some p.
Proof. intros Hp. rewrite <-(string_app_nil_r p) at 1. rewrite Sprintf_text by done. simpl. by rewrite string_app_nil_r. Qed.

(** A verb in the middle of a text. *)
Lemma Sprintf_d p n q :
  all_bytes not_percent p = true → all_bytes not_percent q = true →
  Sprintf (p +:+ "%d" +:+ q) [FInt n] = Some (p +:+ itoa n +:+ q).
Proof.
  intros Hp Hq. rewrite Sprintf_text by done. unfold Sprintf.
  change (fmt_loop ("%d" +:+ q) [FInt n]) with (option_map (λ rest, itoa n +:+ rest) (Sprintf q [])).
  by rewrite Sprintf_literal.
Qed.

Lemma Sprintf_s p s q :
  all_bytes not_percent p = true → all_bytes not_percent q = true →
  Sprintf (p +:+ "%s" +:+ q) [FStr s] = Some (p +:+ s +:+ q).
Proof.
  intros Hp Hq. rewrite Sprintf_text by done. unfold Sprintf.
  change (fmt_loop ("%s" +:+ q) [FStr s]) with (option_map (λ rest, s +:+ rest) (Sprintf q [])).
  by rewrite Sprintf_literal.
Qed.

Example Sprintf_errors :
  Sprintf "%d of %s, %v%%" [FStr "x"; FInt 5] = Some "%!d(string=x) of %!s(int=5), %!v(MISSING)%" ∧
  Sprintf "a%" [FInt 1; FStr "b"] = Some "a%!(NOVERB)%!(EXTRA int=1, string=b)".
Proof. by vm_compute. Qed.
