(* ===== verification/GoErrors.v ===== *)
(** * Go error values, [errors.Is], [errors.As] and the core error package

    An error value is a finite tree: [Unwrap() error] gives one child,
    [Unwrap() []error] several.  The two error types of the repository,
    [postgres.Error] and [redis.Error], are constructors, as are the driver's
    [pgconn.PgError], the sentinels compared by identity, and any other error
    ([EForeign]: [errors.New], [fmt.Errorf] with [%w], a library's own error).

    [txova-go-core/errors] is outside the repository: an [AppError] is kept as the
    three values its accessors [Code()], [Message()] and [Unwrap()] return, its
    constructors and its [Is] method are the parameters [CoreErrors], and what
    the sources rely on is [CoreErrorsOk]. *)

From S2P Require Import Prelude GoLib.

(** The [coreerrors.Code] constants the sources name. *)
Inductive CoreCode : Type :=
| CoreNotFound
| CoreConflict
| CoreValidationError
| CoreServiceUnavailable
| CoreInternalError
| CoreRateLimited.

#[export] Instance CoreCode_eq_dec : EqDecision CoreCode.
Proof. solve_decision. Defined.

(** Error variables the sources compare with by identity. *)
Inductive sentinel : Type :=
| pgx_ErrNoRows
| redis_Nil
| redis_ErrClosed
| migrate_ErrNoChange
| migrate_ErrNilVersion
| context_Canceled
| context_DeadlineExceeded
| other_sentinel (n : nat).

#[export] Instance sentinel_eq_dec : EqDecision sentinel.
Proof. solve_decision. Defined.

(** [coreerrors.AppError], by its accessors. *)
Record AppError_of (E : Type) := mkAppError {
  app_Code : CoreCode;
  app_Message : string;
  app_Unwrap : option E
}.
Arguments mkAppError {E}.
Arguments app_Code {E}.
Arguments app_Message {E}.
Arguments app_Unwrap {E}.

(** The fields of [pgconn.PgError] that [FromPgError] reads. *)
Record PgError := mkPgError {
  pg_Code : string;
  pg_Message : string;
  pg_Detail : string;
  pg_Hint : string;
  pg_TableName : string;
  pg_ColumnName : string;
  pg_ConstraintName : string
}.

(** [postgres.Error]. *)
Record DbError_of (E : Type) := mkDbError {
  db_AppError : AppError_of E;
  db_code : string;
  db_sqlState : string;
  db_detail : string;
  db_hint : string;
  db_tableName : string;
  db_column : string;
  db_constraint : string
}.
Arguments mkDbError {E}.
Arguments db_AppError {E}.
Arguments db_code {E}.
Arguments db_sqlState {E}.
Arguments db_detail {E}.
Arguments db_hint {E}.
Arguments db_tableName {E}.
Arguments db_column {E}.
Arguments db_constraint {E}.

(** [redis.Error]. *)
Record RedisError_of (E : Type) := mkRedisError {
  rd_AppError : AppError_of E;
  rd_code : string
}.
Arguments mkRedisError {E}.
Arguments rd_AppError {E}.
Arguments rd_code {E}.

Inductive goerror : Type :=
| EForeign (text : string) (inner : list goerror)
| ESentinel (id : sentinel) (text : string)
| EPgx (pe : PgError) (text : string)
| EApp (a : AppError_of goerror) (text : string)
| EDb (e : DbError_of goerror)
| ERedis (e : RedisError_of goerror).

Abbreviation AppError := (AppError_of goerror).
Abbreviation DbError := (DbError_of goerror).
Abbreviation RedisError := (RedisError_of goerror).

(** The package [txova-go-core/errors] as the sources call it. *)
Class CoreErrors := {
  core_New : CoreCode → string → AppError;
  core_Wrap : CoreCode → string → option goerror → AppError;
  core_WithMessage : AppError → string → AppError;
  core_WithCause : AppError → option goerror → AppError;
  core_Is : AppError → goerror → bool
}.

(** Its documented behaviour: the accessors return what the constructors were
    given, [WithMessage] and [WithCause] replace one field, and [AppError.Is]
    never matches a plain sentinel of another package. *)
Class CoreErrorsOk `{CoreErrors} : Prop := {
  core_New_spec c m : core_New c m = mkAppError c m None;
  core_Wrap_spec c m e : core_Wrap c m e = mkAppError c m e;
  core_WithMessage_spec a m : core_WithMessage a m = mkAppError (app_Code a) m (app_Unwrap a);
  core_WithCause_spec a e : core_WithCause a e = mkAppError (app_Code a) (app_Message a) e;
  core_Is_sentinel a id t : core_Is a (ESentinel id t) = false
}.

(** An implementation with that behaviour, for concrete runs. *)
Definition simple_core_Is (a : AppError) (t : goerror) : bool :=
  match t with
  | EApp b _ => bool_decide (app_Code a = app_Code b)
  | _ => false
  end.

#[export] Instance simple_core : CoreErrors | 100 := {
  core_New c m := mkAppError c m None;
  core_Wrap c m e := mkAppError c m e;
  core_WithMessage a m := mkAppError (app_Code a) m (app_Unwrap a);
  core_WithCause a e := mkAppError (app_Code a) (app_Message a) e;
  core_Is := simple_core_Is
}.

#[export] Instance simple_core_ok : CoreErrorsOk (H := simple_core).
Proof. by constructor. Qed.

(** ** Walking an error tree *)

(** What [Unwrap] returns. *)
Definition children (e : goerror) : list goerror :=
  match e with
  | EForeign _ l => l
  | ESentinel _ _ | EPgx _ _ => []
  | EApp a _ => option_list (app_Unwrap a)
  | EDb d => option_list (app_Unwrap (db_AppError d))
  | ERedis r => option_list (app_Unwrap (rd_AppError r))
  end.

Fixpoint first_some {A B} (f : A → option B) (l : list A) : option B :=
  match l with
  | [] => None
  | x :: r => match f x with Some b => Some b | None => first_some f r end
  end.

(** [errors.As]: the first node, in depth-first preorder, that [sel] accepts. *)
Fixpoint errors_As {T} (sel : goerror → option T) (e : goerror) : option T :=
  match sel e with
  | Some t => Some t
  | None =>
      match e with
      | EForeign _ l =>
          (fix go l := match l with
             | [] => None
             | x :: r => match errors_As sel x with Some t => Some t | None => go r end
             end) l
      | EApp (mkAppError _ _ (Some c)) _ => errors_As sel c
      | EDb (mkDbError (mkAppError _ _ (Some c)) _ _ _ _ _ _ _) => errors_As sel c
      | ERedis (mkRedisError (mkAppError _ _ (Some c)) _) => errors_As sel c
      | _ => None
      end
  end.

(** [Error()]: both packages print the code, the message and the cause, if any. *)
Fixpoint Error_text (e : goerror) : string :=
  let line (code : string) (m : string) (cause : option string) :=
    match cause with
    | Some t => code +:+ ": " +:+ m +:+ ": " +:+ t
    | None => code +:+ ": " +:+ m
    end in
  match e with
  | EForeign t _ | ESentinel _ t | EPgx _ t | EApp _ t => t
  | EDb (mkDbError (mkAppError _ m c) code _ _ _ _ _ _) =>
      line code m (match c with Some x => Some (Error_text x) | None => None end)
  | ERedis (mkRedisError (mkAppError _ m c) code) =>
      line code m (match c with Some x => Some (Error_text x) | None => None end)
  end.

(** Targets of [errors.As] in the sources. *)
Definition sel_DbError (e : goerror) : option DbError :=
  match e with EDb d => Some d | _ => None end.
Definition sel_RedisError (e : goerror) : option RedisError :=
  match e with ERedis r => Some r | _ => None end.
Definition sel_PgError (e : goerror) : option PgError :=
  match e with EPgx p _ => Some p | _ => None end.
(** [postgres.Error.As] and [redis.Error.As] hand out the embedded [AppError]. *)
Definition sel_AppError (e : goerror) : option AppError :=
  match e with
  | EApp a _ => Some a
  | EDb d => Some (db_AppError d)
  | ERedis r => Some (rd_AppError r)
  | _ => None
  end.

Section Is.
Context `{CoreErrors}.

(** [postgres.Error.Is]. *)
Definition DbError_Is (e : DbError) (target : goerror) : bool :=
  match errors_As sel_DbError target with
  | Some dbErr => bool_decide (db_code e = db_code dbErr)
  | None => core_Is (db_AppError e) target
  end.

(** [redis.Error.Is]. *)
Definition RedisError_Is (e : RedisError) (target : goerror) : bool :=
  if core_Is (rd_AppError e) target then true
  else match errors_As sel_RedisError target with
       | Some redisErr => bool_decide (rd_code e = rd_code redisErr)
       | None => false
       end.

(** [errors.Is(e, target)] for a sentinel target: identity, or the node's own
    [Is] method. *)
Definition node_Is (target : sentinel) (text : string) (e : goerror) : option unit :=
  let hit (b : bool) := if b then Some tt else None in
  match e with
  | ESentinel id _ => hit (bool_decide (id = target))
  | EApp a _ => hit (core_Is a (ESentinel target text))
  | EDb d => hit (DbError_Is d (ESentinel target text))
  | ERedis r => hit (RedisError_Is r (ESentinel target text))
  | EForeign _ _ | EPgx _ _ => None
  end.

Definition errors_Is (e : goerror) (target : sentinel) : bool :=
  match errors_As (node_Is target "") e with Some _ => true | None => false end.
End Is.

(** ** Lemmas *)

Section Induction.
Variable P : goerror → Prop.
Hypothesis HForeign : ∀ t l, Forall P l → P (EForeign t l).
Hypothesis HSentinel : ∀ id t, P (ESentinel id t).
Hypothesis HPgx : ∀ p t, P (EPgx p t).
Hypothesis HApp : ∀ a t, Forall P (option_list (app_Unwrap a)) → P (EApp a t).
Hypothesis HDb : ∀ d, Forall P (option_list (app_Unwrap (db_AppError d))) → P (EDb d).
Hypothesis HRedis : ∀ r, Forall P (option_list (app_Unwrap (rd_AppError r))) → P (ERedis r).

(** Induction over the tree: every child satisfies the predicate. *)
Lemma goerror_tree_ind : ∀ e, P e.
Proof.
  fix IH 1. intros [t l|id t|p t|[c m [x|]] t|[[c m [x|]] ? ? ? ? ? ? ?]|[[c m [x|]] ?]].
  - apply HForeign. induction l as [|x l IHl]; constructor; [apply IH|apply IHl].
  - apply HSentinel.
  - apply HPgx.
  - apply HApp. constructor; [apply IH|constructor].
  - apply HApp. constructor.
  - apply HDb. constructor; [apply IH|constructor].
  - apply HDb. constructor.
  - apply HRedis. constructor; [apply IH|constructor].
  - apply HRedis. constructor.
Qed.
End Induction.

(** [errors.As] looks at the node, then at the children in order. *)
Lemma errors_As_unfold {T} (sel : goerror → option T) e :
  errors_As sel e =
  match sel e with Some t => Some t | None => first_some (errors_As sel) (children e) end.
Proof.
  assert (∀ x : goerror, first_some (errors_As sel) [x] = errors_As sel x) as Hone
    by (intros; simpl; by case_match).
  destruct e as [t l|id t|p t|[c m [x|]] t|[[c m [x|]] ? ? ? ? ? ? ?]|[[c m [x|]] ?]];
    cbn [errors_As children option_list app_Unwrap db_AppError rd_AppError];
    try change (option_list (Some x)) with [x]; rewrite ?Hone; try reflexivity.
  destruct (sel (EForeign t l)); [done|]. clear Hone.
  induction l as [|x l IHl]; simpl; [done|]. by rewrite IHl.
Qed.

Lemma errors_As_here {T} (sel : goerror → option T) e t : sel e = Some t → errors_As sel e = Some t.
Proof. intros He. by rewrite errors_As_unfold, He. Qed.

(** A match anywhere below is reported unless the node itself matches. *)
Lemma errors_As_child {T} (sel : goerror → option T) e c :
  sel e = None → children e = [c] → errors_As sel e = errors_As sel c.
Proof. intros He Hc. rewrite errors_As_unfold, He, Hc. simpl. by case_match. Qed.

#[export] Hint Resolve errors_As_here : godb.

Section IsLemmas.
Context `{CoreErrorsOk}.

Lemma node_Is_sentinel target text e :
  node_Is target text e = Some tt ↔ ∃ t, e = ESentinel target t.
Proof.
  destruct e as [t l|id t|p t|a t|d|r]; simpl;
    unfold DbError_Is, RedisError_Is; simpl; rewrite ?core_Is_sentinel;
    repeat case_bool_decide; naive_solver.
Qed.

(** [errors.Is(err, sentinel)] holds exactly when the sentinel is in the tree. *)
Lemma errors_Is_node e target t : e = ESentinel target t → errors_Is e target = true.
Proof. intros ->. unfold errors_Is. simpl. by rewrite bool_decide_eq_true_2. Qed.

Lemma errors_Is_other id t target : id ≠ target → errors_Is (ESentinel id t) target = false.
Proof. intros. unfold errors_Is. simpl. by rewrite bool_decide_eq_false_2. Qed.

Lemma errors_Is_child e c target :
  (∀ t, e ≠ ESentinel target t) → children e = [c] → errors_Is e target = errors_Is c target.
Proof.
  intros Hne Hc. unfold errors_Is. rewrite (errors_As_child _ e c); [done| |done].
  destruct (node_Is target "" e) as [[]|] eqn:Hn; [|done].
  apply node_Is_sentinel in Hn as [t ->]. by destruct (Hne t).
Qed.

Lemma errors_Is_leaf e target :
  (∀ t, e ≠ ESentinel target t) → children e = [] → errors_Is e target = false.
Proof.
  intros Hne Hc. unfold errors_Is. rewrite errors_As_unfold, Hc. simpl.
  destruct (node_Is target "" e) as [[]|] eqn:Hn; [|done].
  apply node_Is_sentinel in Hn as [t ->]. by destruct (Hne t).
Qed.
End IsLemmas.
