(* ===== verification/PgErrors.v ===== *)
(** * postgres/errors.go: database error codes and classification *)

From S2P Require Import Prelude GoLib GoFmt GoErrors.

(** ** Codes *)

Definition pg_CodeNotFound : string := "DB_NOT_FOUND".
Definition pg_CodeDuplicate : string := "DB_DUPLICATE".
Definition pg_CodeForeignKey : string := "DB_FOREIGN_KEY".
Definition pg_CodeCheckViolation : string := "DB_CHECK_VIOLATION".
Definition pg_CodeConnection : string := "DB_CONNECTION".
Definition pg_CodeTimeout : string := "DB_TIMEOUT".
Definition pg_CodeSerialization : string := "DB_SERIALIZATION".
Definition pg_CodeDeadlock : string := "DB_DEADLOCK".
Definition pg_CodeInvalidInput : string := "DB_INVALID_INPUT".
Definition pg_CodeInternal : string := "DB_INTERNAL".

Definition pg_coreCodeMapping : gmap string CoreCode :=
  list_to_map
    [ (pg_CodeNotFound, CoreNotFound);
      (pg_CodeDuplicate, CoreConflict);
      (pg_CodeForeignKey, CoreConflict);
      (pg_CodeCheckViolation, CoreValidationError);
      (pg_CodeConnection, CoreServiceUnavailable);
      (pg_CodeTimeout, CoreServiceUnavailable);
      (pg_CodeSerialization, CoreConflict);
      (pg_CodeDeadlock, CoreConflict);
      (pg_CodeInvalidInput, CoreValidationError);
      (pg_CodeInternal, CoreInternalError) ].

(** [Code.String]. *)
Definition pg_Code_String (c : string) : string := c.

(** [Code.CoreCode]. *)
Definition pg_CoreCode (c : string) : CoreCode :=
  match pg_coreCodeMapping !! c with
  | Some coreCode => coreCode
  | None => CoreInternalError
  end.

(** ** SQLSTATE *)

Definition sqlStateConnectionException : string := "08".
Definition sqlStateUniqueViolation : string := "23505".
Definition sqlStateForeignKeyViolation : string := "23503".
Definition sqlStateCheckViolation : string := "23514".
Definition sqlStateNotNullViolation : string := "23502".
Definition sqlStateSerializationFailure : string := "40001".
Definition sqlStateDeadlockDetected : string := "40P01".
Definition sqlStateQueryCanceled : string := "57014".

Definition mapSQLState (sqlState : string) : string :=
  if decide (sqlState = sqlStateUniqueViolation) then pg_CodeDuplicate
  else if decide (sqlState = sqlStateForeignKeyViolation) then pg_CodeForeignKey
  else if decide (sqlState = sqlStateCheckViolation) then pg_CodeCheckViolation
  else if decide (sqlState = sqlStateNotNullViolation) then pg_CodeInvalidInput
  else if decide (sqlState = sqlStateSerializationFailure) then pg_CodeSerialization
  else if decide (sqlState = sqlStateDeadlockDetected) then pg_CodeDeadlock
  else if decide (sqlState = sqlStateQueryCanceled) then pg_CodeTimeout
  else if 2 <=? len sqlState then
    if decide (take_bytes 2 sqlState = sqlStateConnectionException) then pg_CodeConnection
    else pg_CodeInternal
  else pg_CodeInternal.

(** ** Constructors, accessors and conversion *)

Section Errors.
Context `{CoreErrors}.

Definition pg_New (code message : string) : DbError :=
  mkDbError (core_New (pg_CoreCode code) message) code "" "" "" "" "" "".

Definition pg_Wrap (code message : string) (cause : option goerror) : DbError :=
  mkDbError (core_Wrap (pg_CoreCode code) message cause) code "" "" "" "" "" "".

Definition pg_Error_Code (e : DbError) : string := db_code e.
Definition pg_Error_CoreCode (e : DbError) : CoreCode := app_Code (db_AppError e).
Definition pg_Error_Message (e : DbError) : string := app_Message (db_AppError e).
Definition pg_Error_Unwrap (e : DbError) : option goerror := app_Unwrap (db_AppError e).

Definition pg_Error_SQLState (e : DbError) : string := db_sqlState e.
Definition pg_Error_Detail (e : DbError) : string := db_detail e.
Definition pg_Error_Hint (e : DbError) : string := db_hint e.
Definition pg_Error_TableName (e : DbError) : string := db_tableName e.
Definition pg_Error_Column (e : DbError) : string := db_column e.
Definition pg_Error_Constraint (e : DbError) : string := db_constraint e.

(** [newErr := *e; newErr.AppError = ...]: a copy with another core error. *)
Definition pg_with_app (e : DbError) (a : AppError) : DbError :=
  mkDbError a (db_code e) (db_sqlState e) (db_detail e) (db_hint e) (db_tableName e)
    (db_column e) (db_constraint e).

Definition pg_WithMessage (e : DbError) (message : string) : DbError :=
  pg_with_app e (core_WithMessage (db_AppError e) message).

Definition pg_WithCause (e : DbError) (cause : option goerror) : DbError :=
  pg_with_app e (core_WithCause (db_AppError e) cause).

(** [FromPgError]: [nil] for [nil]. *)
Definition FromPgError (err : option goerror) : option DbError :=
  match err with
  | None => None
  | Some err =>
      match errors_As sel_PgError err with
      | None => Some (pg_Wrap pg_CodeInternal "database error" (Some err))
      | Some pgErr =>
          let code := mapSQLState (pg_Code pgErr) in
          Some (mkDbError (core_Wrap (pg_CoreCode code) (pg_Message pgErr) (Some err))
                  code (pg_Code pgErr) (pg_Detail pgErr) (pg_Hint pgErr)
                  (pg_TableName pgErr) (pg_ColumnName pgErr) (pg_ConstraintName pgErr))
      end
  end.

(** ** Checks on an error value; [None] is the [nil] error *)

Definition pg_AsError (err : option goerror) : option DbError :=
  match err with
  | Some e => errors_As sel_DbError e
  | None => None
  end.

Definition pg_IsError (err : option goerror) : bool :=
  match pg_AsError err with Some _ => true | None => false end.

Definition pg_GetCode (err : option goerror) : string :=
  match pg_AsError err with
  | Some dbErr => pg_Error_Code dbErr
  | None => pg_CodeInternal
  end.

Definition pg_IsCode (err : option goerror) (code : string) : bool :=
  match pg_AsError err with
  | Some dbErr => bool_decide (pg_Error_Code dbErr = code)
  | None => false
  end.

Definition pg_IsNotFound (err : option goerror) : bool :=
  let noRows := match err with Some e => errors_Is e pgx_ErrNoRows | None => false end in
  if noRows then true else pg_IsCode err pg_CodeNotFound.

Definition pg_IsDuplicate (err : option goerror) : bool := pg_IsCode err pg_CodeDuplicate.
Definition pg_IsForeignKey (err : option goerror) : bool := pg_IsCode err pg_CodeForeignKey.
Definition pg_IsConnection (err : option goerror) : bool := pg_IsCode err pg_CodeConnection.
Definition pg_IsTimeout (err : option goerror) : bool := pg_IsCode err pg_CodeTimeout.
Definition pg_IsSerialization (err : option goerror) : bool := pg_IsCode err pg_CodeSerialization.
Definition pg_IsDeadlock (err : option goerror) : bool := pg_IsCode err pg_CodeDeadlock.

(** ** Convenience constructors *)

Definition pg_NotFound (message : string) : DbError := pg_New pg_CodeNotFound message.
Definition pg_Duplicate (message : string) : DbError := pg_New pg_CodeDuplicate message.
Definition pg_NotFoundf (format : string) (args : list fmt_arg) : option DbError :=
  option_map (pg_New pg_CodeNotFound) (Sprintf format args).
Definition pg_Duplicatef (format : string) (args : list fmt_arg) : option DbError :=
  option_map (pg_New pg_CodeDuplicate) (Sprintf format args).
Definition pg_ForeignKey (message : string) : DbError := pg_New pg_CodeForeignKey message.
Definition pg_Connection (message : string) : DbError := pg_New pg_CodeConnection message.
Definition pg_ConnectionWrap (message : string) (cause : option goerror) : DbError :=
  pg_Wrap pg_CodeConnection message cause.
Definition pg_Timeout (message : string) : DbError := pg_New pg_CodeTimeout message.
Definition pg_TimeoutWrap (message : string) (cause : option goerror) : DbError :=
  pg_Wrap pg_CodeTimeout message cause.
Definition pg_Internal (message : string) : DbError := pg_New pg_CodeInternal message.
Definition pg_InternalWrap (message : string) (cause : option goerror) : DbError :=
  pg_Wrap pg_CodeInternal message cause.

End Errors.

(** ** Lemmas *)

(** The SQLSTATE values with a code of their own. *)
Definition specific_states : list (string * string) :=
  [ (sqlStateUniqueViolation, pg_CodeDuplicate);
    (sqlStateForeignKeyViolation, pg_CodeForeignKey);
    (sqlStateCheckViolation, pg_CodeCheckViolation);
    (sqlStateNotNullViolation, pg_CodeInvalidInput);
    (sqlStateSerializationFailure, pg_CodeSerialization);
    (sqlStateDeadlockDetected, pg_CodeDeadlock);
    (sqlStateQueryCanceled, pg_CodeTimeout) ].

Lemma take_bytes_prefix n s : ∃ t, s = take_bytes n s +:+ t.
Proof.
  revert n. induction s as [|a s IH]; intros [|n]; try by eexists.
  destruct (IH n) as [t Ht]. exists t. simpl. by rewrite string_app_cons, <-Ht.
Qed.

Lemma take2_class s : take_bytes 2 s = sqlStateConnectionException ↔ ∃ t, s = "08" +:+ t.
Proof.
  split.
  - intros Hs. destruct (take_bytes_prefix 2 s) as [t Ht]. exists t. by rewrite Ht, Hs.
  - intros [t ->]. by destruct t.
Qed.

Lemma mapSQLState_cases s :
  (∃ c, (s, c) ∈ specific_states ∧ mapSQLState s = c) ∨
  ((∀ c, (s, c) ∉ specific_states) ∧ (∃ t, s = "08" +:+ t) ∧ mapSQLState s = pg_CodeConnection) ∨
  ((∀ c, (s, c) ∉ specific_states) ∧ ¬ (∃ t, s = "08" +:+ t) ∧ mapSQLState s = pg_CodeInternal).
Proof.
  unfold mapSQLState.
  do 7 (case_decide;
    [left; subst; eexists; split; [|done]; apply list_elem_of_In; simpl; auto 8|]).
  right. assert (∀ c, (s, c) ∉ specific_states) as Hno.
  { intros c Hin. apply list_elem_of_In in Hin. simpl in Hin.
    destruct_or?; congruence. }
  rewrite <-(take2_class s). destruct (2 <=? len s)%Z eqn:Hl.
  - case_decide; naive_solver.
  - right. split_and!; [done| |done]. intros Ht. apply take2_class in Ht as [t ->].
    apply Z.leb_gt in Hl. unfold len in Hl. rewrite string_length_app in Hl. simpl in Hl. lia.
Qed.

Section ErrorLemmas.
Context `{CoreErrorsOk}.

Lemma AsError_Db d : pg_AsError (Some (EDb d)) = Some d.
Proof. done. Qed.

Lemma IsCode_Db d code : pg_IsCode (Some (EDb d)) code = bool_decide (db_code d = code).
Proof. unfold pg_IsCode. by rewrite AsError_Db. Qed.

Lemma Wrap_Unwrap c m e : pg_Error_Unwrap (pg_Wrap c m e) = e.
Proof. unfold pg_Error_Unwrap, pg_Wrap. simpl. by rewrite core_Wrap_spec. Qed.

Lemma FromPgError_Unwrap err d :
  FromPgError (Some err) = Some d → app_Unwrap (db_AppError d) = Some err.
Proof.
  simpl. destruct (errors_As sel_PgError err); intros [= <-]; simpl; by rewrite core_Wrap_spec.
Qed.
End ErrorLemmas.

#[export] Hint Rewrite @AsError_Db @IsCode_Db : godb.

(** ** Properties *)

(** [mapSQLState] is a total classification: each of the seven listed
    SQLSTATEs has its own code, every other state of class 08 is a connection
    error, and everything else is internal; no state gets two codes. *)
Lemma mapSQLState_classifies s c :
  mapSQLState s = c ↔
  (s, c) ∈ specific_states ∨
  ((∀ c', (s, c') ∉ specific_states) ∧ (∃ t, s = "08" +:+ t) ∧ c = pg_CodeConnection) ∨
  ((∀ c', (s, c') ∉ specific_states) ∧ ¬ (∃ t, s = "08" +:+ t) ∧ c = pg_CodeInternal).
Proof.
  assert (NoDup specific_states.*1) as Hnd by (apply (bool_decide_unpack _); by vm_compute).
  assert (∀ c1 c2, (s, c1) ∈ specific_states → (s, c2) ∈ specific_states → c1 = c2) as Hfun.
  { intros c1 c2 H1 H2. apply (elem_of_list_to_map_1 (M := gmap string)) in H1, H2; [|done..].
    congruence. }
  destruct (mapSQLState_cases s) as [(c1 & Hin & ->)|[(Hno & Ht & ->)|(Hno & Ht & ->)]];
    naive_solver.
Qed.

(** C31: [FromPgError] classifies by the first driver error of the chain, keeps
    its diagnostic fields and its message, wraps the original error as cause,
    and falls back to an internal error when no driver error is in the chain.
    The HTTP-facing core code is the one of the database code. *)
Theorem FromPgError_spec `{CoreErrorsOk} err :
  ∃ d, FromPgError (Some err) = Some d ∧
    pg_Error_Unwrap d = Some err ∧
    pg_Error_CoreCode d = pg_CoreCode (pg_Error_Code d) ∧
    match errors_As sel_PgError err with
    | Some p =>
        pg_Error_Code d = mapSQLState (pg_Code p) ∧ pg_Error_Message d = pg_Message p ∧
        db_sqlState d = pg_Code p ∧ db_detail d = pg_Detail p ∧ db_hint d = pg_Hint p ∧
        db_tableName d = pg_TableName p ∧ db_column d = pg_ColumnName p ∧
        db_constraint d = pg_ConstraintName p
    | None => pg_Error_Code d = pg_CodeInternal ∧ db_sqlState d = ""
    end.
Proof.
  simpl. unfold pg_Error_Unwrap, pg_Error_CoreCode, pg_Error_Message, pg_Error_Code.
  destruct (errors_As sel_PgError err) as [p|] eqn:Hp; eexists; (split; [reflexivity|]);
    simpl; rewrite core_Wrap_spec; simpl; auto 10.
Qed.

Lemma FromPgError_spec_witness :
  CoreErrorsOk (H := simple_core) ∧
  ∃ d, FromPgError (Some (EForeign "exec" [EPgx (mkPgError "23505" "dup" "k" "" "users" "" "users_pk") ""])) = Some d
       ∧ pg_Error_Code d = pg_CodeDuplicate ∧ db_tableName d = "users".
Proof.
  split; [apply _|].
  destruct (FromPgError_spec (EForeign "exec" [EPgx (mkPgError "23505" "dup" "k" "" "users" "" "users_pk") ""]))
    as (d & Hd & _ & _ & Hc & _ & _ & _ & _ & Ht & _).
  exists d. split; [exact Hd|]. split; [exact Hc|exact Ht].
Defined.

(** C32: wrapping never hides a sentinel: [errors.Is] on the converted error
    answers as on the original one, so [pgx.ErrNoRows] stays recognisable
    through [FromPgError] and [IsNotFound] holds of it. *)
Theorem FromPgError_preserves_Is `{CoreErrorsOk} err target d :
  FromPgError (Some err) = Some d →
  errors_Is (EDb d) target = errors_Is err target ∧
  (errors_Is err pgx_ErrNoRows = true → pg_IsNotFound (Some (EDb d)) = true).
Proof.
  intros Hd. apply FromPgError_Unwrap in Hd.
  assert (∀ tgt, errors_Is (EDb d) tgt = errors_Is err tgt) as Heq.
  { intros tgt. apply errors_Is_child; [done|]. simpl. by rewrite Hd. }
  split; [apply Heq|]. intros Hn. unfold pg_IsNotFound. by rewrite Heq, Hn.
Qed.

Lemma FromPgError_preserves_Is_witness :
  ∃ d, FromPgError (Some (ESentinel pgx_ErrNoRows "no rows in result set")) = Some d ∧
       pg_IsNotFound (Some (EDb d)) = true.
Proof.
  eexists. split; [reflexivity|].
  by apply (FromPgError_preserves_Is (ESentinel pgx_ErrNoRows "no rows in result set") pgx_ErrNoRows _ eq_refl).
Defined.
