(* ===== verification/QueryCore.v ===== *)
(** * postgres/query.go: the core the four query builders share

    [any] is the type of argument values; [any_str] is the implicit conversion
    of a string to [any] that [WhereLike] and [WhereILike] perform.

    The specification side is a template: a list of segments, each literal
    text, one bound value, or a user condition with its own values.  [render]
    numbers every placeholder of a template from left to right and
    [seg_args] lists the values in the same order; [Build] is proved to
    implement it. *)

From S2P Require Import Prelude GoLib.

(** ** Data *)

Definition JoinType : Type := string.
Definition InnerJoin : JoinType := "INNER JOIN".
Definition LeftJoin : JoinType := "LEFT JOIN".
Definition RightJoin : JoinType := "RIGHT JOIN".

Record join (any : Type) := mkJoin {
  j_joinType : JoinType;
  j_table : string;
  j_condition : string;
  j_args : list any
}.
Arguments mkJoin {any}.
Arguments j_joinType {any}.
Arguments j_table {any}.
Arguments j_condition {any}.
Arguments j_args {any}.

Record whereClause (any : Type) := mkWhere {
  w_condition : string;
  w_args : list any;
  w_isOr : bool
}.
Arguments mkWhere {any}.
Arguments w_condition {any}.
Arguments w_args {any}.
Arguments w_isOr {any}.

(** The allowlist; empty means no allowlist. *)
Record QueryBuilder := mkQueryBuilder { allowedColumns : gset string }.

(** The errors of the four builders; each constructor is one message format. *)
Inductive BuildError : Type :=
| EmptyColumnName
| InvalidColumnName (column : string)
| ColumnNotInAllowlist (column : string)
| EmptyTableName
| InvalidTableName (table : string)
| InvalidGroupByColumn (entry : string)
| InvalidOrderByColumn (col : string)
| NoInsertColumns
| NoInsertValues
| RowLengthMismatch (idx nvalues ncolumns : nat)
| InvalidReturningColumn (col : string)
| InvalidConflictConstraint (constraint : string)
| InvalidConflictColumn (col : string)
| NoUpdateColumns
| UnrestrictedDelete.

(** ** Identifier validation *)

Definition id_start (a : ascii) : bool :=
  in_range 97 122 (byte_val a) || in_range 65 90 (byte_val a) || (byte_val a =? 95).
Definition id_char (a : ascii) : bool := id_start a || in_range 48 57 (byte_val a).
Definition is_dot (a : ascii) : bool := byte_val a =? 46.

(** One identifier (a letter or underscore, then letters, digits and underscores),
    optionally followed by a dot and a second identifier. *)
Definition columnNameRegex : regex :=
  RSeq (RClass id_start) (RSeq (RStar (RClass id_char))
    (ROpt (RSeq (RClass is_dot) (RSeq (RClass id_start) (RStar (RClass id_char)))))).

Definition NewQueryBuilder (allowed : list string) : QueryBuilder :=
  mkQueryBuilder (list_to_set allowed).

Definition validateColumnName (qb : QueryBuilder) (column : string) : option BuildError :=
  if decide (column = "") then Some EmptyColumnName
  else if (0 <? Z.of_nat (size (allowedColumns qb))) then
    if negb (MatchString columnNameRegex column) then Some (InvalidColumnName column)
    else if decide (column ∈ allowedColumns qb) then None
    else Some (ColumnNotInAllowlist column)
  else None.

Definition validateTableName (table : string) : option BuildError :=
  if decide (table = "") then Some EmptyTableName
  else if negb (MatchString columnNameRegex table) then Some (InvalidTableName table)
  else None.

(** ** Placeholders *)

Definition question_mark : Z := 63.

(** The loop of [replacePlaceholders] over the runes of the condition. *)
Fixpoint replace_loop (rs : list Z) (result : string) (index : Z) : string * Z :=
  match rs with
  | [] => (result, index)
  | ch :: rs =>
      if ch =? question_mark
      then replace_loop rs (result +:+ ("$" +:+ itoa index)) (index + 1)
      else replace_loop rs (result +:+ encode_rune ch) index
  end.

Definition replacePlaceholders (condition : string) (startIndex : Z) : string * Z :=
  replace_loop (runes_of condition) "" startIndex.

(** ** Conditions *)

Section Conditions.
Context {any : Type}.

(** The loop of [buildConditionClauses], with the index of the clause. *)
Fixpoint condition_loop (i : nat) (clauses : list (whereClause any))
    (sb : string) (args : list any) (argIndex : Z) : string * list any * Z :=
  match clauses with
  | [] => (sb, args, argIndex)
  | w :: r =>
      let sb := if (0 <? Z.of_nat i) then
                  if w_isOr w then sb +:+ " OR " else sb +:+ " AND "
                else sb in
      let '(condition, newIndex) := replacePlaceholders (w_condition w) argIndex in
      condition_loop (S i) r (sb +:+ condition) (args ++ w_args w) newIndex
  end.

Definition buildConditionClauses (clauses : list (whereClause any)) (keyword : string)
    (argIndex : Z) : string * list any * Z :=
  match clauses with
  | [] => ("", [], argIndex)
  | _ => condition_loop 0 clauses keyword [] argIndex
  end.

(** [WhereIn] and [WhereNotIn]: one [?] per value. *)
Definition in_condition (column op : string) (n : nat) : string :=
  column +:+ op +:+ strings_Join (replicate n "?") ", " +:+ ")".
End Conditions.

(** ** What every builder derives from its [Build] *)

Section Derived.
Context {any : Type}.
Implicit Types r : result (string * list any) BuildError.

(** [MustBuild]: a build error is a panic. *)
Definition MustBuild r : outcome (string * list any) BuildError :=
  match r with
  | Ok q => Returns q
  | Err err => Panics err
  end.

(** [SQL]: the empty string on error. *)
Definition SQL r : string := match r with Ok (sql, _) => sql | Err _ => "" end.

(** [Args]: [nil] on error. *)
Definition Args r : list any := match r with Ok (_, args) => args | Err _ => [] end.
End Derived.
(** ** Templates: the specification of a builder's output *)

Section Templates.
Context {any : Type}.

(** A piece of a statement: literal text, one bound value, or a user condition
    whose [?] marks stand for the values given with it. *)
Inductive segment : Type :=
| SText (text : string)
| SParam (v : any)
| SCond (condition : string) (args : list any).

(** The SQL of a template whose first placeholder is number [i]. *)
Fixpoint render (i : Z) (segs : list segment) : string :=
  match segs with
  | [] => ""
  | SText t :: r => t +:+ render i r
  | SParam _ :: r => "$" +:+ itoa i +:+ render (i + 1) r
  | SCond c _ :: r => (replacePlaceholders c i).1 +:+ render (replacePlaceholders c i).2 r
  end.

(** The number after the last placeholder of the template. *)
Fixpoint next_index (i : Z) (segs : list segment) : Z :=
  match segs with
  | [] => i
  | SText _ :: r => next_index i r
  | SParam _ :: r => next_index (i + 1) r
  | SCond c _ :: r => next_index (replacePlaceholders c i).2 r
  end.

Definition seg_values (g : segment) : list any :=
  match g with SText _ => [] | SParam v => [v] | SCond _ a => a end.

(** The values of a template, in order. *)
Definition seg_args (segs : list segment) : list any := mjoin (map seg_values segs).

(** The number of [?] runes of a condition. *)
Definition arity (c : string) : nat := length (filter (λ ch, ch = question_mark) (runes_of c)).

(** A condition comes with exactly one value per [?]. *)
Definition balanced (g : segment) : Prop :=
  match g with SCond c a => arity c = length a | _ => True end.

(** Joining templates with a separator, as [strings.Join] does. *)
Fixpoint join_segs (l : list (list segment)) (sep : string) : list segment :=
  match l with
  | [] => []
  | [g] => g
  | g :: r => g ++ SText sep :: join_segs r sep
  end.

(** The template of a clause list. *)
Fixpoint condition_segs (i : nat) (clauses : list (whereClause any)) : list segment :=
  match clauses with
  | [] => []
  | w :: r =>
      SText (match i with O => "" | S _ => if w_isOr w then " OR " else " AND " end)
      :: SCond (w_condition w) (w_args w) :: condition_segs (S i) r
  end.

Definition clause_segs (keyword : string) (clauses : list (whereClause any)) : list segment :=
  match clauses with
  | [] => []
  | _ => SText keyword :: condition_segs 0 clauses
  end.
End Templates.
Arguments segment any : clear implicits.
#[global] Arguments seg_args {any} segs : simpl never.


(** The pieces around the [?] marks, with the placeholders put in: what
    [replacePlaceholders] computes, stated without its loop. *)
Fixpoint number_parts (parts : list string) (i : Z) : string :=
  match parts with
  | [] => ""
  | [p] => p
  | p :: r => p +:+ "$" +:+ itoa i +:+ number_parts r (i + 1)
  end.

(** A piece of a condition that [range] leaves alone and that holds no [?]. *)
Definition plain (p : string) : Prop := utf8_valid p ∧ question_mark ∉ runes_of p.

(** ** Lemmas: placeholders *)

Lemma replace_loop_acc rs res i :
  replace_loop rs res i = (res +:+ (replace_loop rs "" i).1, (replace_loop rs "" i).2).
Proof.
  revert res i. induction rs as [|ch rs IH]; intros res i; simpl.
  { by rewrite string_app_nil_r. }
  rewrite !string_app_nil_l. case_match.
  - rewrite (IH (res +:+ _)), (IH ("$" +:+ _)). simpl. by rewrite <-!string_app_assoc.
  - rewrite (IH (res +:+ _)), (IH (encode_rune ch)). simpl. by rewrite <-!string_app_assoc.
Qed.

Lemma replace_loop_app rs1 rs2 i :
  replace_loop (rs1 ++ rs2) "" i =
  ((replace_loop rs1 "" i).1 +:+ (replace_loop rs2 "" (replace_loop rs1 "" i).2).1,
   (replace_loop rs2 "" (replace_loop rs1 "" i).2).2).
Proof.
  revert i. induction rs1 as [|ch rs1 IH]; intros i; simpl; [by destruct replace_loop|].
  rewrite !string_app_nil_l. case_match.
  - rewrite replace_loop_acc, IH, (replace_loop_acc rs1 ("$" +:+ _)).
    simpl. by rewrite <-!string_app_assoc.
  - rewrite replace_loop_acc, IH, (replace_loop_acc rs1 (encode_rune ch)).
    simpl. by rewrite <-!string_app_assoc.
Qed.

(** The index advances by one per [?]. *)
Lemma replace_index c i : (replacePlaceholders c i).2 = i + Z.of_nat (arity c).
Proof.
  unfold replacePlaceholders, arity. generalize (runes_of c) as rs. intros rs. revert i.
  induction rs as [|ch rs IH]; intros i; simpl; [lia|].
  rewrite !string_app_nil_l. destruct (Z.eqb_spec ch question_mark) as [->|Hne].
  - rewrite replace_loop_acc, filter_cons_True by done. simpl. rewrite IH. lia.
  - rewrite replace_loop_acc, filter_cons_False by done. simpl. by rewrite IH.
Qed.

Lemma replace_plain p i : plain p → replacePlaceholders p i = (p, i).
Proof.
  intros [Hv Hq]. rewrite <-(utf8_valid_runes p Hv) at 2. revert Hq.
  unfold replacePlaceholders, string_of_runes. generalize (runes_of p) as rs. intros rs.
  induction rs as [|ch rs IH]; simpl; [done|]. intros [Hne Hnin]%not_elem_of_cons.
  destruct (Z.eqb_spec ch question_mark); [congruence|].
  by rewrite replace_loop_acc, IH, string_app_nil_l.
Qed.

Lemma replace_app c1 c2 i :
  utf8_valid c1 →
  replacePlaceholders (c1 +:+ c2) i =
  ((replacePlaceholders c1 i).1 +:+ (replacePlaceholders c2 (replacePlaceholders c1 i).2).1,
   (replacePlaceholders c2 (replacePlaceholders c1 i).2).2).
Proof. intros Hv. unfold replacePlaceholders. by rewrite runes_of_app, replace_loop_app. Qed.

Lemma replace_question i : replacePlaceholders "?" i = ("$" +:+ itoa i, i + 1).
Proof. done. Qed.

Lemma number_parts_spec parts i :
  parts ≠ [] → Forall plain parts →
  replacePlaceholders (strings_Join parts "?") i
  = (number_parts parts i, i + Z.of_nat (length parts) - 1).
Proof.
  revert i. induction parts as [|p [|q r] IH]; intros i Hne Hall; [done| |].
  - apply Forall_cons in Hall as [Hp _]. simpl. rewrite replace_plain by done. f_equal. lia.
  - apply Forall_cons in Hall as [Hp Hall].
    change (strings_Join (p :: q :: r) "?") with (p +:+ "?" +:+ strings_Join (q :: r) "?").
    rewrite replace_app by apply Hp. rewrite replace_plain by done. cbn [fst snd].
    rewrite replace_app by (by apply is_ascii_valid). rewrite replace_question. cbn [fst snd].
    rewrite IH by done. cbn [fst snd length number_parts]. f_equal. lia.
Qed.

(** ** Lemmas: templates *)

Section TemplateLemmas.
Context {any : Type}.
Implicit Types segs : list (segment any).

Lemma render_app segs1 segs2 i :
  render i (segs1 ++ segs2) = render i segs1 +:+ render (next_index i segs1) segs2.
Proof.
  revert i. induction segs1 as [|[t|v|c a] r IH]; intros i; simpl;
    [done|rewrite IH..]; by rewrite <-?string_app_assoc.
Qed.

Lemma next_index_app segs1 segs2 i :
  next_index i (segs1 ++ segs2) = next_index (next_index i segs1) segs2.
Proof. revert i. induction segs1 as [|[t|v|c a] r IH]; intros i; simpl; auto. Qed.

Lemma seg_args_app segs1 segs2 : seg_args (segs1 ++ segs2) = seg_args segs1 ++ seg_args segs2.
Proof. unfold seg_args. by rewrite map_app, join_app. Qed.

Lemma seg_args_cons (g : segment any) segs : seg_args (g :: segs) = seg_values g ++ seg_args segs.
Proof. done. Qed.

(** In a balanced template the next index counts the values. *)
Lemma next_index_balanced segs i :
  Forall balanced segs → next_index i segs = i + Z.of_nat (length (seg_args segs)).
Proof.
  intros Hall. revert i. induction Hall as [|[t|v|c a] r Hg _ IH]; intros i; cbn [next_index].
  - unfold seg_args. simpl. lia.
  - by rewrite IH.
  - rewrite IH, seg_args_cons, length_app. cbn [seg_values length]. lia.
  - rewrite replace_index, IH, seg_args_cons, length_app. simpl in *. lia.
Qed.

(** The loop over a clause list renders its template. *)
Lemma condition_loop_spec n clauses sb (args : list any) i :
  condition_loop n clauses sb args i =
  (sb +:+ render i (condition_segs n clauses), args ++ seg_args (condition_segs n clauses),
   next_index i (condition_segs n clauses)).
Proof.
  revert n sb args i. induction clauses as [|w r IH]; intros n sb args i; simpl.
  { by rewrite string_app_nil_r, app_nil_r. }
  destruct (replacePlaceholders (w_condition w) i) as [t j] eqn:Hr. rewrite IH, !seg_args_cons.
  simpl. rewrite <-app_assoc. f_equal. f_equal.
  destruct n; simpl; [|case_match]; by rewrite <-!string_app_assoc.
Qed.

Lemma clause_segs_cons keyword (w : whereClause any) ws :
  clause_segs keyword (w :: ws) = SText keyword :: condition_segs 0 (w :: ws).
Proof. done. Qed.

Lemma buildConditionClauses_spec (clauses : list (whereClause any)) keyword i :
  buildConditionClauses clauses keyword i =
  (render i (clause_segs keyword clauses), seg_args (clause_segs keyword clauses),
   next_index i (clause_segs keyword clauses)).
Proof.
  destruct clauses as [|w r]; [done|]. unfold buildConditionClauses.
  by rewrite condition_loop_spec.
Qed.

(** Where a condition of a balanced template ends up: its placeholders start
    right after the values before it, and its values sit exactly there. *)
Lemma template_binds segs c (a : list any) :
  Forall balanced segs → SCond c a ∈ segs →
  ∃ sql1 sql2 args1 args2,
    render 1 segs = sql1 +:+ (replacePlaceholders c (1 + Z.of_nat (length args1))).1 +:+ sql2 ∧
    seg_args segs = args1 ++ a ++ args2.
Proof.
  intros Hall (pre & post & ->)%list_elem_of_split.
  apply Forall_app in Hall as [Hpre _].
  exists (render 1 pre), (render (replacePlaceholders c (next_index 1 pre)).2 post),
    (seg_args pre), (seg_args post).
  by rewrite render_app, seg_args_app, seg_args_cons, <-next_index_balanced.
Qed.

Lemma condition_segs_elem n (clauses : list (whereClause any)) w :
  w ∈ clauses → SCond (w_condition w) (w_args w) ∈ condition_segs n clauses.
Proof.
  revert n. induction clauses as [|x r IH]; intros n; [by intros ?%not_elem_of_nil|].
  intros [->|Hin]%elem_of_cons; simpl; set_unfold; auto.
Qed.

Lemma clause_segs_elem keyword (clauses : list (whereClause any)) w :
  w ∈ clauses → SCond (w_condition w) (w_args w) ∈ clause_segs keyword clauses.
Proof.
  intros Hin. destruct clauses as [|x r]; [by apply not_elem_of_nil in Hin|].
  apply list_elem_of_further. by apply (condition_segs_elem 0).
Qed.

Definition balanced_clause (w : whereClause any) : Prop := arity (w_condition w) = length (w_args w).

Lemma condition_segs_balanced n (clauses : list (whereClause any)) :
  Forall balanced_clause clauses → Forall balanced (condition_segs n clauses).
Proof.
  intros Hall. revert n. induction Hall as [|w r Hw _ IH]; intros n; simpl; [constructor|].
  constructor; [done|]. constructor; [done|]. apply IH.
Qed.

Lemma clause_segs_balanced keyword (clauses : list (whereClause any)) :
  Forall balanced_clause clauses → Forall balanced (clause_segs keyword clauses).
Proof.
  intros Hall. destruct clauses; [constructor|]. constructor; [done|].
  by apply condition_segs_balanced.
Qed.
End TemplateLemmas.

#[export] Hint Resolve clause_segs_balanced condition_segs_balanced : godb.

(** ** Lemmas: arity *)

Lemma arity_app c1 c2 : utf8_valid c1 → arity (c1 +:+ c2) = (arity c1 + arity c2)%nat.
Proof. intros Hv. unfold arity. by rewrite runes_of_app, filter_app, length_app. Qed.

Lemma arity_plain p : plain p → arity p = 0%nat.
Proof.
  intros [_ Hq]. unfold arity. induction (runes_of p) as [|ch rs IH]; [done|].
  apply not_elem_of_cons in Hq as [Hne Hq]. rewrite filter_cons_False by congruence. auto.
Qed.

Lemma arity_marks n : arity (strings_Join (replicate n "?") ", ") = n ∧
  utf8_valid (strings_Join (replicate n "?") ", ").
Proof.
  induction n as [|[|n] [IH Hv]]; [by split; [|apply is_ascii_valid]..|].
  change (strings_Join (replicate (S (S n)) "?") ", ")
    with ("?" +:+ ", " +:+ strings_Join (replicate (S n) "?") ", ").
  split.
  - rewrite arity_app by (by apply is_ascii_valid). rewrite arity_app by (by apply is_ascii_valid).
    by rewrite IH.
  - repeat (apply utf8_valid_app; [by apply is_ascii_valid|]). done.
Qed.

(** [WhereIn] and [WhereNotIn] write one [?] per value. *)
Lemma arity_in_condition column op n :
  plain column → is_ascii op = true → arity op = 0%nat → arity (in_condition column op n) = n.
Proof.
  intros Hc Ho Ha. unfold in_condition. rewrite arity_app by apply Hc.
  rewrite arity_app by (by apply is_ascii_valid). rewrite arity_app by apply arity_marks.
  rewrite arity_plain by done. destruct (arity_marks n) as [-> _]. rewrite Ha. simpl.
  rewrite Nat.add_comm. done.
Qed.

Lemma arity_suffix column suffix : plain column → arity (column +:+ suffix) = arity suffix.
Proof. intros Hc. rewrite arity_app by apply Hc. by rewrite arity_plain. Qed.

(** ** Lemmas: identifiers *)

(** The bytes an identifier accepted by the regular expression may contain. *)
Definition id_byte (a : ascii) : bool := id_char a || is_dot a.

(** What [validateColumnName] accepts. *)
Definition column_allowed (qb : QueryBuilder) (column : string) : Prop :=
  column ≠ "" ∧
  (allowedColumns qb = ∅ ∨ (matches columnNameRegex column ∧ column ∈ allowedColumns qb)).

Lemma regex_id_bytes s : matches columnNameRegex s → all_bytes id_byte s = true.
Proof.
  intros Hm. apply (matches_all_bytes _ _ _ Hm).
  assert (∀ a, id_start a = true → id_byte a = true) as Hs.
  { intros a Ha. unfold id_byte, id_char. by rewrite Ha. }
  assert (∀ a, id_char a = true → id_byte a = true) as Hc.
  { intros a Ha. unfold id_byte. by rewrite Ha. }
  assert (∀ a, is_dot a = true → id_byte a = true) as Hd.
  { intros a Ha. unfold id_byte. by rewrite Ha, orb_true_r. }
  simpl. auto 10.
Qed.

Lemma validateColumnName_spec qb column :
  validateColumnName qb column = None ↔ column_allowed qb column.
Proof.
  unfold validateColumnName, column_allowed. rewrite <-MatchString_spec.
  destruct (decide (column = "")); [naive_solver|].
  destruct (Z.ltb_spec 0 (Z.of_nat (size (allowedColumns qb)))) as [Hs|Hs].
  - assert (allowedColumns qb ≠ ∅) by (intros He; rewrite He, size_empty in Hs; lia).
    destruct (MatchString columnNameRegex column); simpl; [case_decide|]; naive_solver.
  - assert (allowedColumns qb = ∅) by (apply leibniz_equiv, size_empty_iff; lia). naive_solver.
Qed.

Lemma validateTableName_spec table :
  validateTableName table = None ↔ matches columnNameRegex table.
Proof.
  unfold validateTableName. rewrite <-MatchString_spec.
  destruct (decide (table = "")) as [->|]; [by split|].
  by destruct (MatchString columnNameRegex table).
Qed.

(** ** Properties *)

(** C18: [replacePlaceholders] turns the k-th [?] of a condition into [$(start+k)]
    and changes nothing else: for any pieces free of [?], the condition obtained
    by putting [?] between them becomes the same pieces with consecutive
    placeholders between them, and the returned index is the next free one. *)
Theorem replacePlaceholders_numbers parts i :
  parts ≠ [] → Forall plain parts →
  replacePlaceholders (strings_Join parts "?") i
  = (number_parts parts i, i + Z.of_nat (length parts) - 1).
Proof. apply number_parts_spec. Qed.

Lemma replacePlaceholders_numbers_witness :
  replacePlaceholders "price > ? AND price < ?" 4 = ("price > $4 AND price < $5", 6).
Proof.
  apply (replacePlaceholders_numbers ["price > "; " AND price < "; ""] 4); [done|].
  repeat apply Forall_cons_2; [..|apply Forall_nil_2];
    (split; [by apply is_ascii_valid|]); apply (bool_decide_unpack _); by vm_compute.
Defined.
