(* ===== verification/Select.v ===== *)
(** * postgres/query.go: the SELECT builder

    The pagination package ([txova-go-types]) is the parameter [Pagination]. *)

From S2P Require Import Prelude GoLib QueryCore.

Record orderByClause := mkOrderBy {
  ob_column : string;
  ob_direction : string
}.

(** [txova-go-types/pagination] as [Page], [OrderByAsc] and [OrderByDesc] use it. *)
Class Pagination := {
  SortAsc : string;
  SortDesc : string;
  PageRequest : Type;
  Normalize : PageRequest → PageRequest;
  pr_Limit : PageRequest → Z;
  pr_Offset : PageRequest → Z;
  pr_SortField : PageRequest → string;
  pr_SortDir : PageRequest → string
}.


Record SelectBuilder (any : Type) := mkSelect {
  s_qb : QueryBuilder;
  s_table : string;
  s_columns : list string;
  s_distinct : bool;
  s_where : list (whereClause any);
  s_joins : list (join any);
  s_orderBy : list orderByClause;
  s_limit : option Z;
  s_offset : option Z;
  s_groupBy : list string;
  s_having : list (whereClause any);
  s_forUpdate : bool;
  s_forShare : bool
}.
Arguments mkSelect {any}.
Arguments s_qb {any}.
Arguments s_table {any}.
Arguments s_columns {any}.
Arguments s_distinct {any}.
Arguments s_where {any}.
Arguments s_joins {any}.
Arguments s_orderBy {any}.
Arguments s_limit {any}.
Arguments s_offset {any}.
Arguments s_groupBy {any}.
Arguments s_having {any}.
Arguments s_forUpdate {any}.
Arguments s_forShare {any}.

Section Select.
Context {any : Type} (any_str : string → any).
Context `{Pagination} `{UnicodeTables}.
Implicit Types s : SelectBuilder any.

Definition SelectWithAllowlist (table : string) (allowed : list string) : SelectBuilder any :=
  mkSelect (NewQueryBuilder allowed) table [] false [] [] [] None None [] [] false false.

Definition Select (table : string) : SelectBuilder any :=
  mkSelect (NewQueryBuilder []) table [] false [] [] [] None None [] [] false false.

Definition Select_Columns s (columns : list string) : SelectBuilder any :=
  mkSelect (s_qb s) (s_table s) (s_columns s ++ columns) (s_distinct s) (s_where s) (s_joins s)
    (s_orderBy s) (s_limit s) (s_offset s) (s_groupBy s) (s_having s) (s_forUpdate s) (s_forShare s).

Definition Select_Distinct s : SelectBuilder any :=
  mkSelect (s_qb s) (s_table s) (s_columns s) true (s_where s) (s_joins s)
    (s_orderBy s) (s_limit s) (s_offset s) (s_groupBy s) (s_having s) (s_forUpdate s) (s_forShare s).

(** [s.where = append(s.where, c)]. *)
Definition Select_add_where s (c : whereClause any) : SelectBuilder any :=
  mkSelect (s_qb s) (s_table s) (s_columns s) (s_distinct s) (s_where s ++ [c]) (s_joins s)
    (s_orderBy s) (s_limit s) (s_offset s) (s_groupBy s) (s_having s) (s_forUpdate s) (s_forShare s).

Definition Select_Where s (condition : string) (args : list any) : SelectBuilder any :=
  Select_add_where s (mkWhere condition args false).

Definition Select_OrWhere s (condition : string) (args : list any) : SelectBuilder any :=
  Select_add_where s (mkWhere condition args true).

Definition Select_WhereIn s (column : string) (values : list any) : SelectBuilder any :=
  match values with
  | [] => s
  | _ => Select_add_where s
           (mkWhere (in_condition column " IN (" (length values)) values false)
  end.

Definition Select_WhereNotIn s (column : string) (values : list any) : SelectBuilder any :=
  match values with
  | [] => s
  | _ => Select_add_where s
           (mkWhere (in_condition column " NOT IN (" (length values)) values false)
  end.

Definition Select_WhereLike s (column pattern : string) : SelectBuilder any :=
  Select_add_where s (mkWhere (column +:+ " LIKE ?") [any_str pattern] false).

Definition Select_WhereILike s (column pattern : string) : SelectBuilder any :=
  Select_add_where s (mkWhere (column +:+ " ILIKE ?") [any_str pattern] false).

Definition Select_WhereNull s (column : string) : SelectBuilder any :=
  Select_add_where s (mkWhere (column +:+ " IS NULL") [] false).

Definition Select_WhereNotNull s (column : string) : SelectBuilder any :=
  Select_add_where s (mkWhere (column +:+ " IS NOT NULL") [] false).

Definition Select_WhereBetween s (column : string) (minVal maxVal : any) : SelectBuilder any :=
  Select_add_where s (mkWhere (column +:+ " BETWEEN ? AND ?") [minVal; maxVal] false).

(** [s.joins = append(s.joins, j)]. *)
Definition Select_add_join s (j : join any) : SelectBuilder any :=
  mkSelect (s_qb s) (s_table s) (s_columns s) (s_distinct s) (s_where s) (s_joins s ++ [j])
    (s_orderBy s) (s_limit s) (s_offset s) (s_groupBy s) (s_having s) (s_forUpdate s) (s_forShare s).

Definition Select_Join s (table condition : string) (args : list any) : SelectBuilder any :=
  Select_add_join s (mkJoin InnerJoin table condition args).
Definition Select_LeftJoin s (table condition : string) (args : list any) : SelectBuilder any :=
  Select_add_join s (mkJoin LeftJoin table condition args).
Definition Select_RightJoin s (table condition : string) (args : list any) : SelectBuilder any :=
  Select_add_join s (mkJoin RightJoin table condition args).

Definition Select_OrderBy s (column direction : string) : SelectBuilder any :=
  mkSelect (s_qb s) (s_table s) (s_columns s) (s_distinct s) (s_where s) (s_joins s)
    (s_orderBy s ++ [mkOrderBy column direction]) (s_limit s) (s_offset s) (s_groupBy s)
    (s_having s) (s_forUpdate s) (s_forShare s).

Definition Select_OrderByAsc s (column : string) : SelectBuilder any := Select_OrderBy s column SortAsc.
Definition Select_OrderByDesc s (column : string) : SelectBuilder any := Select_OrderBy s column SortDesc.

Definition Select_Limit s (limit : Z) : SelectBuilder any :=
  mkSelect (s_qb s) (s_table s) (s_columns s) (s_distinct s) (s_where s) (s_joins s)
    (s_orderBy s) (Some limit) (s_offset s) (s_groupBy s) (s_having s) (s_forUpdate s) (s_forShare s).

Definition Select_Offset s (offset : Z) : SelectBuilder any :=
  mkSelect (s_qb s) (s_table s) (s_columns s) (s_distinct s) (s_where s) (s_joins s)
    (s_orderBy s) (s_limit s) (Some offset) (s_groupBy s) (s_having s) (s_forUpdate s) (s_forShare s).

Definition Select_Page s (req : PageRequest) : SelectBuilder any :=
  let normalized := Normalize req in
  let s := Select_Limit s (pr_Limit normalized) in
  let s := Select_Offset s (pr_Offset normalized) in
  if decide (pr_SortField normalized = "") then s
  else Select_OrderBy s (pr_SortField normalized) (pr_SortDir normalized).

Definition Select_GroupBy s (columns : list string) : SelectBuilder any :=
  mkSelect (s_qb s) (s_table s) (s_columns s) (s_distinct s) (s_where s) (s_joins s)
    (s_orderBy s) (s_limit s) (s_offset s) (s_groupBy s ++ columns) (s_having s)
    (s_forUpdate s) (s_forShare s).

Definition Select_Having s (condition : string) (args : list any) : SelectBuilder any :=
  mkSelect (s_qb s) (s_table s) (s_columns s) (s_distinct s) (s_where s) (s_joins s)
    (s_orderBy s) (s_limit s) (s_offset s) (s_groupBy s)
    (s_having s ++ [mkWhere condition args false]) (s_forUpdate s) (s_forShare s).

Definition Select_ForUpdate s : SelectBuilder any :=
  mkSelect (s_qb s) (s_table s) (s_columns s) (s_distinct s) (s_where s) (s_joins s)
    (s_orderBy s) (s_limit s) (s_offset s) (s_groupBy s) (s_having s) true false.

Definition Select_ForShare s : SelectBuilder any :=
  mkSelect (s_qb s) (s_table s) (s_columns s) (s_distinct s) (s_where s) (s_joins s)
    (s_orderBy s) (s_limit s) (s_offset s) (s_groupBy s) (s_having s) false true.

(** ** Validation *)

Definition validateSelectColumns s : option BuildError :=
  first_err (λ col, if decide (col = "*") then None else validateColumnName (s_qb s) col)
    (s_columns s).

Definition validateGroupByColumns s : option BuildError :=
  first_err (λ entry,
    let entry := strings_TrimSpace entry in
    if decide (entry = "" ∨ entry = "*") then None
    else match validateColumnName (s_qb s) entry with
         | Some _ => Some (InvalidGroupByColumn entry)
         | None => None
         end) (s_groupBy s).

Definition validateOrderByColumns s : option BuildError :=
  first_err (λ entry,
    let col := strings_TrimSpace (ob_column entry) in
    if decide (col = "" ∨ col = "*") then None
    else match validateColumnName (s_qb s) col with
         | Some _ => Some (InvalidOrderByColumn col)
         | None => None
         end) (s_orderBy s).

Definition validateSelect s : option BuildError :=
  match validateTableName (s_table s) with
  | Some err => Some err
  | None =>
      match validateSelectColumns s with
      | Some err => Some err
      | None =>
          match validateGroupByColumns s with
          | Some err => Some err
          | None => validateOrderByColumns s
          end
      end
  end.

(** ** Clauses *)

Definition buildSelectClause s : string :=
  "SELECT " +:+ (if s_distinct s then "DISTINCT " else "")
  +:+ (match s_columns s with [] => "*" | cols => strings_Join cols ", " end)
  +:+ " FROM " +:+ s_table s.

Fixpoint join_loop (joins : list (join any)) (sb : string) (args : list any) (argIndex : Z)
    : string * list any * Z :=
  match joins with
  | [] => (sb, args, argIndex)
  | j :: r =>
      let sb := sb +:+ " " +:+ j_joinType j +:+ " " +:+ j_table j +:+ " ON " in
      let '(joinCondition, newIndex) := replacePlaceholders (j_condition j) argIndex in
      join_loop r (sb +:+ joinCondition) (args ++ j_args j) newIndex
  end.

Definition buildJoinClauses s (argIndex : Z) : string * list any * Z :=
  match s_joins s with
  | [] => ("", [], argIndex)
  | joins => join_loop joins "" [] argIndex
  end.

Definition order_part (o : orderByClause) : string :=
  let dir := strings_ToUpper (ob_direction o) in
  ob_column o +:+ " " +:+ (if decide (dir = "") then "ASC" else dir).

Definition buildOrderByClause s : string :=
  match s_orderBy s with
  | [] => ""
  | os => " ORDER BY " +:+ strings_Join (map order_part os) ", "
  end.

Definition buildLimitOffsetClause s : string :=
  (match s_limit s with Some l => " LIMIT " +:+ itoa l | None => "" end)
  +:+ (match s_offset s with Some o => " OFFSET " +:+ itoa o | None => "" end).

Definition buildLockingClause s : string :=
  if s_forUpdate s then " FOR UPDATE"
  else if s_forShare s then " FOR SHARE"
  else "".

Definition buildGroupByClause s : string :=
  match s_groupBy s with
  | [] => ""
  | cols => " GROUP BY " +:+ strings_Join cols ", "
  end.

(** ** Build *)

Definition Select_Build s : result (string * list any) BuildError :=
  match validateSelect s with
  | Some err => Err err
  | None =>
      let sb := buildSelectClause s in
      let '(joinClause, joinArgs, argIndex) := buildJoinClauses s 1 in
      let sb := sb +:+ joinClause in
      let args := joinArgs in
      let '(whereText, whereArgs, argIndex) :=
        buildConditionClauses (s_where s) " WHERE " argIndex in
      let sb := sb +:+ whereText in
      let args := args ++ whereArgs in
      let sb := sb +:+ buildGroupByClause s in
      let '(havingText, havingArgs, _) :=
        buildConditionClauses (s_having s) " HAVING " argIndex in
      let sb := sb +:+ havingText in
      let args := args ++ havingArgs in
      let sb := sb +:+ buildOrderByClause s in
      let sb := sb +:+ buildLimitOffsetClause s in
      let sb := sb +:+ buildLockingClause s in
      Ok (sb, args)
  end.

Definition Select_MustBuild s : outcome (string * list any) BuildError := MustBuild (Select_Build s).
Definition Select_SQL s : string := SQL (Select_Build s).
Definition Select_Args s : list any := Args (Select_Build s).
End Select.


(** ** The specification of SELECT *)

Section SelectSpec.
Context {any : Type}.
Context `{Pagination} `{UnicodeTables}.
Implicit Types s : SelectBuilder any.

Fixpoint join_template (joins : list (join any)) : list (segment any) :=
  match joins with
  | [] => []
  | j :: r => SText (" " +:+ j_joinType j +:+ " " +:+ j_table j +:+ " ON ")
              :: SCond (j_condition j) (j_args j) :: join_template r
  end.

(** The statement a SELECT builder stands for. *)
Definition select_template s : list (segment any) :=
  SText (buildSelectClause s) :: join_template (s_joins s)
  ++ clause_segs " WHERE " (s_where s)
  ++ SText (buildGroupByClause s) :: clause_segs " HAVING " (s_having s)
  ++ [SText (buildOrderByClause s +:+ buildLimitOffsetClause s +:+ buildLockingClause s)].

(** Its conditions with their values, in the order of the statement. *)
Definition select_conditions s : list (string * list any) :=
  map (λ j, (j_condition j, j_args j)) (s_joins s)
  ++ map (λ w, (w_condition w, w_args w)) (s_where s)
  ++ map (λ w, (w_condition w, w_args w)) (s_having s).

(** Every condition comes with one value per [?]. *)
Definition select_balanced s : Prop :=
  Forall (λ c : string * list any, arity c.1 = length c.2) (select_conditions s).

(** A trimmed GROUP BY or ORDER BY entry that [Build] does not check. *)
Definition skipped_entry (entry : string) : Prop := entry = "" ∨ entry = "*".

(** What [Build] requires of the identifiers. *)
Definition select_valid s : Prop :=
  matches columnNameRegex (s_table s) ∧
  Forall (λ col, col = "*" ∨ column_allowed (s_qb s) col) (s_columns s) ∧
  Forall (λ e, let e := strings_TrimSpace e in skipped_entry e ∨ column_allowed (s_qb s) e)
    (s_groupBy s) ∧
  Forall (λ o, let e := strings_TrimSpace (ob_column o) in
               skipped_entry e ∨ column_allowed (s_qb s) e) (s_orderBy s).

(** A call on a SELECT builder, and the builder after a chain of calls. *)
Inductive select_call : Type :=
| CColumns (columns : list string)
| CDistinct
| CWhere (condition : string) (args : list any)
| COrWhere (condition : string) (args : list any)
| CWhereIn (column : string) (values : list any)
| CWhereNotIn (column : string) (values : list any)
| CWhereLike (column pattern : string)
| CWhereILike (column pattern : string)
| CWhereNull (column : string)
| CWhereNotNull (column : string)
| CWhereBetween (column : string) (minVal maxVal : any)
| CJoin (table condition : string) (args : list any)
| CLeftJoin (table condition : string) (args : list any)
| CRightJoin (table condition : string) (args : list any)
| COrderBy (column direction : string)
| COrderByAsc (column : string)
| COrderByDesc (column : string)
| CLimit (limit : Z)
| COffset (offset : Z)
| CPage (req : PageRequest)
| CGroupBy (columns : list string)
| CHaving (condition : string) (args : list any)
| CForUpdate
| CForShare.

Variable any_str : string → any.

Definition select_apply (c : select_call) s : SelectBuilder any :=
  match c with
  | CColumns cols => Select_Columns s cols
  | CDistinct => Select_Distinct s
  | CWhere c a => Select_Where s c a
  | COrWhere c a => Select_OrWhere s c a
  | CWhereIn c v => Select_WhereIn s c v
  | CWhereNotIn c v => Select_WhereNotIn s c v
  | CWhereLike c p => Select_WhereLike any_str s c p
  | CWhereILike c p => Select_WhereILike any_str s c p
  | CWhereNull c => Select_WhereNull s c
  | CWhereNotNull c => Select_WhereNotNull s c
  | CWhereBetween c v1 v2 => Select_WhereBetween s c v1 v2
  | CJoin t c a => Select_Join s t c a
  | CLeftJoin t c a => Select_LeftJoin s t c a
  | CRightJoin t c a => Select_RightJoin s t c a
  | COrderBy c d => Select_OrderBy s c d
  | COrderByAsc c => Select_OrderByAsc s c
  | COrderByDesc c => Select_OrderByDesc s c
  | CLimit l => Select_Limit s l
  | COffset o => Select_Offset s o
  | CPage req => Select_Page s req
  | CGroupBy cols => Select_GroupBy s cols
  | CHaving c a => Select_Having s c a
  | CForUpdate => Select_ForUpdate s
  | CForShare => Select_ForShare s
  end.

Definition select_run (calls : list select_call) s : SelectBuilder any :=
  fold_left (λ s c, select_apply c s) calls s.

(** The obligation a call leaves to its caller: a raw condition has one value
    per [?], a column given to a helper is free of [?]. *)
Definition call_balanced (c : select_call) : Prop :=
  match c with
  | CWhere c a | COrWhere c a | CJoin _ c a | CLeftJoin _ c a | CRightJoin _ c a | CHaving c a =>
      arity c = length a
  | CWhereIn col _ | CWhereNotIn col _ | CWhereLike col _ | CWhereILike col _
  | CWhereNull col | CWhereNotNull col | CWhereBetween col _ _ => plain col
  | _ => True
  end.

End SelectSpec.
Arguments select_call any {_}.

(** ** Lemmas *)

Section SelectLemmas.
Context {any : Type}.
Context `{Pagination} `{UnicodeTables}.
Implicit Types s : SelectBuilder any.

Lemma join_loop_spec joins sb (args : list any) i :
  join_loop joins sb args i =
  (sb +:+ render i (join_template joins), args ++ seg_args (join_template joins),
   next_index i (join_template joins)).
Proof.
  revert sb args i. induction joins as [|j r IH]; intros sb args i; simpl.
  { by rewrite string_app_nil_r, app_nil_r. }
  destruct (replacePlaceholders (j_condition j) i) as [t k] eqn:Hr. rewrite IH, !seg_args_cons.
  simpl. rewrite <-app_assoc. f_equal. f_equal. by rewrite <-!string_app_assoc.
Qed.

Lemma buildJoinClauses_spec s i :
  buildJoinClauses s i =
  (render i (join_template (s_joins s)), seg_args (join_template (s_joins s)),
   next_index i (join_template (s_joins s))).
Proof.
  unfold buildJoinClauses. destruct (s_joins s) as [|j r]; [done|].
  by rewrite join_loop_spec, string_app_nil_l.
Qed.

Lemma Build_template s :
  Select_Build s =
  match validateSelect s with
  | Some e => Err e
  | None => Ok (render 1 (select_template s), seg_args (select_template s))
  end.
Proof.
  unfold Select_Build. destruct (validateSelect s); [done|].
  rewrite buildJoinClauses_spec, !buildConditionClauses_spec. f_equal. unfold select_template.
  rewrite !seg_args_cons, !seg_args_app, !seg_args_cons, !seg_args_app, !seg_args_cons.
  cbn [render seg_values app]. rewrite !render_app. cbn [render]. rewrite !render_app.
  cbn [render]. autorewrite with gostr. rewrite <-!app_assoc, !app_nil_r. done.
Qed.

Lemma validateSelect_None s : validateSelect s = None ↔ select_valid s.
Proof.
  unfold validateSelect, select_valid. rewrite <-validateTableName_spec.
  assert (validateSelectColumns s = None ↔
    Forall (λ col, col = "*" ∨ column_allowed (s_qb s) col) (s_columns s)) as <-.
  { unfold validateSelectColumns. rewrite first_err_None. apply Forall_iff. intros col.
    rewrite <-validateColumnName_spec. case_decide; naive_solver. }
  assert (validateGroupByColumns s = None ↔ Forall (λ e, let e := strings_TrimSpace e in
    skipped_entry e ∨ column_allowed (s_qb s) e) (s_groupBy s)) as <-.
  { unfold validateGroupByColumns. rewrite first_err_None. apply Forall_iff. intros e. simpl.
    rewrite <-validateColumnName_spec. unfold skipped_entry.
    case_decide; [naive_solver|]. case_match; naive_solver. }
  assert (validateOrderByColumns s = None ↔ Forall (λ o, let e := strings_TrimSpace (ob_column o) in
    skipped_entry e ∨ column_allowed (s_qb s) e) (s_orderBy s)) as <-.
  { unfold validateOrderByColumns. rewrite first_err_None. apply Forall_iff. intros e. simpl.
    rewrite <-validateColumnName_spec. unfold skipped_entry.
    case_decide; [naive_solver|]. case_match; naive_solver. }
  repeat case_match; naive_solver.
Qed.

Lemma join_template_balanced joins :
  Forall (λ j : join any, arity (j_condition j) = length (j_args j)) joins →
  Forall balanced (join_template joins).
Proof. induction 1; simpl; repeat constructor; done. Qed.

Lemma select_template_balanced s : select_balanced s → Forall balanced (select_template s).
Proof.
  unfold select_balanced, select_conditions, select_template.
  rewrite !Forall_app, !Forall_map. simpl. intros (Hj & Hw & Hh).
  constructor; [done|]. apply Forall_app. split; [by apply join_template_balanced|].
  apply Forall_app. split; [by apply clause_segs_balanced|].
  constructor; [done|]. apply Forall_app. split; [by apply clause_segs_balanced|].
  by repeat constructor.
Qed.

Lemma select_template_elem s c a :
  (c, a) ∈ select_conditions s → SCond c a ∈ select_template s.
Proof.
  unfold select_conditions, select_template. rewrite !elem_of_app, !list_elem_of_fmap.
  assert (∀ (joins : list (join any)) j, j ∈ joins → SCond (j_condition j) (j_args j) ∈ join_template joins)
    as Hj by (intros joins j; induction joins; simpl; set_solver).
  intros [(j & [= -> ->] & Hin)|[(w & [= -> ->] & Hin)|(w & [= -> ->] & Hin)]];
    apply list_elem_of_further; rewrite !elem_of_app.
  - left. by apply Hj.
  - right. left. by apply clause_segs_elem.
  - right. right. apply list_elem_of_further. rewrite elem_of_app. left. by apply clause_segs_elem.
Qed.

Lemma add_where_balanced s w :
  select_balanced s → balanced_clause w → select_balanced (Select_add_where s w).
Proof.
  unfold select_balanced, select_conditions, balanced_clause. simpl.
  rewrite map_app, !Forall_app. intros (? & ? & ?) Hw. repeat split; try done. by constructor.
Qed.

Lemma add_join_balanced s j :
  select_balanced s → arity (j_condition j) = length (j_args j) → select_balanced (Select_add_join s j).
Proof.
  unfold select_balanced, select_conditions. simpl.
  rewrite map_app, !Forall_app. intros (? & ? & ?) Hw. repeat split; try done. by constructor.
Qed.

Lemma in_clause_balanced s col op (values : list any) isOr :
  select_balanced s → plain col → is_ascii op = true → arity op = 0%nat →
  select_balanced (Select_add_where s (mkWhere (in_condition col op (length values)) values isOr)).
Proof.
  intros. apply add_where_balanced; [done|]. by apply arity_in_condition.
Qed.

Lemma suffix_clause_balanced s col suffix (values : list any) isOr :
  select_balanced s → plain col → arity suffix = length values →
  select_balanced (Select_add_where s (mkWhere (col +:+ suffix) values isOr)).
Proof.
  intros. apply add_where_balanced; [done|]. unfold balanced_clause. simpl. by rewrite arity_suffix.
Qed.

Variable any_str : string → any.

Lemma select_apply_balanced c s :
  select_balanced s → call_balanced c → select_balanced (select_apply any_str c s).
Proof.
  intros Hs. destruct c; simpl; intros Hc; try exact Hs;
    try (by apply add_where_balanced); try (by apply add_join_balanced);
    try (by apply suffix_clause_balanced).
  - unfold Select_WhereIn. destruct values; [done|]. by apply in_clause_balanced.
  - unfold Select_WhereNotIn. destruct values; [done|]. by apply in_clause_balanced.
  - unfold Select_Page. by case_decide.
  - unfold select_balanced, select_conditions in *. simpl. rewrite map_app, !Forall_app in *.
    destruct Hs as (? & ? & ?). repeat split; try done. by constructor.
Qed.

Lemma select_run_balanced calls s :
  select_balanced s → Forall call_balanced calls → select_balanced (select_run any_str calls s).
Proof.
  intros Hs Hall. revert s Hs. induction Hall as [|c r Hc _ IH]; intros s Hs; [done|].
  simpl. apply IH. by apply select_apply_balanced.
Qed.

End SelectLemmas.

#[export] Hint Resolve select_template_balanced select_run_balanced : godb.

(** ** Properties *)

Section SelectProperties.
Context {any : Type}.
Context `{Pagination} `{UnicodeTables}.

(** C6: [Build] succeeds exactly on valid identifiers, and then returns the
    rendering of the statement's template, numbered left to right from [$1],
    with the values of the template in the same order. *)
Theorem Select_Build_refines_template (s : SelectBuilder any) sql args :
  Select_Build s = Ok (sql, args) ↔
  select_valid s ∧ sql = render 1 (select_template s) ∧ args = seg_args (select_template s).
Proof.
  rewrite Build_template, <-validateSelect_None.
  destruct (validateSelect s); naive_solver.
Qed.

(** C20: with an allowlist, a statement is built only from listed names: every
    selected column is [*] or listed, every trimmed GROUP BY and ORDER BY entry
    is empty, [*] or listed, and the table and every listed name used consist of
    letters, digits, underscores and dots only. *)
Theorem Select_allowlist_enforced (s : SelectBuilder any) sql args :
  allowedColumns (s_qb s) ≠ ∅ → Select_Build s = Ok (sql, args) →
  let safe c := c ∈ allowedColumns (s_qb s) ∧ all_bytes id_byte c = true in
  all_bytes id_byte (s_table s) = true ∧
  Forall (λ c, c = "*" ∨ safe c) (s_columns s) ∧
  Forall (λ e, skipped_entry (strings_TrimSpace e) ∨ safe (strings_TrimSpace e)) (s_groupBy s) ∧
  Forall (λ o, skipped_entry (strings_TrimSpace (ob_column o)) ∨
               safe (strings_TrimSpace (ob_column o))) (s_orderBy s).
Proof.
  intros Hne Hb safe. rewrite Build_template in Hb.
  destruct (validateSelect s) eqn:Hv; [done|]. apply validateSelect_None in Hv as (Ht & Hc & Hg & Ho).
  assert (∀ c, column_allowed (s_qb s) c → safe c) as Hsafe.
  { intros c [_ [?|[Hm ?]]]; [done|]. split; [done|]. by apply regex_id_bytes. }
  split; [by apply regex_id_bytes|]. split_and!.
  - apply (Forall_impl _ _ _ Hc). naive_solver.
  - apply (Forall_impl _ _ _ Hg). naive_solver.
  - apply (Forall_impl _ _ _ Ho). naive_solver.
Qed.

Variable any_str : string → any.

(** C10: binding of SELECT.  After any chain of builder calls that gives each raw
    condition one value per [?] (and the helpers a column without [?]), a
    successful [Build] has exactly one placeholder per value, and each condition
    of JOIN, WHERE and HAVING appears numbered from just after the values that
    precede it, its own values standing at those positions. *)
Theorem Select_calls_bind table allowed calls sql (args : list any) :
  Forall call_balanced calls →
  let s := select_run any_str calls (SelectWithAllowlist table allowed) in
  Select_Build s = Ok (sql, args) →
  next_index 1 (select_template s) - 1 = Z.of_nat (length args) ∧
  ∀ c a, (c, a) ∈ select_conditions s →
    ∃ sql1 sql2 args1 args2,
      sql = sql1 +:+ (replacePlaceholders c (1 + Z.of_nat (length args1))).1 +:+ sql2 ∧
      args = args1 ++ a ++ args2.
Proof.
  intros Hc s Hb. rewrite Build_template in Hb. destruct (validateSelect s); [done|].
  apply Ok_pair_inj in Hb as [<- <-]. assert (select_balanced s) as Hs by (apply select_run_balanced; [by apply Forall_app|done]).
  split.
  - rewrite next_index_balanced by (by apply select_template_balanced). lia.
  - intros c a Hin. apply template_binds.
    + by apply select_template_balanced.
    + by apply select_template_elem.
Qed.

(** The lock mode of the last locking call, starting from [init]. *)
Fixpoint last_lock (init : string) (calls : list (select_call any)) : string :=
  match calls with
  | [] => init
  | CForUpdate :: r => last_lock " FOR UPDATE" r
  | CForShare :: r => last_lock " FOR SHARE" r
  | _ :: r => last_lock init r
  end.

(** The two row-lock modes exclude each other: whatever the chain of calls,
    the builder never holds both flags and the statement ends with the lock
    clause of the last locking call, or none. *)
Lemma Select_lock_last_wins table allowed calls :
  let s := select_run any_str calls (SelectWithAllowlist table allowed) in
  (s_forUpdate s && s_forShare s)%bool = false ∧ buildLockingClause s = last_lock "" calls.
Proof.
  assert (∀ s, (s_forUpdate s && s_forShare s)%bool = false →
    let s' := select_run any_str calls s in
    (s_forUpdate s' && s_forShare s')%bool = false ∧
    buildLockingClause s' = last_lock (buildLockingClause s) calls) as Hrun.
  { induction calls as [|c r IH]; intros s Hs; [done|].
    assert ((s_forUpdate (select_apply any_str c s) && s_forShare (select_apply any_str c s))%bool
            = false) as Hs'.
    { destruct c; simpl; try done; unfold Select_WhereIn, Select_WhereNotIn, Select_Page;
        repeat case_match; done. }
    destruct (IH _ Hs') as [H1 H2]. split; [exact H1|]. cbn [select_run fold_left] in *.
    unfold select_run in H2. rewrite H2.
    destruct c; try done; cbn [select_apply last_lock];
      unfold Select_WhereIn, Select_WhereNotIn, Select_Page; repeat case_match; done. }
  by apply Hrun.
Qed.
End SelectProperties.

(** ** Concrete runs *)

Definition no_tables : UnicodeTables := {| unicode_ToUpper r := r |}.

Definition plain_pagination : Pagination := {|
  SortAsc := "asc"; SortDesc := "desc"; PageRequest := Z * Z * string * string;
  Normalize req := req;
  pr_Limit req := req.1.1.1; pr_Offset req := req.1.1.2;
  pr_SortField req := req.1.2; pr_SortDir req := req.2
|}.

Definition demo_calls : list (@select_call string plain_pagination) :=
  [ CColumns ["id"; "name"]; CLeftJoin "orders" "orders.uid = users.id AND orders.kind = ?" ["web"];
    CWhere "age > ?" ["18"]; CWhereIn "status" ["active"; "new"]; COrWhere "vip = ?" ["true"];
    CHaving "COUNT(id) > ?" ["3"]; COrderByDesc "name"; CLimit 20; CForUpdate ].

Definition demo_builder : SelectBuilder string :=
  @select_run _ plain_pagination (λ s, s) demo_calls (SelectWithAllowlist "users" ["id"; "name"]).

Definition demo_sql : string :=
  "SELECT id, name FROM users LEFT JOIN orders ON orders.uid = users.id AND orders.kind = $1 WHERE age > $2 AND status IN ($3, $4) OR vip = $5 HAVING COUNT(id) > $6 ORDER BY name DESC LIMIT 20 FOR UPDATE".

Definition demo_args : list string := ["web"; "18"; "active"; "new"; "true"; "3"].

Lemma demo_build : @Select_Build _ no_tables demo_builder = Ok (demo_sql, demo_args).
Proof. vm_compute. reflexivity. Qed.

Lemma Select_calls_bind_witness :
  @Select_Build _ no_tables demo_builder = Ok (demo_sql, demo_args) ∧
  ∃ sql1 sql2 args1 args2,
    demo_sql = sql1 +:+ (replacePlaceholders "vip = ?" (1 + Z.of_nat (length args1))).1 +:+ sql2 ∧
    demo_args = args1 ++ ["true"] ++ args2.
Proof.
  split; [apply demo_build|].
  apply (@Select_calls_bind string plain_pagination no_tables (λ s, s)
    "users" ["id"; "name"] demo_calls demo_sql demo_args).
  - repeat apply Forall_cons_2; try apply Forall_nil_2; try exact I; try reflexivity.
    split; [by apply is_ascii_valid|]. apply (bool_decide_unpack _). by vm_compute.
  - apply demo_build.
  - change (@select_run _ plain_pagination (λ s, s) demo_calls
      (SelectWithAllowlist "users" ["id"; "name"])) with demo_builder.
    vm_compute. apply list_elem_of_In. simpl. auto 10.
Defined.

Lemma Select_allowlist_enforced_witness :
  all_bytes id_byte "users" = true ∧
  Forall (λ c, c = "*" ∨ (c ∈ allowedColumns (s_qb demo_builder) ∧ all_bytes id_byte c = true))
    ["id"; "name"].
Proof.
  destruct (@Select_allowlist_enforced string no_tables demo_builder demo_sql demo_args)
    as (Ht & Hc & _).
  - apply (bool_decide_unpack _). by vm_compute.
  - apply demo_build.
  - exact (conj Ht Hc).
Defined.
