(* ===== verification/Insert.v ===== *)
(** * postgres/insert.go: the INSERT builder *)

From S2P Require Import Prelude GoLib QueryCore.

(** [ON CONFLICT] handling. *)
Record conflictClause := mkConflict {
  cc_columns : list string;
  cc_doNothing : bool;
  cc_constraint : string
}.

Record InsertBuilder (any : Type) := mkInsert {
  i_qb : QueryBuilder;
  i_table : string;
  i_columns : list string;
  i_values : list (list any);
  i_returning : list string;
  i_onConflict : option conflictClause
}.
Arguments mkInsert {any}.
Arguments i_qb {any}.
Arguments i_table {any}.
Arguments i_columns {any}.
Arguments i_values {any}.
Arguments i_returning {any}.
Arguments i_onConflict {any}.

Section Insert.
Context {any : Type}.
Implicit Types b : InsertBuilder any.

Definition Insert (table : string) : InsertBuilder any :=
  mkInsert (NewQueryBuilder []) table [] [] [] None.

Definition InsertWithAllowlist (table : string) (allowed : list string) : InsertBuilder any :=
  mkInsert (NewQueryBuilder allowed) table [] [] [] None.

(** [Columns] replaces the column list; [Values] and [Returning] append. *)
Definition Insert_Columns b (columns : list string) : InsertBuilder any :=
  mkInsert (i_qb b) (i_table b) columns (i_values b) (i_returning b) (i_onConflict b).

Definition Insert_Values b (values : list any) : InsertBuilder any :=
  mkInsert (i_qb b) (i_table b) (i_columns b) (i_values b ++ [values]) (i_returning b) (i_onConflict b).

Definition Insert_Returning b (columns : list string) : InsertBuilder any :=
  mkInsert (i_qb b) (i_table b) (i_columns b) (i_values b) (i_returning b ++ columns) (i_onConflict b).

Definition Insert_OnConflictDoNothing b (columns : list string) : InsertBuilder any :=
  mkInsert (i_qb b) (i_table b) (i_columns b) (i_values b) (i_returning b)
    (Some (mkConflict columns true "")).

Definition Insert_OnConflictConstraintDoNothing b (constraint : string) : InsertBuilder any :=
  mkInsert (i_qb b) (i_table b) (i_columns b) (i_values b) (i_returning b)
    (Some (mkConflict [] true constraint)).

(** ** Validation *)

Definition validateInsertColumns b : option BuildError :=
  match i_columns b with
  | [] => Some NoInsertColumns
  | cols => first_err (validateColumnName (i_qb b)) cols
  end.

(** The row loop: the first row whose length is not the column count. *)
Fixpoint row_length_loop (idx : nat) (rows : list (list any)) (ncols : nat) : option BuildError :=
  match rows with
  | [] => None
  | row :: r =>
      if decide (length row = ncols) then row_length_loop (S idx) r ncols
      else Some (RowLengthMismatch idx (length row) ncols)
  end.

Definition validateInsertValues b : option BuildError :=
  match i_values b with
  | [] => Some NoInsertValues
  | rows => row_length_loop 0 rows (length (i_columns b))
  end.

Definition validateReturningColumns b : option BuildError :=
  first_err (λ col,
    if decide (col = "*") then None
    else match validateColumnName (i_qb b) col with
         | Some _ => Some (InvalidReturningColumn col)
         | None => None
         end) (i_returning b).

Definition validateConflictColumns b (cols : list string) : option BuildError :=
  first_err (λ col, match validateColumnName (i_qb b) col with
                    | Some _ => Some (InvalidConflictColumn col)
                    | None => None
                    end) cols.

Definition validateOnConflict b : option BuildError :=
  match i_onConflict b with
  | None => None
  | Some oc =>
      if decide (cc_constraint oc ≠ "") then
        match validateTableName (cc_constraint oc) with
        | Some _ => Some (InvalidConflictConstraint (cc_constraint oc))
        | None => validateConflictColumns b (cc_columns oc)
        end
      else validateConflictColumns b (cc_columns oc)
  end.

Definition validateInsert b : option BuildError :=
  match validateTableName (i_table b) with
  | Some err => Some err
  | None =>
      match validateInsertColumns b with
      | Some err => Some err
      | None =>
          match validateInsertValues b with
          | Some err => Some err
          | None =>
              match validateReturningColumns b with
              | Some err => Some err
              | None => validateOnConflict b
              end
          end
      end
  end.

(** ** Clauses *)

(** [for colIdx := range row]: one placeholder per value. *)
Fixpoint row_placeholders (row : list any) (argIndex : Z) : list string * Z :=
  match row with
  | [] => ([], argIndex)
  | _ :: r => let '(ps, next) := row_placeholders r (argIndex + 1) in
              (("$" +:+ itoa argIndex) :: ps, next)
  end.

Fixpoint values_loop (rows : list (list any)) (valueParts : list string) (args : list any)
    (argIndex : Z) : list string * list any :=
  match rows with
  | [] => (valueParts, args)
  | row :: r =>
      let '(placeholders, argIndex) := row_placeholders row argIndex in
      values_loop r (valueParts ++ ["(" +:+ strings_Join placeholders ", " +:+ ")"])
        (args ++ row) argIndex
  end.

Definition buildValuesClause b : string * list any :=
  let '(valueParts, args) := values_loop (i_values b) [] [] 1 in
  (strings_Join valueParts ", ", args).

Definition buildOnConflictClause b : string :=
  match i_onConflict b with
  | None => ""
  | Some oc =>
      " ON CONFLICT"
      +:+ (if decide (cc_constraint oc ≠ "") then " ON CONSTRAINT " +:+ cc_constraint oc
           else match cc_columns oc with
                | [] => ""
                | cols => " (" +:+ strings_Join cols ", " +:+ ")"
                end)
      +:+ (if cc_doNothing oc then " DO NOTHING" else "")
  end.

Definition buildReturningClause (returning : list string) : string :=
  match returning with
  | [] => ""
  | cols => " RETURNING " +:+ strings_Join cols ", "
  end.

Definition Insert_Build b : result (string * list any) BuildError :=
  match validateInsert b with
  | Some err => Err err
  | None =>
      let '(valuesClause, args) := buildValuesClause b in
      Ok ("INSERT INTO " +:+ i_table b +:+ " (" +:+ strings_Join (i_columns b) ", "
          +:+ ") VALUES " +:+ valuesClause +:+ buildOnConflictClause b
          +:+ buildReturningClause (i_returning b), args)
  end.

Definition Insert_MustBuild b : outcome (string * list any) BuildError := MustBuild (Insert_Build b).
Definition Insert_SQL b : string := SQL (Insert_Build b).
Definition Insert_Args b : list any := Args (Insert_Build b).

(** ** Specification *)

(** The text of placeholder number [n]. *)
Definition placeholder (n : Z) : string := "$" +:+ itoa n.

(** Row [r] of [n] columns, numbered row by row. *)
Definition row_text (n r : nat) : string :=
  "(" +:+ strings_Join (map (λ c : nat, placeholder (1 + Z.of_nat (r * n + c))) (seq 0 n)) ", "
  +:+ ")".

Definition insert_text b : string :=
  "INSERT INTO " +:+ i_table b +:+ " (" +:+ strings_Join (i_columns b) ", " +:+ ") VALUES "
  +:+ strings_Join (map (row_text (length (i_columns b))) (seq 0 (length (i_values b)))) ", "
  +:+ buildOnConflictClause b +:+ buildReturningClause (i_returning b).

Definition insert_valid b : Prop :=
  matches columnNameRegex (i_table b) ∧
  i_columns b ≠ [] ∧ Forall (column_allowed (i_qb b)) (i_columns b) ∧
  i_values b ≠ [] ∧ Forall (λ row : list any, length row = length (i_columns b)) (i_values b) ∧
  Forall (λ col, col = "*" ∨ column_allowed (i_qb b) col) (i_returning b) ∧
  match i_onConflict b with
  | None => True
  | Some oc => (cc_constraint oc = "" ∨ matches columnNameRegex (cc_constraint oc)) ∧
               Forall (column_allowed (i_qb b)) (cc_columns oc)
  end.

(** ** Lemmas *)

Lemma row_length_None idx rows ncols :
  row_length_loop idx rows ncols = None ↔ Forall (λ row : list any, length row = ncols) rows.
Proof.
  revert idx. induction rows as [|row r IH]; intros idx; simpl; [by split|].
  rewrite Forall_cons, <-(IH (S idx)). case_decide; naive_solver.
Qed.

Lemma first_err_allowed qb cols (mk : string → BuildError) :
  first_err (λ col, match validateColumnName qb col with Some _ => Some (mk col) | None => None end)
    cols = None ↔ Forall (column_allowed qb) cols.
Proof.
  rewrite first_err_None. apply Forall_iff. intros c.
  rewrite <-validateColumnName_spec. case_match; naive_solver.
Qed.

Lemma validateInsert_None b : validateInsert b = None ↔ insert_valid b.
Proof.
  unfold validateInsert, insert_valid. rewrite <-validateTableName_spec.
  assert (validateInsertColumns b = None ↔
    i_columns b ≠ [] ∧ Forall (column_allowed (i_qb b)) (i_columns b)) as Hc.
  { unfold validateInsertColumns. destruct (i_columns b) as [|c cs]; [naive_solver|].
    rewrite first_err_None.
    assert (Forall (λ x, validateColumnName (i_qb b) x = None) (c :: cs) ↔
      Forall (column_allowed (i_qb b)) (c :: cs)) as ->; [|naive_solver].
    apply Forall_iff. intros. apply validateColumnName_spec. }
  assert (validateInsertValues b = None ↔ i_values b ≠ [] ∧
    Forall (λ row : list any, length row = length (i_columns b)) (i_values b)) as Hv.
  { unfold validateInsertValues. destruct (i_values b); [naive_solver|].
    rewrite row_length_None. naive_solver. }
  assert (validateReturningColumns b = None ↔
    Forall (λ col, col = "*" ∨ column_allowed (i_qb b) col) (i_returning b)) as Hr.
  { unfold validateReturningColumns. rewrite first_err_None. apply Forall_iff. intros c.
    rewrite <-validateColumnName_spec. case_decide; [naive_solver|]. case_match; naive_solver. }
  assert (validateOnConflict b = None ↔ match i_onConflict b with None => True | Some oc =>
    (cc_constraint oc = "" ∨ matches columnNameRegex (cc_constraint oc)) ∧
    Forall (column_allowed (i_qb b)) (cc_columns oc) end) as Ho.
  { unfold validateOnConflict, validateConflictColumns. destruct (i_onConflict b) as [oc|]; [|done].
    rewrite <-validateTableName_spec, <-(first_err_allowed _ _ InvalidConflictColumn).
    case_decide; [case_match|]; naive_solver. }
  rewrite <-Ho. repeat case_match; naive_solver.
Qed.

Lemma row_placeholders_spec (row : list any) i :
  row_placeholders row i =
  (map (λ c : nat, placeholder (i + Z.of_nat c)) (seq 0 (length row)), i + Z.of_nat (length row)).
Proof.
  revert i. induction row as [|v r IH]; intros i; simpl; [f_equal; lia|].
  rewrite IH, <-seq_shift, map_map. f_equal; [|lia]. f_equal; [unfold placeholder; f_equal; f_equal; lia|].
  apply map_ext. intros c. f_equal. lia.
Qed.

(** Rows [k, k+1, ...] of width [n], the first placeholder being number [k * n + 1]. *)
Lemma values_loop_spec n k rows parts (args : list any) :
  Forall (λ row : list any, length row = n) rows →
  values_loop rows parts args (1 + Z.of_nat (k * n)) =
  (parts ++ map (row_text n) (seq k (length rows)), args ++ mjoin rows).
Proof.
  intros Hall. revert k parts args.
  induction Hall as [|row r Hrow _ IH]; intros k parts args; simpl.
  { by rewrite !app_nil_r. }
  rewrite row_placeholders_spec, Hrow.
  replace (1 + Z.of_nat (k * n) + Z.of_nat n) with (1 + Z.of_nat (S k * n)) by lia.
  rewrite IH, <-!app_assoc. f_equal. f_equal. simpl. f_equal. unfold row_text. do 3 f_equal.
  apply map_ext. intros c. f_equal. lia.
Qed.

Lemma Insert_Build_valid b :
  Insert_Build b =
  match validateInsert b with
  | Some e => Err e
  | None => Ok (insert_text b, mjoin (i_values b))
  end.
Proof.
  unfold Insert_Build. destruct (validateInsert b) eqn:Hv; [done|].
  apply validateInsert_None in Hv as (_ & _ & _ & _ & Hrows & _).
  unfold buildValuesClause. change 1 with (1 + Z.of_nat (0 * length (i_columns b))).
  by rewrite (values_loop_spec _ 0 _ [] []).
Qed.

(** The position of an element in a concatenation of rows of equal length. *)
Lemma mjoin_lookup n (rows : list (list any)) r row c v :
  Forall (λ row : list any, length row = n) rows →
  rows !! r = Some row → row !! c = Some v → mjoin rows !! (r * n + c)%nat = Some v.
Proof.
  intros Hall. revert r. induction Hall as [|x l Hx _ IH]; intros r Hr Hc; [done|].
  destruct r as [|r]; simplify_eq/=.
  - rewrite lookup_app_l by (by eapply lookup_lt_Some). done.
  - rewrite lookup_app_r by lia.
    replace (length x + r * length x + c - length x)%nat with (r * length x + c)%nat by lia.
    by apply IH.
Qed.
End Insert.

(** ** Properties *)

(** C11: [Build] accepts an INSERT exactly when it is valid (table, columns,
    RETURNING and ON CONFLICT names checked, at least one row, every row as wide
    as the column list); the statement then numbers the placeholders row by row
    from [$1] in the closed form [insert_text], and the value in row [r],
    column [c] is argument number [r * width + c] (counting from zero), the one
    its placeholder names. *)
Theorem Insert_Build_row_major {any} (b : InsertBuilder any) sql args :
  Insert_Build b = Ok (sql, args) ↔
  insert_valid b ∧ sql = insert_text b ∧ args = mjoin (i_values b) ∧
  ∀ r row c v, i_values b !! r = Some row → row !! c = Some v →
    args !! (r * length (i_columns b) + c)%nat = Some v.
Proof.
  rewrite Insert_Build_valid, <-validateInsert_None.
  destruct (validateInsert b) eqn:Hv; [naive_solver|].
  apply validateInsert_None in Hv as (_ & _ & _ & _ & Hrows & _). split.
  - intros [<- <-]%Ok_pair_inj. split_and!; try done. intros. by eapply mjoin_lookup.
  - by intros (_ & -> & -> & _).
Qed.

(** The error for rows of the wrong width names the first offending row, its
    length and the number of columns, and no statement is produced. *)
Lemma Insert_rejects_ragged_rows {any} (b : InsertBuilder any) rows1 row rows2 :
  validateTableName (i_table b) = None → validateInsertColumns b = None →
  i_values b = rows1 ++ row :: rows2 →
  Forall (λ x : list any, length x = length (i_columns b)) rows1 →
  length row ≠ length (i_columns b) →
  Insert_Build b = Err (RowLengthMismatch (length rows1) (length row) (length (i_columns b))).
Proof.
  intros Ht Hc Hrows Hpre Hrow. unfold Insert_Build, validateInsert. rewrite Ht, Hc.
  assert (∀ idx, row_length_loop idx (rows1 ++ row :: rows2) (length (i_columns b)) =
    Some (RowLengthMismatch (idx + length rows1) (length row) (length (i_columns b)))) as Hloop.
  { clear Hrows. induction Hpre as [|x l Hx _ IH]; intros idx; simpl.
    - rewrite decide_False by done. by rewrite Nat.add_0_r.
    - rewrite decide_True by done. rewrite IH. do 2 f_equal. lia. }
  unfold validateInsertValues. rewrite Hrows.
  destruct rows1; simpl in *; by rewrite Hloop.
Qed.

Lemma Insert_rejects_ragged_rows_witness :
  Insert_Build (Insert_Values (Insert_Values (Insert_Columns (Insert "t") ["a"; "b"]) [1; 2]) [3])
  = Err (RowLengthMismatch 1 1 2).
Proof.
  refine (Insert_rejects_ragged_rows
    (Insert_Values (Insert_Values (Insert_Columns (Insert "t") ["a"; "b"]) [1; 2]) [3])
    [[1; 2]] [3] [] _ _ _ _ _); try reflexivity.
  - repeat constructor.
  - simpl. lia.
Defined.
