(* ===== verification/Update.v ===== *)
(** * postgres/update.go: the UPDATE builder *)

From S2P Require Import Prelude GoLib QueryCore Insert.

(** A [column = value] pair. *)
Record setClause (any : Type) := mkSet { set_column : string; set_value : any }.
Arguments mkSet {any}.
Arguments set_column {any}.
Arguments set_value {any}.

Record UpdateBuilder (any : Type) := mkUpdate {
  u_qb : QueryBuilder;
  u_table : string;
  u_sets : list (setClause any);
  u_where : list (whereClause any);
  u_returning : list string
}.
Arguments mkUpdate {any}.
Arguments u_qb {any}.
Arguments u_table {any}.
Arguments u_sets {any}.
Arguments u_where {any}.
Arguments u_returning {any}.

Section Update.
Context {any : Type}.
Implicit Types b : UpdateBuilder any.

Definition Update (table : string) : UpdateBuilder any :=
  mkUpdate (NewQueryBuilder []) table [] [] [].

Definition UpdateWithAllowlist (table : string) (allowed : list string) : UpdateBuilder any :=
  mkUpdate (NewQueryBuilder allowed) table [] [] [].

Definition Update_Set b (column : string) (value : any) : UpdateBuilder any :=
  mkUpdate (u_qb b) (u_table b) (u_sets b ++ [mkSet column value]) (u_where b) (u_returning b).

(** [SetMap] ranges over a Go map: the pairs arrive in an unspecified order,
    which is the order of the list given here. *)
Definition Update_SetMap b (values : list (string * any)) : UpdateBuilder any :=
  mkUpdate (u_qb b) (u_table b) (u_sets b ++ map (λ p, mkSet p.1 p.2) values) (u_where b)
    (u_returning b).

Definition Update_add_where b (w : whereClause any) : UpdateBuilder any :=
  mkUpdate (u_qb b) (u_table b) (u_sets b) (u_where b ++ [w]) (u_returning b).

Definition Update_Where b (condition : string) (args : list any) : UpdateBuilder any :=
  Update_add_where b (mkWhere condition args false).

Definition Update_OrWhere b (condition : string) (args : list any) : UpdateBuilder any :=
  Update_add_where b (mkWhere condition args true).

Definition Update_WhereIn b (column : string) (values : list any) : UpdateBuilder any :=
  match values with
  | [] => b
  | _ => Update_add_where b
           (mkWhere (in_condition column " IN (" (length values)) values false)
  end.

Definition Update_Returning b (columns : list string) : UpdateBuilder any :=
  mkUpdate (u_qb b) (u_table b) (u_sets b) (u_where b) (u_returning b ++ columns).

(** ** Validation and clauses *)

Definition validateUpdate b : option BuildError :=
  match validateTableName (u_table b) with
  | Some err => Some err
  | None =>
      match u_sets b with
      | [] => Some NoUpdateColumns
      | sets =>
          match first_err (λ s, validateColumnName (u_qb b) (set_column s)) sets with
          | Some err => Some err
          | None =>
              first_err (λ col, match validateColumnName (u_qb b) col with
                                | Some _ => Some (InvalidReturningColumn col)
                                | None => None
                                end) (u_returning b)
          end
      end
  end.

Fixpoint set_loop (sets : list (setClause any)) (setParts : list string) (args : list any)
    (argIndex : Z) : list string * list any * Z :=
  match sets with
  | [] => (setParts, args, argIndex)
  | s :: r => set_loop r (setParts ++ [set_column s +:+ " = $" +:+ itoa argIndex])
                (args ++ [set_value s]) (argIndex + 1)
  end.

Definition buildSetClause b (argIndex : Z) : string * list any * Z :=
  let '(setParts, args, next) := set_loop (u_sets b) [] [] argIndex in
  (strings_Join setParts ", ", args, next).

(** [buildWhereClause]: the same loop as [buildConditionClauses]. *)
Definition buildWhereClause b (argIndex : Z) : string * list any * Z :=
  match u_where b with
  | [] => ("", [], argIndex)
  | ws => condition_loop 0 ws " WHERE " [] argIndex
  end.

Definition Update_Build b : result (string * list any) BuildError :=
  match validateUpdate b with
  | Some err => Err err
  | None =>
      let sb := "UPDATE " +:+ u_table b +:+ " SET " in
      let '(setText, setArgs, argIndex) := buildSetClause b 1 in
      let sb := sb +:+ setText in
      let '(whereText, whereArgs, _) := buildWhereClause b argIndex in
      let sb := sb +:+ whereText in
      let args := setArgs ++ whereArgs in
      Ok (sb +:+ buildReturningClause (u_returning b), args)
  end.

Definition Update_MustBuild b : outcome (string * list any) BuildError := MustBuild (Update_Build b).
Definition Update_SQL b : string := SQL (Update_Build b).
Definition Update_Args b : list any := Args (Update_Build b).

(** ** Specification *)

Fixpoint set_template (first : bool) (sets : list (setClause any)) : list (segment any) :=
  match sets with
  | [] => []
  | s :: r => SText ((if first then "" else ", ") +:+ set_column s +:+ " = ")
              :: SParam (set_value s) :: set_template false r
  end.

Definition update_template b : list (segment any) :=
  SText ("UPDATE " +:+ u_table b +:+ " SET ") :: set_template true (u_sets b)
  ++ clause_segs " WHERE " (u_where b) ++ [SText (buildReturningClause (u_returning b))].

Definition update_valid b : Prop :=
  matches columnNameRegex (u_table b) ∧ u_sets b ≠ [] ∧
  Forall (λ s, column_allowed (u_qb b) (set_column s)) (u_sets b) ∧
  Forall (column_allowed (u_qb b)) (u_returning b).

(** ** Lemmas *)

Lemma set_loop_spec sets parts (args : list any) i :
  set_loop sets parts args i =
  (parts ++ imap (λ k s, set_column s +:+ " = $" +:+ itoa (i + Z.of_nat k)) sets,
   args ++ map set_value sets, i + Z.of_nat (length sets)).
Proof.
  revert parts args i. induction sets as [|s r IH]; intros parts args i; simpl.
  { rewrite !app_nil_r. f_equal. lia. }
  rewrite IH, <-!app_assoc. simpl. rewrite Z.add_0_r. f_equal; [|lia].
  do 3 f_equal. apply imap_ext. intros k x _. simpl. do 3 f_equal. lia.
Qed.

Lemma set_template_args first sets : seg_args (set_template first sets) = map set_value sets.
Proof.
  revert first. induction sets as [|s r IH]; intros first; [done|]. cbn [set_template].
  rewrite !seg_args_cons. simpl. by rewrite IH.
Qed.

Lemma set_template_next first sets i :
  next_index i (set_template first sets) = i + Z.of_nat (length sets).
Proof.
  revert first i. induction sets as [|s r IH]; intros first i; simpl; [lia|]. rewrite IH. lia.
Qed.

Lemma set_template_render first sets i :
  sets ≠ [] →
  render i (set_template first sets) =
  (if first then "" else ", ")
  +:+ strings_Join (imap (λ k s, set_column s +:+ " = $" +:+ itoa (i + Z.of_nat k)) sets) ", ".
Proof.
  revert first i. induction sets as [|s r IH]; intros first i Hne; [done|].
  cbn [set_template render]. rewrite imap_cons. unfold compose.
  assert (imap (λ k s, set_column s +:+ " = $" +:+ itoa (i + Z.of_nat (S k))) r =
    imap (λ k s, set_column s +:+ " = $" +:+ itoa (i + 1 + Z.of_nat k)) r) as ->.
  { apply imap_ext. intros. simpl. do 3 f_equal. lia. }
  destruct (decide (r = [])) as [->|Hr].
  - simpl. rewrite Z.add_0_r. by autorewrite with gostr.
  - rewrite IH, strings_Join_cons by (done || by destruct r).
    rewrite Z.add_0_r. by autorewrite with gostr.
Qed.

Lemma buildSetClause_spec b i :
  u_sets b ≠ [] →
  buildSetClause b i =
  (render i (set_template true (u_sets b)), seg_args (set_template true (u_sets b)),
   next_index i (set_template true (u_sets b))).
Proof.
  intros Hne. unfold buildSetClause.
  by rewrite set_loop_spec, set_template_render, set_template_args, set_template_next.
Qed.

Lemma buildWhereClause_spec b i :
  buildWhereClause b i =
  (render i (clause_segs " WHERE " (u_where b)), seg_args (clause_segs " WHERE " (u_where b)),
   next_index i (clause_segs " WHERE " (u_where b))).
Proof.
  rewrite <-buildConditionClauses_spec. unfold buildWhereClause. by destruct (u_where b).
Qed.

Lemma validateUpdate_None b : validateUpdate b = None ↔ update_valid b.
Proof.
  unfold validateUpdate, update_valid.
  rewrite <-validateTableName_spec, <-(first_err_allowed _ _ InvalidReturningColumn).
  assert (first_err (λ s : setClause any, validateColumnName (u_qb b) (set_column s)) (u_sets b) = None
    ↔ Forall (λ s, column_allowed (u_qb b) (set_column s)) (u_sets b)) as <-.
  { rewrite first_err_None. apply Forall_iff. intros. apply validateColumnName_spec. }
  destruct (validateTableName (u_table b)); [naive_solver|].
  destruct (u_sets b) as [|s r]; [naive_solver|]. case_match; naive_solver.
Qed.

Lemma Update_Build_template b :
  Update_Build b =
  match validateUpdate b with
  | Some e => Err e
  | None => Ok (render 1 (update_template b), seg_args (update_template b))
  end.
Proof.
  unfold Update_Build. destruct (validateUpdate b) eqn:Hv; [done|].
  apply validateUpdate_None in Hv as (_ & Hne & _).
  rewrite buildSetClause_spec by done. rewrite buildWhereClause_spec. f_equal.
  unfold update_template. rewrite !seg_args_cons, !seg_args_app, seg_args_cons.
  cbn [render seg_values app]. rewrite !render_app. cbn [render].
  autorewrite with gostr. by rewrite !app_nil_r.
Qed.

Lemma set_template_balanced first (sets : list (setClause any)) :
  Forall balanced (set_template first sets).
Proof. revert first. induction sets; intros first; repeat constructor. done. Qed.

Lemma update_template_balanced b :
  Forall balanced_clause (u_where b) → Forall balanced (update_template b).
Proof.
  intros Hw. constructor; [done|]. rewrite !Forall_app. split_and!.
  - apply set_template_balanced.
  - by apply clause_segs_balanced.
  - by repeat constructor.
Qed.
End Update.

(** ** Properties *)

(** C12: an UPDATE is accepted exactly when its table, SET columns and RETURNING
    columns are valid and it sets at least one column; the statement is then the
    rendering of its template: SET placeholders [$1..$n] first, the WHERE
    placeholders continuing from [$(n+1)], and the arguments in the same order
    (all SET values, then the WHERE values). *)
Theorem Update_Build_refines_template {any} (b : UpdateBuilder any) sql args :
  Update_Build b = Ok (sql, args) ↔
  update_valid b ∧
  sql = "UPDATE " +:+ u_table b +:+ " SET "
        +:+ strings_Join (imap (λ k s, set_column s +:+ " = $" +:+ itoa (1 + Z.of_nat k)) (u_sets b)) ", "
        +:+ render (1 + Z.of_nat (length (u_sets b))) (clause_segs " WHERE " (u_where b))
        +:+ buildReturningClause (u_returning b) ∧
  args = map set_value (u_sets b) ++ mjoin (map w_args (u_where b)).
Proof.
  assert (∀ n (ws : list (whereClause any)), seg_args (condition_segs n ws) = mjoin (map w_args ws))
    as Hargs.
  { intros n ws. revert n. induction ws as [|w r IH]; intros n; [done|]. cbn [condition_segs].
    rewrite !seg_args_cons, IH. done. }
  rewrite Update_Build_template, <-validateUpdate_None.
  destruct (validateUpdate b) eqn:Hv; [naive_solver|].
  apply validateUpdate_None in Hv as (_ & Hne & _).
  assert (render 1 (update_template b) = "UPDATE " +:+ u_table b +:+ " SET "
    +:+ strings_Join (imap (λ k s, set_column s +:+ " = $" +:+ itoa (1 + Z.of_nat k)) (u_sets b)) ", "
    +:+ render (1 + Z.of_nat (length (u_sets b))) (clause_segs " WHERE " (u_where b))
    +:+ buildReturningClause (u_returning b)) as ->.
  { unfold update_template. cbn [render]. rewrite !render_app, set_template_render by done.
    rewrite set_template_next. cbn [render]. by autorewrite with gostr. }
  assert (seg_args (update_template b) = map set_value (u_sets b) ++ mjoin (map w_args (u_where b))) as ->.
  { unfold update_template. rewrite seg_args_cons, !seg_args_app, set_template_args.
    rewrite seg_args_cons. simpl. rewrite app_nil_r. f_equal.
    destruct (u_where b) as [|w r]; [done|]. unfold clause_segs. by rewrite seg_args_cons, Hargs. }
  split; [intros [<- <-]%Ok_pair_inj; done|naive_solver].
Qed.
