(* ===== verification/Delete.v ===== *)
(** * postgres/delete.go: the DELETE builder and its safeguard *)

From S2P Require Import Prelude GoLib QueryCore Insert Update.

Record DeleteBuilder (any : Type) := mkDelete {
  d_qb : QueryBuilder;
  d_table : string;
  d_where : list (whereClause any);
  d_returning : list string;
  d_allowUnrestricted : bool
}.
Arguments mkDelete {any}.
Arguments d_qb {any}.
Arguments d_table {any}.
Arguments d_where {any}.
Arguments d_returning {any}.
Arguments d_allowUnrestricted {any}.

Section Delete.
Context {any : Type}.
Implicit Types b : DeleteBuilder any.

Definition Delete (table : string) : DeleteBuilder any :=
  mkDelete (NewQueryBuilder []) table [] [] false.

Definition DeleteWithAllowlist (table : string) (allowed : list string) : DeleteBuilder any :=
  mkDelete (NewQueryBuilder allowed) table [] [] false.

Definition Delete_add_where b (w : whereClause any) : DeleteBuilder any :=
  mkDelete (d_qb b) (d_table b) (d_where b ++ [w]) (d_returning b) (d_allowUnrestricted b).

Definition Delete_Where b (condition : string) (args : list any) : DeleteBuilder any :=
  Delete_add_where b (mkWhere condition args false).

Definition Delete_OrWhere b (condition : string) (args : list any) : DeleteBuilder any :=
  Delete_add_where b (mkWhere condition args true).

Definition Delete_WhereIn b (column : string) (values : list any) : DeleteBuilder any :=
  match values with
  | [] => b
  | _ => Delete_add_where b
           (mkWhere (in_condition column " IN (" (length values)) values false)
  end.

Definition Delete_Returning b (columns : list string) : DeleteBuilder any :=
  mkDelete (d_qb b) (d_table b) (d_where b) (d_returning b ++ columns) (d_allowUnrestricted b).

Definition AllowUnrestrictedDelete b : DeleteBuilder any :=
  mkDelete (d_qb b) (d_table b) (d_where b) (d_returning b) true.

(** [Build]; its WHERE loop is the one of [buildConditionClauses], started from
    the statement text and a nil argument slice. *)
Definition Delete_Build b : result (string * list any) BuildError :=
  match validateTableName (d_table b) with
  | Some err => Err err
  | None =>
      match d_where b, d_allowUnrestricted b with
      | [], false => Err UnrestrictedDelete
      | ws, _ =>
          let sb := "DELETE FROM " +:+ d_table b in
          let '(sb, args, _) :=
            match ws with
            | [] => (sb, [], 1)
            | _ => condition_loop 0 ws (sb +:+ " WHERE ") [] 1
            end in
          Ok (sb +:+ buildReturningClause (d_returning b), args)
      end
  end.

Definition Delete_MustBuild b : outcome (string * list any) BuildError := MustBuild (Delete_Build b).
Definition Delete_SQL b : string := SQL (Delete_Build b).
Definition Delete_Args b : list any := Args (Delete_Build b).

(** ** Specification *)

Definition delete_template b : list (segment any) :=
  SText ("DELETE FROM " +:+ d_table b) :: clause_segs " WHERE " (d_where b)
  ++ [SText (buildReturningClause (d_returning b))].

Definition delete_valid b : Prop :=
  matches columnNameRegex (d_table b) ∧ (d_where b ≠ [] ∨ d_allowUnrestricted b = true).

Inductive delete_call : Type :=
| DWhere (condition : string) (args : list any)
| DOrWhere (condition : string) (args : list any)
| DWhereIn (column : string) (values : list any)
| DReturning (columns : list string)
| DAllowUnrestricted.

Definition delete_apply (c : delete_call) b : DeleteBuilder any :=
  match c with
  | DWhere c a => Delete_Where b c a
  | DOrWhere c a => Delete_OrWhere b c a
  | DWhereIn c v => Delete_WhereIn b c v
  | DReturning cols => Delete_Returning b cols
  | DAllowUnrestricted => AllowUnrestrictedDelete b
  end.

Definition delete_run (calls : list delete_call) b : DeleteBuilder any :=
  fold_left (λ b c, delete_apply c b) calls b.

(** ** Lemmas *)

Lemma Delete_Build_template b :
  Delete_Build b = Err UnrestrictedDelete ∧ validateTableName (d_table b) = None
    ∧ d_where b = [] ∧ d_allowUnrestricted b = false ∨
  (∃ e, validateTableName (d_table b) = Some e ∧ Delete_Build b = Err e) ∨
  (delete_valid b ∧ Delete_Build b = Ok (render 1 (delete_template b), seg_args (delete_template b))).
Proof.
  unfold Delete_Build, delete_valid, delete_template. rewrite <-validateTableName_spec.
  destruct (validateTableName (d_table b)); [right; left; by eexists|].
  rewrite seg_args_cons, seg_args_app, seg_args_cons. cbn [render seg_values].
  rewrite render_app. cbn [render].
  destruct (d_where b) as [|w r], (d_allowUnrestricted b); [|left; auto|..];
    right; right; (split; [split; [done|by auto]|]); rewrite ?condition_loop_spec, ?clause_segs_cons;
    rewrite ?seg_args_cons; cbn [render seg_values]; autorewrite with gostr;
    rewrite ?app_nil_r; reflexivity.
Qed.

Lemma delete_run_unrestricted calls b :
  DAllowUnrestricted ∉ calls → d_allowUnrestricted (delete_run calls b) = d_allowUnrestricted b.
Proof.
  revert b. induction calls as [|c r IH]; intros b; [done|].
  intros [Hc Hr]%not_elem_of_cons. simpl. rewrite IH by done.
  destruct c; try done. by destruct values.
Qed.

Lemma delete_run_table calls b : d_table (delete_run calls b) = d_table b.
Proof.
  revert b. induction calls as [|c r IH]; intros b; [done|]. simpl. rewrite IH.
  destruct c; try done. by destruct values.
Qed.
End Delete.

(** ** Properties *)

(** [Build] of a DELETE succeeds exactly when the table name is valid and
    there is a WHERE condition or the explicit opt-in; otherwise the error is the
    table's, or [UnrestrictedDelete].  The statement is the rendering of its
    template, numbered from [$1]. *)
Lemma Delete_Build_spec {any} (b : DeleteBuilder any) :
  match Delete_Build b with
  | Ok (sql, args) =>
      delete_valid b ∧ sql = render 1 (delete_template b) ∧ args = seg_args (delete_template b)
  | Err e =>
      validateTableName (d_table b) = Some e ∨
      (e = UnrestrictedDelete ∧ d_where b = [] ∧ d_allowUnrestricted b = false)
  end.
Proof.
  destruct (Delete_Build_template b) as [(-> & _ & ? & ?)|[(e & He & ->)|(Hv & ->)]]; auto.
Qed.

(** C9: the safeguard: a chain of builder calls without
    [AllowUnrestrictedDelete] never yields a DELETE without a WHERE condition. *)
Theorem Delete_never_unrestricted {any} table allowed (calls : list (@delete_call any)) sql args :
  DAllowUnrestricted ∉ calls →
  Delete_Build (delete_run calls (DeleteWithAllowlist table allowed)) = Ok (sql, args) →
  ∃ w ws, d_where (delete_run calls (DeleteWithAllowlist table allowed)) = w :: ws ∧
    ∃ rest, sql = "DELETE FROM " +:+ table +:+ " WHERE " +:+ rest.
Proof.
  intros Hc Hb. set (b := delete_run calls (DeleteWithAllowlist table allowed)) in *.
  assert (d_table b = table) as Htab by (unfold b; by rewrite delete_run_table).
  destruct (Delete_Build_template b) as [(Hr & _)|[(e & _ & Hr)|((_ & Hw) & Hr)]];
    rewrite Hb in Hr; try done.
  apply Ok_pair_inj in Hr as [-> _]. unfold delete_template.
  destruct Hw as [Hw|Hu].
  - destruct (d_where b) as [|w ws]; [done|]. exists w, ws. split; [done|].
    rewrite Htab. eexists. cbn [render clause_segs app]. by autorewrite with gostr.
  - unfold b in Hu. by rewrite delete_run_unrestricted in Hu.
Qed.

Lemma Delete_never_unrestricted_witness :
  ∃ w ws, d_where (delete_run [DWhere "id = ?" [7]; DReturning ["id"]] (DeleteWithAllowlist "t" [])) = w :: ws ∧
    ∃ rest, "DELETE FROM t WHERE id = $1 RETURNING id" = "DELETE FROM " +:+ "t" +:+ " WHERE " +:+ rest.
Proof.
  apply (Delete_never_unrestricted "t" [] [DWhere "id = ?" [7]; DReturning ["id"]]
    "DELETE FROM t WHERE id = $1 RETURNING id" [7]).
  - intros Hin. apply list_elem_of_In in Hin. simpl in Hin. intuition discriminate.
  - vm_compute. reflexivity.
Defined.

(** The three builders treat RETURNING differently: for a column outside a
    non-empty allowlist, INSERT and UPDATE refuse to build, while DELETE with the
    same allowlist builds the statement and returns the column. *)
Lemma Delete_returning_unchecked {any} table allowed col secret (v : any) (w : whereClause any) :
  matches columnNameRegex table → col ∈ allowed → matches columnNameRegex col →
  secret ∉ allowed → secret ≠ "*" →
  Insert_Build (Insert_Returning (Insert_Values (Insert_Columns
    (InsertWithAllowlist table allowed) [col]) [v]) [secret]) = Err (InvalidReturningColumn secret) ∧
  Update_Build (Update_Returning (Update_Set (UpdateWithAllowlist table allowed) col v) [secret])
    = Err (InvalidReturningColumn secret) ∧
  Delete_Build (Delete_Returning (Delete_add_where (DeleteWithAllowlist table allowed) w) [secret])
    = Ok ("DELETE FROM " +:+ table +:+ " WHERE " +:+ (replacePlaceholders (w_condition w) 1).1
          +:+ " RETURNING " +:+ secret, w_args w).
Proof.
  intros Ht Hcol Hm Hsec Hstar.
  set (qb := NewQueryBuilder allowed).
  assert (validateColumnName qb col = None) as Hok.
  { apply validateColumnName_spec. split; [intros ->; apply MatchString_spec in Hm; done|].
    right. split; [done|]. unfold qb. simpl. set_solver. }
  assert (∃ e, validateColumnName qb secret = Some e) as [e He].
  { destruct (validateColumnName qb secret) eqn:Hv; [by eexists|].
    apply validateColumnName_spec in Hv as [_ [Hemp|[_ Hin]]]; unfold qb in *; simpl in *; set_solver. }
  apply validateTableName_spec in Ht. split_and!.
  - unfold Insert_Build, validateInsert, validateInsertColumns, validateReturningColumns. simpl.
    fold qb. rewrite Ht, Hok. simpl. rewrite decide_False by done. by rewrite He.
  - unfold Update_Build, validateUpdate. simpl. fold qb. by rewrite Ht, Hok, He.
  - unfold Delete_Build. simpl. rewrite Ht.
    destruct (replacePlaceholders (w_condition w) 1) as [t k]. simpl. do 2 f_equal.
    by autorewrite with gostr.
Qed.

Lemma Delete_returning_unchecked_witness :
  Delete_Build (Delete_Returning (Delete_add_where (DeleteWithAllowlist "users" ["id"])
    (mkWhere "id = ?" [7] false)) ["password_hash"])
  = Ok ("DELETE FROM users WHERE id = $1 RETURNING password_hash", [7]).
Proof.
  refine (proj2 (proj2 (Delete_returning_unchecked "users" ["id"] "id" "password_hash" 7
    (mkWhere "id = ?" [7] false) _ _ _ _ _))).
  - by apply MatchString_spec.
  - by apply list_elem_of_In; left.
  - by apply MatchString_spec.
  - intros Hin. apply list_elem_of_In in Hin. simpl in Hin. intuition discriminate.
  - discriminate.
Defined.
