(* ===== verification/Bindings.v ===== *)
(** * UPDATE and DELETE: chains of calls and where their values end up

    The counterpart of [Select_calls_bind] for the builders of update.go and
    delete.go.  A chain is a list of calls; the caller's obligation on a raw
    condition is one value per [?]. *)

From S2P Require Import Prelude GoLib QueryCore Insert Update Delete.

Section Bindings.
Context {any : Type}.

Inductive update_call : Type :=
| USet (column : string) (value : any)
| USetMap (values : list (string * any))
| UWhere (condition : string) (args : list any)
| UOrWhere (condition : string) (args : list any)
| UWhereIn (column : string) (values : list any)
| UReturning (columns : list string).

Definition update_apply (c : update_call) (b : UpdateBuilder any) : UpdateBuilder any :=
  match c with
  | USet c v => Update_Set b c v
  | USetMap vs => Update_SetMap b vs
  | UWhere c a => Update_Where b c a
  | UOrWhere c a => Update_OrWhere b c a
  | UWhereIn c v => Update_WhereIn b c v
  | UReturning cols => Update_Returning b cols
  end.

Definition update_run (calls : list update_call) (b : UpdateBuilder any) : UpdateBuilder any :=
  fold_left (λ b c, update_apply c b) calls b.

Definition update_call_balanced (c : update_call) : Prop :=
  match c with
  | UWhere c a | UOrWhere c a => arity c = length a
  | UWhereIn col _ => plain col
  | _ => True
  end.

Definition delete_call_balanced (c : delete_call (any := any)) : Prop :=
  match c with
  | DWhere c a | DOrWhere c a => arity c = length a
  | DWhereIn col _ => plain col
  | _ => True
  end.

(** Where the values of a statement with the given WHERE clauses stand. *)
Definition binds_all (clauses : list (whereClause any)) (sql : string) (args : list any) : Prop :=
  ∀ w, w ∈ clauses →
    ∃ sql1 sql2 args1 args2,
      sql = sql1 +:+ (replacePlaceholders (w_condition w) (1 + Z.of_nat (length args1))).1 +:+ sql2 ∧
      args = args1 ++ w_args w ++ args2.

(** ** Lemmas *)

Lemma in_balanced col op (values : list any) isOr :
  plain col → is_ascii op = true → arity op = 0%nat →
  balanced_clause (mkWhere (in_condition col op (length values)) values isOr).
Proof. intros. by apply arity_in_condition. Qed.

Lemma add_clause_balanced (ws : list (whereClause any)) w :
  Forall balanced_clause ws → balanced_clause w → Forall balanced_clause (ws ++ [w]).
Proof. intros. apply Forall_app. by split; [|constructor]. Qed.

Lemma update_run_balanced calls b :
  Forall balanced_clause (u_where b) → Forall update_call_balanced calls →
  Forall balanced_clause (u_where (update_run calls b)).
Proof.
  intros Hb Hall. revert b Hb. induction Hall as [|c r Hc _ IH]; intros b Hb; [done|].
  apply IH. destruct c; simpl in *; try done; try by apply add_clause_balanced.
  unfold Update_WhereIn. destruct values; [done|]. apply add_clause_balanced; [done|by apply in_balanced].
Qed.

Lemma delete_run_balanced calls (b : DeleteBuilder any) :
  Forall balanced_clause (d_where b) → Forall delete_call_balanced calls →
  Forall balanced_clause (d_where (delete_run calls b)).
Proof.
  intros Hb Hall. revert b Hb. induction Hall as [|c r Hc _ IH]; intros b Hb; [done|].
  apply IH. destruct c; simpl in *; try done; try by apply add_clause_balanced.
  unfold Delete_WhereIn. destruct values; [done|]. apply add_clause_balanced; [done|by apply in_balanced].
Qed.

Lemma delete_template_balanced (b : DeleteBuilder any) :
  Forall balanced_clause (d_where b) → Forall balanced (delete_template b).
Proof.
  intros Hw. constructor; [done|]. apply Forall_app. split; [by apply clause_segs_balanced|].
  by repeat constructor.
Qed.

(** One placeholder per value, numbered from 1, every clause at its place. *)
Lemma template_binds_all segs (clauses : list (whereClause any)) :
  Forall balanced segs → (∀ w, w ∈ clauses → SCond (w_condition w) (w_args w) ∈ segs) →
  next_index 1 segs - 1 = Z.of_nat (length (seg_args segs)) ∧
  binds_all clauses (render 1 segs) (seg_args segs).
Proof.
  intros Hb Hin. split; [rewrite next_index_balanced by done; lia|].
  intros w Hw. by apply template_binds; [|apply Hin].
Qed.
(** The SET list of a template. *)
Lemma set_template_lookup first (sets : list (setClause any)) k s i :
  sets !! k = Some s →
  ∃ sql1 sql2, render i (set_template first sets) =
    sql1 +:+ set_column s +:+ " = $" +:+ itoa (i + Z.of_nat k) +:+ sql2.
Proof.
  revert first k i. induction sets as [|x r IH]; intros first k i Hs; [done|].
  destruct k as [|k]; cbn [lookup list_lookup] in Hs; [injection Hs as ->|cbn [set_template render]].
  - exists (if first then "" else ", "), (render (i + 1) (set_template false r)).
    rewrite Z.add_0_r. cbn [set_template render]. rewrite <-!string_app_assoc. reflexivity.
  - destruct (IH false k (i + 1) Hs) as (sql1 & sql2 & ->).
    replace (i + 1 + Z.of_nat k) with (i + Z.of_nat (S k)) by lia.
    exists (((if first then "" else ", ") +:+ set_column x +:+ " = ") +:+ "$" +:+ itoa i +:+ sql1), sql2.
    by rewrite <-!string_app_assoc.
Qed.

Lemma update_sets_bind (b : UpdateBuilder any) k s :
  u_sets b !! k = Some s →
  seg_args (update_template b) !! k = Some (set_value s) ∧
  ∃ sql1 sql2, render 1 (update_template b) =
    sql1 +:+ set_column s +:+ " = $" +:+ itoa (1 + Z.of_nat k) +:+ sql2.
Proof.
  intros Hs. unfold update_template. rewrite seg_args_cons, seg_args_app, set_template_args. split.
  - cbn [seg_values]. rewrite app_nil_l, lookup_app_l.
    + by rewrite list_lookup_fmap, Hs.
    + rewrite length_map. by eapply lookup_lt_Some.
  - cbn [render]. rewrite render_app.
    destruct (set_template_lookup true _ _ _ 1 Hs) as (sql1 & sql2 & ->).
    exists (("UPDATE " +:+ u_table b +:+ " SET ") +:+ sql1),
      (sql2 +:+ render (next_index 1 (set_template true (u_sets b)))
                  (clause_segs " WHERE " (u_where b) ++ [SText (buildReturningClause (u_returning b))])).
    by rewrite <-!string_app_assoc.
Qed.
End Bindings.
Arguments update_call any : clear implicits.

(** ** Properties *)

(** C13: binding of UPDATE and DELETE.  After any chain of builder calls that gives
    each raw condition one value per [?] (and [WhereIn] a column without [?]), a
    successful [Build] has exactly one placeholder per value; the k-th SET column
    is assigned placeholder k, which stands for its own value, and each WHERE
    condition appears numbered from just after the values that precede it, its own
    values standing at those positions. *)
Theorem write_calls_bind {any} table allowed sql (args : list any) :
  (∀ calls, Forall update_call_balanced calls →
     let b := update_run calls (UpdateWithAllowlist table allowed) in
     Update_Build b = Ok (sql, args) →
     next_index 1 (update_template b) - 1 = Z.of_nat (length args) ∧
     (∀ k s, u_sets b !! k = Some s →
        args !! k = Some (set_value s) ∧
        ∃ sql1 sql2, sql = sql1 +:+ set_column s +:+ " = $" +:+ itoa (1 + Z.of_nat k) +:+ sql2) ∧
     binds_all (u_where b) sql args) ∧
  (∀ calls, Forall delete_call_balanced calls →
     let b := delete_run calls (DeleteWithAllowlist table allowed) in
     Delete_Build b = Ok (sql, args) →
     next_index 1 (delete_template b) - 1 = Z.of_nat (length args) ∧
     binds_all (d_where b) sql args).
Proof.
  split; intros calls Hc b Hb.
  - assert (Forall balanced_clause (u_where b)) as Hw by (by apply update_run_balanced).
    rewrite Update_Build_template in Hb. destruct (validateUpdate b); [done|].
    apply Ok_pair_inj in Hb as [<- <-].
    destruct (template_binds_all (update_template b) (u_where b)) as [Hn Hbind].
    { by apply update_template_balanced. }
    { intros w Hin. apply list_elem_of_further. rewrite !elem_of_app. right. left. by apply clause_segs_elem. }
    split_and!; [done|apply update_sets_bind|done].
  - assert (Forall balanced_clause (d_where b)) as Hw by (by apply delete_run_balanced).
    destruct (Delete_Build_template b) as [(He & _)|[(e & _ & He)|(_ & He)]]; rewrite He in Hb; [done..|].
    apply Ok_pair_inj in Hb as [<- <-]. apply template_binds_all; [by apply delete_template_balanced|].
    intros w Hin. apply list_elem_of_further. rewrite elem_of_app. left. by apply clause_segs_elem.
Qed.

Definition demo_update_calls : list (update_call string) :=
  [ USet "name" "bob"; UWhere "id = ?" ["7"]; UReturning ["id"]; USet "age" "30";
    UWhereIn "status" ["new"; "open"] ].

Definition demo_delete_calls : list (delete_call (any := string)) :=
  [ DWhere "a = ? OR b = ?" ["1"; "2"]; DOrWhere "c = ?" ["3"] ].

Lemma write_calls_bind_witness :
  let sql := "UPDATE users SET name = $1, age = $2 WHERE id = $3 AND status IN ($4, $5) RETURNING id" in
  let args := ["bob"; "30"; "7"; "new"; "open"] in
  let b := update_run demo_update_calls (UpdateWithAllowlist "users" ["id"; "name"; "age"]) in
  Update_Build b = Ok (sql, args) ∧ args !! 1%nat = Some "30" ∧ binds_all (u_where b) sql args.
Proof.
  intros sql args b. assert (Update_Build b = Ok (sql, args)) as Hb by (vm_compute; reflexivity).
  split; [exact Hb|].
  destruct (proj1 (write_calls_bind "users" ["id"; "name"; "age"] sql args) demo_update_calls)
    as (_ & Hset & Hbind).
  - repeat apply Forall_cons_2; try apply Forall_nil_2; try exact I; try reflexivity.
    split; [by apply is_ascii_valid|]. apply (bool_decide_unpack _). by vm_compute.
  - exact Hb.
  - split; [|exact Hbind]. apply (Hset 1%nat (mkSet "age" "30")). vm_compute. reflexivity.
Defined.

Lemma delete_demo :
  Delete_Build (delete_run demo_delete_calls (DeleteWithAllowlist "t" [])) =
  Ok ("DELETE FROM t WHERE a = $1 OR b = $2 OR c = $3", ["1"; "2"; "3"]).
Proof. vm_compute. reflexivity. Qed.
