(* ===== verification/Interfaces.v ===== *)
(** * postgres/interfaces.go: what the transaction manager asks of a pool

    [TxPool] holds the operations of the [Pool] and [Tx] interfaces that
    [TxManager] calls, over a state [S] the implementation chooses; [TxPoolOk]
    is the promise the pgx-backed implementation makes about their errors. *)

From S2P Require Import Prelude GoLib GoErrors PgErrors.

Class TxPool (S : Type) := {
  tp_Tx : Type;
  tp_TxOptions : Type;
  tp_BeginTx : tp_TxOptions → M S (result tp_Tx goerror);
  tp_Commit : tp_Tx → M S (option goerror);
  tp_Rollback : tp_Tx → M S (option goerror)
}.

(** Errors of [BeginTx] and [Commit] arrive as connection errors. *)
Class TxPoolOk (S : Type) `{TxPool S} : Prop := {
  tp_BeginTx_code opts s e s' :
    tp_BeginTx opts s = (Err e, s') → pg_GetCode (Some e) = pg_CodeConnection;
  tp_Commit_code tx s e s' :
    tp_Commit tx s = (Some e, s') → pg_GetCode (Some e) = pg_CodeConnection
}.
