(* ===== verification/PoolConfig.v ===== *)
(** * postgres/pool.go: pool configuration

    [Logger] is the logger type of txova-go-core and [logging_Default] its
    default logger; a [PoolConfig] may hold none ([nil]).  A configuration option
    is any function on the configuration, as in the code. *)

From S2P Require Import Prelude GoLib.

Record PoolConfig (Logger : Type) := mkPoolConfig {
  ConnString : string;
  MaxConns : Z;
  MinConns : Z;
  MaxConnLifetime : Z;
  MaxConnIdleTime : Z;
  HealthCheckPeriod : Z;
  ConnectTimeout : Z;
  SlowQueryThreshold : Z;
  pool_Logger : option Logger
}.
Arguments mkPoolConfig {Logger}.
Arguments ConnString {Logger}.
Arguments MaxConns {Logger}.
Arguments MinConns {Logger}.
Arguments MaxConnLifetime {Logger}.
Arguments MaxConnIdleTime {Logger}.
Arguments HealthCheckPeriod {Logger}.
Arguments ConnectTimeout {Logger}.
Arguments SlowQueryThreshold {Logger}.
Arguments pool_Logger {Logger}.

(** The messages of [Validate]. *)
Inductive PoolConfigError : Type :=
| ConnStringRequired
| MaxConnsTooSmall
| MinConnsNegative
| MinExceedsMax (minConns maxConns : Z).

Definition PoolConfigError_text (e : PoolConfigError) : string :=
  match e with
  | ConnStringRequired => "connection string is required"
  | MaxConnsTooSmall => "max connections must be at least 1"
  | MinConnsNegative => "min connections cannot be negative"
  | MinExceedsMax mn mx =>
      "min connections (" +:+ itoa mn +:+ ") cannot exceed max connections (" +:+ itoa mx +:+ ")"
  end.

(** [config.DatabaseConfig] of txova-go-core: the DSN it renders and the
    [MaxConnections] field, a Go [int]. *)
Record DatabaseConfig := mkDatabaseConfig {
  dbc_DSN : string;
  dbc_MaxConnections : Z
}.

Section Config.
Context {Logger : Type}.
Variable logging_Default : Logger.
Implicit Types c : PoolConfig Logger.

Definition DefaultPoolConfig : PoolConfig Logger :=
  mkPoolConfig "" 25 5 Hour (30 * Minute) Minute (5 * Second) Second (Some logging_Default).

Definition PoolOption : Type := PoolConfig Logger → PoolConfig Logger.

Definition WithConnString (s : string) : PoolOption := λ c,
  mkPoolConfig s (MaxConns c) (MinConns c) (MaxConnLifetime c) (MaxConnIdleTime c)
    (HealthCheckPeriod c) (ConnectTimeout c) (SlowQueryThreshold c) (pool_Logger c).
Definition WithMaxConns (n : Z) : PoolOption := λ c,
  mkPoolConfig (ConnString c) n (MinConns c) (MaxConnLifetime c) (MaxConnIdleTime c)
    (HealthCheckPeriod c) (ConnectTimeout c) (SlowQueryThreshold c) (pool_Logger c).
Definition WithMinConns (n : Z) : PoolOption := λ c,
  mkPoolConfig (ConnString c) (MaxConns c) n (MaxConnLifetime c) (MaxConnIdleTime c)
    (HealthCheckPeriod c) (ConnectTimeout c) (SlowQueryThreshold c) (pool_Logger c).
Definition WithMaxConnLifetime (d : Z) : PoolOption := λ c,
  mkPoolConfig (ConnString c) (MaxConns c) (MinConns c) d (MaxConnIdleTime c)
    (HealthCheckPeriod c) (ConnectTimeout c) (SlowQueryThreshold c) (pool_Logger c).
Definition WithMaxConnIdleTime (d : Z) : PoolOption := λ c,
  mkPoolConfig (ConnString c) (MaxConns c) (MinConns c) (MaxConnLifetime c) d
    (HealthCheckPeriod c) (ConnectTimeout c) (SlowQueryThreshold c) (pool_Logger c).
Definition WithHealthCheckPeriod (d : Z) : PoolOption := λ c,
  mkPoolConfig (ConnString c) (MaxConns c) (MinConns c) (MaxConnLifetime c) (MaxConnIdleTime c)
    d (ConnectTimeout c) (SlowQueryThreshold c) (pool_Logger c).
Definition WithConnectTimeout (d : Z) : PoolOption := λ c,
  mkPoolConfig (ConnString c) (MaxConns c) (MinConns c) (MaxConnLifetime c) (MaxConnIdleTime c)
    (HealthCheckPeriod c) d (SlowQueryThreshold c) (pool_Logger c).
Definition WithSlowQueryThreshold (d : Z) : PoolOption := λ c,
  mkPoolConfig (ConnString c) (MaxConns c) (MinConns c) (MaxConnLifetime c) (MaxConnIdleTime c)
    (HealthCheckPeriod c) (ConnectTimeout c) d (pool_Logger c).
Definition WithLogger (l : option Logger) : PoolOption := λ c,
  mkPoolConfig (ConnString c) (MaxConns c) (MinConns c) (MaxConnLifetime c) (MaxConnIdleTime c)
    (HealthCheckPeriod c) (ConnectTimeout c) (SlowQueryThreshold c) l.

Definition apply_options (opts : list PoolOption) c : PoolConfig Logger :=
  fold_left (λ c opt, opt c) opts c.

(** [int32(n)]: the low 32 bits, signed. *)
Definition to_int32 (n : Z) : Z := (n + 2147483648) mod 4294967296 - 2147483648.

Definition FromDatabaseConfig (dbCfg : DatabaseConfig) (opts : list PoolOption) : PoolConfig Logger :=
  let cfg := WithConnString (dbc_DSN dbCfg) DefaultPoolConfig in
  let maxConns := dbc_MaxConnections dbCfg in
  let maxConns := if maxInt32 <? maxConns then maxInt32 else maxConns in
  let maxConns := if maxConns <? 1 then 1 else maxConns in
  apply_options opts (WithMaxConns (to_int32 maxConns) cfg).

Definition PoolConfig_Validate c : option PoolConfigError :=
  if decide (ConnString c = "") then Some ConnStringRequired
  else if MaxConns c <? 1 then Some MaxConnsTooSmall
  else if MinConns c <? 0 then Some MinConnsNegative
  else if MaxConns c <? MinConns c then Some (MinExceedsMax (MinConns c) (MaxConns c))
  else None.

(** What an accepted configuration satisfies. *)
Definition pool_config_ok c : Prop :=
  ConnString c ≠ "" ∧ 0 ≤ MinConns c ≤ MaxConns c ∧ 1 ≤ MaxConns c.

Lemma Validate_None c : PoolConfig_Validate c = None ↔ pool_config_ok c.
Proof.
  unfold PoolConfig_Validate, pool_config_ok. case_decide; [naive_solver|].
  destruct (Z.ltb_spec (MaxConns c) 1); [split; [done|lia]|].
  destruct (Z.ltb_spec (MinConns c) 0); [split; [done|lia]|].
  destruct (Z.ltb_spec (MaxConns c) (MinConns c)); [split; [done|lia]|].
  split; [intros _; split; [done|lia]|done].
Qed.

Lemma to_int32_small n : in_int32 n → to_int32 n = n.
Proof. unfold in_int32, maxInt32, to_int32. intros. rewrite Z.mod_small; lia. Qed.

(** The clamp: into [1, 2^31 - 1] whatever the [int]. *)
Lemma FromDatabaseConfig_MaxConns dbCfg :
  MaxConns (FromDatabaseConfig dbCfg []) = Z.max 1 (Z.min maxInt32 (dbc_MaxConnections dbCfg)).
Proof.
  unfold FromDatabaseConfig. cbn [apply_options fold_left WithMaxConns MaxConns].
  unfold maxInt32. destruct (Z.ltb_spec 2147483647 (dbc_MaxConnections dbCfg)).
  - rewrite to_int32_small; [simpl; lia|]. unfold in_int32, maxInt32. simpl. lia.
  - destruct (Z.ltb_spec (dbc_MaxConnections dbCfg) 1);
      (rewrite to_int32_small; [|unfold in_int32, maxInt32]; lia).
Qed.
End Config.

(** ** Properties *)

(** Converting any [int] connection limit never wraps: the pool size is the
    limit clamped to [1, 2^31-1].  The resulting configuration is accepted exactly
    when the DSN is non-empty and the limit is at least the default [MinConns] of
    5: for every smaller limit the clamped value is rejected by [Validate]. *)
Lemma FromDatabaseConfig_clamps {Logger} (dflt : Logger) dbCfg :
  let cfg := FromDatabaseConfig dflt dbCfg [] in
  MaxConns cfg = Z.max 1 (Z.min maxInt32 (dbc_MaxConnections dbCfg)) ∧ in_int32 (MaxConns cfg) ∧
  (PoolConfig_Validate cfg = None ↔ dbc_DSN dbCfg ≠ "" ∧ 5 ≤ dbc_MaxConnections dbCfg).
Proof.
  intros cfg. pose proof (FromDatabaseConfig_MaxConns dflt dbCfg) as Hmax. fold cfg in Hmax.
  split; [done|]. split; [unfold in_int32, maxInt32 in *; lia|].
  rewrite Validate_None. unfold pool_config_ok. rewrite Hmax.
  change (MinConns cfg) with 5. change (ConnString cfg) with (dbc_DSN dbCfg).
  unfold maxInt32. split; intros [? ?]; (split; [done|]); lia.
Qed.
