(* ===== verification/Pool.v ===== *)
(** * postgres/pool.go, conn.go, tx.go: the wrappers around pgx

    The driver (pgx, pgxpool) is the parameter [Pgx]: its handles, its calls over
    a world [W], and the clock.  The wrappers run in [Logged W], the driver's
    world together with the log entries they emit.  [interfaces.go]'s [Pool] and
    [Tx], as the transaction manager uses them, are the class [TxPool]; the
    wrappers are an instance. *)

From S2P Require Import Prelude GoLib GoErrors PgErrors Interfaces PoolConfig.

Open Scope go_scope.

(** ** Logging *)

Inductive log_level : Type := LInfo | LWarn | LError.

Record log_entry := mkLog {
  le_level : log_level;
  le_msg : string;
  le_sql : string
}.

Record Logged (W : Type) := mkLogged {
  lw_env : W;
  lw_log : list log_entry
}.
Arguments mkLogged {W}.
Arguments lw_env {W}.
Arguments lw_log {W}.

Definition emit {W} (l : log_entry) : M (Logged W) () :=
  λ w, (tt, mkLogged (lw_env w) (lw_log w ++ [l])).

(** Run a driver call. *)
Definition lift {W A} (m : M W A) : M (Logged W) A :=
  λ w, let '(a, e) := m (lw_env w) in (a, mkLogged e (lw_log w)).

(** ** The driver *)

(** [Exec], [Query] and [QueryRow] of a pgx handle. *)
Record driver_querier (W H any CommandTag Rows Row : Type) := mkQuerier {
  q_Exec : H → string → list any → M W (CommandTag * option goerror);
  q_Query : H → string → list any → M W (Rows * option goerror);
  q_QueryRow : H → string → list any → M W Row
}.
Arguments q_Exec {W H any CommandTag Rows Row}.
Arguments q_Query {W H any CommandTag Rows Row}.
Arguments q_QueryRow {W H any CommandTag Rows Row}.

Class Pgx (W : Type) := {
  px_any : Type;
  px_CommandTag : Type;
  px_Rows : Type;
  px_Row : Type;
  px_TxOptions : Type;
  px_Tx : Type;
  px_Conn : Type;
  px_Pool : Type;
  px_tx_querier : driver_querier W px_Tx px_any px_CommandTag px_Rows px_Row;
  px_conn_querier : driver_querier W px_Conn px_any px_CommandTag px_Rows px_Row;
  px_pool_querier : driver_querier W px_Pool px_any px_CommandTag px_Rows px_Row;
  px_tx_Begin : px_Tx → M W (result px_Tx goerror);
  px_tx_Commit : px_Tx → M W (option goerror);
  px_tx_Rollback : px_Tx → M W (option goerror);
  px_RawConn : Type;
  px_tx_Conn : px_Tx → px_RawConn;
  px_conn_Begin : px_Conn → M W (result px_Tx goerror);
  px_conn_BeginTx : px_Conn → px_TxOptions → M W (result px_Tx goerror);
  px_conn_Ping : px_Conn → M W (option goerror);
  px_conn_Release : px_Conn → M W ();
  px_pool_Acquire : px_Pool → M W (result px_Conn goerror);
  px_pool_Begin : px_Pool → M W (result px_Tx goerror);
  px_pool_BeginTx : px_Pool → px_TxOptions → M W (result px_Tx goerror);
  px_pool_Ping : px_Pool → M W (option goerror);
  px_pool_Close : px_Pool → M W ();
  time_Now : M W Z
}.

(** [pgxpool.Stat], by its accessors. *)
Record pgxpool_Stat := mkPgxpoolStat {
  st_AcquireCount : Z;
  st_AcquireDuration : Z;
  st_AcquiredConns : Z;
  st_CanceledAcquireCount : Z;
  st_ConstructingConns : Z;
  st_EmptyAcquireCount : Z;
  st_IdleConns : Z;
  st_MaxConns : Z;
  st_TotalConns : Z;
  st_NewConnsCount : Z;
  st_MaxLifetimeDestroyCount : Z;
  st_MaxIdleDestroyCount : Z
}.

Record PoolStats := mkPoolStats {
  ps_AcquireCount : Z;
  ps_AcquireDuration : Z;
  ps_AcquiredConns : Z;
  ps_CanceledAcquireCount : Z;
  ps_ConstructingConns : Z;
  ps_EmptyAcquireCount : Z;
  ps_IdleConns : Z;
  ps_MaxConns : Z;
  ps_TotalConns : Z;
  ps_NewConnsCount : Z;
  ps_MaxLifetimeDestroyCount : Z;
  ps_MaxIdleDestroyCount : Z
}.

(** ** Truncation of logged SQL *)

Definition truncateSQL (sql : string) : string :=
  if len sql <=? 200 then sql else take_bytes 200 sql +:+ "...".

Section Wrappers.
Context {W : Type} `{Pgx W} `{CoreErrors} {Logger : Type}.

(** [pgxTx]: a driver transaction with the slow-query threshold it inherits. *)
Record pgxTx := mkTx { t_tx : px_Tx; t_logger : Logger; t_slowQueryThreshold : Z }.
Record pgxConn := mkConn { c_conn : px_Conn; c_logger : Logger; c_slowQueryThreshold : Z }.
Record pgxPool := mkPool { p_pool : px_Pool; p_config : PoolConfig Logger; p_logger : Logger }.

(** [logSlowQuery] of the three wrappers. *)
Definition logSlowQuery (threshold : Z) (sql : string) (duration : Z) : M (Logged W) () :=
  if (0 <? threshold) && (threshold <=? duration)
  then emit (mkLog LWarn "slow query detected" (truncateSQL sql))
  else sret tt.

(** The common frame: the call between two readings of the clock. *)
Definition timed {A} (threshold : Z) (sql : string) (call : M W A) : M (Logged W) A :=
  let! start := lift time_Now in
  let! a := lift call in
  let! stop := lift time_Now in
  let! _ := logSlowQuery threshold sql (stop - start) in
  sret a.

Definition exec_with {H} (q : H → string → list px_any → M W (px_CommandTag * option goerror))
    (h : H) (threshold : Z) (sql : string) (args : list px_any)
    : M (Logged W) (px_CommandTag * option goerror) :=
  let! r := timed threshold sql (q h sql args) in
  let '(tag, err) := r in
  match err with
  | Some e =>
      let! _ := emit (mkLog LError "query execution failed" (truncateSQL sql)) in
      sret (tag, option_map EDb (FromPgError (Some e)))
  | None => sret (tag, None)
  end.

Definition query_with {H} (q : H → string → list px_any → M W (px_Rows * option goerror))
    (h : H) (threshold : Z) (sql : string) (args : list px_any)
    : M (Logged W) (option px_Rows * option goerror) :=
  let! r := timed threshold sql (q h sql args) in
  let '(rows, err) := r in
  match err with
  | Some e =>
      let! _ := emit (mkLog LError "query execution failed" (truncateSQL sql)) in
      sret (None, option_map EDb (FromPgError (Some e)))
  | None => sret (Some rows, None)
  end.

(** [if err := call(); err != nil { return Wrap(CodeConnection, msg, err) }]. *)
Definition wrap_call (msg : string) (call : M W (option goerror)) : M (Logged W) (option goerror) :=
  let! err := lift call in
  sret (match err with
        | Some e => Some (EDb (pg_Wrap pg_CodeConnection msg (Some e)))
        | None => None
        end).

Definition wrap_handle {A B} (msg : string) (mk : A → B) (call : M W (result A goerror))
    : M (Logged W) (result B goerror) :=
  let! r := lift call in
  sret (match r with
        | Ok a => Ok (mk a)
        | Err e => Err (EDb (pg_Wrap pg_CodeConnection msg (Some e)))
        end).

(** ** tx.go *)

Definition pgxTx_Exec (t : pgxTx) := exec_with (q_Exec px_tx_querier) (t_tx t) (t_slowQueryThreshold t).
Definition pgxTx_Query (t : pgxTx) := query_with (q_Query px_tx_querier) (t_tx t) (t_slowQueryThreshold t).
Definition pgxTx_QueryRow (t : pgxTx) (sql : string) (args : list px_any) : M (Logged W) px_Row :=
  timed (t_slowQueryThreshold t) sql (q_QueryRow px_tx_querier (t_tx t) sql args).

Definition pgxTx_Begin (t : pgxTx) : M (Logged W) (result pgxTx goerror) :=
  wrap_handle "failed to begin nested transaction" (λ tx, mkTx tx (t_logger t) (t_slowQueryThreshold t))
    (px_tx_Begin (t_tx t)).
Definition pgxTx_Commit (t : pgxTx) : M (Logged W) (option goerror) :=
  wrap_call "failed to commit transaction" (px_tx_Commit (t_tx t)).
Definition pgxTx_Conn (t : pgxTx) : px_RawConn := px_tx_Conn (t_tx t).
Definition pgxTx_Rollback (t : pgxTx) : M (Logged W) (option goerror) :=
  wrap_call "failed to rollback transaction" (px_tx_Rollback (t_tx t)).

(** ** conn.go *)

Definition pgxConn_Exec (c : pgxConn) :=
  exec_with (q_Exec px_conn_querier) (c_conn c) (c_slowQueryThreshold c).
Definition pgxConn_Query (c : pgxConn) :=
  query_with (q_Query px_conn_querier) (c_conn c) (c_slowQueryThreshold c).
Definition pgxConn_QueryRow (c : pgxConn) (sql : string) (args : list px_any) : M (Logged W) px_Row :=
  timed (c_slowQueryThreshold c) sql (q_QueryRow px_conn_querier (c_conn c) sql args).

Definition pgxConn_Begin (c : pgxConn) : M (Logged W) (result pgxTx goerror) :=
  wrap_handle "failed to begin transaction" (λ tx, mkTx tx (c_logger c) (c_slowQueryThreshold c))
    (px_conn_Begin (c_conn c)).
Definition pgxConn_BeginTx (c : pgxConn) (opts : px_TxOptions) : M (Logged W) (result pgxTx goerror) :=
  wrap_handle "failed to begin transaction" (λ tx, mkTx tx (c_logger c) (c_slowQueryThreshold c))
    (px_conn_BeginTx (c_conn c) opts).
Definition pgxConn_Ping (c : pgxConn) : M (Logged W) (option goerror) :=
  wrap_call "ping failed" (px_conn_Ping (c_conn c)).
Definition pgxConn_Release (c : pgxConn) : M (Logged W) () := lift (px_conn_Release (c_conn c)).

(** ** pool.go *)

Definition pool_threshold (p : pgxPool) : Z := SlowQueryThreshold (p_config p).

Definition pgxPool_Exec (p : pgxPool) := exec_with (q_Exec px_pool_querier) (p_pool p) (pool_threshold p).
Definition pgxPool_Query (p : pgxPool) := query_with (q_Query px_pool_querier) (p_pool p) (pool_threshold p).
Definition pgxPool_QueryRow (p : pgxPool) (sql : string) (args : list px_any) : M (Logged W) px_Row :=
  timed (pool_threshold p) sql (q_QueryRow px_pool_querier (p_pool p) sql args).

Definition pgxPool_Acquire (p : pgxPool) : M (Logged W) (result pgxConn goerror) :=
  wrap_handle "failed to acquire connection" (λ c, mkConn c (p_logger p) (pool_threshold p))
    (px_pool_Acquire (p_pool p)).
Definition pgxPool_Begin (p : pgxPool) : M (Logged W) (result pgxTx goerror) :=
  wrap_handle "failed to begin transaction" (λ tx, mkTx tx (p_logger p) (pool_threshold p))
    (px_pool_Begin (p_pool p)).
Definition pgxPool_BeginTx (p : pgxPool) (opts : px_TxOptions) : M (Logged W) (result pgxTx goerror) :=
  wrap_handle "failed to begin transaction" (λ tx, mkTx tx (p_logger p) (pool_threshold p))
    (px_pool_BeginTx (p_pool p) opts).
Definition pgxPool_Ping (p : pgxPool) : M (Logged W) (option goerror) :=
  wrap_call "ping failed" (px_pool_Ping (p_pool p)).
Definition pgxPool_Close (p : pgxPool) : M (Logged W) () :=
  let! _ := emit (mkLog LInfo "closing PostgreSQL connection pool" "") in
  lift (px_pool_Close (p_pool p)).

(** The driver's statistics, copied; [stat] is the driver's [Pool.Stat]. *)
Definition pgxPool_Stat (stat : px_Pool → M W pgxpool_Stat) (p : pgxPool) : M (Logged W) PoolStats :=
  let! stat := lift (stat (p_pool p)) in
  sret (mkPoolStats
    (st_AcquireCount stat)
    (st_AcquireDuration stat)
    (st_AcquiredConns stat)
    (st_CanceledAcquireCount stat)
    (st_ConstructingConns stat)
    (st_EmptyAcquireCount stat)
    (st_IdleConns stat)
    (st_MaxConns stat)
    (st_TotalConns stat)
    (st_NewConnsCount stat)
    (st_MaxLifetimeDestroyCount stat)
    (st_MaxIdleDestroyCount stat)).

(** ** Creating a pool *)

(** The fields of [pgxpool.Config] that are overwritten, and the rest of it. *)
Record pgxpool_Config (Rest : Type) := mkPgxpoolConfig {
  pc_MaxConns : Z;
  pc_MinConns : Z;
  pc_MaxConnLifetime : Z;
  pc_MaxConnIdleTime : Z;
  pc_HealthCheckPeriod : Z;
  pc_ConnectTimeout : Z;
  pc_rest : Rest
}.
Arguments mkPgxpoolConfig {Rest}.
Arguments pc_ConnectTimeout {Rest}.
Arguments pc_rest {Rest}.

Context {Rest : Type}.
Variable ParseConfig : string → result (pgxpool_Config Rest) goerror.
Variable NewWithConfig : pgxpool_Config Rest → M W (result px_Pool goerror).
Variable logging_Default : Logger.

Definition newPoolFromConfig (cfg : PoolConfig Logger) : M (Logged W) (result pgxPool goerror) :=
  let logger := match pool_Logger cfg with Some l => l | None => logging_Default end in
  match ParseConfig (ConnString cfg) with
  | Err e => sret (Err (EDb (pg_Wrap pg_CodeConnection "failed to parse connection string" (Some e))))
  | Ok poolCfg =>
      let poolCfg := mkPgxpoolConfig (MaxConns cfg) (MinConns cfg) (MaxConnLifetime cfg)
        (MaxConnIdleTime cfg) (HealthCheckPeriod cfg)
        (if 0 <? ConnectTimeout cfg then ConnectTimeout cfg else pc_ConnectTimeout poolCfg)
        (pc_rest poolCfg) in
      let! _ := emit (mkLog LInfo "creating PostgreSQL connection pool" "") in
      let! r := lift (NewWithConfig poolCfg) in
      match r with
      | Err e => sret (Err (EDb (pg_Wrap pg_CodeConnection "failed to create connection pool" (Some e))))
      | Ok pool =>
          let! _ := emit (mkLog LInfo "PostgreSQL connection pool created successfully" "") in
          sret (Ok (mkPool pool cfg logger))
      end
  end.

Definition NewPoolFromConfig (cfg : PoolConfig Logger) : M (Logged W) (result pgxPool goerror) :=
  match PoolConfig_Validate cfg with
  | Some err => sret (Err (EDb (pg_Wrap pg_CodeConnection "invalid pool configuration"
                                  (Some (EForeign (PoolConfigError_text err) [])))))
  | None => newPoolFromConfig cfg
  end.

Definition NewPool (opts : list PoolOption) : M (Logged W) (result pgxPool goerror) :=
  NewPoolFromConfig (apply_options opts (DefaultPoolConfig logging_Default)).
End Wrappers.

(** ** The wrappers implement the interface of the transaction manager *)

Section Implements.
Context {W : Type} `{Pgx W} `{CoreErrors} {Logger : Type}.

Definition pgxPool_TxPool (p : pgxPool (Logger := Logger)) : TxPool (Logged W) := {|
  tp_Tx := pgxTx (Logger := Logger);
  tp_TxOptions := px_TxOptions;
  tp_BeginTx := pgxPool_BeginTx p;
  tp_Commit := pgxTx_Commit;
  tp_Rollback := pgxTx_Rollback
|}.

Lemma wrap_call_code msg call (w : Logged W) e w' :
  wrap_call msg call w = (Some e, w') → pg_GetCode (Some e) = pg_CodeConnection.
Proof.
  unfold wrap_call, mthen, lift, sret. destruct (call (lw_env w)) as [[x|] ?];
    intros [= <- _]; done.
Qed.

Lemma wrap_handle_code {A B} msg (mk : A → B) call (w : Logged W) e w' :
  wrap_handle msg mk call w = (Err e, w') → pg_GetCode (Some e) = pg_CodeConnection.
Proof.
  unfold wrap_handle, mthen, lift, sret. destruct (call (lw_env w)) as [[x|x] ?];
    intros [= <- _]; done.
Qed.

Lemma pgxPool_TxPoolOk p : TxPoolOk (Logged W) (H := pgxPool_TxPool p).
Proof.
  constructor; simpl; intros; [by eapply wrap_handle_code|by eapply wrap_call_code].
Qed.

(** ** Lemmas on the common frame *)

(** The entry [logSlowQuery] adds. *)
Definition slow_entries (threshold : Z) (sql : string) (duration : Z) : list log_entry :=
  if (0 <? threshold) && (threshold <=? duration)
  then [mkLog LWarn "slow query detected" (truncateSQL sql)] else [].

Definition error_entries (sql : string) (err : option goerror) : list log_entry :=
  match err with
  | Some _ => [mkLog LError "query execution failed" (truncateSQL sql)]
  | None => []
  end.

Lemma timed_run {A} threshold sql (call : M W A) (w : Logged W) :
  timed threshold sql call w =
  let '(t0, e0) := time_Now (lw_env w) in
  let '(a, e1) := call e0 in
  let '(t1, e2) := time_Now e1 in
  (a, mkLogged e2 (lw_log w ++ slow_entries threshold sql (t1 - t0))).
Proof.
  unfold timed, mthen, lift, logSlowQuery, slow_entries, emit, sret.
  destruct (time_Now (lw_env w)) as [t0 e0]. simpl. destruct (call e0) as [a e1]. simpl.
  destruct (time_Now e1) as [t1 e2].
  destruct ((0 <? threshold) && (threshold <=? t1 - t0)); simpl; [done|by rewrite app_nil_r].
Qed.

Lemma take_bytes_length n s : (String.length (take_bytes n s) ≤ n)%nat.
Proof.
  revert s. induction n as [|n IH]; intros [|a s]; simpl; [lia..|]. specialize (IH s). lia.
Qed.
End Implements.

(** ** Properties *)

(** Logged SQL is bounded: [truncateSQL] keeps short statements, cuts longer
    ones to their first 200 bytes plus an ellipsis, and never exceeds 203 bytes. *)
Lemma truncateSQL_bounded sql :
  len (truncateSQL sql) ≤ 203 ∧
  (if len sql <=? 200 then truncateSQL sql = sql
   else truncateSQL sql = take_bytes 200 sql +:+ "..." ∧ ∃ rest, sql = take_bytes 200 sql +:+ rest).
Proof.
  unfold truncateSQL. destruct (Z.leb_spec (len sql) 200); [split; [lia|done]|].
  split; [|split; [done|apply take_bytes_prefix]].
  unfold len. rewrite string_length_app. pose proof (take_bytes_length 200 sql).
  change (String.length "...") with 3%nat. lia.
Qed.

(** C23: [Exec] and [Query] of pool, connection and transaction make one driver
    call between two clock readings.  A driver error is logged and returned as
    [FromPgError] of it ([Query] then returns no rows); a slow-query warning is
    logged exactly when the threshold is positive and the duration is at least the
    threshold (at equality too, where the comments say "exceeds"); nothing else is
    logged and the driver's result is passed through. *)
Theorem wrappers_exec_query {W} `{Pgx W} `{CoreErrors} {Logger : Type}
    (p : pgxPool (Logger := Logger)) (c : pgxConn (Logger := Logger)) (t : pgxTx (Logger := Logger)) sql args (w : Logged W) :
  let exec_spec H (q : H → string → list px_any → M W (px_CommandTag * option goerror)) h th :=
    let '(t0, e0) := time_Now (lw_env w) in
    let '((tag, err), e1) := q h sql args e0 in
    let '(t1, e2) := time_Now e1 in
    ((tag, option_map EDb (FromPgError err)),
     mkLogged e2 (lw_log w ++ slow_entries th sql (t1 - t0) ++ error_entries sql err)) in
  let query_spec H (q : H → string → list px_any → M W (px_Rows * option goerror)) h th :=
    let '(t0, e0) := time_Now (lw_env w) in
    let '((rows, err), e1) := q h sql args e0 in
    let '(t1, e2) := time_Now e1 in
    ((if err is None then Some rows else None, option_map EDb (FromPgError err)),
     mkLogged e2 (lw_log w ++ slow_entries th sql (t1 - t0) ++ error_entries sql err)) in
  pgxPool_Exec p sql args w = exec_spec _ (q_Exec px_pool_querier) (p_pool p) (pool_threshold p) ∧
  pgxConn_Exec c sql args w = exec_spec _ (q_Exec px_conn_querier) (c_conn c) (c_slowQueryThreshold c) ∧
  pgxTx_Exec t sql args w = exec_spec _ (q_Exec px_tx_querier) (t_tx t) (t_slowQueryThreshold t) ∧
  pgxPool_Query p sql args w = query_spec _ (q_Query px_pool_querier) (p_pool p) (pool_threshold p) ∧
  pgxConn_Query c sql args w = query_spec _ (q_Query px_conn_querier) (c_conn c) (c_slowQueryThreshold c) ∧
  pgxTx_Query t sql args w = query_spec _ (q_Query px_tx_querier) (t_tx t) (t_slowQueryThreshold t).
Proof.
  intros exec_spec query_spec.
  assert (∀ H q h th, exec_with q h th sql args w = exec_spec H q h th) as Hexec.
  { intros H' q h th. unfold exec_with, exec_spec, mthen. rewrite timed_run.
    destruct (time_Now (lw_env w)) as [t0 e0]. destruct (q h sql args e0) as [[tag err] e1].
    destruct (time_Now e1) as [t1 e2]. destruct err; simpl; by rewrite <-?app_assoc, ?app_nil_r. }
  assert (∀ H q h th, query_with q h th sql args w = query_spec H q h th) as Hquery.
  { intros H' q h th. unfold query_with, query_spec, mthen. rewrite timed_run.
    destruct (time_Now (lw_env w)) as [t0 e0]. destruct (q h sql args e0) as [[rows err] e1].
    destruct (time_Now e1) as [t1 e2]. destruct err; simpl; by rewrite <-?app_assoc, ?app_nil_r. }
  split_and!; (apply Hexec || apply Hquery).
Qed.

(** A pool is created only from a valid configuration, with that configuration
    and its logger (the default one for nil) kept; every failure (invalid configuration, unparsable connection string,
    driver failure) is reported as a connection error, and nothing is done before
    the configuration is accepted. *)
Lemma NewPoolFromConfig_validates {W} `{Pgx W} `{CoreErrors} {Logger Rest : Type}
    ParseConfig NewWithConfig dflt (cfg : PoolConfig Logger) (w : Logged W) :
  match NewPoolFromConfig (Rest := Rest) ParseConfig NewWithConfig dflt cfg w with
  | (Ok p, _) => pool_config_ok cfg ∧ p_config p = cfg ∧ p_logger p = default dflt (pool_Logger cfg)
  | (Err e, w') => pg_GetCode (Some e) = pg_CodeConnection ∧ (¬ pool_config_ok cfg → w' = w)
  end.
Proof.
  unfold NewPoolFromConfig. destruct (PoolConfig_Validate cfg) eqn:Hv.
  { simpl. done. }
  apply Validate_None in Hv. unfold newPoolFromConfig.
  destruct (ParseConfig (ConnString cfg)); [|simpl; by split].
  unfold mthen, emit, lift, sret. simpl. destruct (NewWithConfig _ _) as [[p|e] w1]; simpl; [|by split].
  split_and!; [done|done|]. by destruct (pool_Logger cfg).
Qed.
