(* ===== verification/TxManager.v ===== *)
(** * postgres/txmanager.go: transactions with retry

    [txManager] runs against the interface [TxPool] over a state [S].  Its own
    world adds the trace of what it does: begins, runs of the callback, commits,
    rollbacks, waits and log entries.  The callback acts on [S] and returns an
    error, nil, or panics.  The clock and the random source are [Runtime]. *)

From Stdlib Require Import ZArith Lia.
From S2P Require Import Prelude GoLib GoErrors PgErrors Interfaces.

Open Scope go_scope.

(** ** The context *)

(** A [context.Context]: [CtxTx] is a [WithValue] under [txContextKey] (a nil
    [Tx] is [None]); [B] is everything else a context holds. *)
Inductive Context (B Tx : Type) : Type :=
| CtxBase (b : B)
| CtxTx (parent : Context B Tx) (tx : option Tx).
Arguments CtxBase {B Tx} b.
Arguments CtxTx {B Tx} parent tx.

Definition TxFromContext {B Tx} (ctx : Context B Tx) : option Tx :=
  match ctx with
  | CtxBase _ => None
  | CtxTx _ tx => tx
  end.

Definition ContextWithTx {B Tx} (ctx : Context B Tx) (tx : option Tx) : Context B Tx := CtxTx ctx tx.

(** ** Configuration *)

Record TxManagerConfig (Logger : Type) := mkTxManagerConfig {
  MaxRetries : Z;
  RetryBaseDelay : Z;
  RetryMaxDelay : Z;
  tm_Logger : Logger
}.
Arguments mkTxManagerConfig {Logger}.
Arguments MaxRetries {Logger}.
Arguments RetryBaseDelay {Logger}.
Arguments RetryMaxDelay {Logger}.
Arguments tm_Logger {Logger}.

Definition DefaultTxManagerConfig {Logger} (logging_Default : Logger) : TxManagerConfig Logger :=
  mkTxManagerConfig 3 (50 * Millisecond) (2 * Second) logging_Default.

Definition TxManagerOption (Logger : Type) : Type := TxManagerConfig Logger → TxManagerConfig Logger.

Definition WithMaxRetries {Logger} (n : Z) : TxManagerOption Logger :=
  λ c, mkTxManagerConfig n (RetryBaseDelay c) (RetryMaxDelay c) (tm_Logger c).
Definition WithRetryBaseDelay {Logger} (d : Z) : TxManagerOption Logger :=
  λ c, mkTxManagerConfig (MaxRetries c) d (RetryMaxDelay c) (tm_Logger c).
Definition WithRetryMaxDelay {Logger} (d : Z) : TxManagerOption Logger :=
  λ c, mkTxManagerConfig (MaxRetries c) (RetryBaseDelay c) d (tm_Logger c).
Definition WithTxLogger {Logger} (l : Logger) : TxManagerOption Logger :=
  λ c, mkTxManagerConfig (MaxRetries c) (RetryBaseDelay c) (RetryMaxDelay c) l.

Record txManager (Pool Logger : Type) := mkTxManager {
  tm_pool : Pool;
  tm_config : TxManagerConfig Logger
}.
Arguments mkTxManager {Pool Logger}.
Arguments tm_pool {Pool Logger}.
Arguments tm_config {Pool Logger}.

Definition NewTxManager {Pool Logger} (logging_Default : Logger) (pool : Pool)
    (opts : list (TxManagerOption Logger)) : txManager Pool Logger :=
  mkTxManager pool (fold_left (λ c opt, opt c) opts (DefaultTxManagerConfig logging_Default)).

(** ** Which errors are retried *)

Definition isRetryable (err : goerror) : bool :=
  match errors_As sel_DbError err with
  | Some dbErr =>
      let code := pg_Error_Code dbErr in
      bool_decide (code = pg_CodeSerialization) || bool_decide (code = pg_CodeDeadlock)
  | None => false
  end.

(** ** The delay before a retry, for the random number drawn below a bound *)

Definition clampAttempt (attempt : Z) : Z :=
  let attempt := if attempt <? 1 then 1 else attempt in
  if 30 <? attempt then 30 else attempt.

(** The delay before jitter. *)
Definition cappedDelay {Logger} (c : TxManagerConfig Logger) (attempt : Z) : Z :=
  let delay := wrap64 (RetryBaseDelay c * Z.shiftl 1 (clampAttempt attempt - 1)) in
  if RetryMaxDelay c <? delay then RetryMaxDelay c else delay.

(** ** Running *)

(** [rand.Int64N] and the [select] between [ctx.Done()] and [time.After(delay)]:
    the wait yields [ctx.Err()] when the context ends it. *)
Class Runtime (S B : Type) := {
  rand_Int64N : Z → M S Z;
  select_wait : B → Z → M S (option goerror)
}.

Class RuntimeOk (S B : Type) `{Runtime S B} : Prop := {
  rand_Int64N_range n s r s' : 0 < n → rand_Int64N n s = (r, s') → 0 ≤ r < n
}.

Section Manager.
Context {S B Panic Logger : Type} `{TxPool S} `{Runtime S B} `{CoreErrors}.

Inductive tx_log : Type :=
| LogRetrying (attempt max_retries delay_ms : Z)
| LogRetryable (attempt : Z) (error : string)
| LogRollbackFailed (original_error rollback_error : string)
| LogPanic (p : Panic).

Inductive tx_event : Type :=
| EvBegin (r : result tp_Tx goerror)
| EvRun (tx : tp_Tx) (r : outcome (option goerror) Panic)
| EvCommit (tx : tp_Tx) (r : option goerror)
| EvRollback (tx : tp_Tx) (r : option goerror)
| EvWait (delay : Z) (r : option goerror)
| EvLog (l : tx_log).

Record TmWorld := mkTm { tm_env : S; tm_trace : list tx_event }.

Abbreviation MT A := (M TmWorld A).
Abbreviation tx_outcome := (outcome (option goerror) Panic).

(** A call outside the manager, recorded. *)
Definition act {A} (m : M S A) (ev : A → tx_event) : MT A :=
  λ w, let '(a, s) := m (tm_env w) in (a, mkTm s (tm_trace w ++ [ev a])).

Definition silent {A} (m : M S A) : MT A :=
  λ w, let '(a, s) := m (tm_env w) in (a, mkTm s (tm_trace w)).

Definition tm_log (l : tx_log) : MT () := λ w, (tt, mkTm (tm_env w) (tm_trace w ++ [EvLog l])).

Definition calculateRetryDelay (c : TxManagerConfig Logger) (attempt : Z) : MT Z :=
  let delay := cappedDelay c attempt in
  let halfWindow := Z.quot delay 2 in
  let! jitter := if 0 <? halfWindow then silent (rand_Int64N halfWindow) else sret 0 in
  sret (wrap64 (delay - Z.quot delay 4 + jitter)).

(** [executeTx]: one attempt; a panic of [fn] is re-raised after the rollback. *)
Definition executeTx (opts : tp_TxOptions) (fn : tp_Tx → M S tx_outcome) : MT tx_outcome :=
  let! b := act (tp_BeginTx opts) EvBegin in
  match b with
  | Err err => sret (Returns (Some err))
  | Ok tx =>
      let! r := act (fn tx) (EvRun tx) in
      match r with
      | Panics p =>
          let! _ := act (tp_Rollback tx) (EvRollback tx) in
          let! _ := tm_log (LogPanic p) in
          sret (Panics p)
      | Returns (Some err) =>
          let! rb := act (tp_Rollback tx) (EvRollback tx) in
          match rb with
          | Some rbErr =>
              let! _ := tm_log (LogRollbackFailed (Error_text err) (Error_text rbErr)) in
              sret (Returns (Some err))
          | None => sret (Returns (Some err))
          end
      | Returns None =>
          let! err := act (tp_Commit tx) (EvCommit tx) in
          sret (Returns err)
      end
  end.

(** The wait at the head of the loop body: [Some err] when the context ended. *)
Definition wait_before (c : TxManagerConfig Logger) (ctx : B) (attempt : Z) : MT (option goerror) :=
  if 0 <? attempt then
    let! delay := calculateRetryDelay c attempt in
    let! _ := tm_log (LogRetrying (attempt + 1) (MaxRetries c + 1) (Milliseconds delay)) in
    act (select_wait ctx delay) (EvWait delay)
  else sret None.

(** The loop of [executeWithRetry] over the attempts that are left. *)
Fixpoint retry_loop (c : TxManagerConfig Logger) (ctx : B) (opts : tp_TxOptions)
    (fn : tp_Tx → M S tx_outcome) (attempts : list Z) (lastErr : option goerror) : MT tx_outcome :=
  match attempts with
  | [] => sret (Returns (Some (EDb (pg_Wrap pg_CodeSerialization
                                      "transaction failed after max retries" lastErr))))
  | attempt :: rest =>
      let! cancelled := wait_before c ctx attempt in
      match cancelled with
      | Some e => sret (Returns (Some (EDb (pg_Wrap pg_CodeTimeout
                                              "context cancelled during retry" (Some e)))))
      | None =>
          let! r := executeTx opts fn in
          match r with
          | Panics p => sret (Panics p)
          | Returns None => sret (Returns None)
          | Returns (Some err) =>
              if isRetryable err then
                let! _ := tm_log (LogRetryable (attempt + 1) (Error_text err)) in
                retry_loop c ctx opts fn rest (Some err)
              else sret (Returns (Some err))
          end
      end
  end.

(** [for attempt := 0; attempt <= MaxRetries; attempt++]. *)
Definition executeWithRetry (c : TxManagerConfig Logger) (ctx : B) (opts : tp_TxOptions)
    (fn : tp_Tx → M S tx_outcome) : MT tx_outcome :=
  retry_loop c ctx opts fn (seqZ 0 (MaxRetries c + 1)) None.

(** What a context is besides the stored transaction. *)
Fixpoint ctx_base (ctx : Context B tp_Tx) : B :=
  match ctx with
  | CtxBase b => b
  | CtxTx parent _ => ctx_base parent
  end.

Definition WithTxOptions (c : TxManagerConfig Logger) (ctx : Context B tp_Tx) (opts : tp_TxOptions)
    (fn : tp_Tx → M S tx_outcome) : MT tx_outcome :=
  match TxFromContext ctx with
  | Some existingTx => silent (fn existingTx)
  | None => executeWithRetry c (ctx_base ctx) opts fn
  end.

(** [WithTx]: the zero [pgx.TxOptions]. *)
Definition WithTx (default : tp_TxOptions) (c : TxManagerConfig Logger) (ctx : Context B tp_Tx)
    (fn : tp_Tx → M S tx_outcome) : MT tx_outcome :=
  WithTxOptions c ctx default fn.
End Manager.

(** ** Specification: runs as traces *)

Section Specification.
Context {S B Panic Logger : Type} `{TxPool S} `{Runtime S B} `{CoreErrors}.

Abbreviation event := (tx_event (S := S) (Panic := Panic)).
Abbreviation run_outcome := (outcome (option goerror) Panic).

(** One attempt.  A commit and a begin are calls of the pool's interface. *)
Inductive attempt_run (opts : tp_TxOptions) : list event → run_outcome → Prop :=
| AttemptNoTx s e s' :
    tp_BeginTx opts s = (Err e, s') →
    attempt_run opts [EvBegin (Err e)] (Returns (Some e))
| AttemptCommit tx s r s' :
    tp_Commit tx s = (r, s') →
    attempt_run opts [EvBegin (Ok tx); EvRun tx (Returns None); EvCommit tx r] (Returns r)
| AttemptRollback tx e rb logs :
    (logs = [] ∨ ∃ e', rb = Some e' ∧ logs = [EvLog (LogRollbackFailed (Error_text e) (Error_text e'))]) →
    attempt_run opts ([EvBegin (Ok tx); EvRun tx (Returns (Some e)); EvRollback tx rb] ++ logs)
      (Returns (Some e))
| AttemptPanic tx p rb :
    attempt_run opts [EvBegin (Ok tx); EvRun tx (Panics p); EvRollback tx rb; EvLog (LogPanic p)]
      (Panics p).

(** What precedes an attempt: nothing before the first, a wait before a retry. *)
Inductive wait_run (c : TxManagerConfig Logger) : Z → list event → option goerror → Prop :=
| WaitFirst a : a ≤ 0 → wait_run c a [] None
| WaitRetry a delay r :
    0 < a →
    wait_run c a [EvLog (LogRetrying (a + 1) (MaxRetries c + 1) (Milliseconds delay)); EvWait delay r] r.

(** The attempts of [executeWithRetry], and its result. *)
Inductive retry_run (c : TxManagerConfig Logger) (opts : tp_TxOptions)
    : list Z → option goerror → list event → run_outcome → Prop :=
| RunExhausted last :
    retry_run c opts [] last []
      (Returns (Some (EDb (pg_Wrap pg_CodeSerialization "transaction failed after max retries" last))))
| RunCancelled a rest last pre e :
    wait_run c a pre (Some e) →
    retry_run c opts (a :: rest) last pre
      (Returns (Some (EDb (pg_Wrap pg_CodeTimeout "context cancelled during retry" (Some e)))))
| RunLast a rest last pre tr out :
    wait_run c a pre None → attempt_run opts tr out →
    (∀ e, out = Returns (Some e) → isRetryable e = false) →
    retry_run c opts (a :: rest) last (pre ++ tr) out
| RunAgain a rest last pre tr e tr' out :
    wait_run c a pre None → attempt_run opts tr (Returns (Some e)) → isRetryable e = true →
    retry_run c opts rest (Some e) tr' out →
    retry_run c opts (a :: rest) last
      (pre ++ tr ++ EvLog (LogRetryable (a + 1) (Error_text e)) :: tr') out.

(** The protocol of a transaction: which event may follow which. *)
Inductive phase : Type :=
| Idle
| Opened (tx : tp_Tx)
| Finished (tx : tp_Tx) (r : run_outcome).

Inductive phase_step : phase → event → phase → Prop :=
| PBeginErr e : phase_step Idle (EvBegin (Err e)) Idle
| PBegin tx : phase_step Idle (EvBegin (Ok tx)) (Opened tx)
| PRun tx r : phase_step (Opened tx) (EvRun tx r) (Finished tx r)
| PCommit tx r : phase_step (Finished tx (Returns None)) (EvCommit tx r) Idle
| PRollback tx e r : phase_step (Finished tx (Returns (Some e))) (EvRollback tx r) Idle
| PRollbackPanic tx p r : phase_step (Finished tx (Panics p)) (EvRollback tx r) Idle
| PWait d r : phase_step Idle (EvWait d r) Idle
| PLog p l : phase_step p (EvLog l) p.

Inductive phases : phase → list event → phase → Prop :=
| PhasesNil p : phases p [] p
| PhasesCons p q r e tr : phase_step p e q → phases q tr r → phases p (e :: tr) r.

(** Counting. *)
Definition is_begin (e : event) : bool := match e with EvBegin _ => true | _ => false end.
Definition is_committed (e : event) : bool := match e with EvCommit _ None => true | _ => false end.
Definition count (p : event → bool) (tr : list event) : Z := Z.of_nat (length (filter p tr)).

Lemma phases_app p q r tr1 tr2 : phases p tr1 q → phases q tr2 r → phases p (tr1 ++ tr2) r.
Proof. induction 1; simpl; [done|]. intros. econstructor; eauto. Qed.

Lemma count_app p tr1 tr2 : count p (tr1 ++ tr2) = count p tr1 + count p tr2.
Proof. unfold count. rewrite filter_app, length_app. lia. Qed.

Lemma count_nil p : count p [] = 0.
Proof. done. Qed.

Lemma count_cons p e tr : count p (e :: tr) = (if p e then 1 else 0) + count p tr.
Proof. unfold count. rewrite filter_cons. case_decide; destruct (p e); simpl; try done; lia. Qed.

(** ** The code refines the specification *)

(** [m] run from [w] returns [a] and appends [tr] to the trace. *)
Definition emits {A} (m : M (TmWorld (S := S) (Panic := Panic)) A) (R : list event → A → Prop) : Prop :=
  ∀ w, ∃ tr, tm_trace (m w).2 = tm_trace w ++ tr ∧ R tr (m w).1.

Lemma emits_mono {A} m (R R' : list event → A → Prop) :
  emits m R → (∀ tr a, R tr a → R' tr a) → emits m R'.
Proof. intros Hm HR w. destruct (Hm w) as (tr & ? & ?). eauto. Qed.

Lemma emits_ret {A} (a : A) (R : list event → A → Prop) : R [] a → emits (sret a) R.
Proof. intros HR w. exists []. simpl. by rewrite app_nil_r. Qed.

Lemma emits_bind {A C} (m : M TmWorld A) (k : A → M TmWorld C) R (R' : list event → C → Prop) :
  emits m R →
  (∀ tr a, R tr a → emits (k a) (λ tr' c, R' (tr ++ tr') c)) →
  emits (mthen m k) R'.
Proof.
  intros Hm Hk w. destruct (Hm w) as (tr & Htr & HR). unfold mthen.
  destruct (m w) as [a w1]. simpl in *. destruct (Hk tr a HR w1) as (tr' & Htr' & HR').
  exists (tr ++ tr'). by rewrite Htr', Htr, app_assoc.
Qed.

Lemma emits_act {A} (m : M S A) ev :
  emits (act m ev) (λ tr a, tr = [ev a] ∧ ∃ s s', m s = (a, s')).
Proof.
  intros w. unfold act. destruct (m (tm_env w)) as [a s] eqn:Hm. exists [ev a]. simpl. eauto.
Qed.

Lemma emits_silent {A} (m : M S A) : emits (silent m) (λ tr a, tr = [] ∧ ∃ s s', m s = (a, s')).
Proof.
  intros w. unfold silent. destruct (m (tm_env w)) as [a s] eqn:Hm.
  exists []. simpl. rewrite app_nil_r. eauto.
Qed.

Lemma emits_log l : emits (tm_log l) (λ tr _, tr = [EvLog l]).
Proof. intros w. by exists [EvLog l]. Qed.

Lemma emits_delay (c : TxManagerConfig Logger) a : emits (calculateRetryDelay c a) (λ tr _, tr = []).
Proof.
  unfold calculateRetryDelay. apply (emits_bind _ _ (λ tr _, tr = [])).
  - case_match; [|by apply emits_ret].
    eapply emits_mono; [apply emits_silent|]. by intros ? ? [-> _].
  - intros tr j ->. by apply emits_ret.
Qed.

Lemma emits_wait (c : TxManagerConfig Logger) ctx a : emits (wait_before c ctx a) (wait_run c a).
Proof.
  unfold wait_before. destruct (Z.ltb_spec 0 a) as [Ha|Ha].
  2:{ apply emits_ret. by constructor. }
  eapply emits_bind; [apply emits_delay|]. intros ? delay ->.
  eapply emits_bind; [apply emits_log|]. intros ? [] ->.
  eapply emits_mono; [apply emits_act|]. intros ? r [-> _]. by constructor.
Qed.

Lemma emits_executeTx opts fn : emits (executeTx opts fn) (attempt_run opts).
Proof.
  unfold executeTx. eapply emits_bind; [apply emits_act|].
  intros ? [tx|e] (-> & s & s' & Hb).
  2:{ apply emits_ret. by econstructor. }
  eapply emits_bind; [apply emits_act|]. intros ? [[e|]|p] (-> & _).
  - eapply emits_bind; [apply emits_act|]. intros ? [e'|] (-> & _).
    + eapply emits_bind; [apply emits_log|]. intros ? [] ->. apply emits_ret.
      apply (AttemptRollback opts tx e (Some e')). eauto.
    + apply emits_ret. apply (AttemptRollback opts tx e None []). by left.
  - eapply emits_bind; [apply emits_act|]. intros ? r (-> & ? & ? & Hc).
    apply emits_ret. by econstructor.
  - eapply emits_bind; [apply emits_act|]. intros ? rb (-> & _).
    eapply emits_bind; [apply emits_log|]. intros ? [] ->. apply emits_ret. constructor.
Qed.

Lemma emits_retry_loop (c : TxManagerConfig Logger) ctx opts fn l last :
  emits (retry_loop c ctx opts fn l last) (retry_run c opts l last).
Proof.
  revert last. induction l as [|a l IH]; intros last; simpl.
  { apply emits_ret. constructor. }
  eapply emits_bind; [apply emits_wait|]. intros pre [e|] Hpre.
  { apply emits_ret. rewrite app_nil_r. by constructor. }
  eapply emits_bind; [apply emits_executeTx|]. intros tr [[e|]|p] Htr.
  2,3: apply emits_ret; rewrite app_nil_r; by constructor.
  destruct (isRetryable e) eqn:He.
  - eapply emits_bind; [apply emits_log|]. intros ? [] ->.
    eapply emits_mono; [apply IH|]. intros tr' out Hout. simpl. by eapply RunAgain.
  - apply emits_ret. rewrite app_nil_r. apply RunLast; [done..|]. congruence.
Qed.

(** ** Facts about runs *)

Lemma wait_run_phases c a tr r : wait_run c a tr r → phases Idle tr Idle.
Proof. destruct 1; repeat econstructor. Qed.

Lemma attempt_run_phases opts tr out : attempt_run opts tr out → phases Idle tr Idle.
Proof.
  destruct 1 as [| |tx e rb logs [->|(e' & -> & ->)]|]; repeat econstructor.
Qed.

Lemma wait_run_count c a tr r p :
  (∀ l, p (EvLog l) = false) → (∀ d r, p (EvWait d r) = false) → wait_run c a tr r → count p tr = 0.
Proof. intros Hl Hw. destruct 1; rewrite ?count_cons, ?count_nil, ?Hl, ?Hw; done. Qed.

Lemma attempt_run_begins opts tr out : attempt_run opts tr out → count is_begin tr = 1.
Proof.
  destruct 1 as [| |tx e rb logs [->|(e' & -> & ->)]|]; done.
Qed.

Lemma attempt_run_commits opts tr out :
  attempt_run opts tr out →
  count is_committed tr = match out with Returns None => 1 | _ => 0 end.
Proof.
  destruct 1 as [|tx s [e|] s'|tx e rb logs [->|(e' & -> & ->)]|]; done.
Qed.
End Specification.

(** ** A concrete pool *)

(** Transactions are numbered; every call succeeds, the random number is 0 and no
    context ends a wait.  The callback below fails with a serialization failure
    in its first transaction. *)
Module CountingPool.
#[global] Instance pool : TxPool nat := {
  tp_Tx := nat;
  tp_TxOptions := ();
  tp_BeginTx _ n := (Ok n, S n);
  tp_Commit _ n := (None, n);
  tp_Rollback _ n := (None, n)
}.

#[global] Instance pool_ok : TxPoolOk nat.
Proof. by constructor. Qed.

#[global] Instance runtime : Runtime nat () := {
  rand_Int64N _ n := (0, n);
  select_wait _ _ n := (None, n)
}.

#[global] Instance runtime_ok : RuntimeOk nat ().
Proof. constructor. intros n r s s' Hn [= <- _]. lia. Qed.

Definition conflict : goerror := EDb (pg_New pg_CodeSerialization "could not serialize access").

Definition fn (tx : tp_Tx) : M nat (outcome (option goerror) ()) :=
  sret (Returns (if decide ((tx : nat) = 0%nat) then Some conflict else None)).

Definition opts : tp_TxOptions := tt.
Definition ctx : Context () tp_Tx := CtxBase ().
Definition start : TmWorld (S := nat) (Panic := ()) := mkTm 0%nat [].

(** A callback that fails in every transaction. *)
Definition never (tx : tp_Tx) : M nat (outcome (option goerror) ()) :=
  sret (Returns (Some conflict)).

Definition config : TxManagerConfig () := DefaultTxManagerConfig ().
End CountingPool.

(** ** Lemmas on whole runs *)

Section RunLemmas.
Context {S B Panic Logger : Type} `{TxPool S} `{Runtime S B} `{CoreErrors}.
Implicit Types c : TxManagerConfig Logger.

Lemma retry_run_phases c opts l last (tr : list (tx_event (Panic := Panic))) out :
  retry_run c opts l last tr out → phases Idle tr Idle.
Proof.
  induction 1; [constructor|by eapply wait_run_phases|..].
  - eapply phases_app; [by eapply wait_run_phases|by eapply attempt_run_phases].
  - eapply phases_app; [by eapply wait_run_phases|].
    eapply phases_app; [by eapply attempt_run_phases|]. by econstructor; [constructor|].
Qed.

Lemma retry_run_commits c opts l last (tr : list (tx_event (Panic := Panic))) out :
  retry_run c opts l last tr out →
  count is_committed tr = match out with Returns None => 1 | _ => 0 end.
Proof.
  assert (∀ a pre r, wait_run c a pre r → count (is_committed (Panic := Panic)) pre = 0) as Hw
    by (intros; by eapply wait_run_count).
  induction 1 as [|? ? ? ? ? Hp|? ? ? ? ? ? Hp Ha|? ? ? ? ? ? ? ? Hp Ha ? ? IH];
    rewrite ?count_app, ?count_cons, ?(Hw _ _ _ Hp); simpl; [done..| |];
    rewrite (attempt_run_commits _ _ _ Ha); [done|]. rewrite IH. lia.
Qed.

(** Attempts are numbered by the loop; each begins one transaction. *)
Lemma retry_run_begins c opts l last (tr : list (tx_event (Panic := Panic))) out :
  retry_run c opts l last tr out → 0 ≤ count is_begin tr ≤ Z.of_nat (length l).
Proof.
  assert (∀ a pre r, wait_run c a pre r → count (is_begin (Panic := Panic)) pre = 0) as Hw
    by (intros; by eapply wait_run_count).
  induction 1 as [|? ? ? ? ? Hp|? ? ? ? ? ? Hp Ha|? ? ? ? ? ? ? ? Hp Ha ? ? IH];
    rewrite ?count_app, ?count_cons, ?(Hw _ _ _ Hp), ?count_nil; simpl length; [lia..| |];
    rewrite (attempt_run_begins _ _ _ Ha); simpl; lia.
Qed.

(** How a run can end. *)
Definition ends_as c (opts : tp_TxOptions) (budget : Z)
    (tr : list (tx_event (Panic := Panic))) (out : outcome (option goerror) Panic) : Prop :=
  match out with
  | Returns None => ∃ tr0 tx, tr = tr0 ++ [EvRun tx (Returns None); EvCommit tx None]
  | Panics p =>
      ∃ tr0 tx rb, tr = tr0 ++ [EvRun tx (Panics p); EvRollback tx rb; EvLog (LogPanic p)]
  | Returns (Some e) =>
      (isRetryable e = false ∧ ∃ tr0 tr1, tr = tr0 ++ tr1 ∧ attempt_run opts tr1 (Returns (Some e))) ∨
      (∃ tr0 d cause, tr = tr0 ++ [EvWait d (Some cause)] ∧
         e = EDb (pg_Wrap pg_CodeTimeout "context cancelled during retry" (Some cause))) ∨
      (count is_begin tr = budget ∧ ∃ last, (∀ x, last = Some x → isRetryable x = true) ∧
         e = EDb (pg_Wrap pg_CodeSerialization "transaction failed after max retries" last))
  end.

Lemma ends_as_app c opts n m pre tr out :
  count is_begin pre = m → ends_as c opts n tr out → ends_as c opts (m + n) (pre ++ tr) out.
Proof.
  intros Hm. destruct out as [[e|]|p]; simpl.
  - intros [(Hr & tr0 & tr1 & -> & Ha)|[(tr0 & d & x & -> & ->)|(Hn & last & Hl & ->)]].
    + left. split; [done|]. exists (pre ++ tr0), tr1. by rewrite app_assoc.
    + right. left. exists (pre ++ tr0), d, x. by rewrite app_assoc.
    + right. right. rewrite count_app. split; [lia|eauto].
  - intros (tr0 & tx & ->). exists (pre ++ tr0), tx. by rewrite app_assoc.
  - intros (tr0 & tx & rb & ->). exists (pre ++ tr0), tx, rb. by rewrite app_assoc.
Qed.

Lemma attempt_run_ends c opts n tr out :
  attempt_run opts tr out → (∀ e, out = Returns (Some e) → isRetryable e = false) →
  ends_as c opts n tr out.
Proof.
  intros Ha Hr. destruct out as [[e|]|p]; simpl.
  - left. split; [by apply Hr|]. by exists [], tr.
  - inversion Ha; subst. by exists [EvBegin (Ok tx)], tx.
  - inversion Ha; subst. by exists [EvBegin (Ok tx)], tx, rb.
Qed.

Lemma retry_run_ends c opts l last (tr : list (tx_event (Panic := Panic))) out :
  retry_run c opts l last tr out → (∀ x, last = Some x → isRetryable x = true) →
  ends_as c opts (Z.of_nat (length l)) tr out.
Proof.
  assert (∀ a pre r, wait_run c a pre r → count (is_begin (Panic := Panic)) pre = 0) as Hw
    by (intros; by eapply wait_run_count).
  induction 1 as [|? ? ? pre e Hp|? ? ? pre tr out Hp Ha|a rest ? pre tr e tr' out Hp Ha Hr Hrun IH];
    intros Hlast.
  - right. right. eauto.
  - right. left. inversion Hp; subst. eexists [_], _, _. eauto.
  - apply (ends_as_app _ _ (Z.of_nat (length (a :: rest))) 0 pre); [by eapply Hw|].
    by apply attempt_run_ends.
  - simpl length. replace (Z.of_nat (Datatypes.S (length rest))) with (1 + Z.of_nat (length rest)) by lia.
    change (EvLog (LogRetryable (a + 1) (Error_text e)) :: tr')
      with ([EvLog (LogRetryable (a + 1) (Error_text e))] ++ tr').
    rewrite !app_assoc. apply ends_as_app; [|apply IH; congruence].
    rewrite !count_app, (Hw _ _ _ Hp), (attempt_run_begins _ _ _ Ha). done.
Qed.

(** An error with the connection code is not retried. *)
Lemma connection_not_retryable e : pg_GetCode (Some e) = pg_CodeConnection → isRetryable e = false.
Proof.
  unfold pg_GetCode, pg_AsError, isRetryable. destruct (errors_As sel_DbError e); [|done].
  by intros ->.
Qed.

(** A failed begin or commit. *)
Definition pool_failure (ev : tx_event (S := S) (Panic := Panic)) : option goerror :=
  match ev with
  | EvBegin (Err e) => Some e
  | EvCommit _ r => r
  | _ => None
  end.

(** No begin or commit failed, or only the last event is such a failure and its
    error is the result. *)
Definition failure_final (tr : list (tx_event (S := S) (Panic := Panic)))
    (out : outcome (option goerror) Panic) : Prop :=
  Forall (λ ev, pool_failure ev = None) tr ∨
  ∃ tr0 ev e, tr = tr0 ++ [ev] ∧ Forall (λ ev, pool_failure ev = None) tr0 ∧
    pool_failure ev = Some e ∧ out = Returns (Some e) ∧ isRetryable e = false.

Lemma failure_final_app pre tr out :
  Forall (λ ev, pool_failure ev = None) pre → failure_final tr out → failure_final (pre ++ tr) out.
Proof.
  intros Hpre [Htr|(tr0 & ev & e & -> & Htr & ?)].
  - left. by apply Forall_app.
  - right. exists (pre ++ tr0), ev, e. rewrite app_assoc. split_and!; [done|by apply Forall_app|naive_solver..].
Qed.

Lemma wait_run_no_failure c a tr r :
  wait_run c a tr r → Forall (λ ev, pool_failure ev = None) tr.
Proof. destruct 1; repeat constructor. Qed.

Context `{!TxPoolOk S}.

Lemma attempt_run_failure opts tr out : attempt_run opts tr out → failure_final tr out.
Proof.
  destruct 1 as [s x s' Hb|tx s [r|] s' Hc|tx x rb logs Hlogs|tx p rb].
  - right. exists [], (EvBegin (Err x)), x. split_and!; [done..|].
    eapply connection_not_retryable, tp_BeginTx_code, Hb.
  - right. exists [EvBegin (Ok tx); EvRun tx (Returns None)], (EvCommit tx (Some r)), r.
    split_and!; [done|repeat constructor|done..|].
    eapply connection_not_retryable, tp_Commit_code, Hc.
  - left. repeat constructor.
  - left. destruct Hlogs as [->|(e' & _ & ->)]; repeat constructor.
  - left. repeat constructor.
Qed.

Lemma retry_run_failure c opts l last (tr : list (tx_event (Panic := Panic))) out :
  retry_run c opts l last tr out → failure_final tr out.
Proof.
  induction 1 as [|? ? ? ? ? Hp|? ? ? ? ? ? Hp Ha|? ? ? pre tr e tr' out Hp Ha Hr Hrun IH].
  - left. constructor.
  - left. by eapply wait_run_no_failure.
  - apply failure_final_app; [by eapply wait_run_no_failure|by eapply attempt_run_failure].
  - apply failure_final_app; [by eapply wait_run_no_failure|].
    apply failure_final_app.
    + destruct (attempt_run_failure _ _ _ Ha) as [?|(? & ? & ? & _ & _ & _ & [= ->] & ?)]; [done|congruence].
    + change (failure_final ([EvLog (LogRetryable (a + 1) (Error_text e))] ++ tr') out).
      apply failure_final_app; [repeat constructor|done].
Qed.
End RunLemmas.

Lemma cappedDelay_no_overflow {Logger} (c : TxManagerConfig Logger) attempt :
  0 ≤ RetryBaseDelay c < 2 ^ 34 →
  cappedDelay c attempt =
  Z.min (RetryMaxDelay c) (RetryBaseDelay c * 2 ^ (Z.max 1 (Z.min 30 attempt) - 1)).
Proof.
  intros Hb. unfold cappedDelay. rewrite Z.shiftl_1_l.
  replace (clampAttempt attempt) with (Z.max 1 (Z.min 30 attempt)).
  2:{ unfold clampAttempt. destruct (Z.ltb_spec attempt 1), (Z.ltb_spec 30 1),
        (Z.ltb_spec 30 attempt); lia. }
  set (k := Z.max 1 (Z.min 30 attempt) - 1).
  assert (0 < 2 ^ k ≤ 2 ^ 29) by (split; [apply Z.pow_pos_nonneg|apply Z.pow_le_mono_r]; lia).
  change (2 ^ 29) with 536870912 in *. change (2 ^ 34) with 17179869184 in *.
  rewrite wrap64_small by (unfold in_int64, two63; nia).
  destruct (Z.ltb_spec (RetryMaxDelay c) (RetryBaseDelay c * 2 ^ k)); lia.
Qed.

(** ** Properties *)

(** C1: [WithTxOptions] is atomic: without a transaction in the context it begins
    at most [MaxRetries + 1] transactions, one at a time, closes each exactly
    once (commit if and only if the callback returned nil, rollback on an error
    or a panic) before anything else is begun, and returns nil exactly when one
    commit succeeded, on every other outcome none did. *)
Theorem WithTx_atomic {S B Panic Logger} `{TxPool S} `{Runtime S B} `{CoreErrors}
    (c : TxManagerConfig Logger) ctx opts (fn : tp_Tx → M S (outcome (option goerror) Panic)) w :
  TxFromContext ctx = None →
  let run := WithTxOptions c ctx opts fn w in
  ∃ tr, tm_trace run.2 = tm_trace w ++ tr ∧
    phases Idle tr Idle ∧
    count is_begin tr ≤ Z.max 0 (MaxRetries c + 1) ∧
    count is_committed tr = match run.1 with Returns None => 1 | _ => 0 end.
Proof.
  intros Hctx. cbv zeta. unfold WithTxOptions. rewrite Hctx. unfold executeWithRetry.
  destruct (emits_retry_loop c (ctx_base ctx) opts fn (seqZ 0 (MaxRetries c + 1)) None w)
    as (tr & Htr & Hrun).
  exists tr. split_and!; [done|by eapply retry_run_phases| |by eapply retry_run_commits].
  apply retry_run_begins in Hrun. rewrite length_seqZ in Hrun. lia.
Qed.

Lemma WithTx_atomic_witness :
  TxFromContext CountingPool.ctx = None ∧
  ∃ tr, tm_trace (WithTxOptions CountingPool.config CountingPool.ctx CountingPool.opts CountingPool.fn CountingPool.start).2
        = [] ++ tr ∧ count is_begin tr = 2 ∧ count is_committed tr = 1.
Proof.
  split; [done|].
  destruct (WithTx_atomic CountingPool.config CountingPool.ctx CountingPool.opts CountingPool.fn CountingPool.start eq_refl)
    as (tr & Htr & _ & _ & Hc).
  exists tr. split; [exact Htr|]. split; [|exact Hc].
  vm_compute in Htr. rewrite <-Htr. vm_compute. reflexivity.
Defined.

(** C7: without a transaction in the context the result of [WithTxOptions] says how
    the run ended: nil after a callback
    without error and a successful commit; a panic re-raised after the rollback
    of the transaction it happened in; otherwise the last attempt's error when it
    is not retryable, a timeout error when the context ended a wait, or a
    serialization error wrapping the last retryable one when exactly
    [MaxRetries + 1] attempts (none, for a negative [MaxRetries]) were made.  A
    failing rollback never replaces the callback's error. *)
Theorem WithTx_result {S B Panic Logger} `{TxPool S} `{Runtime S B} `{CoreErrors}
    (c : TxManagerConfig Logger) ctx opts (fn : tp_Tx → M S (outcome (option goerror) Panic)) w :
  TxFromContext ctx = None →
  let run := WithTxOptions c ctx opts fn w in
  ∃ tr, tm_trace run.2 = tm_trace w ++ tr ∧ ends_as c opts (Z.max 0 (MaxRetries c + 1)) tr run.1.
Proof.
  intros Hctx. cbv zeta. unfold WithTxOptions. rewrite Hctx. unfold executeWithRetry.
  destruct (emits_retry_loop c (ctx_base ctx) opts fn (seqZ 0 (MaxRetries c + 1)) None w)
    as (tr & Htr & Hrun).
  exists tr. split; [done|].
  apply retry_run_ends in Hrun; [|done]. rewrite length_seqZ in Hrun.
  by replace (Z.of_nat (Z.to_nat (MaxRetries c + 1))) with (Z.max 0 (MaxRetries c + 1)) in Hrun by lia.
Qed.

Lemma WithTx_result_witness :
  ∃ tr last, tm_trace (WithTxOptions CountingPool.config CountingPool.ctx CountingPool.opts CountingPool.never CountingPool.start).2 = [] ++ tr ∧
    count is_begin tr = 4 ∧ isRetryable last = true ∧
    (WithTxOptions CountingPool.config CountingPool.ctx CountingPool.opts CountingPool.never CountingPool.start).1 =
      Returns (Some (EDb (pg_Wrap pg_CodeSerialization "transaction failed after max retries" (Some last)))).
Proof.
  destruct (WithTx_result CountingPool.config CountingPool.ctx CountingPool.opts CountingPool.never CountingPool.start eq_refl) as (tr & Htr & Hend).
  exists tr, CountingPool.conflict. split; [exact Htr|].
  vm_compute in Htr. rewrite <-Htr. split; [vm_compute; reflexivity|]. split; [reflexivity|].
  vm_compute. reflexivity.
Defined.

(** C19: only the callback's errors are retried: with a pool that reports its own
    failures as connection errors, as [pgxPool] and [pgxTx] do, a failed begin
    or commit ends the run at once and its error is returned, so a serialization
    failure that the server reports at commit time is never retried. *)
Theorem WithTx_pool_failures_final {S B Panic Logger} `{TxPoolOk S} `{Runtime S B} `{CoreErrors}
    (c : TxManagerConfig Logger) ctx opts (fn : tp_Tx → M S (outcome (option goerror) Panic)) w :
  TxFromContext ctx = None →
  let run := WithTxOptions c ctx opts fn w in
  ∃ tr, tm_trace run.2 = tm_trace w ++ tr ∧ failure_final tr run.1.
Proof.
  intros Hctx. cbv zeta. unfold WithTxOptions. rewrite Hctx. unfold executeWithRetry.
  destruct (emits_retry_loop c (ctx_base ctx) opts fn (seqZ 0 (MaxRetries c + 1)) None w)
    as (tr & Htr & Hrun).
  exists tr. split; [done|by eapply retry_run_failure].
Qed.

Lemma WithTx_pool_failures_final_witness :
  TxPoolOk nat ∧
  ∃ tr, tm_trace (WithTxOptions CountingPool.config CountingPool.ctx CountingPool.opts CountingPool.fn CountingPool.start).2
        = [] ++ tr ∧
    failure_final tr (WithTxOptions CountingPool.config CountingPool.ctx CountingPool.opts CountingPool.fn CountingPool.start).1.
Proof.
  split; [apply _|].
  exact (WithTx_pool_failures_final CountingPool.config CountingPool.ctx CountingPool.opts CountingPool.fn CountingPool.start eq_refl).
Defined.

(** A transaction stored in the context is joined: the callback runs once on
    it, its outcome is returned, and the manager begins, commits, rolls back,
    retries and logs nothing; the innermost stored transaction is the one used. *)
Lemma WithTx_joins_context {S B Panic Logger} `{TxPool S} `{Runtime S B} `{CoreErrors}
    (c : TxManagerConfig Logger) ctx tx opts (fn : tp_Tx → M S (outcome (option goerror) Panic)) s tr :
  WithTxOptions c (ContextWithTx ctx (Some tx)) opts fn (mkTm s tr) =
  ((fn tx s).1, mkTm (fn tx s).2 tr).
Proof. unfold WithTxOptions, silent. simpl. by destruct (fn tx s). Qed.

(** C37: for base delays below 2^34 ns (about 17 s) and a non-negative maximum up
    to 2^62 ns, the delay before retry [n], with [n] clamped into 1..30, is the
    capped exponential [d = min(max, base * 2^(n-1))] with jitter: at least three
    quarters of [d] and, unless [d] is 0 (then the delay is 0), strictly less than
    five quarters of it, so possibly above [RetryMaxDelay]. *)
Theorem calculateRetryDelay_bounds {S B Panic Logger} `{TxPool S} `{RuntimeOk S B}
    (c : TxManagerConfig Logger) attempt (w : TmWorld (S := S) (Panic := Panic)) :
  0 ≤ RetryBaseDelay c < 2 ^ 34 → 0 ≤ RetryMaxDelay c ≤ 2 ^ 62 →
  let d := Z.min (RetryMaxDelay c) (RetryBaseDelay c * 2 ^ (Z.max 1 (Z.min 30 attempt) - 1)) in
  let r := (calculateRetryDelay (B := B) c attempt w).1 in
  0 ≤ r ∧ 3 * d ≤ 4 * r ∧ (0 < d → 4 * r < 5 * d) ∧ (d = 0 → r = 0).
Proof.
  intros Hb Hm. simpl. unfold calculateRetryDelay. rewrite cappedDelay_no_overflow by done.
  set (d := Z.min _ _).
  assert (0 ≤ d ≤ 2 ^ 62) as Hd.
  { split; [|lia]. apply Z.min_glb; [lia|]. apply Z.mul_nonneg_nonneg; [lia|].
    apply Z.pow_nonneg. lia. }
  change (2 ^ 62) with 4611686018427387904 in Hd.
  rewrite !Z.quot_div_nonneg by lia.
  unfold mthen, silent, sret. destruct (Z.ltb_spec 0 (d / 2)) as [Hh|Hh].
  - destruct (rand_Int64N (d / 2) (tm_env w)) as [j s] eqn:Hr.
    apply rand_Int64N_range in Hr; [|done]. simpl.
    rewrite wrap64_small by (unfold in_int64, two63; dlia). dlia.
  - simpl. rewrite wrap64_small by (unfold in_int64, two63; dlia). dlia.
Qed.

Lemma calculateRetryDelay_bounds_witness :
  let c := CountingPool.config in
  RuntimeOk nat () ∧
  let r := (calculateRetryDelay (B := ()) c 3 CountingPool.start).1 in
  0 ≤ r ∧ r = 150 * Millisecond.
Proof.
  split; [apply _|]. intros r.
  assert (0 ≤ r).
  { apply (calculateRetryDelay_bounds (B := ()) (Panic := ()) CountingPool.config 3 CountingPool.start);
      vm_compute; split; congruence. }
  split; [assumption|vm_compute; reflexivity].
Defined.

(** A base delay of 20 s overflows at the thirtieth retry: the delay is negative. *)
Lemma retry_delay_overflows :
  let c := mkTxManagerConfig 40 (20 * Second) (60 * Second) () in
  (calculateRetryDelay (B := ()) c 30 CountingPool.start).1 < 0.
Proof. vm_compute. reflexivity. Qed.
