(* ===== verification/PgTransactions.v ===== *)
(** * The transaction manager over the pgx pool

    [TxManager] is written against the interface [TxPool] and [Pool] implements
    it; this file composes the two.  [PgSession] observes the server through the
    driver: the transactions this client has committed, each with the statements
    it executed, and the statements an open transaction has executed so far.
    Other sessions do not appear in either, so what they do is left open.  A
    callback is a tree of statements ([prog]): after each one it sees the
    wrapper's answer and goes on, returns an error, returns nil or panics.  The
    statements are sent by [Exec]; callbacks that use [Query], [QueryRow] or nested
    transactions ([Begin]) are not covered. *)

From S2P Require Import Prelude GoLib GoErrors PgErrors Interfaces PoolConfig Pool TxManager.

Open Scope go_scope.

(** ** The session, as the driver shows it *)

Class PgSession (W : Type) `{Pgx W} := {
  committed : W → list (list (string * list px_any));
  pending : px_Tx → W → list (string * list px_any)
}.

(** Only a commit changes what is committed, by the statements of its
    transaction and all of them at once; a commit that reports an error may or
    may not have taken place.  A failed statement has no effect. *)
Class PgSessionOk (W : Type) `{PgSession W} : Prop := {
  ses_Now w t w' :
    time_Now w = (t, w') → committed w' = committed w ∧ ∀ tx, pending tx w' = pending tx w;
  ses_BeginTx p opts w r w' :
    px_pool_BeginTx p opts w = (r, w') →
    committed w' = committed w ∧ ∀ tx, r = Ok tx → pending tx w' = [];
  ses_Exec tx sql args w tag err w' :
    q_Exec px_tx_querier tx sql args w = ((tag, err), w') →
    committed w' = committed w ∧
    pending tx w' = pending tx w ++ (if err is None then [(sql, args)] else []);
  ses_Commit tx w err w' :
    px_tx_Commit tx w = (err, w') →
    committed w' = committed w ++ [pending tx w] ∨ (err ≠ None ∧ committed w' = committed w);
  ses_Rollback tx w err w' : px_tx_Rollback tx w = (err, w') → committed w' = committed w
}.

(** Waiting and drawing random numbers commit nothing. *)
Class QuietRuntime (W B : Type) `{PgSession W} `{Runtime (Logged W) B} : Prop := {
  quiet_rand n w r w' : rand_Int64N n w = (r, w') → committed (lw_env w') = committed (lw_env w);
  quiet_wait (ctx : B) d w r w' :
    select_wait ctx d w = (r, w') → committed (lw_env w') = committed (lw_env w)
}.

(** ** Callbacks *)

Section Callbacks.
Context {W : Type} `{Pgx W} `{CoreErrors} {Logger Panic : Type}.

(** A callback that talks to the transaction by [Exec] alone. *)
Inductive prog : Type :=
| Done (out : outcome (option goerror) Panic)
| Stmt (sql : string) (args : list px_any) (k : px_CommandTag → option goerror → prog).

Fixpoint run_prog (p : prog) (tx : pgxTx (Logger := Logger))
    : M (Logged W) (outcome (option goerror) Panic) :=
  match p with
  | Done out => sret out
  | Stmt sql args k =>
      let! r := pgxTx_Exec tx sql args in
      let '(tag, err) := r in
      run_prog (k tag err) tx
  end.

(** A run of the tree: the statements that succeeded, and the end. *)
Inductive path : prog → list (string * list px_any) → outcome (option goerror) Panic → Prop :=
| PathDone out : path (Done out) [] out
| PathOk sql args k tag l out : path (k tag None) l out → path (Stmt sql args k) ((sql, args) :: l) out
| PathErr sql args k tag e l out : path (k tag (Some e)) l out → path (Stmt sql args k) l out.
End Callbacks.
Arguments prog W {_} Panic.

(** ** Which statement errors are retried *)

Lemma mapSQLState_retryable s :
  (mapSQLState s = pg_CodeSerialization ∨ mapSQLState s = pg_CodeDeadlock) ↔
  s ∈ [sqlStateSerializationFailure; sqlStateDeadlockDetected].
Proof.
  split.
  - destruct (mapSQLState_cases s) as [(c & Hin & ->)|[(_ & _ & ->)|(_ & _ & ->)]].
    + intros Hc. apply list_elem_of_In in Hin. simpl in Hin.
      destruct_or? Hin; simplify_eq; destruct Hc; try discriminate; set_solver.
    + by intros [?|?].
    + by intros [?|?].
  - intros Hs. apply list_elem_of_In in Hs. simpl in Hs.
    destruct Hs as [<-|[<-|[]]]; [by left|by right].
Qed.

Lemma FromPgError_total `{CoreErrors} drv : ∃ d, FromPgError (Some drv) = Some d.
Proof. simpl. case_match; eauto. Qed.

Lemma FromPgError_retryable `{CoreErrors} drv d :
  FromPgError (Some drv) = Some d →
  isRetryable (EDb d) = true ↔
  ∃ p, errors_As sel_PgError drv = Some p ∧
       pg_Code p ∈ [sqlStateSerializationFailure; sqlStateDeadlockDetected].
Proof.
  intros Hd. unfold isRetryable. rewrite (errors_As_here _ _ d) by done. unfold pg_Error_Code.
  simpl in Hd. destruct (errors_As sel_PgError drv) as [p|]; simplify_eq/=.
  - rewrite orb_true_iff, !bool_decide_eq_true, mapSQLState_retryable. naive_solver.
  - naive_solver.
Qed.

(** An error of [Exec] or [Query] is the driver's, converted. *)
Section StatementErrors.
Context {W : Type} `{Pgx W} `{CoreErrors}.

Lemma exec_error {D} q (h : D) threshold sql args (w : Logged W) tag e w' :
  exec_with q h threshold sql args w = ((tag, Some e), w') →
  ∃ drv d, (q h sql args (time_Now (lw_env w)).2).1.2 = Some drv ∧
           FromPgError (Some drv) = Some d ∧ e = EDb d.
Proof.
  unfold exec_with, mthen. rewrite timed_run.
  destruct (time_Now (lw_env w)) as [t0 e0]. cbn [snd].
  destruct (q h sql args e0) as [[x [drv|]] e1]; destruct (time_Now e1) as [t1 e2]; [|done].
  destruct (FromPgError_total drv) as [d Hd]. rewrite Hd. intros Heq. exists drv, d.
  split_and!; [done..|]. unfold emit, sret in Heq. cbn [option_map] in Heq. congruence.
Qed.

Lemma query_error {D} q (h : D) threshold sql args (w : Logged W) rows e w' :
  query_with q h threshold sql args w = ((rows, Some e), w') →
  ∃ drv d, (q h sql args (time_Now (lw_env w)).2).1.2 = Some drv ∧
           FromPgError (Some drv) = Some d ∧ e = EDb d.
Proof.
  unfold query_with, mthen. rewrite timed_run.
  destruct (time_Now (lw_env w)) as [t0 e0]. cbn [snd].
  destruct (q h sql args e0) as [[x [drv|]] e1]; destruct (time_Now e1) as [t1 e2]; [|done].
  destruct (FromPgError_total drv) as [d Hd]. rewrite Hd. intros Heq. exists drv, d.
  split_and!; [done..|]. unfold emit, sret in Heq. cbn [option_map] in Heq. congruence.
Qed.
End StatementErrors.

(** ** One run of the callback *)

Section Runs.
Context {W B : Type} `{Hp : Pgx W} `{Hs : !PgSession W} `{!PgSessionOk W}.
Context `{CoreErrors} {Logger Panic TmLogger : Type}.

Abbreviation done_by w := (committed (lw_env w)).

Lemma exec_session (tx : pgxTx (Logger := Logger)) sql args w tag err w' :
  pgxTx_Exec tx sql args w = ((tag, err), w') →
  done_by w' = done_by w ∧
  pending (t_tx tx) (lw_env w') =
    pending (t_tx tx) (lw_env w) ++ (if err is None then [(sql, args)] else []).
Proof.
  unfold pgxTx_Exec, exec_with, mthen. rewrite timed_run.
  destruct (time_Now (lw_env w)) as [t0 e0] eqn:H0.
  destruct (q_Exec px_tx_querier (t_tx tx) sql args e0) as [[tag1 err1] e1] eqn:H1.
  destruct (time_Now e1) as [t1 e2] eqn:H2.
  apply ses_Now in H0 as [Hc0 Hp0], H2 as [Hc2 Hp2]. apply ses_Exec in H1 as [Hc1 Hp1].
  destruct err1 as [g|]; simpl; intros Heq; injection Heq as <- <- <-; simpl;
    rewrite ?Hc2, ?Hc1, ?Hc0, ?Hp2, ?Hp1, ?Hp0; [|done].
  split; [done|]. by destruct (errors_As sel_PgError g).
Qed.

Lemma run_prog_session (p : prog W Panic) (tx : pgxTx (Logger := Logger)) w out w' :
  run_prog p tx w = (out, w') →
  done_by w' = done_by w ∧
  ∃ l, path p l out ∧ pending (t_tx tx) (lw_env w') = pending (t_tx tx) (lw_env w) ++ l.
Proof.
  revert w. induction p as [out1|sql args k IH]; intros w; simpl.
  { intros [= <- <-]. split; [done|]. exists []. split; [constructor|by rewrite app_nil_r]. }
  unfold mthen. destruct (pgxTx_Exec tx sql args w) as [[tag err] w1] eqn:Hx. intros Hrun.
  apply exec_session in Hx as [Hc Hpd]. apply IH in Hrun as (Hc' & l & Hl & Hpd').
  split; [congruence|]. rewrite Hpd', Hpd. destruct err as [e|].
  - exists l. rewrite app_nil_r. split; [by eapply PathErr|done].
  - exists ((sql, args) :: l). rewrite <-app_assoc. split; [by eapply PathOk|done].
Qed.

(** What a run of the manager leaves behind. *)
Definition session_outcome (body : prog W Panic) (before after : list (list (string * list px_any)))
    (out : outcome (option goerror) Panic) : Prop :=
  let applied := ∃ l, path body l (Returns None) ∧ after = before ++ [l] in
  match out with
  | Returns None => applied
  | Returns (Some e) =>
      after = before ∨ (applied ∧ pg_GetCode (Some e) = pg_CodeConnection ∧ isRetryable e = false)
  | Panics _ => after = before
  end.

Context (p : pgxPool (Logger := Logger)).
#[local] Instance pool_instance : TxPool (Logged W) := pgxPool_TxPool p.
Context `{Hr : !Runtime (Logged W) B} `{!QuietRuntime W B}.

Abbreviation tw := (TmWorld (S := Logged W) (Panic := Panic)).
Abbreviation kept w w' := (done_by (tm_env w') = done_by (tm_env w)).

Lemma handle_session {A C} msg (mk : A → C) call (w : Logged W) r w' :
  (∀ x y, call (lw_env w) = (x, y) → committed y = done_by w) →
  wrap_handle msg mk call w = (r, w') → done_by w' = done_by w.
Proof.
  intros Hcall. unfold wrap_handle, mthen, lift, sret.
  destruct (call (lw_env w)) as [x y] eqn:Hx. intros [= <- <-]. simpl. by eapply Hcall.
Qed.

Lemma rollback_session tx ev (w w' : tw) r :
  act (tp_Rollback tx) ev w = (r, w') → kept w w'.
Proof.
  unfold act. simpl. unfold pgxTx_Rollback, wrap_call, mthen, lift, sret.
  destruct (px_tx_Rollback _ _) as [x y] eqn:Hx. intros [= <- <-]. simpl. by eapply ses_Rollback.
Qed.

Lemma commit_session tx ev (w w' : tw) err :
  act (tp_Commit tx) ev w = (err, w') →
  done_by (tm_env w') = done_by (tm_env w) ++ [pending (t_tx tx) (lw_env (tm_env w))] ∨
  (err ≠ None ∧ kept w w').
Proof.
  unfold act. simpl. unfold pgxTx_Commit, wrap_call, mthen, lift, sret.
  destruct (px_tx_Commit _ _) as [x y] eqn:Hx. intros [= <- <-]. simpl.
  apply ses_Commit in Hx as [Hx|[Hne Hx]]; [by left|right]. by destruct x.
Qed.

Lemma begin_session opts ev (w w' : tw) r :
  act (tp_BeginTx opts) ev w = (r, w') →
  kept w w' ∧ ∀ tx, r = Ok tx → pending (t_tx tx) (lw_env (tm_env w')) = [].
Proof.
  unfold act. simpl. unfold pgxPool_BeginTx, wrap_handle, mthen, lift, sret.
  destruct (px_pool_BeginTx _ _ _) as [x y] eqn:Hx. intros [= <- <-]. simpl.
  apply ses_BeginTx in Hx as [Hc Hpd]. split; [done|]. intros tx. destruct x; [|done].
  intros [= <-]. simpl. by apply Hpd.
Qed.

Lemma executeTx_session opts body (w : tw) out w' :
  executeTx opts (run_prog body) w = (out, w') →
  session_outcome body (done_by (tm_env w)) (done_by (tm_env w')) out.
Proof.
  unfold executeTx, mthen at 1.
  destruct (act (tp_BeginTx opts) EvBegin w) as [b w1] eqn:Hb.
  pose proof (begin_session _ _ _ _ _ Hb) as [Hk1 Hpd]. destruct b as [tx|e].
  2:{ intros [= <- <-]. by left. }
  specialize (Hpd tx eq_refl). unfold mthen at 1.
  destruct (act (run_prog body tx) (EvRun tx) w1) as [r w2] eqn:Hrun.
  unfold act in Hrun. destruct (run_prog body tx (tm_env w1)) as [r1 s1] eqn:Hbody.
  injection Hrun as <- <-. apply run_prog_session in Hbody as (Hk2 & l & Hl & Hpd2).
  rewrite Hpd in Hpd2. rewrite <-Hk1, <-Hk2. destruct r1 as [[e|]|x]; unfold mthen.
  - destruct (act (tp_Rollback tx) _ _) as [rb w3] eqn:Hrb. apply rollback_session in Hrb.
    destruct rb; intros [= <- <-]; left; apply Hrb.
  - destruct (act (tp_Commit tx) _ _) as [err w3] eqn:Hc. intros [= <- <-].
    assert (∀ e, err = Some e → pg_GetCode (Some e) = pg_CodeConnection) as Hcode.
    { intros e ->. revert Hc. unfold act. destruct (tp_Commit tx _) as [a s] eqn:Ha.
      intros [= -> _]. exact (wrap_call_code _ _ _ _ _ Ha). }
    apply commit_session in Hc as [Hc|[Hne Hk]]; simpl in *.
    + assert (∃ l, path body l (Returns None) ∧ done_by (tm_env w3) = done_by s1 ++ [l]) as Happ.
      { exists l. split; [done|]. by rewrite Hc, Hpd2. }
      destruct err as [e|]; [right|done].
      split_and!; [done|by apply Hcode|by apply connection_not_retryable, Hcode].
    + destruct err as [e|]; [by left|done].
  - destruct (act (tp_Rollback tx) _ _) as [rb w3] eqn:Hrb. apply rollback_session in Hrb.
    intros [= <- <-]. apply Hrb.
Qed.

Lemma delay_session (c : TxManagerConfig TmLogger) a (w : tw) d w' :
  calculateRetryDelay (B := B) c a w = (d, w') → kept w w'.
Proof.
  unfold calculateRetryDelay, mthen, silent, sret.
  destruct (0 <? Z.quot (cappedDelay c a) 2); [|by intros [= _ <-]].
  destruct (rand_Int64N _ _) as [j s] eqn:Hj. intros [= _ <-]. by eapply quiet_rand.
Qed.

Lemma wait_session (c : TxManagerConfig TmLogger) (ctx : B) a (w : tw) r w' :
  wait_before c ctx a w = (r, w') → kept w w'.
Proof.
  unfold wait_before. destruct (0 <? a); [|by intros [= _ <-]].
  unfold mthen at 1. destruct (calculateRetryDelay c a w) as [d w1] eqn:Hd.
  apply delay_session in Hd. rewrite <-Hd. unfold mthen, act, tm_log. simpl.
  destruct (select_wait ctx d (tm_env w1)) as [x s] eqn:Hx. intros [= <- <-]. by eapply quiet_wait.
Qed.

Lemma retry_session (c : TxManagerConfig TmLogger) (ctx : B) opts body l last (w : tw) out w' :
  retry_loop c ctx opts (run_prog body) l last w = (out, w') →
  session_outcome body (done_by (tm_env w)) (done_by (tm_env w')) out.
Proof.
  revert last w. induction l as [|a l IH]; intros last w; simpl.
  { intros [= <- <-]. by left. }
  unfold mthen at 1. destruct (wait_before c ctx a w) as [x w1] eqn:Hw.
  apply wait_session in Hw. rewrite <-Hw. destruct x as [e|].
  { intros [= <- <-]. by left. }
  unfold mthen at 1. destruct (executeTx opts _ w1) as [r w2] eqn:Hx.
  apply executeTx_session in Hx. destruct r as [[e|]|x]; [|by intros [= <- <-]..].
  destruct (isRetryable e) eqn:He; [|by intros [= <- <-]].
  destruct Hx as [Hk|(_ & _ & Hno)]; [|congruence]. rewrite <-Hk.
  unfold mthen, tm_log. intros Hrun. by apply IH in Hrun.
Qed.
End Runs.

(** ** A concrete driver *)

(** Transactions are numbered; each [Exec] consumes the next answer of a script
    ([None] succeeds); begins, commits and rollbacks succeed and time advances by
    a millisecond per reading of the clock. *)
Module ScriptedPg.
Record World := mkWorld {
  w_committed : list (list (string * list Z));
  w_pending : gmap nat (list (string * list Z));
  w_next : nat;
  w_answers : list (option goerror);
  w_clock : Z
}.

Definition pending_of (tx : nat) (w : World) : list (string * list Z) := default [] (w_pending w !! tx).

Definition exec (tx : nat) (sql : string) (args : list Z) : M World (() * option goerror) := λ w,
  let answer := default None (head (w_answers w)) in
  ((tt, answer),
   mkWorld (w_committed w)
     (<[tx := pending_of tx w ++ (if answer is None then [(sql, args)] else [])]> (w_pending w))
     (w_next w) (tail (w_answers w)) (w_clock w)).

Definition begin_tx : M World (result nat goerror) := λ w,
  (Ok (w_next w),
   mkWorld (w_committed w) (<[w_next w := []]> (w_pending w)) (S (w_next w)) (w_answers w) (w_clock w)).

Definition commit (tx : nat) : M World (option goerror) := λ w,
  (None, mkWorld (w_committed w ++ [pending_of tx w]) (w_pending w) (w_next w) (w_answers w) (w_clock w)).

Definition quiet {A} (a : A) : M World A := sret a.

Definition querier : driver_querier World nat Z () () () :=
  mkQuerier _ _ _ _ _ _ exec (λ _ _ _, quiet (tt, None)) (λ _ _ _, quiet tt).

#[global] Instance driver : Pgx World := {
  px_any := Z; px_CommandTag := (); px_Rows := (); px_Row := (); px_TxOptions := ();
  px_Tx := nat; px_Conn := nat; px_Pool := ();
  px_tx_querier := querier;
  px_conn_querier := querier;
  px_pool_querier := mkQuerier _ _ _ _ _ _ (λ _, exec 0%nat) (λ _ _ _, quiet (tt, None)) (λ _ _ _, quiet tt);
  px_tx_Begin _ := begin_tx;
  px_tx_Commit := commit;
  px_tx_Rollback _ := quiet None;
  px_RawConn := ();
  px_tx_Conn _ := tt;
  px_conn_Begin _ := begin_tx;
  px_conn_BeginTx _ _ := begin_tx;
  px_conn_Ping _ := quiet None;
  px_conn_Release _ := quiet tt;
  px_pool_Acquire _ := quiet (Ok 0%nat);
  px_pool_Begin _ := begin_tx;
  px_pool_BeginTx _ _ := begin_tx;
  px_pool_Ping _ := quiet None;
  px_pool_Close _ := quiet tt;
  time_Now w := (w_clock w, mkWorld (w_committed w) (w_pending w) (w_next w) (w_answers w)
                              (w_clock w + Millisecond))
}.

#[global] Instance session : PgSession World := {
  committed := w_committed;
  pending := pending_of
}.

#[global] Instance session_ok : PgSessionOk World.
Proof.
  constructor; simpl.
  - by intros w t w' [= <- <-].
  - intros p opts w r w' [= <- <-]. split; [done|]. intros tx [= <-].
    unfold pending_of. simpl. by rewrite lookup_insert_eq.
  - intros tx sql args w tag err w' [= _ <- <-]. split; [done|].
    unfold pending_of at 1. simpl. by rewrite lookup_insert_eq.
  - intros tx w err w' [= <- <-]. by left.
  - by intros tx w err w' [= <- <-].
Qed.

#[global] Instance runtime : Runtime (Logged World) () := {
  rand_Int64N _ w := (0, w);
  select_wait _ _ w := (None, w)
}.

#[global] Instance runtime_quiet : QuietRuntime World ().
Proof. constructor; simpl; by intros; simplify_eq. Qed.

Definition pool : pgxPool (Logger := ()) := mkPool tt (DefaultPoolConfig tt) tt.

(** Two statements; any error is returned. *)
Definition body : prog World () :=
  Stmt "INSERT INTO t VALUES ($1)" [1] (λ _ err,
    match err with
    | Some e => Done (Returns (Some e))
    | None => Stmt "UPDATE t SET n = $1" [2] (λ _ err, Done (Returns err))
    end).

(** The second statement of the first transaction meets a serialization failure. *)
Definition conflict : goerror := EPgx (mkPgError "40001" "could not serialize access" "" "" "" "" "") "".
Definition start : TmWorld (S := Logged World) (Panic := ()) (H := pgxPool_TxPool pool) :=
  mkTm (mkLogged (mkWorld [] ∅ 0 [None; Some conflict] 0) []) [].

Abbreviation run :=
  (WithTxOptions (H := pgxPool_TxPool pool) (DefaultTxManagerConfig ()) (CtxBase ()) tt (run_prog body) start).
End ScriptedPg.

(** ** Properties *)

(** C2: without a transaction in the context, over the pgx pool, [WithTxOptions]
    applies the statements of a callback that talks to the transaction by [Exec]
    alone at most once: when it returns nil exactly the statements that one run of the callback
    executed without error were committed, as one transaction; when it panics
    nothing was; when it returns an error nothing was either, except that a
    commit which reported a failure may have taken place, in which case the error
    is a connection error and was not retried, so still no statement is applied
    twice. *)
Theorem WithTx_at_most_once {W B : Type} `{PgSessionOk W} `{CoreErrors} {Logger Panic TmLogger : Type}
    (p : pgxPool (Logger := Logger)) `{!Runtime (Logged W) B} `{!QuietRuntime W B}
    (c : TxManagerConfig TmLogger) ctx opts (body : prog W Panic) w :
  TxFromContext ctx = None →
  let run := WithTxOptions (H := pgxPool_TxPool p) (B := B) c ctx opts (run_prog body) w in
  session_outcome body (committed (lw_env (tm_env w))) (committed (lw_env (tm_env run.2))) run.1.
Proof.
  intros Hctx. cbv zeta. unfold WithTxOptions. rewrite Hctx. unfold executeWithRetry.
  destruct (retry_loop _ _ _ _ _ _ w) as [out w'] eqn:Hrun. by eapply retry_session.
Qed.

Lemma WithTx_at_most_once_witness :
  let stmts := [("INSERT INTO t VALUES ($1)", [1]); ("UPDATE t SET n = $1", [2])] in
  ScriptedPg.run.1 = Returns None ∧
  committed (lw_env (tm_env ScriptedPg.run.2)) = [stmts] ∧
  count is_begin (H := pgxPool_TxPool ScriptedPg.pool) (tm_trace ScriptedPg.run.2) = 2 ∧
  ∃ l, path ScriptedPg.body l (Returns None) ∧ [stmts] = [] ++ [l].
Proof.
  intros stmts.
  assert (ScriptedPg.run.1 = Returns None) as Hrun by (vm_compute; reflexivity).
  assert (committed (lw_env (tm_env ScriptedPg.run.2)) = [stmts]) as Hc by (vm_compute; reflexivity).
  split; [exact Hrun|]. split; [exact Hc|]. split; [vm_compute; reflexivity|].
  pose proof (WithTx_at_most_once ScriptedPg.pool (DefaultTxManagerConfig ()) (CtxBase ()) tt
                ScriptedPg.body ScriptedPg.start eq_refl) as Hs. cbv zeta in Hs.
  rewrite Hrun, Hc in Hs. exact Hs.
Defined.

(** C8: which statement errors make the manager try again: an error that [Exec] or
    [Query] of a transaction returns is retryable exactly when the first driver
    error in the chain has SQLSTATE 40001 or 40P01.  The manager only knows
    [postgres.Error]: a driver error that reaches the callback unconverted, as
    those of [QueryRow(...).Scan] do, is never retried, whatever its SQLSTATE. *)
Theorem statement_errors_retried {W : Type} `{Pgx W} `{CoreErrors} {Logger : Type}
    (tx : pgxTx (Logger := Logger)) sql args (w w' : Logged W) e :
  let conflict drv := ∃ p, errors_As sel_PgError drv = Some p ∧
    pg_Code p ∈ [sqlStateSerializationFailure; sqlStateDeadlockDetected] in
  let driver_says {A} (call : list px_any → M W (A * option goerror)) drv :=
    (call args (time_Now (lw_env w)).2).1.2 = Some drv in
  (∀ tag, pgxTx_Exec tx sql args w = ((tag, Some e), w') →
     ∃ drv, driver_says (q_Exec px_tx_querier (t_tx tx) sql) drv ∧ (isRetryable e = true ↔ conflict drv)) ∧
  (∀ rows, pgxTx_Query tx sql args w = ((rows, Some e), w') →
     ∃ drv, driver_says (q_Query px_tx_querier (t_tx tx) sql) drv ∧ (isRetryable e = true ↔ conflict drv)) ∧
  (∀ pe text, isRetryable (EPgx pe text) = false).
Proof.
  intros conflict driver_says. split_and!; [intros tag Hx|intros rows Hx|done].
  - apply exec_error in Hx as (drv & d & Hdrv & Hd & ->). exists drv.
    split; [done|]. by apply FromPgError_retryable.
  - apply query_error in Hx as (drv & d & Hdrv & Hd & ->). exists drv.
    split; [done|]. by apply FromPgError_retryable.
Qed.

Lemma statement_errors_retried_witness :
  let tx := mkTx (Logger := ()) (H := ScriptedPg.driver) 0%nat tt 0 in
  let w := mkLogged (ScriptedPg.mkWorld [] ∅ 1 [Some ScriptedPg.conflict] 0) [] in
  ∃ e w', pgxTx_Exec tx "SELECT 1" [] w = ((tt, Some e), w') ∧ isRetryable e = true.
Proof.
  intros tx w.
  assert (∃ e w', pgxTx_Exec tx "SELECT 1" [] w = ((tt, Some e), w')) as (e & w' & Hx)
    by (eexists _, _; vm_compute; reflexivity).
  exists e, w'. split; [exact Hx|].
  destruct (proj1 (statement_errors_retried tx "SELECT 1" [] w w' e) tt Hx) as (drv & Hdrv & Hiff).
  apply Hiff. vm_compute in Hdrv. injection Hdrv as <-.
  eexists. split; [reflexivity|]. left.
Defined.
