(* ===== verification/PgInterfaces.v ===== *)
(** * postgres/interfaces.go: the interfaces in full, and their implementation

    [Querier], [Tx], [Conn] and [Pool] as records of operations over a state [S];
    the types they mention are parameters.  [Interfaces.TxPool] is the part of
    [Pool] and [Tx] that the transaction manager uses.  The promise proved here
    for the pgx-backed implementation is that every error is a [postgres.Error]
    whose core code is the one of its database code. *)

From S2P Require Import Prelude GoLib GoErrors PgErrors Interfaces PoolConfig Pool TxManager PgTransactions.

Open Scope go_scope.

(** ** The interfaces *)

Section Records.
Context {S any CommandTag Rows Row TxOptions RawConn Stats : Type}.

Record Querier (H : Type) := mkQuerierI {
  Exec : H → string → list any → M S (CommandTag * option goerror);
  Query : H → string → list any → M S (option Rows * option goerror);
  QueryRow : H → string → list any → M S Row
}.

Record TxI (Tx : Type) := mkTxI {
  tx_Querier : Querier Tx;
  tx_Begin : Tx → M S (result Tx goerror);
  tx_Commit : Tx → M S (option goerror);
  tx_Rollback : Tx → M S (option goerror);
  tx_Conn : Tx → RawConn
}.

Record ConnI (Conn Tx : Type) := mkConnI {
  conn_Querier : Querier Conn;
  conn_Begin : Conn → M S (result Tx goerror);
  conn_BeginTx : Conn → TxOptions → M S (result Tx goerror);
  conn_Ping : Conn → M S (option goerror);
  conn_Release : Conn → M S ()
}.

Record PoolI (Pool Conn Tx : Type) := mkPoolI {
  pool_Querier : Querier Pool;
  pool_Acquire : Pool → M S (result Conn goerror);
  pool_Begin : Pool → M S (result Tx goerror);
  pool_BeginTx : Pool → TxOptions → M S (result Tx goerror);
  pool_Ping : Pool → M S (option goerror);
  pool_Close : Pool → M S ();
  pool_Stat : Pool → M S Stats
}.
End Records.
Arguments Exec {S any CommandTag Rows Row H}.
Arguments Query {S any CommandTag Rows Row H}.
Arguments QueryRow {S any CommandTag Rows Row H}.
Arguments tx_Querier {S any CommandTag Rows Row RawConn Tx}.
Arguments tx_Begin {S any CommandTag Rows Row RawConn Tx}.
Arguments tx_Commit {S any CommandTag Rows Row RawConn Tx}.
Arguments tx_Rollback {S any CommandTag Rows Row RawConn Tx}.
Arguments conn_Querier {S any CommandTag Rows Row TxOptions Conn Tx}.
Arguments conn_Begin {S any CommandTag Rows Row TxOptions Conn Tx}.
Arguments conn_BeginTx {S any CommandTag Rows Row TxOptions Conn Tx}.
Arguments conn_Ping {S any CommandTag Rows Row TxOptions Conn Tx}.
Arguments pool_Querier {S any CommandTag Rows Row TxOptions Stats Pool Conn Tx}.
Arguments pool_Acquire {S any CommandTag Rows Row TxOptions Stats Pool Conn Tx}.
Arguments pool_Begin {S any CommandTag Rows Row TxOptions Stats Pool Conn Tx}.
Arguments pool_BeginTx {S any CommandTag Rows Row TxOptions Stats Pool Conn Tx}.
Arguments pool_Ping {S any CommandTag Rows Row TxOptions Stats Pool Conn Tx}.

(** ** The promise on errors *)

Definition pg_typed (e : goerror) : Prop :=
  ∃ d, e = EDb d ∧ pg_Error_CoreCode d = pg_CoreCode (pg_Error_Code d).

(** The errors of a call satisfy the invariant. *)
Definition call_typed {S A} (m : M S (A * option goerror)) : Prop :=
  ∀ s, match (m s).1.2 with Some e => pg_typed e | None => True end.
Definition error_typed {S} (m : M S (option goerror)) : Prop :=
  ∀ s, match (m s).1 with Some e => pg_typed e | None => True end.
Definition result_typed {S A} (m : M S (result A goerror)) : Prop :=
  ∀ s, match (m s).1 with Err e => pg_typed e | Ok _ => True end.

Section Promise.
Context {S any CommandTag Rows Row TxOptions RawConn Stats : Type}.

Definition QuerierOk {H} (q : Querier (S := S) (any := any) (CommandTag := CommandTag) (Rows := Rows) (Row := Row) H) : Prop :=
  ∀ h sql args, call_typed (Exec q h sql args) ∧ call_typed (Query q h sql args).

Definition TxOk {Tx} (i : TxI (S := S) (any := any) (CommandTag := CommandTag) (Rows := Rows) (Row := Row)
    (RawConn := RawConn) Tx) : Prop :=
  QuerierOk (tx_Querier i) ∧
  ∀ t, result_typed (tx_Begin i t) ∧ error_typed (tx_Commit i t) ∧ error_typed (tx_Rollback i t).

Definition ConnOk {Conn Tx} (i : ConnI (S := S) (any := any) (CommandTag := CommandTag) (Rows := Rows)
    (Row := Row) (TxOptions := TxOptions) Conn Tx) : Prop :=
  QuerierOk (conn_Querier i) ∧
  ∀ c opts, result_typed (conn_Begin i c) ∧ result_typed (conn_BeginTx i c opts) ∧ error_typed (conn_Ping i c).

Definition PoolOk {Pool Conn Tx} (i : PoolI (S := S) (any := any) (CommandTag := CommandTag) (Rows := Rows)
    (Row := Row) (TxOptions := TxOptions) (Stats := Stats) Pool Conn Tx) : Prop :=
  QuerierOk (pool_Querier i) ∧
  ∀ p opts, result_typed (pool_Acquire i p) ∧ result_typed (pool_Begin i p) ∧
    result_typed (pool_BeginTx i p opts) ∧ error_typed (pool_Ping i p).
End Promise.

(** ** The pgx-backed implementation *)

Section Implementation.
Context {W : Type} `{Pgx W} `{CoreErrors} {Logger : Type}.
Variable driver_Stat : px_Pool → M W pgxpool_Stat.

Definition pgx_Tx := mkTxI _
  (mkQuerierI (pgxTx (Logger := Logger)) pgxTx_Exec pgxTx_Query pgxTx_QueryRow)
  pgxTx_Begin pgxTx_Commit pgxTx_Rollback pgxTx_Conn.

Definition pgx_Conn := mkConnI _ (pgxTx (Logger := Logger))
  (mkQuerierI (pgxConn (Logger := Logger)) pgxConn_Exec pgxConn_Query pgxConn_QueryRow)
  pgxConn_Begin pgxConn_BeginTx pgxConn_Ping pgxConn_Release.

Definition pgx_Pool := mkPoolI _ (pgxConn (Logger := Logger)) (pgxTx (Logger := Logger))
  (mkQuerierI (pgxPool (Logger := Logger)) pgxPool_Exec pgxPool_Query pgxPool_QueryRow)
  pgxPool_Acquire pgxPool_Begin pgxPool_BeginTx pgxPool_Ping pgxPool_Close (pgxPool_Stat driver_Stat).
End Implementation.

(** The part of the interfaces the transaction manager uses. *)
Lemma pgx_TxPool {W} `{Pgx W} `{CoreErrors} {Logger} stat (p : pgxPool (Logger := Logger)) :
  pgxPool_TxPool p = {|
    tp_BeginTx := pool_BeginTx (pgx_Pool stat) p;
    tp_Commit := tx_Commit pgx_Tx;
    tp_Rollback := tx_Rollback pgx_Tx
  |}.
Proof. reflexivity. Qed.

(** ** Lemmas *)

Section Lemmas.
Context `{CoreErrorsOk}.

Lemma pg_typed_New code m : pg_typed (EDb (pg_New code m)).
Proof. eexists. split; [done|]. unfold pg_Error_CoreCode. simpl. by rewrite core_New_spec. Qed.

Lemma pg_typed_Wrap code m cause : pg_typed (EDb (pg_Wrap code m cause)).
Proof. eexists. split; [done|]. unfold pg_Error_CoreCode. simpl. by rewrite core_Wrap_spec. Qed.

Lemma pg_typed_From err e : option_map EDb (FromPgError err) = Some e → pg_typed e.
Proof.
  destruct err as [err|]; [|done]. cbn [FromPgError].
  destruct (errors_As sel_PgError err); cbn [option_map]; intros [= <-]; [|apply pg_typed_Wrap].
  eexists. split; [done|]. unfold pg_Error_CoreCode. simpl. by rewrite core_Wrap_spec.
Qed.

Context {W : Type} `{Pgx W}.

Lemma exec_with_typed {D} q (h : D) th sql args : call_typed (exec_with (W := W) q h th sql args).
Proof.
  intros w. unfold exec_with, mthen. destruct (timed th sql (q h sql args) w) as [[tag [e|]] w1]; [|done].
  unfold emit, sret. cbn [fst snd]. destruct (option_map _ _) eqn:He; [by eapply pg_typed_From|done].
Qed.

Lemma query_with_typed {D} q (h : D) th sql args : call_typed (query_with (W := W) q h th sql args).
Proof.
  intros w. unfold query_with, mthen. destruct (timed th sql (q h sql args) w) as [[rows [e|]] w1]; [|done].
  unfold emit, sret. cbn [fst snd]. destruct (option_map _ _) eqn:He; [by eapply pg_typed_From|done].
Qed.

Lemma wrap_call_typed msg call : error_typed (wrap_call (W := W) msg call).
Proof.
  intros w. unfold wrap_call, mthen, lift, sret. destruct (call (lw_env w)) as [[e|] ?]; [|done].
  apply pg_typed_Wrap.
Qed.

Lemma wrap_handle_typed {A B} msg (mk : A → B) call : result_typed (wrap_handle (W := W) msg mk call).
Proof.
  intros w. unfold wrap_handle, mthen, lift, sret. destruct (call (lw_env w)) as [[a|e] ?]; [done|].
  apply pg_typed_Wrap.
Qed.

Context {Logger : Type}.

Lemma pgx_Tx_typed : TxOk (pgx_Tx (W := W) (Logger := Logger)).
Proof.
  split; [intros t sql args; split; [apply exec_with_typed|apply query_with_typed]|].
  intros t. split_and!; [apply wrap_handle_typed|apply wrap_call_typed..].
Qed.

Lemma pgx_Conn_typed : ConnOk (pgx_Conn (W := W) (Logger := Logger)).
Proof.
  split; [intros t sql args; split; [apply exec_with_typed|apply query_with_typed]|].
  intros c opts. split_and!; [apply wrap_handle_typed..|apply wrap_call_typed].
Qed.

Lemma pgx_Pool_typed stat : PoolOk (pgx_Pool (W := W) (Logger := Logger) stat).
Proof.
  split; [intros t sql args; split; [apply exec_with_typed|apply query_with_typed]|].
  intros p opts. split_and!; [apply wrap_handle_typed..|apply wrap_call_typed].
Qed.

Lemma NewPoolFromConfig_typed {Rest} ParseConfig NewWithConfig dflt (cfg : PoolConfig Logger) :
  result_typed (NewPoolFromConfig (W := W) (Rest := Rest) ParseConfig NewWithConfig dflt cfg).
Proof.
  intros w. unfold NewPoolFromConfig. destruct (PoolConfig_Validate cfg); [apply pg_typed_Wrap|].
  unfold newPoolFromConfig. destruct (ParseConfig _); [|apply pg_typed_Wrap].
  unfold mthen, emit, lift, sret. destruct (NewWithConfig _ _) as [[p|e] ?]; [done|apply pg_typed_Wrap].
Qed.
End Lemmas.

(** What a run of the manager returns, over a pool with typed errors. *)
Lemma attempt_run_typed {W Panic Logger} `{Pgx W} `{CoreErrorsOk} (p : pgxPool (Logger := Logger)) opts tr e :
  attempt_run (H := pgxPool_TxPool p) (Panic := Panic) opts tr (Returns (Some e)) →
  pg_typed e ∨ ∃ tx, EvRun (H := pgxPool_TxPool p) tx (Returns (Some e)) ∈ tr.
Proof.
  inversion 1 as [s x s' Hb|tx s r s' Hc|tx x rb logs Hl|]; subst.
  - left. pose proof (proj1 (proj2 (proj2 (proj2 (pgx_Pool_typed (λ _, sret (mkPgxpoolStat 0 0 0 0 0 0 0 0 0 0 0 0))) p opts))) s) as Ht.
    simpl in Ht, Hb. by rewrite Hb in Ht.
  - left. pose proof (proj1 (proj2 (proj2 pgx_Tx_typed tx)) s) as Ht. simpl in Ht, Hc. by rewrite Hc in Ht.
  - right. exists tx. set_solver.
Qed.

Lemma retry_run_typed {W Panic Logger TmLogger} `{Pgx W} `{CoreErrorsOk} (p : pgxPool (Logger := Logger))
    (c : TxManagerConfig TmLogger) opts l last tr out :
  retry_run (H := pgxPool_TxPool p) (Panic := Panic) c opts l last tr out →
  ∀ e, out = Returns (Some e) →
  pg_typed e ∨ ∃ tx, EvRun (H := pgxPool_TxPool p) tx (Returns (Some e)) ∈ tr.
Proof.
  induction 1 as [|? ? ? pre e Hp|? ? ? pre tr out Hp Ha|a rest ? pre tr e tr' out Hp Ha Hr Hrun IH];
    intros x Hx.
  - injection Hx as <-. left. apply pg_typed_Wrap.
  - injection Hx as <-. left. apply pg_typed_Wrap.
  - subst. destruct (attempt_run_typed p _ _ _ Ha) as [?|[tx ?]]; [by left|right].
    exists tx. set_solver.
  - destruct (IH x Hx) as [?|[tx ?]]; [by left|right]. exists tx. set_solver.
Qed.

(** ** Properties *)


