(* ===== verification/Migrate.v ===== *)
(** * postgres/migrate.go: the migration runner

    golang-migrate and its drivers are the parameter [GolangMigrate], over a world
    [W]; the migrator's world adds the log entries it emits (none without a
    configured logger).  [fmt.Errorf] with [%w] is a foreign error with the wrapped
    error below it. *)

From Stdlib Require Import ZArith Lia.
From S2P Require Import Prelude GoLib GoErrors.

Open Scope go_scope.

(** [fmt.Errorf("msg: %w", err)]. *)
Definition errorf_w (msg : string) (err : goerror) : goerror :=
  EForeign (msg +:+ ": " +:+ Error_text err) [err].

Record MigratorConfig (Logger : Type) := mkMigratorConfig {
  TableName : string;
  LockTimeout : Z;
  MigrationsPath : string;
  mig_Logger : option Logger
}.
Arguments mkMigratorConfig {Logger}.
Arguments TableName {Logger}.
Arguments LockTimeout {Logger}.
Arguments MigrationsPath {Logger}.
Arguments mig_Logger {Logger}.

Definition DefaultMigratorConfig {Logger} : MigratorConfig Logger :=
  mkMigratorConfig "schema_migrations" (15 * Second) "." None.

Definition MigratorOption (Logger : Type) : Type := MigratorConfig Logger → MigratorConfig Logger.
Definition WithMigrationsTable {Logger} (name : string) : MigratorOption Logger :=
  λ c, mkMigratorConfig name (LockTimeout c) (MigrationsPath c) (mig_Logger c).
Definition WithLockTimeout {Logger} (timeout : Z) : MigratorOption Logger :=
  λ c, mkMigratorConfig (TableName c) timeout (MigrationsPath c) (mig_Logger c).
Definition WithMigratorLogger {Logger} (logger : option Logger) : MigratorOption Logger :=
  λ c, mkMigratorConfig (TableName c) (LockTimeout c) (MigrationsPath c) logger.
Definition WithMigrationsPath {Logger} (path : string) : MigratorOption Logger :=
  λ c, mkMigratorConfig (TableName c) (LockTimeout c) path (mig_Logger c).

Class GolangMigrate (W : Type) := {
  gm_Pool : Type;
  gm_FS : Type;
  gm_Source : Type;
  gm_DB : Type;
  gm_Driver : Type;
  gm_Migrate : Type;
  iofs_New : gm_FS → string → M W (result gm_Source goerror);
  stdlib_OpenDBFromPool : gm_Pool → M W gm_DB;
  pgx_WithInstance : gm_DB → string → M W (result gm_Driver goerror);
  migrate_NewWithInstance : gm_Source → gm_Driver → M W (result gm_Migrate goerror);
  gm_Up : gm_Migrate → M W (option goerror);
  gm_Down : gm_Migrate → M W (option goerror);
  gm_Steps : gm_Migrate → Z → M W (option goerror);
  gm_Version : gm_Migrate → M W (Z * bool * option goerror);
  gm_Force : gm_Migrate → Z → M W (option goerror);
  gm_Close : gm_Migrate → M W (option goerror * option goerror);
  gm_Now : M W Z
}.

Inductive mig_log : Type :=
| MigInfo (msg : string) (duration_ms : option Z) (n : option Z) (text : string)
| MigError (msg error : string).

Record MigWorld (W : Type) := mkMigWorld { mw_env : W; mw_log : list mig_log }.
Arguments mkMigWorld {W}.
Arguments mw_env {W}.
Arguments mw_log {W}.

Section Migrator.
Context {W Logger : Type} `{GolangMigrate W} `{CoreErrors}.

Record Migrator := mkMigrator {
  mg_config : MigratorConfig Logger;
  mg_pool : gm_Pool;
  mg_migrate : option gm_Migrate;
  mg_sourceFS : gm_FS
}.

Definition mlift {A} (m : M W A) : M (MigWorld W) A :=
  λ w, let '(a, e) := m (mw_env w) in (a, mkMigWorld e (mw_log w)).

(** [log] and [logError]: nothing without a logger. *)
Definition mig_emit (m : Migrator) (l : mig_log) : M (MigWorld W) () :=
  λ w, (tt, match mig_Logger (mg_config m) with
            | Some _ => mkMigWorld (mw_env w) (mw_log w ++ [l])
            | None => w
            end).

Definition log (m : Migrator) (msg : string) (duration_ms n : option Z) (text : string) :=
  mig_emit m (MigInfo msg duration_ms n text).
Definition logError (m : Migrator) (msg : string) (err : goerror) :=
  mig_emit m (MigError msg (Error_text err)).

(** Nil arguments are [None]. *)
Definition NewMigrator (pool : option gm_Pool) (migrations : option gm_FS)
    (opts : list (MigratorOption Logger)) : M (MigWorld W) (result Migrator goerror) :=
  match pool, migrations with
  | None, _ => sret (Err (EForeign "pool cannot be nil" []))
  | Some _, None => sret (Err (EForeign "migrations filesystem cannot be nil" []))
  | Some pool, Some migrations =>
      let config := fold_left (λ c opt, opt c) opts DefaultMigratorConfig in
      let! source := mlift (iofs_New migrations (MigrationsPath config)) in
      match source with
      | Err err => sret (Err (errorf_w "creating migration source" err))
      | Ok sourceDriver =>
          let! db := mlift (stdlib_OpenDBFromPool pool) in
          let! driver := mlift (pgx_WithInstance db (TableName config)) in
          match driver with
          | Err err => sret (Err (errorf_w "creating database driver" err))
          | Ok dbDriver =>
              let! m := mlift (migrate_NewWithInstance sourceDriver dbDriver) in
              match m with
              | Err err => sret (Err (errorf_w "creating migrate instance" err))
              | Ok m => sret (Ok (mkMigrator config pool (Some m) migrations))
              end
          end
      end
  end.

(** The body [Up], [Down] and [Steps] share: the driver call between two readings
    of the clock, [ErrNoChange] being success. *)
Definition run_migration (m : Migrator) (call : M W (option goerror)) (failed wrap none done : string)
    (n : option Z) (start : Z) : M (MigWorld W) (option goerror) :=
  let! err := mlift call in
  match err with
  | Some e =>
      if negb (errors_Is e migrate_ErrNoChange) then
        let! _ := logError m failed e in
        sret (Some (errorf_w wrap e))
      else
        let! _ := log m none None None "" in
        sret None
  | None =>
      let! stop := mlift gm_Now in
      let! _ := log m done (Some (Milliseconds (stop - start))) n "" in
      sret None
  end.

(** [mg] is [m.migrate]. *)
Definition Up (m : Migrator) (mg : gm_Migrate) : M (MigWorld W) (option goerror) :=
  let! start := mlift gm_Now in
  let! _ := log m "starting up migrations" None None "" in
  run_migration m (gm_Up mg) "up migration failed" "running up migrations" "no pending migrations"
    "up migrations completed" None start.

Definition Down (m : Migrator) (mg : gm_Migrate) : M (MigWorld W) (option goerror) :=
  let! start := mlift gm_Now in
  let! _ := log m "starting down migrations" None None "" in
  run_migration m (gm_Down mg) "down migration failed" "running down migrations"
    "no migrations to rollback" "down migrations completed" None start.

Definition Steps (m : Migrator) (mg : gm_Migrate) (n : Z) : M (MigWorld W) (option goerror) :=
  if n =? 0 then sret None
  else
    let! start := mlift gm_Now in
    let direction := if n <? 0 then "down" else "up" in
    let! _ := log m "applying migration steps" None (Some n) direction in
    run_migration m (gm_Steps mg n) "migration steps failed"
      ("applying " +:+ itoa n +:+ " migration steps") "no migrations to apply"
      "migration steps completed" (Some n) start.

Definition Version (mg : gm_Migrate) : M (MigWorld W) (Z * bool * option goerror) :=
  let! v := mlift (gm_Version mg) in
  let '(version, dirty, err) := v in
  match err with
  | Some e =>
      if negb (errors_Is e migrate_ErrNilVersion)
      then sret (0, false, Some (errorf_w "getting migration version" e))
      else sret (0, false, None)
  | None => sret (version, dirty, None)
  end.

Definition Force (m : Migrator) (mg : gm_Migrate) (version : Z) : M (MigWorld W) (option goerror) :=
  let! _ := log m "forcing migration version" None (Some version) "" in
  let! err := mlift (gm_Force mg version) in
  match err with
  | Some e =>
      let! _ := logError m "force version failed" e in
      sret (Some (errorf_w ("forcing migration version " +:+ itoa version) e))
  | None =>
      let! _ := log m "migration version forced" None (Some version) "" in
      sret None
  end.

Definition Close (m : Migrator) : M (MigWorld W) (option goerror) :=
  match mg_migrate m with
  | None => sret None
  | Some mg =>
      let! errs := mlift (gm_Close mg) in
      sret (match errs with
            | (Some sourceErr, _) => Some (errorf_w "closing source driver" sourceErr)
            | (None, Some dbErr) => Some (errorf_w "closing database driver" dbErr)
            | (None, None) => None
            end)
  end.
End Migrator.

(** ** Properties *)

Lemma errorf_w_Is `{CoreErrorsOk} msg e target : errors_Is (errorf_w msg e) target = errors_Is e target.
Proof. by apply errors_Is_child. Qed.

(** What the runner makes of the driver's error. *)
Definition migration_result `{CoreErrors} (wrap : string) (err : option goerror) : option goerror :=
  match err with
  | Some e => if errors_Is e migrate_ErrNoChange then None else Some (errorf_w wrap e)
  | None => None
  end.

Lemma run_migration_result {W Logger} `{GolangMigrate W} `{CoreErrors}
    (m : Migrator (Logger := Logger)) call failed wrap none done n start w :
  (run_migration m call failed wrap none done n start w).1 =
  migration_result wrap (call (mw_env w)).1.
Proof.
  unfold run_migration, migration_result, mthen, mlift, sret.
  destruct (call (mw_env w)) as [[e|] w1]; simpl.
  - by destruct (errors_Is e migrate_ErrNoChange).
  - by destruct (gm_Now w1).
Qed.

(** C39: "no change" is success and every other failure is returned and stays
    recognisable: [Up], [Down] and [Steps] return nil exactly when the driver
    succeeded or reported [migrate.ErrNoChange], and otherwise an error on which
    [errors.Is] answers as on the driver's; [Steps 0] does nothing; [Version] of
    an unmigrated database is 0, clean, without error. *)
Theorem Migrator_results {W Logger} `{GolangMigrate W} `{CoreErrorsOk}
    (m : Migrator (Logger := Logger)) mg n (w : MigWorld W) :
  let e0 := (gm_Now (mw_env w)).2 in
  (Up m mg w).1 = migration_result "running up migrations" (gm_Up mg e0).1 ∧
  (Down m mg w).1 = migration_result "running down migrations" (gm_Down mg e0).1 ∧
  Steps m mg 0 w = (None, w) ∧
  (n ≠ 0 → (Steps m mg n w).1 =
           migration_result ("applying " +:+ itoa n +:+ " migration steps") (gm_Steps mg n e0).1) ∧
  (∀ wrap err e target, migration_result wrap err = Some e →
     ∃ e', err = Some e' ∧ errors_Is e target = errors_Is e' target) ∧
  (∀ v d e w', gm_Version mg (mw_env w) = ((v, d, Some e), w') → errors_Is e migrate_ErrNilVersion = true →
     (Version mg w).1 = (0, false, None)).
Proof.
  assert (∀ A (k : Z → M (MigWorld W) A) l (w0 : MigWorld W),
    mthen (mlift gm_Now) (λ start, mthen (mig_emit m l) (λ _, k start)) w0 =
    k (gm_Now (mw_env w0)).1 ((mig_emit m l) (mkMigWorld (gm_Now (mw_env w0)).2 (mw_log w0))).2) as Hnow.
  { intros A k l w0. unfold mthen, mlift. by destruct (gm_Now (mw_env w0)). }
  assert (∀ l (w0 : MigWorld W), mw_env (mig_emit m l w0).2 = mw_env w0) as Henv.
  { intros l w0. unfold mig_emit. simpl. by case_match. }
  cbv zeta. split_and!.
  - unfold Up, log. by rewrite Hnow, run_migration_result, Henv.
  - unfold Down, log. by rewrite Hnow, run_migration_result, Henv.
  - done.
  - intros Hn. unfold Steps, log. destruct (Z.eqb_spec n 0); [done|].
    by rewrite Hnow, run_migration_result, Henv.
  - intros wrap err e target He. unfold migration_result in He. destruct err as [e'|]; [|done].
    destruct (errors_Is e' migrate_ErrNoChange); [done|]. injection He as <-.
    exists e'. split; [done|]. apply errorf_w_Is.
  - intros v d e w' Hv He. unfold Version, mthen, mlift, sret. by rewrite Hv, He.
Qed.

(** A driver over a version number: three migrations, moved through in either
    direction. *)
Module StepDriver.
Definition max_version : Z := 3.

Definition move (target : Z) : M Z (option goerror) := λ v,
  if target =? v then (Some (ESentinel migrate_ErrNoChange "no change"), v) else (None, target).

#[export] Instance driver : GolangMigrate Z := {
  gm_Pool := (); gm_FS := (); gm_Source := (); gm_DB := (); gm_Driver := (); gm_Migrate := ();
  iofs_New _ _ := sret (Ok tt);
  stdlib_OpenDBFromPool _ := sret tt;
  pgx_WithInstance _ _ := sret (Ok tt);
  migrate_NewWithInstance _ _ := sret (Ok tt);
  gm_Up _ := move max_version;
  gm_Down _ := move 0;
  gm_Steps _ n := λ v, if (0 <=? v + n) && (v + n <=? max_version) then move (v + n) v
                       else (Some (EForeign "file does not exist" []), v);
  gm_Version _ := λ v,
    ((v, false, if v =? 0 then Some (ESentinel migrate_ErrNilVersion "no migration") else None), v);
  gm_Force _ n := λ _, (None, n);
  gm_Close _ := sret (None, None);
  gm_Now := sret 0
}.
End StepDriver.

(** From version 0: [Down] has nothing to do, [Steps 5] fails on the driver's error,
    and [Version] reports the unmigrated database. *)
Lemma Migrator_results_witness :
  let m := mkMigrator (W := Z) (H := StepDriver.driver) (Logger := ()) DefaultMigratorConfig tt (Some tt) tt in
  let mg : gm_Migrate (GolangMigrate := StepDriver.driver) := tt in
  let w := mkMigWorld 0 [] in
  CoreErrorsOk (H := simple_core) ∧
  (Up m mg w).1 = None ∧ (Down m mg w).1 = None ∧
  (Steps m mg 5 w).1 =
    Some (errorf_w "applying 5 migration steps" (EForeign "file does not exist" [])) ∧
  (Version mg w).1 = (0, false, None).
Proof.
  intros m mg w. split; [exact simple_core_ok|].
  destruct (Migrator_results (H1 := simple_core_ok) m mg 5 w) as (Hup & Hdown & _ & Hsteps & _ & Hver).
  split; [rewrite Hup; vm_compute; reflexivity|].
  split; [rewrite Hdown; vm_compute; reflexivity|].
  split; [rewrite Hsteps; [vm_compute; reflexivity|lia]|].
  by eapply Hver.
Defined.
