(* ===== verification/RedisErrors.v ===== *)
(** * redis/errors.go: Redis error codes and classification by message *)

From Stdlib Require Import ZArith Lia.
From S2P Require Import Prelude GoLib GoFmt GoErrors.

(** ** Codes *)

Definition CodeNotFound : string := "REDIS_NOT_FOUND".
Definition CodeConnection : string := "REDIS_CONNECTION".
Definition CodeTimeout : string := "REDIS_TIMEOUT".
Definition CodeLockFailed : string := "REDIS_LOCK_FAILED".
Definition CodeLockNotHeld : string := "REDIS_LOCK_NOT_HELD".
Definition CodeRateLimited : string := "REDIS_RATE_LIMITED".
Definition CodeSerialization : string := "REDIS_SERIALIZATION".
Definition CodeInternal : string := "REDIS_INTERNAL".

Definition rd_coreCodeMapping : gmap string CoreCode :=
  list_to_map
    [ (CodeNotFound, CoreNotFound);
      (CodeConnection, CoreServiceUnavailable);
      (CodeTimeout, CoreServiceUnavailable);
      (CodeLockFailed, CoreConflict);
      (CodeLockNotHeld, CoreConflict);
      (CodeRateLimited, CoreRateLimited);
      (CodeSerialization, CoreValidationError);
      (CodeInternal, CoreInternalError) ].

(** [Code.String]. *)
Definition rd_Code_String (c : string) : string := c.

Definition rd_CoreCode (c : string) : CoreCode :=
  match rd_coreCodeMapping !! c with
  | Some coreCode => coreCode
  | None => CoreInternalError
  end.

(** ** Substring search, as written in the source *)

(** [c >= 'A' && c <= 'Z'] maps to [c + 'a' - 'A']. *)
Definition lower_byte (c : ascii) : ascii :=
  let n := Ascii.nat_of_ascii c in
  if (65 <=? n)%nat && (n <=? 90)%nat then Ascii.ascii_of_nat (n + 32) else c.

Fixpoint toLower (s : string) : string :=
  match s with
  | EmptyString => EmptyString
  | String c r => String (lower_byte c) (toLower r)
  end.

(** The loop over the offsets [0 .. len(s)-len(substr)]. *)
Definition contains (s substr : string) : bool :=
  if (String.length s <? String.length substr)%nat then false
  else existsb (λ i, bool_decide (String.substring i (String.length substr) s = substr))
         (seq 0 (String.length s - String.length substr + 1)).

Definition containsIgnoreCase (s substr : string) : bool :=
  contains (toLower s) (toLower substr).

Definition connectionPatterns : list string :=
  [ "connection refused"; "connection reset"; "no connection"; "connect:"; "dial tcp"; "EOF";
    "broken pipe" ].

Definition timeoutPatterns : list string :=
  [ "timeout"; "deadline exceeded"; "context deadline"; "i/o timeout" ].

Definition isConnectionError (msg : string) : bool :=
  existsb (containsIgnoreCase msg) connectionPatterns.
Definition isTimeoutError (msg : string) : bool :=
  existsb (containsIgnoreCase msg) timeoutPatterns.

(** ** Constructors, accessors and conversion *)

Section Errors.
Context `{CoreErrors}.

Definition rd_New (code message : string) : RedisError :=
  mkRedisError (core_New (rd_CoreCode code) message) code.

Definition rd_Wrap (code message : string) (cause : option goerror) : RedisError :=
  mkRedisError (core_Wrap (rd_CoreCode code) message cause) code.

(** A format outside the modelled part of [fmt.Sprintf] is [None]. *)
Definition rd_Newf (code format : string) (args : list fmt_arg) : option RedisError :=
  option_map (rd_New code) (Sprintf format args).
Definition rd_Wrapf (code : string) (cause : option goerror) (format : string) (args : list fmt_arg)
    : option RedisError :=
  option_map (λ message, rd_Wrap code message cause) (Sprintf format args).

Definition rd_Error_Code (e : RedisError) : string := rd_code e.

Definition FromRedisError (err : option goerror) : option RedisError :=
  match err with
  | None => None
  | Some e =>
      if errors_Is e redis_Nil then Some (rd_New CodeNotFound "key not found")
      else if errors_Is e redis_ErrClosed then Some (rd_Wrap CodeConnection "connection closed" err)
      else
        let errMsg := Error_text e in
        if isConnectionError errMsg then Some (rd_Wrap CodeConnection "Redis connection error" err)
        else if isTimeoutError errMsg then Some (rd_Wrap CodeTimeout "Redis operation timeout" err)
        else Some (rd_Wrap CodeInternal "Redis operation failed" err)
  end.

(** ** Checks on an error value; [None] is the [nil] error *)

Definition rd_AsError (err : option goerror) : option RedisError :=
  match err with
  | Some e => errors_As sel_RedisError e
  | None => None
  end.

Definition rd_IsError (err : option goerror) : bool :=
  match rd_AsError err with Some _ => true | None => false end.

Definition rd_GetCode (err : option goerror) : string :=
  match rd_AsError err with
  | Some redisErr => rd_Error_Code redisErr
  | None => CodeInternal
  end.

Definition rd_IsCode (err : option goerror) (code : string) : bool :=
  match rd_AsError err with
  | Some redisErr => bool_decide (rd_Error_Code redisErr = code)
  | None => false
  end.

Definition IsNotFound (err : option goerror) : bool := rd_IsCode err CodeNotFound.
Definition IsConnection (err : option goerror) : bool := rd_IsCode err CodeConnection.
Definition IsTimeout (err : option goerror) : bool := rd_IsCode err CodeTimeout.
Definition IsLockFailed (err : option goerror) : bool := rd_IsCode err CodeLockFailed.
Definition IsLockNotHeld (err : option goerror) : bool := rd_IsCode err CodeLockNotHeld.
Definition IsRateLimited (err : option goerror) : bool := rd_IsCode err CodeRateLimited.
Definition IsSerialization (err : option goerror) : bool := rd_IsCode err CodeSerialization.

(** ** Convenience constructors *)

Definition NotFound (message : string) : RedisError := rd_New CodeNotFound message.
Definition NotFoundf (format : string) (args : list fmt_arg) : option RedisError :=
  rd_Newf CodeNotFound format args.
Definition Connection (message : string) : RedisError := rd_New CodeConnection message.
Definition ConnectionWrap (message : string) (cause : option goerror) : RedisError :=
  rd_Wrap CodeConnection message cause.
Definition Timeout (message : string) : RedisError := rd_New CodeTimeout message.
Definition TimeoutWrap (message : string) (cause : option goerror) : RedisError :=
  rd_Wrap CodeTimeout message cause.
Definition LockFailed (message : string) : RedisError := rd_New CodeLockFailed message.
Definition LockNotHeld (message : string) : RedisError := rd_New CodeLockNotHeld message.
Definition RateLimited (message : string) : RedisError := rd_New CodeRateLimited message.
Definition Serialization (message : string) : RedisError := rd_New CodeSerialization message.
Definition SerializationWrap (message : string) (cause : option goerror) : RedisError :=
  rd_Wrap CodeSerialization message cause.
Definition Internal (message : string) : RedisError := rd_New CodeInternal message.
Definition InternalWrap (message : string) (cause : option goerror) : RedisError :=
  rd_Wrap CodeInternal message cause.

(** A failed call [cmd.Result()] of the driver, reported by the package. *)
Definition rd_fail {A} (err : goerror) : result A goerror :=
  match FromRedisError (Some err) with
  | Some e => Err (ERedis e)
  | None => Err err
  end.
End Errors.

(** ** Lemmas *)

Lemma substring_spec i n s :
  (i + n ≤ String.length s)%nat →
  ∃ a b, s = a +:+ String.substring i n s +:+ b ∧ String.length a = i ∧
         String.length (String.substring i n s) = n.
Proof.
  revert i n. induction s as [|c s IH]; intros i n Hl; simpl in Hl.
  { assert (i = 0%nat) as -> by lia. assert (n = 0%nat) as -> by lia. by exists "", "". }
  destruct i as [|i].
  - destruct n as [|n]; simpl.
    + by exists "", (String c s).
    + destruct (IH 0%nat n) as (a & b & Hs & Ha & Hn); [lia|]. destruct a; [|done].
      exists "", b. rewrite string_app_nil_l in *. rewrite string_app_cons.
      split_and!; [congruence|done|simpl; congruence].
  - destruct (IH i n) as (a & b & Hs & Ha & Hn); [lia|].
    exists (String c a), b. rewrite !string_app_cons. simpl. split_and!; [congruence..|done].
Qed.

Lemma contains_spec s substr :
  contains s substr = true ↔ ∃ a b, s = a +:+ substr +:+ b.
Proof.
  unfold contains. split.
  - destruct (Nat.ltb_spec (String.length s) (String.length substr)) as [|Hl]; [done|].
    intros (i & Hi & Heq)%existsb_exists. apply in_seq in Hi. apply bool_decide_eq_true in Heq.
    destruct (substring_spec i (String.length substr) s) as (a & b & Hs & _); [lia|].
    rewrite Heq in Hs. eauto.
  - intros (a & b & ->).
    destruct (Nat.ltb_spec (String.length (a +:+ substr +:+ b)) (String.length substr)) as [Hl|Hl];
      rewrite !string_length_app in Hl; [lia|].
    apply existsb_exists. exists (String.length a). split.
    { apply in_seq. rewrite !string_length_app. lia. }
    apply bool_decide_eq_true.
    destruct (substring_spec (String.length a) (String.length substr) (a +:+ substr +:+ b))
      as (a' & b' & Hs & Ha & Hn); [rewrite !string_length_app; lia|].
    apply string_app_inj_l in Hs as [_ Hs]; [|done].
    apply string_app_inj_l in Hs as [Hs _]; [done|congruence].
Qed.

Lemma toLower_app s t : toLower (s +:+ t) = toLower s +:+ toLower t.
Proof. induction s as [|c s IH]; [done|]. rewrite string_app_cons. simpl. by rewrite IH. Qed.

(** ** Equality up to ASCII case *)

(** The letters of ASCII, spelled out. *)
Definition letter_pairs : list (ascii * ascii) :=
  zip (String.list_ascii_of_string "ABCDEFGHIJKLMNOPQRSTUVWXYZ")
      (String.list_ascii_of_string "abcdefghijklmnopqrstuvwxyz").

(** The same byte, or the two cases of one letter. *)
Definition same_letter (c d : ascii) : Prop :=
  c = d ∨ (c, d) ∈ letter_pairs ∨ (d, c) ∈ letter_pairs.

Inductive equal_fold : string → string → Prop :=
| fold_nil : equal_fold "" ""
| fold_cons c d s t : same_letter c d → equal_fold s t → equal_fold (String c s) (String d t).

Lemma forall_ascii (P : ascii → bool) :
  forallb (λ n, P (ascii_of_nat n)) (seq 0 256) = true → ∀ c, P c = true.
Proof.
  intros HP c. rewrite <-(ascii_nat_embedding c). rewrite forallb_forall in HP. apply HP, in_seq.
  pose proof (nat_ascii_bounded c). lia.
Qed.

(** [lower_byte] moves a byte to the other member of its pair, or nowhere. *)
Lemma lower_byte_pair c : lower_byte c = c ∨ (c, lower_byte c) ∈ letter_pairs.
Proof.
  assert ((Ascii.eqb (lower_byte c) c ||
    existsb (λ p, Ascii.eqb p.1 c && Ascii.eqb p.2 (lower_byte c)) letter_pairs) = true) as Hc.
  { revert c. apply forall_ascii. vm_compute. reflexivity. }
  apply orb_true_iff in Hc as [Hc%Ascii.eqb_eq|Hc]; [by left|right].
  apply existsb_exists in Hc as ([x y] & Hin & [Hx%Ascii.eqb_eq Hy%Ascii.eqb_eq]%andb_true_iff).
  simpl in *. subst. by apply list_elem_of_In.
Qed.

Lemma letter_pairs_lower p :
  p ∈ letter_pairs → lower_byte p.1 = lower_byte p.2 ∧ ∀ q, q ∈ letter_pairs → q.2 = p.2 → q.1 = p.1.
Proof.
  assert (forallb (λ p, Ascii.eqb (lower_byte p.1) (lower_byte p.2) &&
    forallb (λ q, implb (Ascii.eqb q.2 p.2) (Ascii.eqb q.1 p.1)) letter_pairs) letter_pairs = true) as Hall
    by (vm_compute; reflexivity).
  rewrite forallb_forall in Hall. intros [Hl%Ascii.eqb_eq Hq]%list_elem_of_In%Hall%andb_true_iff.
  split; [done|]. rewrite forallb_forall in Hq. intros q Hin%list_elem_of_In%Hq Heq.
  rewrite Heq, Ascii.eqb_refl in Hin. by apply Ascii.eqb_eq.
Qed.

Lemma lower_byte_same_letter c d : lower_byte c = lower_byte d ↔ same_letter c d.
Proof.
  split.
  - intros Heq. destruct (lower_byte_pair c) as [Hc|Hc], (lower_byte_pair d) as [Hd|Hd].
    + left. congruence.
    + right; right. by rewrite <-Heq, Hc in Hd.
    + right; left. by rewrite Heq, Hd in Hc.
    + left. apply letter_pairs_lower in Hd as [_ Hd]. by apply (Hd _ Hc).
  - by intros [->|[Hp%letter_pairs_lower|Hp%letter_pairs_lower]]; [|destruct Hp|destruct Hp].
Qed.

Lemma toLower_equal_fold s t : toLower s = toLower t ↔ equal_fold s t.
Proof.
  split.
  - revert t. induction s as [|c s IH]; intros [|d t] Heq; simplify_eq/=; [constructor|].
    constructor; [by apply lower_byte_same_letter|auto].
  - induction 1 as [|c d s t Hcd _ IH]; [done|]. apply lower_byte_same_letter in Hcd.
    simpl. by rewrite Hcd, IH.
Qed.

Section ErrorLemmas.
Context `{CoreErrorsOk}.

Lemma rd_IsCode_ERedis r code : rd_IsCode (Some (ERedis r)) code = bool_decide (rd_code r = code).
Proof. unfold rd_IsCode, rd_AsError. by rewrite (errors_As_here _ _ r). Qed.

Lemma rd_fail_not_ok {A} err (a : A) : rd_fail err ≠ Ok a.
Proof. unfold rd_fail. by destruct (FromRedisError _). Qed.

(** A driver error is never reported as a missing or held lock, or as a limit. *)
Lemma FromRedisError_code err d :
  FromRedisError (Some err) = Some d →
  rd_code d ∈ [CodeNotFound; CodeConnection; CodeTimeout; CodeInternal].
Proof. simpl. intros Hd. repeat case_hyp Hd; simplify_eq/=; set_solver. Qed.
End ErrorLemmas.

#[export] Hint Rewrite @rd_IsCode_ERedis : godb.
#[global] Arguments rd_IsCode : simpl never.

(** ** Properties *)

(** C36: [containsIgnoreCase] is substring search up to ASCII case: it answers true
    exactly when some piece of the message has the pattern's length and at every
    position the pattern's byte or the other case of the same ASCII letter. *)
Theorem containsIgnoreCase_spec s substr :
  containsIgnoreCase s substr = true ↔
  ∃ a m b, s = a +:+ m +:+ b ∧ equal_fold m substr.
Proof.
  unfold containsIgnoreCase. setoid_rewrite <-toLower_equal_fold. rewrite contains_spec. split.
  - intros (a & b & Hs).
    assert (∀ s x y, toLower s = x +:+ y → ∃ u v, s = u +:+ v ∧ toLower u = x ∧ toLower v = y) as Hsplit.
    { clear. intros s x. revert s. induction x as [|c x IH]; intros s y Hs.
      { by exists "", s. }
      destruct s as [|d s]; rewrite string_app_cons in Hs; simplify_eq/=.
      destruct (IH s y) as (u & v & -> & <- & <-); [done|].
      exists (String (d : ascii) u), v. by rewrite string_app_cons. }
    destruct (Hsplit _ _ _ Hs) as (u & v & -> & _ & Hv).
    destruct (Hsplit _ _ _ Hv) as (m & w & -> & Hm & _). eauto.
  - intros (a & m & b & -> & Hm). rewrite !toLower_app, Hm. eauto.
Qed.

(** C34: [FromRedisError] is a total classification with this precedence: a
    [redis.Nil] anywhere in the chain is a missing key (the only class that drops
    the cause), a closed client a connection error, then the message decides:
    connection patterns before timeout patterns, everything else internal.  The
    HTTP-facing core code is the one of the Redis code. *)
Theorem FromRedisError_spec `{CoreErrorsOk} err :
  ∃ d, FromRedisError (Some err) = Some d ∧
    app_Code (rd_AppError d) = rd_CoreCode (rd_code d) ∧
    rd_code d =
      (if errors_Is err redis_Nil then CodeNotFound
       else if errors_Is err redis_ErrClosed || isConnectionError (Error_text err) then CodeConnection
       else if isTimeoutError (Error_text err) then CodeTimeout
       else CodeInternal) ∧
    app_Unwrap (rd_AppError d) = (if errors_Is err redis_Nil then None else Some err).
Proof.
  simpl. destruct (errors_Is err redis_Nil), (errors_Is err redis_ErrClosed),
    (isConnectionError (Error_text err)), (isTimeoutError (Error_text err));
    eexists; (split; [reflexivity|]); simpl; rewrite ?core_New_spec, ?core_Wrap_spec; done.
Qed.

Lemma FromRedisError_spec_witness :
  CoreErrorsOk (H := simple_core) ∧
  ∃ d, FromRedisError (Some (EForeign "dial tcp 10.0.0.1:6379: i/o timeout" [])) = Some d ∧
       rd_code d = CodeConnection.
Proof.
  split; [apply _|].
  destruct (FromRedisError_spec (EForeign "dial tcp 10.0.0.1:6379: i/o timeout" []))
    as (d & Hd & _ & Hc & _).
  exists d. split; [exact Hd|]. rewrite Hc. vm_compute. reflexivity.
Defined.
