(* ===== verification/RedisServer.v ===== *)
(** * The Redis server and the go-redis client, as the package uses them

    Both are outside the repository, so they are interfaces: [RedisServer] (the
    commands the sources issue, from Go and from Lua scripts, over a server state
    [S]), [RedisClient] (sending them, pipelines, the clocks, randomness, over the
    caller's world [W]), with their documented behaviour as [RedisServerOk] and
    [RedisClientOk].  [MemServer] is an implementation with that behaviour, used
    for concrete runs. *)

From Stdlib Require Import ZArith Lia.
From S2P Require Import Prelude GoLib GoErrors.

Open Scope go_scope.

(** ** Keys and commands *)

Inductive rvalue : Type :=
| RStr (s : string)
| RSet (members : gset string)
| RZSet (scores : gmap string Z).

(** A key's value and the server time (ms) at which it expires, if any. *)
Record entry := mkEntry { e_val : rvalue; e_exp : option Z }.

(** Commands sent by go-redis; durations are in nanoseconds. *)
Inductive gocmd : Type → Type :=
| GoGet (key : string) : gocmd string
| GoSet (key value : string) (ttl : Z) : gocmd ()
| GoSetNX (key value : string) (ttl : Z) : gocmd bool
| GoDel (keys : list string) : gocmd Z
| GoExists (keys : list string) : gocmd Z
| GoMGet (keys : list string) : gocmd (list (option string))
| GoTTL (key : string) : gocmd Z
| GoPTTL (key : string) : gocmd Z
| GoExpire (key : string) (ttl : Z) : gocmd bool
| GoSAdd (key member : string) : gocmd Z
| GoSRem (key : string) (members : list string) : gocmd Z
| GoSMembers (key : string) : gocmd (list string)
| GoPing : gocmd ().

(** The keys a command reads or writes. *)
Definition gocmd_keys {A} (c : gocmd A) : list string :=
  match c with
  | GoGet k | GoSet k _ _ | GoSetNX k _ _ | GoTTL k | GoPTTL k | GoExpire k _ | GoSAdd k _ | GoSRem k _
  | GoSMembers k => [k]
  | GoDel ks | GoExists ks | GoMGet ks => ks
  | GoPing => []
  end.

(** [redis.call] from a script; times are in milliseconds, [false] is [None]. *)
Inductive luacmd : Type → Type :=
| LGet (key : string) : luacmd (option string)
| LDel (key : string) : luacmd Z
| LPExpire (key : string) (ms : Z) : luacmd Z
| LIncrBy (key : string) (n : Z) : luacmd Z
| LPTTL (key : string) : luacmd Z
| LZRemRangeByScore (key : string) (lo hi : Z) : luacmd Z
| LZCard (key : string) : luacmd Z
| LZAdd (key : string) (score : Z) (member : string) : luacmd Z
| LZOldest (key : string) : luacmd (option (string * Z)).

Class RedisServer (S : Type) := {
  srv_go : ∀ {A}, gocmd A → M S (result A goerror);
  srv_lua : ∀ {A}, luacmd A → M S (result A goerror);
  lua_srand : M S ();
  lua_random : Z → M S Z;
  lua_tostring : Z → string;
  lua_tonumber : string → option Z;
  srv_db : S → gmap string entry;
  srv_now : S → Z;
  srv_elapse : Z → S → S
}.

(** A script is a state-passing computation that a failing call aborts. *)
Definition Lua (S A : Type) : Type := M S (result A goerror).

Definition lret {S A} (a : A) : Lua S A := sret (Ok a).
Definition lbind {S A B} (m : Lua S A) (k : A → Lua S B) : Lua S B :=
  mthen m (λ r, match r with Ok a => k a | Err e => sret (Err e) end).

Notation "'let~' x := m 'in' k" := (lbind m (λ x, k))
  (at level 10, x pattern, m at level 100, k at level 200) : go_scope.

(** Scripts start from the same random seed. *)
Definition run_script {S} `{RedisServer S} {A} (m : Lua S A) : M S (result A goerror) :=
  let! _ := lua_srand in m.

(** Lua numbers are doubles: an integer beyond 2^53 is rounded to 53 significant
    bits, ties to even. *)
Definition dbl (z : Z) : Z :=
  if Z.abs z <=? 2 ^ 53 then z
  else
    let u := 2 ^ (Z.log2 (Z.abs z) - 52) in
    let q := Z.abs z / u in
    let r := Z.abs z mod u in
    let q' := if (u <? 2 * r) || ((u =? 2 * r) && Z.odd q) then q + 1 else q in
    Z.sgn z * (q' * u).

(** ** The documented behaviour of the server *)

(** [m] started in [s] returns [a] with the database [db'], at the same time. *)
Definition runs {S} `{RedisServer S} {A} (m : M S A) (s : S) (a : A) (db' : gmap string entry) : Prop :=
  ∃ s', m s = (a, s') ∧ srv_db s' = db' ∧ srv_now s' = srv_now s.

Definition redis_nil : goerror := ESentinel redis_Nil "redis: nil".

(** The set or sorted set at a key: a missing key is an empty one, and an empty
    collection is no key; [None] for a key of another type. *)
Definition as_set (o : option entry) : option (gset string * option Z) :=
  match o with
  | None => Some (∅, None)
  | Some (mkEntry (RSet m) x) => Some (m, x)
  | Some _ => None
  end.

Definition as_zset (o : option entry) : option (gmap string Z * option Z) :=
  match o with
  | None => Some (∅, None)
  | Some (mkEntry (RZSet m) x) => Some (m, x)
  | Some _ => None
  end.

Definition put_set (k : string) (m : gset string) (x : option Z) (db : gmap string entry) :=
  if decide (m = ∅) then delete k db else <[k := mkEntry (RSet m) x]> db.
Definition put_zset (k : string) (m : gmap string Z) (x : option Z) (db : gmap string entry) :=
  if decide (m = ∅) then delete k db else <[k := mkEntry (RZSet m) x]> db.

(** The string at a key, as MGET reports it. *)
Definition str_at (db : gmap string entry) (k : string) : option string :=
  match db !! k with Some (mkEntry (RStr v) _) => Some v | _ => None end.

Class RedisServerOk (S : Type) `{RedisServer S} : Prop := {
  (** Only live keys are visible, and time only removes keys. *)
  srv_live s k v t : srv_db s !! k = Some (mkEntry v (Some t)) → srv_now s ≤ t;
  srv_elapse_now d s : srv_now (srv_elapse d s) = srv_now s + d;
  srv_elapse_sub d s k e :
    0 ≤ d → srv_db (srv_elapse d s) !! k = Some e → srv_db s !! k = Some e;
  srv_elapse_keeps d s k e :
    0 ≤ d → srv_db s !! k = Some e → (∀ t, e_exp e = Some t → srv_now s + d < t) →
    srv_db (srv_elapse d s) !! k = Some e;
  (** A command leaves other keys, and the clock, alone. *)
  go_frame {A} (c : gocmd A) s r s' k :
    srv_go c s = (r, s') → k ∉ gocmd_keys c → srv_db s' !! k = srv_db s !! k;
  go_clock {A} (c : gocmd A) s r s' : srv_go c s = (r, s') → srv_now s' = srv_now s;
  (** GET *)
  go_GET_none s k : srv_db s !! k = None → runs (srv_go (GoGet k)) s (Err redis_nil) (srv_db s);
  go_GET_str s k v x :
    srv_db s !! k = Some (mkEntry (RStr v) x) → runs (srv_go (GoGet k)) s (Ok v) (srv_db s);
  go_GET_other s k e :
    srv_db s !! k = Some e → (∀ v, e_val e ≠ RStr v) →
    ∃ err, runs (srv_go (GoGet k)) s (Err err) (srv_db s) ∧
      ∀ `{CoreErrorsOk}, errors_Is err redis_Nil = false;
  lua_GET_none s k : srv_db s !! k = None → runs (srv_lua (LGet k)) s (Ok None) (srv_db s);
  lua_GET_str s k v x :
    srv_db s !! k = Some (mkEntry (RStr v) x) → runs (srv_lua (LGet k)) s (Ok (Some v)) (srv_db s);
  lua_GET_other s k e :
    srv_db s !! k = Some e → (∀ v, e_val e ≠ RStr v) →
    ∃ err, runs (srv_lua (LGet k)) s (Err err) (srv_db s);
  (** SETNX with a time to live *)
  go_SETNX_free s k v ttl :
    srv_db s !! k = None → Millisecond ≤ ttl →
    runs (srv_go (GoSetNX k v ttl)) s (Ok true)
      (<[k := mkEntry (RStr v) (Some (srv_now s + Milliseconds ttl))]> (srv_db s));
  go_SETNX_held s k v ttl e :
    srv_db s !! k = Some e → Millisecond ≤ ttl →
    runs (srv_go (GoSetNX k v ttl)) s (Ok false) (srv_db s);
  (** SET with a time to live, and DEL *)
  go_SET_ttl s k v ttl :
    Millisecond ≤ ttl →
    runs (srv_go (GoSet k v ttl)) s (Ok tt)
      (<[k := mkEntry (RStr v) (Some (srv_now s + Milliseconds ttl))]> (srv_db s));
  go_DEL_spec s ks :
    ∃ n, runs (srv_go (GoDel ks)) s (Ok n) (filter (λ kv, kv.1 ∉ ks) (srv_db s));
  (** EXISTS, MGET, TTL, and EXPIRE, which go-redis sends in whole seconds *)
  go_EXISTS_spec s ks :
    runs (srv_go (GoExists ks)) s
      (Ok (Z.of_nat (length (filter (λ k, is_Some (srv_db s !! k)) ks)))) (srv_db s);
  go_MGET_spec s ks : runs (srv_go (GoMGet ks)) s (Ok (map (str_at (srv_db s)) ks)) (srv_db s);
  go_TTL_spec s k : ∃ t, runs (srv_go (GoTTL k)) s (Ok t) (srv_db s);
  go_EXPIRE_none s k ttl :
    srv_db s !! k = None → runs (srv_go (GoExpire k ttl)) s (Ok false) (srv_db s);
  go_EXPIRE_some s k e ttl :
    srv_db s !! k = Some e → Second ≤ ttl →
    runs (srv_go (GoExpire k ttl)) s (Ok true)
      (<[k := mkEntry (e_val e) (Some (srv_now s + 1000 * Z.quot ttl Second))]> (srv_db s));
  (** SADD, SREM and SMEMBERS *)
  go_SADD_spec s k m :
    match as_set (srv_db s !! k) with
    | Some (ms, x) => ∃ n, runs (srv_go (GoSAdd k m)) s (Ok n) (put_set k (ms ∪ {[m]}) x (srv_db s))
    | None => ∃ e, runs (srv_go (GoSAdd k m)) s (Err e) (srv_db s)
    end;
  go_SREM_spec s k l :
    match as_set (srv_db s !! k) with
    | Some (ms, x) =>
        ∃ n, runs (srv_go (GoSRem k l)) s (Ok n) (put_set k (ms ∖ list_to_set l) x (srv_db s))
    | None => ∃ e, runs (srv_go (GoSRem k l)) s (Err e) (srv_db s)
    end;
  go_SMEMBERS_spec s k :
    match as_set (srv_db s !! k) with
    | Some (ms, _) =>
        ∃ l, runs (srv_go (GoSMembers k)) s (Ok l) (srv_db s) ∧ NoDup l ∧ list_to_set l = ms
    | None => ∃ e, runs (srv_go (GoSMembers k)) s (Err e) (srv_db s)
    end;
  (** DEL and PEXPIRE from scripts *)
  lua_DEL_some s k e :
    srv_db s !! k = Some e → runs (srv_lua (LDel k)) s (Ok 1) (delete k (srv_db s));
  lua_PEXPIRE_pos s k e ms :
    srv_db s !! k = Some e → 0 < ms →
    runs (srv_lua (LPExpire k ms)) s (Ok 1)
      (<[k := mkEntry (e_val e) (Some (srv_now s + ms))]> (srv_db s));
  lua_PEXPIRE_neg s k e ms :
    srv_db s !! k = Some e → ms ≤ 0 →
    runs (srv_lua (LPExpire k ms)) s (Ok 1) (delete k (srv_db s));
  lua_PEXPIRE_none s k ms :
    srv_db s !! k = None → runs (srv_lua (LPExpire k ms)) s (Ok 0) (srv_db s);
  (** INCRBY and PTTL from scripts *)
  lua_INCRBY_none s k n :
    srv_db s !! k = None → in_int64 n →
    runs (srv_lua (LIncrBy k n)) s (Ok n) (<[k := mkEntry (RStr (itoa n)) None]> (srv_db s));
  lua_INCRBY_some s k n c x :
    srv_db s !! k = Some (mkEntry (RStr (itoa c)) x) → in_int64 c → in_int64 n → in_int64 (c + n) →
    runs (srv_lua (LIncrBy k n)) s (Ok (c + n))
      (<[k := mkEntry (RStr (itoa (c + n))) x]> (srv_db s));
  lua_PTTL_spec s k :
    runs (srv_lua (LPTTL k)) s
      (Ok (match srv_db s !! k with
           | None => -2
           | Some (mkEntry _ None) => -1
           | Some (mkEntry _ (Some t)) => t - srv_now s
           end)) (srv_db s);
  (** Sorted sets from scripts *)
  lua_ZREMRANGE_spec s k m x lo hi :
    as_zset (srv_db s !! k) = Some (m, x) →
    ∃ n, runs (srv_lua (LZRemRangeByScore k lo hi)) s (Ok n)
      (put_zset k (filter (λ p, ¬ (lo ≤ p.2 ≤ hi)) m) x (srv_db s));
  lua_ZCARD_spec s k m x :
    as_zset (srv_db s !! k) = Some (m, x) →
    runs (srv_lua (LZCard k)) s (Ok (Z.of_nat (size m))) (srv_db s);
  lua_ZADD_spec s k m x score member :
    as_zset (srv_db s !! k) = Some (m, x) →
    ∃ n, runs (srv_lua (LZAdd k score member)) s (Ok n) (put_zset k (<[member := score]> m) x (srv_db s));
  lua_ZOldest_spec s k m x :
    as_zset (srv_db s !! k) = Some (m, x) →
    ∃ o, runs (srv_lua (LZOldest k)) s (Ok o) (srv_db s) ∧
      match o with
      | None => m = ∅
      | Some (member, score) => m !! member = Some score ∧ map_Forall (λ _ z, score ≤ z) m
      end;
  (** Numbers, random numbers and seeding change no key; [tostring] prints up to 14
      digits. *)
  lua_random_spec s n : 0 < n → ∃ r, runs (lua_random n) s r (srv_db s) ∧ 1 ≤ r ≤ n;
  lua_tostring_itoa z : Z.abs z < 10 ^ 14 → lua_tostring z = itoa z;
  lua_srand_runs s : runs lua_srand s () (srv_db s);
  lua_tonumber_itoa n : in_int64 n → lua_tonumber (itoa n) = Some (dbl n)
}.

(** ** The client *)

(** Pipelines: the replies of the queued commands, in order. *)
Inductive pipe : Type → Type :=
| PNil : pipe ()
| PCons {A B} (c : gocmd A) (p : pipe B) : pipe (result A goerror * B)
| PMany {A} (cs : list (gocmd A)) : pipe (list (result A goerror)).

Class RedisClient (W S : Type) := {
  rc_server : W → S;
  rc_send : ∀ {A}, M S (result A goerror) → M W (result A goerror);
  rc_pipe : ∀ {A}, pipe A → M W (A * option goerror);
  rc_now : M W Z;
  rc_time_String : M W string;
  rc_sleep : Z → M W ();
  rc_ctx_err : M W (option goerror);
  rc_rand_Read : nat → M W (result (list Z) goerror)
}.

(** A pipeline is not atomic: its commands run in order, the others in between. *)
Fixpoint pipe_runs {S} `{RedisServer S} (others : S → S → Prop) {A} (p : pipe A) : S → A → S → Prop :=
  match p in pipe A return S → A → S → Prop with
  | PNil => λ s _ s', others s s'
  | PCons c p => λ s x s', ∃ s1 s2,
      others s s1 ∧ srv_go c s1 = (x.1, s2) ∧ pipe_runs others p s2 x.2 s'
  | PMany cs => λ s x s',
      (fix many cs x s := match cs, x with
       | [], [] => others s s'
       | c :: cs, r :: x => ∃ s1 s2, others s s1 ∧ srv_go c s1 = (r, s2) ∧ many cs x s2
       | _, _ => False
       end) cs x s
  end.

(** Every reply of a pipeline is a success. *)
Fixpoint pipe_ok {A} (p : pipe A) : A → Prop :=
  match p in pipe A return A → Prop with
  | PNil => λ _, True
  | PCons _ p => λ x, (∃ a, x.1 = Ok a) ∧ pipe_ok p x.2
  | PMany _ => λ x, Forall (λ r, ∃ a, r = Ok a) x
  end.

(** A request is executed atomically at some moment; [others] is what the other
    clients and the passing of time may do meanwhile. An error is the server's
    reply, or the transport's (never [redis.Nil]); then the request may or may not
    have been executed.  An answered request was executed exactly once: go-redis
    by default sends a request again after a network error, and the earlier copy
    may have been executed too; such repetitions are outside this interface. *)
Class RedisClientOk (W S : Type) `{RedisServer S} `{RedisClient W S} (others : S → S → Prop) : Prop := {
  rc_send_ok A (m : M S (result A goerror)) w a w' :
    rc_send m w = (Ok a, w') →
    ∃ s s', others (rc_server w) s ∧ m s = (Ok a, s') ∧ others s' (rc_server w');
  rc_send_err A (m : M S (result A goerror)) w e w' :
    rc_send m w = (Err e, w') →
    (∃ s s', others (rc_server w) s ∧ m s = (Err e, s') ∧ others s' (rc_server w')) ∨
    (∀ `{CoreErrorsOk}, errors_Is e redis_Nil = false) ∧
    (others (rc_server w) (rc_server w') ∨
     ∃ s s' r, others (rc_server w) s ∧ m s = (r, s') ∧ others s' (rc_server w'));
  rc_pipe_ok A (p : pipe A) w x w' :
    rc_pipe p w = ((x, None), w') → pipe_ok p x ∧ pipe_runs others p (rc_server w) x (rc_server w');
  rc_now_ok w t w' : rc_now w = (t, w') → others (rc_server w) (rc_server w');
  rc_time_String_ok w t w' : rc_time_String w = (t, w') → others (rc_server w) (rc_server w');
  rc_sleep_ok d w w' : rc_sleep d w = (tt, w') → others (rc_server w) (rc_server w');
  rc_ctx_err_ok w r w' : rc_ctx_err w = (r, w') → others (rc_server w) (rc_server w');
  rc_rand_Read_ok n w r w' :
    rc_rand_Read n w = (r, w') →
    others (rc_server w) (rc_server w') ∧ ∀ b, r = Ok b → length b = n ∧ Forall is_byte b
}.

(** [encoding/json] on values of a type the caller chooses. *)
(** [json.Marshal(value)], and [json.Unmarshal(data, dest)] with what it leaves in
    [dest], also on error. *)
Class Json (V : Type) := {
  json_Marshal : V → result string goerror;
  json_Unmarshal : string → V → V * option goerror
}.

(** A command sent by go-redis, and a script. *)
Definition go_cmd {W S} `{RedisServer S, RedisClient W S} {A} (c : gocmd A) : M W (result A goerror) :=
  rc_send (srv_go c).
Definition go_script {W S} `{RedisServer S, RedisClient W S} {A} (m : Lua S A) : M W (result A goerror) :=
  rc_send (run_script m).

(** ** An in-memory server *)

Module MemServer.
Record mem := mkMem { m_db : gmap string entry; m_now : Z; m_seed : Z }.

Definition live (t : Z) (e : entry) : bool :=
  match e_exp e with Some x => t <=? x | None => true end.

Definition visible (s : mem) : gmap string entry := filter (λ kv, live (m_now s) kv.2 = true) (m_db s).

Definition wrongtype : goerror :=
  EForeign "WRONGTYPE Operation against a key holding the wrong kind of value" [].
Definition not_integer : goerror := EForeign "ERR value is not an integer or out of range" [].
Definition invalid_expire : goerror := EForeign "ERR invalid expire time" [].

Definition deadline (now ttl : Z) : option Z :=
  if 0 <? ttl then Some (now + Z.max 1 (Milliseconds ttl)) else None.

Definition del1 (acc : Z * gmap string entry) (k : string) : Z * gmap string entry :=
  match acc.2 !! k with Some _ => (acc.1 + 1, delete k acc.2) | None => acc end.

Definition ttl_of (now unit round : Z) (e : option entry) : Z :=
  match e with
  | None => -2
  | Some (mkEntry _ None) => -1
  | Some (mkEntry _ (Some t)) => (t - now + round) / unit
  end.

Definition expire (now ms : Z) (k : string) (e : entry) (db : gmap string entry) : gmap string entry :=
  if 0 <? ms then <[k := mkEntry (e_val e) (Some (now + ms))]> db else delete k db.

Definition go_step {A} (c : gocmd A) (now : Z) (db : gmap string entry)
    : result A goerror * gmap string entry :=
  match c in gocmd A return result A goerror * gmap string entry with
  | GoGet k =>
      match db !! k with
      | None => (Err redis_nil, db)
      | Some (mkEntry (RStr v) _) => (Ok v, db)
      | Some _ => (Err wrongtype, db)
      end
  | GoSet k v ttl => (Ok tt, <[k := mkEntry (RStr v) (deadline now ttl)]> db)
  | GoSetNX k v ttl =>
      if ttl <? 0 then (Err invalid_expire, db)
      else match db !! k with
           | None => (Ok true, <[k := mkEntry (RStr v) (deadline now ttl)]> db)
           | Some _ => (Ok false, db)
           end
  | GoDel ks => let '(n, db') := fold_left del1 ks (0, db) in (Ok n, db')
  | GoExists ks => (Ok (Z.of_nat (length (filter (λ k, is_Some (db !! k)) ks))), db)
  | GoMGet ks =>
      (Ok (map (str_at db) ks), db)
  | GoTTL k =>
      let t := ttl_of now 1000 500 (db !! k) in (Ok (if t <? 0 then t else t * Second), db)
  | GoPTTL k =>
      let t := ttl_of now 1 0 (db !! k) in (Ok (if t <? 0 then t else t * Millisecond), db)
  | GoExpire k ttl =>
      match db !! k with
      | None => (Ok false, db)
      | Some e => (Ok true, expire now (1000 * (if (0 <? ttl) && (ttl <? Second) then 1 else Z.quot ttl Second)) k e db)
      end
  | GoSAdd k m =>
      match as_set (db !! k) with
      | None => (Err wrongtype, db)
      | Some (ms, x) => (Ok (if decide (m ∈ ms) then 0 else 1), put_set k (ms ∪ {[m]}) x db)
      end
  | GoSRem k l =>
      match as_set (db !! k) with
      | None => (Err wrongtype, db)
      | Some (ms, x) =>
          (Ok (Z.of_nat (size (ms ∩ list_to_set l))), put_set k (ms ∖ list_to_set l) x db)
      end
  | GoSMembers k =>
      match as_set (db !! k) with
      | None => (Err wrongtype, db)
      | Some (ms, _) => (Ok (elements ms), db)
      end
  | GoPing => (Ok tt, db)
  end.

Definition before (a b : string * Z) : bool :=
  (a.2 <? b.2) || ((a.2 =? b.2) && bool_decide (String.compare a.1 b.1 = Lt)).

Definition oldest (m : gmap string Z) : option (string * Z) :=
  fold_left (λ acc x, match acc with
                      | Some y => if before x y then Some x else acc
                      | None => Some x
                      end) (map_to_list m) None.

Definition lua_step {A} (c : luacmd A) (now : Z) (db : gmap string entry)
    : result A goerror * gmap string entry :=
  match c in luacmd A return result A goerror * gmap string entry with
  | LGet k =>
      match db !! k with
      | None => (Ok None, db)
      | Some (mkEntry (RStr v) _) => (Ok (Some v), db)
      | Some _ => (Err wrongtype, db)
      end
  | LDel k => let '(n, db') := del1 (0, db) k in (Ok n, db')
  | LPExpire k ms =>
      match db !! k with
      | None => (Ok 0, db)
      | Some e => (Ok 1, expire now ms k e db)
      end
  | LIncrBy k n =>
      match db !! k with
      | None => (Ok n, <[k := mkEntry (RStr (itoa n)) None]> db)
      | Some (mkEntry (RStr v) x) =>
          match ParseInt v with
          | Some c =>
              if decide (in_int64 (c + n)) then (Ok (c + n), <[k := mkEntry (RStr (itoa (c + n))) x]> db)
              else (Err not_integer, db)
          | None => (Err not_integer, db)
          end
      | Some _ => (Err wrongtype, db)
      end
  | LPTTL k => (Ok (ttl_of now 1 0 (db !! k)), db)
  | LZRemRangeByScore k lo hi =>
      match as_zset (db !! k) with
      | None => (Err wrongtype, db)
      | Some (m, x) =>
          let m' := filter (λ p, ¬ (lo ≤ p.2 ≤ hi)) m in
          (Ok (Z.of_nat (size m - size m')), put_zset k m' x db)
      end
  | LZCard k =>
      match as_zset (db !! k) with
      | None => (Err wrongtype, db)
      | Some (m, _) => (Ok (Z.of_nat (size m)), db)
      end
  | LZAdd k score member =>
      match as_zset (db !! k) with
      | None => (Err wrongtype, db)
      | Some (m, x) =>
          (Ok (match m !! member with Some _ => 0 | None => 1 end), put_zset k (<[member := score]> m) x db)
      end
  | LZOldest k =>
      match as_zset (db !! k) with
      | None => (Err wrongtype, db)
      | Some (m, _) => (Ok (oldest m), db)
      end
  end.

Definition on_db {A} (f : Z → gmap string entry → A * gmap string entry) : M mem A :=
  λ s, let '(r, db) := f (m_now s) (visible s) in (r, mkMem db (m_now s) (m_seed s)).

(** A linear congruential generator, reset at the start of a script. *)
Definition next_random (m : Z) : M mem Z :=
  λ s, let seed := (m_seed s * 25214903917 + 11) mod 2 ^ 48 in
       (seed mod m + 1, mkMem (m_db s) (m_now s) seed).

#[global] Instance server : RedisServer mem := {
  srv_go A c := on_db (go_step c);
  srv_lua A c := on_db (lua_step c);
  lua_srand s := (tt, mkMem (m_db s) (m_now s) 0);
  lua_random := next_random;
  lua_tostring := itoa;
  lua_tonumber s := option_map dbl (ParseInt s);
  srv_db := visible;
  srv_now := m_now;
  srv_elapse d s := mkMem (m_db s) (m_now s + d) (m_seed s)
}.

(** A client whose requests all succeed: its clock is the server's, and each read
    of the random source repeats one fresh byte. *)
Record world := mkWorld { w_mem : mem; w_rand : Z }.

Definition on_mem {A} (m : M mem A) : M world A :=
  λ w, let '(a, s) := m (w_mem w) in (a, mkWorld s (w_rand w)).

Definition on_all {A} : list (gocmd A) → M mem (list (result A goerror) * option goerror) :=
  fix many cs := match cs with
  | [] => sret ([], None)
  | c :: cs =>
      let! r := on_db (go_step c) in
      let! x := many cs in
      sret (r :: x.1, match r with Err e => Some e | Ok _ => x.2 end)
  end.

Fixpoint run_pipe {A} (p : pipe A) : M mem (A * option goerror) :=
  match p in pipe A return M mem (A * option goerror) with
  | PNil => sret (tt, None)
  | PCons c p =>
      let! r := on_db (go_step c) in
      let! x := run_pipe p in
      sret ((r, x.1), match r with Err e => Some e | Ok _ => x.2 end)
  | PMany cs => on_all cs
  end.

#[global] Instance client : RedisClient world mem := {
  rc_server := w_mem;
  rc_send A m := on_mem m;
  rc_pipe A p := on_mem (run_pipe p);
  rc_now := on_mem (λ s, (m_now s * Millisecond, s));
  rc_time_String := on_mem (λ s, (itoa (m_now s), s));
  rc_sleep d := on_mem (λ s, (tt, mkMem (m_db s) (m_now s + Z.max 0 (Milliseconds d)) (m_seed s)));
  rc_ctx_err w := (None, w);
  rc_rand_Read n w := (Ok (repeat (w_rand w mod 256) n), mkWorld (w_mem w) (w_rand w + 1))
}.

Lemma visible_lookup s k e : visible s !! k = Some e ↔ m_db s !! k = Some e ∧ live (m_now s) e = true.
Proof. unfold visible. by rewrite map_lookup_filter_Some. Qed.

Definition all_live (t : Z) (db : gmap string entry) : Prop :=
  ∀ k e, db !! k = Some e → live t e = true.

Lemma visible_all_live db now seed :
  all_live now db → visible (mkMem db now seed) = db.
Proof. intros Hl. apply map_filter_id. intros k e Hk. by apply (Hl k). Qed.

Lemma visible_live s k e : visible s !! k = Some e → live (m_now s) e = true.
Proof. rewrite visible_lookup. tauto. Qed.

Lemma on_db_runs {A} (f : Z → gmap string entry → A * gmap string entry) s a db' :
  f (m_now s) (visible s) = (a, db') → all_live (m_now s) db' →
  runs (on_db f) s a db'.
Proof.
  intros Hf Hl. unfold runs, on_db. rewrite Hf. eexists. split; [done|]. simpl.
  by rewrite visible_all_live.
Qed.

Lemma insert_live t k e db : live t e = true → all_live t db → all_live t (<[k := e]> db).
Proof. intros He Hdb k' e' [[<- <-]|[_ Hk]]%lookup_insert_Some; eauto. Qed.

Lemma delete_live t k db : all_live t db → all_live t (delete k db).
Proof. intros Hdb k' e' [_ Hk]%lookup_delete_Some. eauto. Qed.

Lemma visible_all s : all_live (m_now s) (visible s).
Proof. intros k e. apply visible_live. Qed.

Lemma milliseconds_pos ttl : Millisecond ≤ ttl → 1 ≤ Milliseconds ttl.
Proof.
  unfold Milliseconds, Millisecond. intros. rewrite Z.quot_div_nonneg by lia.
  apply Z.div_le_lower_bound; lia.
Qed.

Lemma deadline_pos t ttl : Millisecond ≤ ttl → deadline t ttl = Some (t + Milliseconds ttl).
Proof.
  intros Hm. pose proof (milliseconds_pos _ Hm). unfold deadline.
  destruct (Z.ltb_spec 0 ttl); [do 2 f_equal; lia|unfold Millisecond in Hm; lia].
Qed.

(** A command changes only its keys. *)
Lemma go_step_lookup {A} (c : gocmd A) now db k :
  k ∉ gocmd_keys c → (go_step c now db).2 !! k = db !! k.
Proof.
  assert (∀ ks acc, k ∉ ks → (fold_left del1 ks acc).2 !! k = acc.2 !! k) as Hdel.
  { induction ks as [|x ks IH]; intros acc Hk; [done|]. cbn [fold_left].
    rewrite IH by set_solver. unfold del1. destruct (acc.2 !! x); [|done]. simpl.
    apply lookup_delete_ne. set_solver. }
  assert (∀ k' m x, k ≠ k' → put_set k' m x db !! k = db !! k) as Hput.
  { intros k' m x Hne. unfold put_set. case_decide; [by apply lookup_delete_ne|by apply lookup_insert_ne]. }
  assert (∀ k' ms e, k ≠ k' → expire now ms k' e db !! k = db !! k) as Hexp.
  { intros k' ms e Hne. unfold expire. case_match; [by apply lookup_insert_ne|by apply lookup_delete_ne]. }
  destruct c; simpl; intros Hk; try (assert (k ≠ key) by set_solver);
    try (pose proof (Hdel keys (0, db) Hk); destruct (fold_left del1 keys (0, db)); done);
    repeat case_match; simpl;
    first [done | by apply lookup_insert_ne | by apply Hput | by apply Hexp].
Qed.

Lemma visible_step now seed db k :
  (∀ e, db !! k = Some e → live now e = true) → visible (mkMem db now seed) !! k = db !! k.
Proof.
  intros Hl. destruct (db !! k) as [e|] eqn:Hk.
  - apply visible_lookup. auto.
  - destruct (visible _ !! k) eqn:Hv; [|done]. apply visible_lookup in Hv as [Hv _]. simpl in Hv. congruence.
Qed.

Lemma go_step_frame {A} (c : gocmd A) s r s' k :
  on_db (go_step c) s = (r, s') → k ∉ gocmd_keys c → visible s' !! k = visible s !! k.
Proof.
  unfold on_db. intros Hs Hk. pose proof (go_step_lookup c (m_now s) (visible s) k Hk) as Hl.
  destruct (go_step c (m_now s) (visible s)) as [r' db'] eqn:Hg. simpl in Hl.
  injection Hs as _ <-. rewrite visible_step; [done|]. intros e He. rewrite Hl in He.
  by apply (visible_all s k).
Qed.

(** A list of deletions. *)
Lemma del_fold ks acc k :
  (fold_left del1 ks acc).2 !! k = if decide (k ∈ ks) then None else acc.2 !! k.
Proof.
  revert acc. induction ks as [|x ks IH]; intros acc; cbn [fold_left].
  { destruct (decide (k ∈ [])); [set_solver|done]. }
  rewrite IH. unfold del1.
  destruct (decide (k ∈ ks)), (decide (k ∈ x :: ks)); [done|set_solver| |].
  - assert (k = x) as -> by set_solver.
    destruct (acc.2 !! x) eqn:Hx; simpl; [by rewrite lookup_delete_eq|done].
  - assert (k ≠ x) by set_solver.
    destruct (acc.2 !! x) eqn:Hx; simpl; [by rewrite lookup_delete_ne|done].
Qed.

(** A written collection lives as long as the one it replaces. *)
Lemma put_set_live t k m x db :
  live t (mkEntry (RSet m) x) = true → all_live t db → all_live t (put_set k m x db).
Proof. intros He Hdb. unfold put_set. case_decide; [by apply delete_live|by apply insert_live]. Qed.

Lemma put_zset_live t k m x db :
  live t (mkEntry (RZSet m) x) = true → all_live t db → all_live t (put_zset k m x db).
Proof. intros He Hdb. unfold put_zset. case_decide; [by apply delete_live|by apply insert_live]. Qed.

Lemma as_set_live s k m x : as_set (visible s !! k) = Some (m, x) → ∀ v, live (m_now s) (mkEntry v x) = true.
Proof.
  intros Hk v. destruct (visible s !! k) as [e|] eqn:He; [apply visible_live in He|]; simpl in Hk;
    repeat case_match; by simplify_eq.
Qed.

Lemma as_zset_live s k m x : as_zset (visible s !! k) = Some (m, x) → ∀ v, live (m_now s) (mkEntry v x) = true.
Proof.
  intros Hk v. destruct (visible s !! k) as [e|] eqn:He; [apply visible_live in He|]; simpl in Hk;
    repeat case_match; by simplify_eq.
Qed.

(** [oldest] finds a member with the least score. *)
Lemma oldest_spec m :
  match oldest m with
  | None => m = ∅
  | Some (member, score) => m !! member = Some score ∧ map_Forall (λ _ z, score ≤ z) m
  end.
Proof.
  set (least := λ acc (x : string * Z), match acc with
                | Some y => if before x y then Some x else acc
                | None => Some x
                end).
  assert (∀ l acc, match fold_left least l acc with
    | None => acc = None ∧ l = []
    | Some y => (acc = Some y ∨ y ∈ l) ∧ (∀ x, x ∈ l ∨ acc = Some x → y.2 ≤ x.2)
    end) as Hfold.
  { induction l as [|x l IH]; intros acc; simpl.
    { destruct acc as [y|]; [|done]. split; [by left|]. intros z [Hz|[= <-]]; [by apply not_elem_of_nil in Hz|lia]. }
    specialize (IH (least acc x)). destruct (fold_left least l (least acc x)) as [y|].
    - destruct IH as [Hin Hmin]. unfold least in Hin, Hmin.
      assert (∀ y', acc = Some y' → before x y' = true → x.2 ≤ y'.2) as Hb1.
      { unfold before. intros y' _ Hb. apply orb_true_iff in Hb as [Hb%Z.ltb_lt|[Hb%Z.eqb_eq _]%andb_true_iff]; lia. }
      assert (∀ y', acc = Some y' → before x y' = false → y'.2 ≤ x.2) as Hb2.
      { unfold before. intros y' _ Hb. apply orb_false_iff in Hb as [Hb%Z.ltb_ge _]. lia. }
      split.
      + destruct acc as [y'|]; [destruct (before x y')|]; set_solver.
      + intros z [Hz|Hz].
        * apply elem_of_cons in Hz as [->|Hz]; [|by apply Hmin; left].
          destruct acc as [y'|]; [destruct (before x y') eqn:Hb|]; [by apply Hmin; right| |by apply Hmin; right].
          etrans; [apply Hmin; by right|by apply Hb2].
        * rewrite Hz in *. destruct (before x z) eqn:Hb; [|by apply Hmin; right].
          etrans; [apply Hmin; by right|by apply Hb1].
    - destruct IH as [Hl _]. destruct acc as [y'|]; simpl in Hl; [by case_match|done]. }
  unfold oldest. fold least. specialize (Hfold (map_to_list m) None).
  destruct (fold_left least (map_to_list m) None) as [[a z]|].
  - destruct Hfold as [[?|Hin] Hmin]; [done|]. split; [by apply elem_of_map_to_list|].
    intros a' z' Ha. apply (Hmin (a', z')). left. by apply elem_of_map_to_list.
  - destruct Hfold as [_ Hl]. by apply map_to_list_empty_iff.
Qed.

Create HintDb live.
#[local] Hint Resolve insert_live delete_live visible_all : live.

(** Run one command whose keys are known. *)
Ltac run_command :=
  apply on_db_runs; [simpl | try solve [eauto with live | by apply insert_live; [|apply visible_all]]].

#[global] Instance server_ok : RedisServerOk mem.
Proof.
  constructor; simpl.
  - intros s k v t Hk%visible_live. by apply Z.leb_le.
  - done.
  - intros d s k e Hd Hk. apply visible_lookup in Hk as [Hk Hl]. apply visible_lookup. split; [done|].
    unfold live in *. simpl in *. destruct (e_exp e); [|done]. apply Z.leb_le in Hl. apply Z.leb_le. lia.
  - intros d s k e Hd [Hk Hl]%visible_lookup Ht. apply visible_lookup. split; [done|].
    unfold live in *. simpl. destruct (e_exp e) as [t|]; [|done]. apply Z.leb_le.
    specialize (Ht t eq_refl). lia.
  - intros A c s r s' k Hs Hk. by eapply go_step_frame.
  - intros A c s r s' Hs. unfold on_db in Hs. destruct (go_step c (m_now s) (visible s)).
    by injection Hs as _ <-.
  - intros s k Hk. run_command. by rewrite Hk.
  - intros s k v x Hk. run_command. by rewrite Hk.
  - intros s k [v x] Hk Hv. exists wrongtype. split; [|done].
    run_command. rewrite Hk. destruct v; [naive_solver|done..].
  - intros s k Hk. run_command. by rewrite Hk.
  - intros s k v x Hk. run_command. by rewrite Hk.
  - intros s k [v x] Hk Hv. exists wrongtype. run_command. rewrite Hk. destruct v; [naive_solver|done..].
  - intros s k v ttl Hk Hm. run_command.
    + destruct (Z.ltb_spec ttl 0); [unfold Millisecond in Hm; lia|]. by rewrite Hk, deadline_pos.
    + apply insert_live; [|apply visible_all]. apply Z.leb_le. pose proof (milliseconds_pos _ Hm). lia.
  - intros s k v ttl e Hk Hm. run_command.
    destruct (Z.ltb_spec ttl 0); [unfold Millisecond in Hm; lia|]. by rewrite Hk.
  - intros s k v ttl Hm. run_command.
    + by rewrite deadline_pos.
    + apply insert_live; [|apply visible_all]. apply Z.leb_le. pose proof (milliseconds_pos _ Hm). lia.
  - intros s ks. destruct (fold_left del1 ks (0, visible s)) as [n db'] eqn:Hf. exists n. run_command.
    + rewrite Hf. f_equal. apply map_eq. intros k. change db' with (n, db').2. rewrite <-Hf, del_fold.
      destruct (decide (k ∈ ks)) as [Hin|Hni].
      * symmetry. apply map_lookup_filter_None. right. intros x _. by intros [].
      * destruct (visible s !! k) as [e|] eqn:Hk; symmetry.
        -- change ((0, visible s).2 !! k) with (visible s !! k). rewrite Hk.
           by apply map_lookup_filter_Some.
        -- change ((0, visible s).2 !! k) with (visible s !! k). rewrite Hk.
           apply map_lookup_filter_None. by left.
    + intros k e [Hk _]%map_lookup_filter_Some. by apply (visible_all s k).
  - intros s ks. by run_command.
  - intros s ks. by run_command.
  - intros s k. eexists. by run_command.
  - intros s k ttl Hk. run_command. by rewrite Hk.
  - intros s k e ttl Hk Hs. assert (1 ≤ Z.quot ttl Second) as Hq.
    { unfold Second, Millisecond in *. rewrite Z.quot_div_nonneg by lia. apply Z.div_le_lower_bound; lia. }
    run_command.
    + rewrite Hk. destruct (Z.ltb_spec ttl Second); [lia|]. rewrite andb_false_r. unfold expire.
      by destruct (Z.ltb_spec 0 (1000 * Z.quot ttl Second)); [|lia].
    + apply insert_live; [|apply visible_all]. apply Z.leb_le. lia.
  - intros s k m. destruct (as_set (visible s !! k)) as [[ms x]|] eqn:Hk; eexists; run_command;
      [by rewrite Hk|by eapply put_set_live; [eapply as_set_live|apply visible_all]|by rewrite Hk].
  - intros s k l. destruct (as_set (visible s !! k)) as [[ms x]|] eqn:Hk; eexists; run_command;
      [by rewrite Hk|by eapply put_set_live; [eapply as_set_live|apply visible_all]|by rewrite Hk].
  - intros s k. destruct (as_set (visible s !! k)) as [[ms x]|] eqn:Hk; eexists;
      [split; [|split; [apply (NoDup_elements ms)|apply (list_to_set_elements_L ms)]]|]; run_command; by rewrite Hk.
  - intros s k e Hk. run_command. unfold del1. simpl. by rewrite Hk.
  - intros s k e ms Hk Hm. run_command.
    + rewrite Hk. unfold expire. by destruct (Z.ltb_spec 0 ms); [|lia].
    + apply insert_live; [|apply visible_all]. apply Z.leb_le. lia.
  - intros s k e ms Hk Hm. run_command. rewrite Hk. unfold expire. by destruct (Z.ltb_spec 0 ms); [lia|].
  - intros s k ms Hk. run_command. by rewrite Hk.
  - intros s k n Hk Hn. run_command. by rewrite Hk.
  - intros s k n c x Hk Hc Hn Hcn. apply visible_live in Hk as Hl. run_command.
    rewrite Hk, ParseInt_itoa by done. by rewrite decide_True.
  - intros s k. run_command. unfold ttl_of.
    destruct (visible s !! k) as [[v [t|]]|]; [|done..]. by rewrite Z.div_1_r, Z.add_0_r.
  - intros s k m x lo hi Hk. eexists. run_command;
      [by rewrite Hk|by eapply put_zset_live; [eapply as_zset_live|apply visible_all]].
  - intros s k m x Hk. run_command. by rewrite Hk.
  - intros s k m x score member Hk. eexists. run_command;
      [by rewrite Hk|by eapply put_zset_live; [eapply as_zset_live|apply visible_all]].
  - intros s k m x Hk. exists (oldest m). split; [|apply oldest_spec]. run_command. by rewrite Hk.
  - intros s n Hn. eexists. split; [eexists; split; [reflexivity|done]|].
    pose proof (Z.mod_pos_bound ((m_seed s * 25214903917 + 11) mod 2 ^ 48) n Hn). lia.
  - done.
  - intros s. eexists. split; [done|]. done.
  - intros n Hn. by rewrite ParseInt_itoa.
Qed.

Lemma on_all_ok (R : mem → mem → Prop) {A} (cs : list (gocmd A)) s x s' :
  Reflexive R → on_all cs s = ((x, None), s') → pipe_ok (PMany cs) x ∧ pipe_runs R (PMany cs) s x s'.
Proof.
  intros HR. revert s x. induction cs as [|c cs IH]; intros s x Hr; simpl in Hr.
  { injection Hr as <- <-. split; [by constructor|apply HR]. }
  unfold mthen, sret in Hr. destruct (on_db (go_step c) s) as [[a|e] s1] eqn:Hc; [|destruct (on_all cs s1); congruence].
  destruct (on_all cs s1) as [[y [e|]] s2] eqn:Hy; [done|]. injection Hr as <- <-.
  destruct (IH s1 y Hy) as [Hok Hruns]. split.
  - constructor; [eauto|done].
  - exists s, s1. split_and!; [apply HR|done|done].
Qed.

Lemma run_pipe_ok (R : mem → mem → Prop) {A} (p : pipe A) s x s' :
  Reflexive R → run_pipe p s = ((x, None), s') → pipe_ok p x ∧ pipe_runs R p s x s'.
Proof.
  intros HR. revert s. induction p as [|A B c p IH|A cs]; intros s Hr.
  - injection Hr as <- <-. split; [done|apply HR].
  - simpl in Hr. unfold mthen, sret in Hr.
    destruct (on_db (go_step c) s) as [[a|e] s1] eqn:Hc; [|destruct (run_pipe p s1); congruence].
    destruct (run_pipe p s1) as [[y [e|]] s2] eqn:Hy; [done|]. injection Hr as <- <-.
    destruct (IH y s1 Hy) as [Hok Hruns]. split; [split; [eauto|done]|].
    exists s, s1. split_and!; [apply HR|done|done].
  - by apply on_all_ok.
Qed.

Lemma client_ok (R : mem → mem → Prop) :
  Reflexive R → (∀ s d, 0 ≤ d → R s (srv_elapse d s)) → RedisClientOk world mem R.
Proof.
  intros Hrefl Helapse. constructor; simpl; unfold on_mem.
  - intros A m w a w' Hm. destruct (m (w_mem w)) as [r s] eqn:Hr. simplify_eq/=. eauto.
  - intros A m w e w' Hm. left. destruct (m (w_mem w)) as [r s] eqn:Hr. simplify_eq/=. eauto 6.
  - intros A p w x w' Hp. destruct (run_pipe p (w_mem w)) as [[y err] s] eqn:Hr.
    injection Hp as <- -> <-. by apply run_pipe_ok.
  - by intros w t w' [= _ <-].
  - by intros w t w' [= _ <-].
  - intros d w w' [= <-]. apply (Helapse (w_mem w)). lia.
  - by intros w r w' [= _ <-].
  - intros n w r w' [= <- <-]. split; [done|]. intros b [= <-]. split; [apply repeat_length|].
    apply Forall_forall. intros x Hx. apply list_elem_of_In, repeat_spec in Hx as ->.
    apply Z.mod_pos_bound. lia.
Qed.

(** An empty server. *)
Definition start : world := mkWorld (mkMem ∅ 0 0) 1.
End MemServer.

Lemma dbl_small z : Z.abs z ≤ 2 ^ 53 → dbl z = z.
Proof. intros Hz. unfold dbl. by destruct (Z.leb_spec (Z.abs z) (2 ^ 53)); [|lia]. Qed.

(** ** Lemmas on runs *)

Section Runs.
Context {S : Type} `{RedisServerOk S}.

Lemma runs_mthen {A B} (m : M S A) (k : A → M S B) s a db1 b db2 :
  runs m s a db1 →
  (∀ s', srv_db s' = db1 → srv_now s' = srv_now s → runs (k a) s' b db2) →
  runs (mthen m k) s b db2.
Proof.
  intros (s1 & Hm & Hdb & Hnow) Hk. destruct (Hk s1 Hdb Hnow) as (s2 & Hk2 & Hdb2 & Hnow2).
  exists s2. unfold mthen. rewrite Hm. split_and!; [done..|congruence].
Qed.

Lemma runs_lbind {A B} (m : Lua S A) (k : A → Lua S B) s a db1 b db2 :
  runs m s (Ok a) db1 →
  (∀ s', srv_db s' = db1 → srv_now s' = srv_now s → runs (k a) s' b db2) →
  runs (lbind m k) s b db2.
Proof. intros Hm Hk. unfold lbind. eapply runs_mthen; [done|]. done. Qed.

Lemma runs_lbind_err {A B} (m : Lua S A) (k : A → Lua S B) s e db1 :
  runs m s (Err e) db1 → runs (lbind m k) s (Err e) db1.
Proof.
  intros Hm. unfold lbind. eapply runs_mthen; [done|]. intros s' Hdb Hnow.
  exists s'. by rewrite <-Hdb.
Qed.

Lemma runs_lret {A} (a : A) s db : srv_db s = db → runs (lret a) s (Ok a) db.
Proof. intros <-. by exists s. Qed.

(** [runs] determines the result. *)
Lemma runs_result {A} (m : M S A) s a db' b s' :
  runs m s a db' → m s = (b, s') → b = a ∧ srv_db s' = db' ∧ srv_now s' = srv_now s.
Proof. intros (s1 & Hm & ?) Hb. rewrite Hm in Hb. by simplify_eq. Qed.

Lemma entry_cases e : (∃ v x, e = mkEntry (RStr v) x) ∨ ∀ v, e_val e ≠ RStr v.
Proof. destruct e as [[v|m|m] x]; [left; eauto|by right..]. Qed.

Lemma runs_script {A} (m : Lua S A) s r db' :
  (∀ s', srv_db s' = srv_db s → srv_now s' = srv_now s → runs m s' r db') →
  runs (run_script m) s r db'.
Proof. intros Hm. unfold run_script. eapply runs_mthen; [apply lua_srand_runs|done]. Qed.
End Runs.

(** ** A client that counts *)

(** Any client, with the number of requests it sent and the time it slept. *)
Record counted (W : Type) := mkCounted { c_env : W; c_sends : Z; c_slept : Z }.
Arguments mkCounted {W}.
Arguments c_env {W}.
Arguments c_sends {W}.
Arguments c_slept {W}.

Definition uncounted {W A} (m : M W A) : M (counted W) A :=
  λ w, let '(a, e) := m (c_env w) in (a, mkCounted e (c_sends w) (c_slept w)).

Definition counted_client {W S} `{RedisClient W S} : RedisClient (counted W) S := {|
  rc_server w := rc_server (c_env w);
  rc_send A m := λ w, let '(a, e) := rc_send m (c_env w) in (a, mkCounted e (c_sends w + 1) (c_slept w));
  rc_pipe A p := uncounted (rc_pipe p);
  rc_now := uncounted rc_now;
  rc_time_String := uncounted rc_time_String;
  rc_sleep d := λ w, let '(a, e) := rc_sleep d (c_env w) in (a, mkCounted e (c_sends w) (c_slept w + d));
  rc_ctx_err := uncounted rc_ctx_err;
  rc_rand_Read n := uncounted (rc_rand_Read n)
|}.
