(* ===== verification/RedisClient.v ===== *)
(** * redis/client.go: the client wrapper and its configuration

    The go-redis constructors are the parameter [GoRedis]; the three option
    structures they take are records with the fields the source sets. *)

From Stdlib Require Import ZArith Lia.
From S2P Require Import Prelude GoLib GoErrors RedisErrors RedisServer.

Open Scope go_scope.

Definition DefaultPoolSize : Z := 10.
Definition DefaultMinIdleConns : Z := 2.
Definition DefaultConnMaxLifetime : Z := 30 * Minute.
Definition DefaultConnMaxIdleTime : Z := 10 * Minute.
Definition DefaultDialTimeout : Z := 5 * Second.
Definition DefaultReadTimeout : Z := 3 * Second.
Definition DefaultWriteTimeout : Z := 3 * Second.
Definition DefaultPoolTimeout : Z := 4 * Second.

(** [Mode] is an [int]: other values are possible. *)
Inductive Mode : Type :=
| ModeStandalone
| ModeCluster
| ModeSentinel
| ModeOther (n : Z).

#[export] Instance Mode_eq_dec : EqDecision Mode.
Proof. solve_decision. Defined.

Definition Mode_String (m : Mode) : string :=
  match m with
  | ModeStandalone => "standalone"
  | ModeCluster => "cluster"
  | ModeSentinel => "sentinel"
  | ModeOther _ => "unknown"
  end.

Record Config := mkConfig {
  Addresses : list string;
  Password : string;
  DB : Z;
  PoolSize : Z;
  MinIdleConns : Z;
  ConnMaxLifetime : Z;
  ConnMaxIdleTime : Z;
  DialTimeout : Z;
  ReadTimeout : Z;
  WriteTimeout : Z;
  PoolTimeout : Z;
  Mode_ : Mode;
  MasterName : string;
  TLSEnabled : bool
}.

Definition DefaultConfig : Config :=
  mkConfig ["localhost:6379"] "" 0 DefaultPoolSize DefaultMinIdleConns DefaultConnMaxLifetime
    DefaultConnMaxIdleTime DefaultDialTimeout DefaultReadTimeout DefaultWriteTimeout
    DefaultPoolTimeout ModeStandalone "" false.

Definition ConfigOption : Type := Config → Config.

Definition WithAddresses (addrs : list string) : ConfigOption := λ c,
  mkConfig addrs (Password c) (DB c) (PoolSize c) (MinIdleConns c) (ConnMaxLifetime c)
    (ConnMaxIdleTime c) (DialTimeout c) (ReadTimeout c) (WriteTimeout c) (PoolTimeout c) (Mode_ c)
    (MasterName c) (TLSEnabled c).
Definition WithAddress (addr : string) : ConfigOption := λ c,
  mkConfig [addr] (Password c) (DB c) (PoolSize c) (MinIdleConns c) (ConnMaxLifetime c)
    (ConnMaxIdleTime c) (DialTimeout c) (ReadTimeout c) (WriteTimeout c) (PoolTimeout c) (Mode_ c)
    (MasterName c) (TLSEnabled c).
Definition WithPassword (password : string) : ConfigOption := λ c,
  mkConfig (Addresses c) password (DB c) (PoolSize c) (MinIdleConns c) (ConnMaxLifetime c)
    (ConnMaxIdleTime c) (DialTimeout c) (ReadTimeout c) (WriteTimeout c) (PoolTimeout c) (Mode_ c)
    (MasterName c) (TLSEnabled c).
Definition WithDB (db : Z) : ConfigOption := λ c,
  mkConfig (Addresses c) (Password c) db (PoolSize c) (MinIdleConns c) (ConnMaxLifetime c)
    (ConnMaxIdleTime c) (DialTimeout c) (ReadTimeout c) (WriteTimeout c) (PoolTimeout c) (Mode_ c)
    (MasterName c) (TLSEnabled c).
Definition WithPoolSize (size : Z) : ConfigOption := λ c,
  mkConfig (Addresses c) (Password c) (DB c) size (MinIdleConns c) (ConnMaxLifetime c)
    (ConnMaxIdleTime c) (DialTimeout c) (ReadTimeout c) (WriteTimeout c) (PoolTimeout c) (Mode_ c)
    (MasterName c) (TLSEnabled c).
Definition WithMinIdleConns (n : Z) : ConfigOption := λ c,
  mkConfig (Addresses c) (Password c) (DB c) (PoolSize c) n (ConnMaxLifetime c)
    (ConnMaxIdleTime c) (DialTimeout c) (ReadTimeout c) (WriteTimeout c) (PoolTimeout c) (Mode_ c)
    (MasterName c) (TLSEnabled c).
Definition WithConnMaxLifetime (d : Z) : ConfigOption := λ c,
  mkConfig (Addresses c) (Password c) (DB c) (PoolSize c) (MinIdleConns c) d
    (ConnMaxIdleTime c) (DialTimeout c) (ReadTimeout c) (WriteTimeout c) (PoolTimeout c) (Mode_ c)
    (MasterName c) (TLSEnabled c).
Definition WithConnMaxIdleTime (d : Z) : ConfigOption := λ c,
  mkConfig (Addresses c) (Password c) (DB c) (PoolSize c) (MinIdleConns c) (ConnMaxLifetime c)
    d (DialTimeout c) (ReadTimeout c) (WriteTimeout c) (PoolTimeout c) (Mode_ c)
    (MasterName c) (TLSEnabled c).
Definition WithDialTimeout (d : Z) : ConfigOption := λ c,
  mkConfig (Addresses c) (Password c) (DB c) (PoolSize c) (MinIdleConns c) (ConnMaxLifetime c)
    (ConnMaxIdleTime c) d (ReadTimeout c) (WriteTimeout c) (PoolTimeout c) (Mode_ c)
    (MasterName c) (TLSEnabled c).
Definition WithReadTimeout (d : Z) : ConfigOption := λ c,
  mkConfig (Addresses c) (Password c) (DB c) (PoolSize c) (MinIdleConns c) (ConnMaxLifetime c)
    (ConnMaxIdleTime c) (DialTimeout c) d (WriteTimeout c) (PoolTimeout c) (Mode_ c)
    (MasterName c) (TLSEnabled c).
Definition WithWriteTimeout (d : Z) : ConfigOption := λ c,
  mkConfig (Addresses c) (Password c) (DB c) (PoolSize c) (MinIdleConns c) (ConnMaxLifetime c)
    (ConnMaxIdleTime c) (DialTimeout c) (ReadTimeout c) d (PoolTimeout c) (Mode_ c)
    (MasterName c) (TLSEnabled c).
Definition WithPoolTimeout (d : Z) : ConfigOption := λ c,
  mkConfig (Addresses c) (Password c) (DB c) (PoolSize c) (MinIdleConns c) (ConnMaxLifetime c)
    (ConnMaxIdleTime c) (DialTimeout c) (ReadTimeout c) (WriteTimeout c) d (Mode_ c)
    (MasterName c) (TLSEnabled c).
Definition WithMode (mode : Mode) : ConfigOption := λ c,
  mkConfig (Addresses c) (Password c) (DB c) (PoolSize c) (MinIdleConns c) (ConnMaxLifetime c)
    (ConnMaxIdleTime c) (DialTimeout c) (ReadTimeout c) (WriteTimeout c) (PoolTimeout c) mode
    (MasterName c) (TLSEnabled c).
Definition WithMasterName (name : string) : ConfigOption := λ c,
  mkConfig (Addresses c) (Password c) (DB c) (PoolSize c) (MinIdleConns c) (ConnMaxLifetime c)
    (ConnMaxIdleTime c) (DialTimeout c) (ReadTimeout c) (WriteTimeout c) (PoolTimeout c) (Mode_ c)
    name (TLSEnabled c).
Definition WithTLS (enabled : bool) : ConfigOption := λ c,
  mkConfig (Addresses c) (Password c) (DB c) (PoolSize c) (MinIdleConns c) (ConnMaxLifetime c)
    (ConnMaxIdleTime c) (DialTimeout c) (ReadTimeout c) (WriteTimeout c) (PoolTimeout c) (Mode_ c)
    (MasterName c) enabled.

(** ** The driver's options *)

(** The fields common to the three option structures. *)
Record common_options := mkCommon {
  co_Password : string;
  co_PoolSize : Z;
  co_MinIdleConns : Z;
  co_ConnMaxLifetime : Z;
  co_ConnMaxIdleTime : Z;
  co_DialTimeout : Z;
  co_ReadTimeout : Z;
  co_WriteTimeout : Z;
  co_PoolTimeout : Z
}.

(** The constructor called, with what differs between the structures. No TLS
    setting is ever passed: the field is absent from all three literals. *)
Inductive universal_options : Type :=
| ClusterOptions (Addrs : list string) (o : common_options)
| FailoverOptions (MasterName : string) (SentinelAddrs : list string) (SentinelPassword : string)
    (DB : Z) (o : common_options)
| SingleOptions (Addr : string) (DB : Z) (o : common_options).

(** The counters of go-redis's [PoolStats] that the wrapper copies. *)
Record redis_PoolStats := mkRedisPoolStats {
  rs_Hits : Z;
  rs_Misses : Z;
  rs_Timeouts : Z;
  rs_TotalConns : Z;
  rs_IdleConns : Z;
  rs_StaleConns : Z
}.

Record Metrics := mkMetrics {
  Hits : Z;
  Misses : Z;
  Timeouts : Z;
  TotalConns : Z;
  IdleConns : Z;
  StaleConns : Z
}.

(** [redis.NewClusterClient], [redis.NewFailoverClient] and [redis.NewClient]. *)
Class GoRedis := {
  UniversalClient : Type;
  go_new_client : universal_options → UniversalClient;
  go_PoolStats : UniversalClient → redis_PoolStats
}.

Section Client.
Context `{GoRedis} `{CoreErrors} {Logger : Type}.

Record Client := mkClient {
  cl_client : option UniversalClient;
  cl_config : Config;
  cl_logger : Logger
}.

Definition ClientOption : Type := Client → Client.

Definition WithLogger (logger : Logger) : ClientOption :=
  λ c, mkClient (cl_client c) (cl_config c) logger.

Definition Config_Validate (c : Config) : option goerror :=
  match Addresses c with
  | [] => Some (ERedis (rd_New CodeInternal "at least one Redis address is required"))
  | _ =>
      if decide (Mode_ c = ModeSentinel ∧ MasterName c = "")
      then Some (ERedis (rd_New CodeInternal "master name is required for sentinel mode"))
      else if PoolSize c <=? 0
           then Some (ERedis (rd_New CodeInternal "pool size must be positive"))
           else None
  end.

Definition common_of (cfg : Config) : common_options :=
  mkCommon (Password cfg) (PoolSize cfg) (MinIdleConns cfg) (ConnMaxLifetime cfg)
    (ConnMaxIdleTime cfg) (DialTimeout cfg) (ReadTimeout cfg) (WriteTimeout cfg) (PoolTimeout cfg).

(** The [switch cfg.Mode]. *)
Definition options_of (cfg : Config) : universal_options :=
  match Mode_ cfg with
  | ModeCluster => ClusterOptions (Addresses cfg) (common_of cfg)
  | ModeSentinel =>
      FailoverOptions (MasterName cfg) (Addresses cfg) (Password cfg) (DB cfg) (common_of cfg)
  | _ => SingleOptions (match Addresses cfg with [] => "localhost:6379" | a :: _ => a end) (DB cfg)
           (common_of cfg)
  end.

(** [dflt] is [slog.Default()]. *)
Definition NewWithConfig (dflt : Logger) (cfg : Config) (opts : list ClientOption)
    : result Client goerror :=
  match Config_Validate cfg with
  | Some err => Err err
  | None =>
      let client := fold_left (λ c opt, opt c) opts (mkClient None cfg dflt) in
      Ok (mkClient (Some (go_new_client (options_of cfg))) (cl_config client) (cl_logger client))
  end.

Definition New (dflt : Logger) (opts : list ConfigOption) : result Client goerror :=
  NewWithConfig dflt (fold_left (λ c opt, opt c) opts DefaultConfig) [].

(** [config.RedisConfig] of [txova-go-core]; [Address()] by its value. *)
Record RedisConfig := mkRedisConfig {
  rc_Address : string;
  rc_Password : string;
  rc_DB : Z;
  rc_PoolSize : Z
}.

Definition NewFromCoreConfig (dflt : Logger) (cfg : RedisConfig) (opts : list ClientOption)
    : result Client goerror :=
  let poolSize := if rc_PoolSize cfg <=? 0 then DefaultPoolSize else rc_PoolSize cfg in
  NewWithConfig dflt
    (mkConfig [rc_Address cfg] (rc_Password cfg) (rc_DB cfg) poolSize DefaultMinIdleConns
       DefaultConnMaxLifetime DefaultConnMaxIdleTime DefaultDialTimeout DefaultReadTimeout
       DefaultWriteTimeout DefaultPoolTimeout ModeStandalone "" false) opts.

(** [None] is the nil interface of a client without a connection. *)
Definition Client_ (c : Client) : option UniversalClient := cl_client c.

(** A nil client panics. *)
Definition Stats (c : Client) : outcome Metrics string :=
  match cl_client c with
  | None => Panics "nil pointer dereference"
  | Some client =>
      let stats := go_PoolStats client in
      Returns (mkMetrics (rs_Hits stats) (rs_Misses stats) (rs_Timeouts stats) (rs_TotalConns stats)
                 (rs_IdleConns stats) (rs_StaleConns stats))
  end.

Definition Name (c : Client) : string := "redis".

(** ** Health *)

Context {W S : Type} `{Sv : RedisServer S} `{Cl : RedisClient W S}.

Definition Ping : M W (option goerror) :=
  let! r := go_cmd GoPing in
  match r with
  | Ok _ => sret None
  | Err err => sret (option_map ERedis (FromRedisError (Some err)))
  end.

(** [Init] logs, pings and logs the outcome. *)
Definition Init : M W (option goerror) :=
  let! err := Ping in
  match err with
  | Some err => sret (Some err)
  | None => sret None
  end.

Definition Check_ : M W (option goerror) := Ping.

(** [close] is the driver's [Close]. *)
Definition Close (close : M W (option goerror)) : M W (option goerror) :=
  let! err := close in
  sret (option_map ERedis (FromRedisError err)).
End Client.

(** ** Properties *)

(** The configurations [Validate] accepts. *)
Definition config_valid (c : Config) : Prop :=
  Addresses c ≠ [] ∧ (Mode_ c = ModeSentinel → MasterName c ≠ "") ∧ 0 < PoolSize c.

Lemma Config_Validate_None `{CoreErrors} c : Config_Validate c = None ↔ config_valid c.
Proof.
  unfold Config_Validate, config_valid. destruct (Addresses c); [naive_solver|].
  case_decide; [naive_solver|]. destruct (Z.leb_spec (PoolSize c) 0); naive_solver lia.
Qed.

(** [NewWithConfig] creates a client exactly for valid configurations and asks
    the driver for the deployment of the configured mode (any unknown mode is
    standalone, on the first address) with the configured credentials, pool and
    timeouts.  The TLS flag has no influence on the connection that is created. *)
Lemma NewWithConfig_spec `{GoRedis} `{CoreErrors} {Logger} (dflt : Logger) cfg tls
    (opts : list ClientOption) :
  (is_ok (NewWithConfig dflt cfg opts) = true ↔ config_valid cfg) ∧
  (∀ c, NewWithConfig dflt cfg opts = Ok c → cl_client c = Some (go_new_client (options_of cfg))) ∧
  options_of (WithTLS tls cfg) = options_of cfg ∧
  (Mode_ cfg = ModeStandalone ∨ (∃ n, Mode_ cfg = ModeOther n) →
   config_valid cfg →
   ∃ a rest, Addresses cfg = a :: rest ∧ options_of cfg = SingleOptions a (DB cfg) (common_of cfg)).
Proof.
  unfold NewWithConfig. destruct (Config_Validate cfg) eqn:Hv.
  - assert (¬ config_valid cfg) as Hno by (rewrite <-Config_Validate_None, Hv; done).
    split_and!; [by split|done|done|]. intros _ Hok. by destruct Hno.
  - assert (config_valid cfg) as Hok by (by apply Config_Validate_None).
    split_and!; [done|by intros c [= <-]|done|]. intros Hm _.
    destruct Hok as [Ha _]. unfold options_of. destruct (Addresses cfg) as [|a rest]; [done|].
    exists a, rest. split; [done|]. by destruct Hm as [->|[n ->]].
Qed.

Lemma NewWithConfig_spec_witness :
  ∃ a rest, Addresses DefaultConfig = a :: rest ∧
            options_of DefaultConfig = SingleOptions a 0 (common_of DefaultConfig).
Proof.
  refine (proj2 (proj2 (proj2 (NewWithConfig_spec (H := Build_GoRedis () (λ _, tt) (λ _, mkRedisPoolStats 0 0 0 0 0 0)) tt DefaultConfig true []))) _ _).
  - left. reflexivity.
  - split_and!; [discriminate|discriminate|reflexivity].
Defined.
