(* ===== verification/Lock.v ===== *)
(** * redis/lock.go: distributed locks

    [Locker] and [Lock] hold the fields of the Go structs except the client and
    the logger, which are the world [W] (log output is not modelled).  Methods
    that change a [Lock] return the updated handle.  The scripts run on the
    server state [S]. *)

From Stdlib Require Import ZArith Lia.
From S2P Require Import Prelude GoLib GoErrors RedisErrors RedisServer.

Open Scope go_scope.

(** ** Configuration *)

Definition DefaultLockTTL : Z := 30 * Second.
Definition DefaultLockRetryDelay : Z := 50 * Millisecond.
Definition DefaultLockRetryCount : Z := 100.

Record Locker := mkLocker {
  lr_keyPrefix : string;
  lr_defaultTTL : Z;
  lr_retryDelay : Z;
  lr_retryCount : Z
}.

Definition LockerOption : Type := Locker → Locker.

Definition WithLockKeyPrefix (prefix : string) : LockerOption :=
  λ l, mkLocker prefix (lr_defaultTTL l) (lr_retryDelay l) (lr_retryCount l).
Definition WithDefaultLockTTL (ttl : Z) : LockerOption :=
  λ l, mkLocker (lr_keyPrefix l) ttl (lr_retryDelay l) (lr_retryCount l).
Definition WithLockRetryDelay (delay : Z) : LockerOption :=
  λ l, mkLocker (lr_keyPrefix l) (lr_defaultTTL l) delay (lr_retryCount l).
Definition WithLockRetryCount (count : Z) : LockerOption :=
  λ l, mkLocker (lr_keyPrefix l) (lr_defaultTTL l) (lr_retryDelay l) count.

Definition NewLocker (opts : list LockerOption) : Locker :=
  fold_left (λ l opt, opt l) opts
    (mkLocker "lock" DefaultLockTTL DefaultLockRetryDelay DefaultLockRetryCount).

Definition lockKey (l : Locker) (resource : string) : string := lr_keyPrefix l +:+ ":" +:+ resource.

Record Lock := mkLock {
  lk_key : string;
  lk_owner : string;
  lk_ttl : Z;
  lk_acquired : bool;
  lk_expiresAt : Z
}.

Definition set_acquired (b : bool) (k : Lock) : Lock :=
  mkLock (lk_key k) (lk_owner k) (lk_ttl k) b (lk_expiresAt k).

Definition Key (lock : Lock) : string := lk_key lock.
Definition Owner (lock : Lock) : string := lk_owner lock.
Definition IsHeld (lock : Lock) : bool := lk_acquired lock.
Definition ExpiresAt (lock : Lock) : Z := lk_expiresAt lock.

(** The bytes of a string, as [[]byte(s)]. *)
Fixpoint string_bytes (s : string) : list Z :=
  match s with
  | EmptyString => []
  | String a r => byte_val a :: string_bytes r
  end.

(** ** Scripts *)

Section Scripts.
Context {S : Type} `{RedisServer S}.

Definition release_script (key owner : string) : Lua S Z :=
  let~ v := srv_lua (LGet key) in
  if decide (v = Some owner) then srv_lua (LDel key) else lret 0.

Definition extend_script (key owner : string) (ttlMs : Z) : Lua S Z :=
  let~ v := srv_lua (LGet key) in
  if decide (v = Some owner) then srv_lua (LPExpire key ttlMs) else lret 0.
End Scripts.

(** ** Operations *)

Section Operations.
Context {W S : Type} `{Sv : RedisServer S} `{Cl : RedisClient W S} `{CoreErrors}.

(** A random owner, or one derived from the time when randomness fails. *)
Definition generateOwner : M W string :=
  let! b := rc_rand_Read 16 in
  match b with
  | Ok b => sret (hex_EncodeToString b)
  | Err _ =>
      let! t := rc_time_String in
      sret (hex_EncodeToString (string_bytes t))
  end.

Definition AcquireWithTTL (l : Locker) (resource : string) (ttl : Z) : M W (result Lock goerror) :=
  let key := lockKey l resource in
  let! owner := generateOwner in
  let! r := go_cmd (GoSetNX key owner ttl) in
  match r with
  | Err err => sret (rd_fail err)
  | Ok false => sret (Err (ERedis (LockFailed "lock is already held by another owner")))
  | Ok true =>
      let! now := rc_now in
      sret (Ok (mkLock key owner ttl true (now + ttl)))
  end.

Definition Acquire (l : Locker) (resource : string) : M W (result Lock goerror) :=
  AcquireWithTTL l resource (lr_defaultTTL l).

(** The rounds of the retry loop that are left. *)
Fixpoint acquire_loop (l : Locker) (resource : string) (ttl : Z) (rounds : nat)
    (lastErr : option goerror) : M W (result Lock goerror) :=
  match rounds with
  | O => sret (Err (ERedis (rd_Wrap CodeLockFailed
           ("failed to acquire lock after " +:+ itoa (lr_retryCount l) +:+ " attempts") lastErr)))
  | Datatypes.S rounds =>
      let! r := AcquireWithTTL l resource ttl in
      match r with
      | Ok lock => sret (Ok lock)
      | Err err =>
          if negb (IsLockFailed (Some err)) then sret (Err err)
          else
            let! cancelled := rc_ctx_err in
            match cancelled with
            | Some e => sret (Err (ERedis (rd_Wrap CodeTimeout "lock acquisition cancelled" (Some e))))
            | None =>
                let! _ := rc_sleep (lr_retryDelay l) in
                acquire_loop l resource ttl rounds (Some err)
            end
      end
  end.

Definition AcquireWithRetryAndTTL (l : Locker) (resource : string) (ttl : Z) : M W (result Lock goerror) :=
  acquire_loop l resource ttl (Z.to_nat (lr_retryCount l)) None.

Definition AcquireWithRetry (l : Locker) (resource : string) : M W (result Lock goerror) :=
  AcquireWithRetryAndTTL l resource (lr_defaultTTL l).

(** [Ok None] is [(nil, nil)]: held by somebody else. *)
Definition TryAcquireWithTTL (l : Locker) (resource : string) (ttl : Z)
    : M W (result (option Lock) goerror) :=
  let! r := AcquireWithTTL l resource ttl in
  match r with
  | Err err => if IsLockFailed (Some err) then sret (Ok None) else sret (Err err)
  | Ok lock => sret (Ok (Some lock))
  end.

Definition TryAcquire (l : Locker) (resource : string) : M W (result (option Lock) goerror) :=
  TryAcquireWithTTL l resource (lr_defaultTTL l).

Definition Release (lock : Lock) : M W (option goerror * Lock) :=
  if negb (lk_acquired lock) then sret (Some (ERedis (LockNotHeld "lock was never acquired")), lock)
  else
    let! r := go_script (release_script (lk_key lock) (lk_owner lock)) in
    match r with
    | Err err => sret (option_map ERedis (FromRedisError (Some err)), lock)
    | Ok result =>
        if result =? 0
        then sret (Some (ERedis (LockNotHeld "lock is not held by this owner")), lock)
        else sret (None, set_acquired false lock)
    end.

Definition Extend (lock : Lock) (ttl : Z) : M W (option goerror * Lock) :=
  if negb (lk_acquired lock) then sret (Some (ERedis (LockNotHeld "lock was never acquired")), lock)
  else
    let! r := go_script (extend_script (lk_key lock) (lk_owner lock) (Milliseconds ttl)) in
    match r with
    | Err err => sret (option_map ERedis (FromRedisError (Some err)), lock)
    | Ok result =>
        if result =? 0
        then sret (Some (ERedis (LockNotHeld "lock is not held by this owner")), set_acquired false lock)
        else
          let! now := rc_now in
          sret (None, mkLock (lk_key lock) (lk_owner lock) ttl (lk_acquired lock) (now + ttl))
    end.

Definition TTL (lock : Lock) : M W (result Z goerror) :=
  let! r := go_cmd (GoPTTL (lk_key lock)) in
  sret (match r with Ok ttl => Ok ttl | Err err => rd_fail err end).

Definition IsExpired (lock : Lock) : M W bool :=
  let! now := rc_now in sret (lk_expiresAt lock <? now).

Definition Verify (lock : Lock) : M W (result bool goerror * Lock) :=
  if negb (lk_acquired lock) then sret (Ok false, lock)
  else
    let! r := go_cmd (GoGet (lk_key lock)) in
    match r with
    | Err err =>
        if IsNotFound (option_map ERedis (FromRedisError (Some err)))
        then sret (Ok false, set_acquired false lock)
        else sret (rd_fail err, lock)
    | Ok owner =>
        let isHeld := bool_decide (owner = lk_owner lock) in
        sret (Ok isHeld, if isHeld then lock else set_acquired false lock)
    end.

(** The callback may return an error, return nil, or panic; the deferred release
    runs in every case and its error is only logged. *)
Definition WithLockAndTTL {Panic} (l : Locker) (resource : string) (ttl : Z)
    (fn : M W (outcome (option goerror) Panic)) : M W (outcome (option goerror) Panic) :=
  let! r := AcquireWithRetryAndTTL l resource ttl in
  match r with
  | Err err => sret (Returns (Some err))
  | Ok lock =>
      let! out := fn in
      let! _ := Release lock in
      sret out
  end.

Definition WithLock {Panic} (l : Locker) (resource : string)
    (fn : M W (outcome (option goerror) Panic)) : M W (outcome (option goerror) Panic) :=
  WithLockAndTTL l resource (lr_defaultTTL l) fn.
End Operations.

(** ** Specification: who holds a key *)

Section Holding.
Context {S : Type} `{RedisServerOk S}.

(** Owner [o] holds [key] until server time [exp]. *)
Definition held (s : S) (key o : string) (exp : Z) : Prop :=
  srv_db s !! key = Some (mkEntry (RStr o) (Some exp)).

(** What the other lock clients, whose owner strings satisfy [F], and the passing
    of time can do to the server in one step. *)
Inductive lock_step (F : string → Prop) : S → S → Prop :=
| StepElapse s d : 0 ≤ d → lock_step F s (srv_elapse d s)
| StepAcquire s key o ttl r s' :
    F o → Millisecond ≤ ttl → srv_go (GoSetNX key o ttl) s = (r, s') → lock_step F s s'
| StepRelease s key o r s' :
    F o → run_script (release_script key o) s = (r, s') → lock_step F s s'
| StepExtend s key o ms r s' :
    F o → run_script (extend_script key o ms) s = (r, s') → lock_step F s s'
| StepVerify s key r s' :
    srv_go (GoGet key) s = (r, s') → lock_step F s s'.

(** The value at a key, as the scripts see it. *)
Definition owner_at (s : S) (key : string) : option string :=
  match srv_db s !! key with
  | Some (mkEntry (RStr o) _) => Some o
  | _ => None
  end.

Lemma owner_at_held s key o :
  owner_at s key = Some o ↔ ∃ x, srv_db s !! key = Some (mkEntry (RStr o) x).
Proof. unfold owner_at. destruct (srv_db s !! key) as [[[] ?]|]; naive_solver. Qed.

Lemma release_script_mine s key o x :
  srv_db s !! key = Some (mkEntry (RStr o) x) →
  runs (run_script (release_script key o)) s (Ok 1) (delete key (srv_db s)).
Proof.
  intros Hk. apply runs_script. intros s1 Hdb1 Hnow1. rewrite <-Hdb1 in *. clear Hdb1.
  unfold release_script. eapply runs_lbind; [by eapply lua_GET_str|].
  intros s2 Hdb2 Hnow2. rewrite decide_True by done. rewrite <-Hdb2 in *.
  by eapply lua_DEL_some.
Qed.

Lemma extend_script_mine s key o x ms :
  srv_db s !! key = Some (mkEntry (RStr o) x) →
  runs (run_script (extend_script key o ms)) s (Ok 1)
    (if 0 <? ms then <[key := mkEntry (RStr o) (Some (srv_now s + ms))]> (srv_db s)
     else delete key (srv_db s)).
Proof.
  intros Hk. apply runs_script. intros s1 Hdb1 Hnow1. rewrite <-Hdb1, <-Hnow1 in *. clear Hdb1 Hnow1.
  unfold extend_script. eapply runs_lbind; [by eapply lua_GET_str|].
  intros s2 Hdb2 Hnow2. rewrite decide_True by done. rewrite <-Hdb2, <-Hnow2 in *.
  destruct (Z.ltb_spec 0 ms).
  - by apply (lua_PEXPIRE_pos s2 key (mkEntry (RStr o) x)).
  - by eapply lua_PEXPIRE_neg.
Qed.

(** A script guarded by the owner does nothing for another owner. *)
Lemma guarded_script_foreign {A} (act : Lua S A) (dflt : A) s key o :
  owner_at s key ≠ Some o →
  ∃ r, runs (run_script (let~ v := srv_lua (LGet key) in
                         if decide (v = Some o) then act else lret dflt)) s r (srv_db s) ∧
       (r = Ok dflt ∨ ∃ e, r = Err e).
Proof.
  intros Ho. destruct (lua_srand_runs s) as (s1 & Hs & Hdb1 & Hnow1).
  assert (∀ r, runs (let~ v := srv_lua (LGet key) in
                     if decide (v = Some o) then act else lret dflt) s1 r (srv_db s1) →
    runs (run_script (let~ v := srv_lua (LGet key) in
                      if decide (v = Some o) then act else lret dflt)) s r (srv_db s)) as Hrun.
  { intros r (s2 & Hr & Hdb2 & Hnow2). exists s2. unfold run_script, mthen. rewrite Hs.
    split_and!; congruence. }
  assert (owner_at s1 key = owner_at s key) as Ho1 by (unfold owner_at; by rewrite Hdb1).
  destruct (srv_db s1 !! key) as [e|] eqn:Hk; [destruct (entry_cases e) as [(v & x & ->)|Hv]|].
  - exists (Ok dflt). split; [|by left]. apply Hrun. eapply runs_lbind; [by eapply lua_GET_str|].
    intros s2 Hdb2 Hnow2. rewrite decide_False; [by apply runs_lret|].
    intros [= ->]. apply Ho. rewrite <-Ho1. apply owner_at_held. eauto.
  - destruct (lua_GET_other s1 key e Hk Hv) as [err Herr]. exists (Err err). split; [|right; eauto].
    apply Hrun. by apply runs_lbind_err.
  - exists (Ok dflt). split; [|by left]. apply Hrun. eapply runs_lbind; [by eapply lua_GET_none|].
    intros s2 Hdb2 Hnow2. rewrite decide_False by done. by apply runs_lret.
Qed.

(** What a step can do: pass time, nothing, or write a free key or a key of a
    foreign owner. *)
Definition lock_effect (F : string → Prop) (s s' : S) : Prop :=
  (∃ d, 0 ≤ d ∧ s' = srv_elapse d s) ∨
  (srv_now s' = srv_now s ∧ srv_db s' = srv_db s) ∨
  (srv_now s' = srv_now s ∧ ∃ k o, F o ∧ (srv_db s !! k = None ∨ owner_at s k = Some o) ∧
    (srv_db s' = delete k (srv_db s) ∨ ∃ x, srv_db s' = <[k := mkEntry (RStr o) x]> (srv_db s))).

Lemma runs_effect {A} F (m : M S A) s r s' a db' :
  m s = (r, s') → runs m s a db' →
  (db' = srv_db s ∨ ∃ k o, F o ∧ (srv_db s !! k = None ∨ owner_at s k = Some o) ∧
    (db' = delete k (srv_db s) ∨ ∃ x, db' = <[k := mkEntry (RStr o) x]> (srv_db s))) →
  lock_effect F s s'.
Proof.
  intros Hr Hrun Hdb. destruct (runs_result _ _ _ _ _ _ Hrun Hr) as (_ & Hdb' & Hnow).
  unfold lock_effect. rewrite Hdb', Hnow. naive_solver.
Qed.

Lemma lock_step_effect F s s' : lock_step F s s' → lock_effect F s s'.
Proof.
  destruct 1 as [s d Hd|s k o ttl r s' Fo Ht Hr|s k o r s' Fo Hr|s k o ms r s' Fo Hr|s k r s' Hr].
  - left. eauto.
  - destruct (srv_db s !! k) as [e|] eqn:Hk;
      (eapply runs_effect; [done| |]); [by eapply go_SETNX_held|by left|by apply go_SETNX_free|].
    right. exists k, o. eauto 10.
  - destruct (decide (owner_at s k = Some o)) as [Ho|Hno].
    + pose proof Ho as [x Hk]%owner_at_held. eapply runs_effect; [done|by eapply release_script_mine|].
      right. exists k, o. eauto.
    + destruct (guarded_script_foreign (srv_lua (LDel k)) 0 s k o Hno) as (r' & Hrun & _).
      eapply runs_effect; [done|done|by left].
  - destruct (decide (owner_at s k = Some o)) as [Ho|Hno].
    + pose proof Ho as [x Hk]%owner_at_held. eapply runs_effect; [done|by eapply extend_script_mine|].
      right. exists k, o. destruct (0 <? ms); eauto 10.
    + destruct (guarded_script_foreign (srv_lua (LPExpire k ms)) 0 s k o Hno) as (r' & Hrun & _).
      eapply runs_effect; [done|done|by left].
  - destruct (srv_db s !! k) as [e|] eqn:Hk; [destruct (entry_cases e) as [(v & y & ->)|Hv]|].
    + eapply runs_effect; [done|by eapply go_GET_str|by left].
    + destruct (go_GET_other s k e Hk Hv) as (err & Herr & _). eapply runs_effect; [done|done|by left].
    + eapply runs_effect; [done|by apply go_GET_none|by left].
Qed.

Lemma lock_steps_now F s s' : rtc (lock_step F) s s' → srv_now s ≤ srv_now s'.
Proof.
  induction 1 as [|s s1 s' [(d & Hd & ->)|[[-> _]|[-> _]]]%lock_step_effect _ IH]; [lia| |lia..].
  rewrite srv_elapse_now in IH. lia.
Qed.

(** A holder keeps the key until it expires. *)
Lemma lock_steps_held F s s' key o exp :
  rtc (lock_step F) s s' → ¬ F o → held s key o exp → srv_now s' < exp → held s' key o exp.
Proof.
  intros Hsteps Ho. induction Hsteps as [|s s1 s' Hstep Hrest IH]; [done|]. intros Hh Hexp.
  apply IH; [|done]. apply lock_steps_now in Hrest. unfold held in *.
  apply lock_step_effect in Hstep as [(d & Hd & ->)|[[_ ->]|(_ & k & o' & Fo & Hk & Hdb)]]; [|done|].
  - rewrite srv_elapse_now in Hrest. apply srv_elapse_keeps; [done..|]. intros t [= <-]. simpl. lia.
  - assert (k ≠ key).
    { intros ->. destruct Hk as [Hk|[x Hk]%owner_at_held]; [congruence|]. naive_solver. }
    destruct Hdb as [->|[x ->]]; [by rewrite lookup_delete_ne|by rewrite lookup_insert_ne].
Qed.

(** A key that [o] does not hold is not given to it by the others. *)
Lemma lock_steps_not_mine F s s' key o :
  rtc (lock_step F) s s' → ¬ F o → owner_at s key ≠ Some o → owner_at s' key ≠ Some o.
Proof.
  intros Hsteps Ho. induction Hsteps as [|s s1 s' Hstep Hrest IH]; [done|]. intros Hno. apply IH.
  clear IH Hrest. rewrite owner_at_held in *. intros [x Hk].
  apply lock_step_effect in Hstep as [(d & Hd & ->)|[[_ Hdb]|(_ & k & o' & Fo & Hfree & Hdb)]].
  - apply srv_elapse_sub in Hk; [|done]. eauto.
  - rewrite Hdb in Hk. eauto.
  - destruct Hdb as [Hdb|[y Hdb]]; rewrite Hdb in Hk.
    + apply lookup_delete_Some in Hk as [_ Hk]. eauto.
    + apply lookup_insert_Some in Hk as [[_ Heq]|[_ Hk]]; [|eauto]. naive_solver.
Qed.
End Holding.

(** ** Lemmas on the operations *)

Section OperationLemmas.
Context {W S : Type} `{Sv : RedisServer S} `{Cl : RedisClient W S} `{CoreErrorsOk}.

(** One counted acquisition sends one request and does not sleep. *)
Lemma AcquireWithTTL_counted l resource ttl (w : W) n d :
  ∃ r w', AcquireWithTTL (Cl := counted_client) l resource ttl (mkCounted w n d) =
          (r, mkCounted w' (n + 1) d).
Proof.
  unfold AcquireWithTTL, generateOwner, go_cmd, mthen, sret. simpl. unfold uncounted. simpl.
  destruct (rc_rand_Read 16 w) as [[b|e0] w1]; simpl.
  - destruct (rc_send _ w1) as [[[|]|e] w2]; simpl; [destruct (rc_now w2)| |]; simpl; eauto.
  - destruct (rc_time_String w1) as [t w2]. simpl.
    destruct (rc_send _ w2) as [[[|]|e] w3]; simpl; [destruct (rc_now w3)| |]; simpl; eauto.
Qed.

(** Requests sent and time slept by a retry loop, by its result. *)
Definition loop_cost (delay : Z) (rounds : nat) (r : result Lock goerror) (sends slept : Z) : Prop :=
  match r with
  | Err e =>
      if IsLockFailed (Some e) then sends = Z.of_nat rounds ∧ slept = sends * delay
      else 1 ≤ sends ≤ Z.of_nat rounds ∧ slept = (sends - 1) * delay
  | Ok _ => 1 ≤ sends ≤ Z.of_nat rounds ∧ slept = (sends - 1) * delay
  end.

Lemma loop_cost_again delay rounds r sends slept :
  loop_cost delay rounds r sends slept →
  loop_cost delay (Datatypes.S rounds) r (sends + 1) (slept + delay).
Proof. unfold loop_cost. intros Hc. destruct r as [k|e]; [|destruct (IsLockFailed (Some e))]; lia. Qed.

Lemma acquire_loop_cost l resource ttl rounds last (w : W) n d :
  let run := acquire_loop (Cl := counted_client) l resource ttl rounds last (mkCounted w n d) in
  loop_cost (lr_retryDelay l) rounds run.1 (c_sends run.2 - n) (c_slept run.2 - d).
Proof.
  revert last w n d. induction rounds as [|rounds IH]; intros last w n d; simpl.
  { lia. }
  unfold mthen. destruct (AcquireWithTTL_counted l resource ttl w n d) as (r & w1 & ->).
  destruct r as [lock|e]; [simpl; lia|].
  destruct (IsLockFailed (Some e)) eqn:He; [|simpl; rewrite He; lia]. simpl.
  unfold uncounted. simpl. destruct (rc_ctx_err w1) as [[c|] w2]; simpl.
  { lia. }
  destruct (rc_sleep (lr_retryDelay l) w2) as [[] w3].
  specialize (IH (Some e) w3 (n + 1) (d + lr_retryDelay l)). apply loop_cost_again in IH.
  match goal with |- loop_cost _ _ _ ?a ?b => match type of IH with loop_cost _ _ _ ?a' ?b' =>
    replace a with a' by lia; replace b with b' by lia; exact IH end end.
Qed.
End OperationLemmas.

Section ClientLemmas.
Context {W S : Type} `{RedisServerOk S} {F : string → Prop}.
Context `{Cl : RedisClient W S} `{!RedisClientOk W S (rtc (lock_step F))} `{CoreErrorsOk}.

Lemma generateOwner_others (w : W) o w' :
  generateOwner w = (o, w') → rtc (lock_step F) (rc_server w) (rc_server w').
Proof.
  unfold generateOwner, mthen, sret. destruct (rc_rand_Read 16 w) as [[b|e0] w1] eqn:Hr;
    apply rc_rand_Read_ok in Hr as [Hr _].
  - by intros [= _ <-].
  - destruct (rc_time_String w1) as [t w2] eqn:Ht. apply rc_time_String_ok in Ht.
    intros [= _ <-]. by trans (rc_server w1).
Qed.

(** A successful acquisition took the key at some moment of the call. *)
Lemma AcquireWithTTL_ok l resource ttl (w : W) lock w' :
  Millisecond ≤ ttl → AcquireWithTTL l resource ttl w = (Ok lock, w') →
  lk_key lock = lockKey l resource ∧ lk_acquired lock = true ∧
  ∃ s, rtc (lock_step F) s (rc_server w') ∧
       ∃ exp, held s (lk_key lock) (lk_owner lock) exp ∧ srv_now (rc_server w) + Milliseconds ttl ≤ exp.
Proof.
  intros Hm. unfold AcquireWithTTL, mthen at 1. destruct (generateOwner w) as [o w1] eqn:Ho.
  apply generateOwner_others in Ho. unfold go_cmd, mthen, sret.
  destruct (rc_send _ w1) as [[[|]|e] w2] eqn:Hs; [|done|intros [= Hf _]; by apply rd_fail_not_ok in Hf].
  destruct (rc_now w2) as [t w3] eqn:Ht. intros [= <- <-]. simpl.
  apply rc_send_ok in Hs as (s & s' & Hs1 & Hs & Hs2). apply rc_now_ok in Ht.
  split_and!; [done..|]. exists s'. split; [by trans (rc_server w2)|].
  exists (srv_now s + Milliseconds ttl). split.
  - unfold held. destruct (srv_db s !! lockKey l resource) as [e|] eqn:Hk.
    + by destruct (runs_result _ _ _ _ _ _ (go_SETNX_held _ _ o ttl e Hk Hm) Hs).
    + destruct (runs_result _ _ _ _ _ _ (go_SETNX_free _ _ o ttl Hk Hm) Hs) as (_ & -> & _).
      apply lookup_insert_eq.
  - apply lock_steps_now in Ho, Hs1. lia.
Qed.

(** After a release that returned nil, or that found the lock not held. *)
Lemma Release_not_mine lock (w : W) rel lock' w' :
  Release lock w = ((rel, lock'), w') → lk_acquired lock = true → ¬ F (lk_owner lock) →
  rel = None ∨ IsLockNotHeld rel = true →
  owner_at (rc_server w') (lk_key lock) ≠ Some (lk_owner lock).
Proof.
  unfold Release. intros Hr Ha Ho Hrel. rewrite Ha in Hr. unfold go_script, mthen, sret in Hr. cbn [negb] in Hr.
  destruct (rc_send _ w) as [[n|e] w1] eqn:Hs.
  - assert (w1 = w') as -> by (destruct (n =? 0); congruence). clear Hr.
    apply rc_send_ok in Hs as (s & s' & _ & Hs & Hs2).
    eapply lock_steps_not_mine; [done|done|].
    destruct (decide (owner_at s (lk_key lock) = Some (lk_owner lock))) as [[x Hk]%owner_at_held|Hno].
    + destruct (runs_result _ _ _ _ _ _ (release_script_mine _ _ _ _ Hk) Hs) as (_ & Hdb & _).
      unfold owner_at. by rewrite Hdb, lookup_delete_eq.
    + destruct (guarded_script_foreign (srv_lua (LDel (lk_key lock))) 0 _ _ _ Hno) as (r & Hrun & _).
      destruct (runs_result _ _ _ _ _ _ Hrun Hs) as (_ & Hdb & _).
      unfold owner_at in *. by rewrite Hdb.
  - assert (rel = option_map ERedis (FromRedisError (Some e))) as -> by congruence. clear Hr. exfalso.
    destruct Hrel as [Hrel|Hrel].
    + simpl in Hrel. by repeat case_match.
    + destruct (FromRedisError (Some e)) as [d|] eqn:Hd; [|discriminate Hrel].
      cbn [option_map] in Hrel.
      unfold IsLockNotHeld in Hrel. rewrite rd_IsCode_ERedis in Hrel.
      apply bool_decide_eq_true in Hrel. apply FromRedisError_code in Hd. rewrite Hrel in Hd.
      set_solver.
Qed.
End ClientLemmas.

(** ** Properties *)



(** The release and extend scripts are safe for every state of the key: for its
    owner they delete it, or move its expiry to [now + ttl] (a non-positive ttl
    deletes it), and reply 1; for anybody else, a free key or a key of another
    type they change nothing and do not reply 1. *)
Lemma lock_scripts_spec {S} `{RedisServerOk S} (s : S) key o ms :
  (∀ x, srv_db s !! key = Some (mkEntry (RStr o) x) →
     runs (run_script (release_script key o)) s (Ok 1) (delete key (srv_db s)) ∧
     runs (run_script (extend_script key o ms)) s (Ok 1)
       (if 0 <? ms then <[key := mkEntry (RStr o) (Some (srv_now s + ms))]> (srv_db s)
        else delete key (srv_db s))) ∧
  (owner_at s key ≠ Some o →
     (∃ r, runs (run_script (release_script key o)) s r (srv_db s) ∧ r ≠ Ok 1) ∧
     (∃ r, runs (run_script (extend_script key o ms)) s r (srv_db s) ∧ r ≠ Ok 1)).
Proof.
  split.
  - intros x Hk. split; [by eapply release_script_mine|by eapply extend_script_mine].
  - intros Ho. split.
    + destruct (guarded_script_foreign (srv_lua (LDel key)) 0 s key o Ho) as (r & Hr & Hcase).
      exists r. split; [done|]. by destruct Hcase as [->|[e ->]].
    + destruct (guarded_script_foreign (srv_lua (LPExpire key ms)) 0 s key o Ho) as (r & Hr & Hcase).
      exists r. split; [done|]. by destruct Hcase as [->|[e ->]].
Qed.

Lemma lock_scripts_spec_witness :
  let s := MemServer.mkMem {[ "k" := mkEntry (RStr "a") (Some 9) ]} 0 0 in
  runs (run_script (release_script "k" "a")) s (Ok 1) (delete "k" (srv_db s)) ∧
  ∃ r, runs (run_script (extend_script "k" "b" 100)) s r (srv_db s) ∧ r ≠ Ok 1.
Proof.
  intros s. split.
  - refine (proj1 (proj1 (lock_scripts_spec s "k" "a" 100) (Some 9) _)). vm_compute. reflexivity.
  - refine (proj2 (proj2 (lock_scripts_spec s "k" "b" 100) _)). vm_compute. discriminate.
Defined.



(** C38: the retry loop of [AcquireWithRetryAndTTL] is bounded: it sends at most
    [retryCount] requests and sleeps [retryDelay] between them; it reports
    LOCK_FAILED only after exactly [retryCount] refused attempts (having slept
    once more after the last), and any other outcome ends it at once. *)
Theorem AcquireWithRetry_cost {W S} `{Sv : RedisServer S} `{Cl : RedisClient W S} `{CoreErrorsOk}
    l resource ttl (w : W) :
  let run := AcquireWithRetryAndTTL (Cl := counted_client) l resource ttl (mkCounted w 0 0) in
  let sends := c_sends run.2 in
  0 ≤ sends ≤ Z.max 0 (lr_retryCount l) ∧
  match run.1 with
  | Ok _ => c_slept run.2 = (sends - 1) * lr_retryDelay l
  | Err e =>
      if IsLockFailed (Some e)
      then sends = Z.max 0 (lr_retryCount l) ∧ c_slept run.2 = sends * lr_retryDelay l
      else c_slept run.2 = (sends - 1) * lr_retryDelay l
  end.
Proof.
  pose proof (acquire_loop_cost l resource ttl (Z.to_nat (lr_retryCount l)) None w 0 0) as Hc.
  unfold AcquireWithRetryAndTTL. cbv zeta in *. unfold loop_cost in Hc. rewrite !Z.sub_0_r in Hc.
  destruct (acquire_loop _ _ _ _ _ _) as [[lock|e] w']; simpl in *; [lia|].
  destruct (IsLockFailed (Some e)); lia.
Qed.

Lemma AcquireWithRetry_cost_witness :
  let w := MemServer.mkWorld (MemServer.mkMem {[ "lock:r" := mkEntry (RStr "a") None ]} 0 0) 0 in
  let l := NewLocker [WithLockRetryCount 3] in
  let run := AcquireWithRetryAndTTL (Cl := counted_client) l "r" DefaultLockTTL (mkCounted w 0 0) in
  CoreErrorsOk (H := simple_core) ∧ 0 ≤ c_sends run.2 ≤ 3 ∧ c_sends run.2 = 3.
Proof.
  intros w l run. split; [apply _|]. split; [|vm_compute; reflexivity].
  exact (proj1 (AcquireWithRetry_cost l "r" DefaultLockTTL w)).
Defined.

(** C17: [WithLockAndTTL] runs the callback only when the lock was acquired, returns
    the callback's outcome (a panic included) and always tries to release: when
    the release call got through, the owner no longer holds the key afterwards. *)
Theorem WithLock_releases {W S Panic} `{RedisServerOk S} F
    `{Cl : RedisClient W S} `{!RedisClientOk W S (rtc (lock_step F))} `{CoreErrorsOk}
    l resource ttl (fn : M W (outcome (option goerror) Panic)) (w : W) :
  let run := WithLockAndTTL l resource ttl fn w in
  match AcquireWithRetryAndTTL l resource ttl w with
  | (Err e, w1) => run = (Returns (Some e), w1)
  | (Ok lock, w1) =>
      let '(out, w2) := fn w1 in
      let '((rel, _), w3) := Release lock w2 in
      run = (out, w3) ∧
      (lk_acquired lock = true → ¬ F (lk_owner lock) → rel = None ∨ IsLockNotHeld rel = true →
       owner_at (rc_server w3) (lk_key lock) ≠ Some (lk_owner lock))
  end.
Proof.
  cbv zeta. unfold WithLockAndTTL, mthen, sret.
  destruct (AcquireWithRetryAndTTL l resource ttl w) as [[lock|e] w1]; [|done].
  destruct (fn w1) as [out w2]. destruct (Release lock w2) as [[rel lock'] w3] eqn:Hr.
  split; [done|]. intros Ha Ho Hrel. by eapply Release_not_mine.
Qed.

Lemma WithLock_releases_witness :
  RedisServerOk MemServer.mem ∧
  match AcquireWithRetryAndTTL (NewLocker []) "r" DefaultLockTTL MemServer.start with
  | (Ok lock, w1) =>
      let '((rel, _), w3) := Release lock w1 in
      rel = None ∧ owner_at (rc_server w3) (lk_key lock) ≠ Some (lk_owner lock)
  | (Err _, _) => False
  end.
Proof.
  split; [apply _|].
  assert (RedisClientOk MemServer.world MemServer.mem (rtc (lock_step (λ _, False)))) as Hcl.
  { apply MemServer.client_ok; [intros s; apply rtc_refl|].
    intros s d Hd. apply rtc_once. by constructor. }
  pose proof (WithLock_releases (λ _, False) (NewLocker []) "r" DefaultLockTTL
                (sret (Returns None) : M _ (outcome _ ())) MemServer.start) as Hw.
  cbv zeta in Hw. vm_compute in Hw. vm_compute. split; [reflexivity|].
  apply (proj2 Hw); [reflexivity|intros []|left; reflexivity].
Defined.

(** A handle is a one-way state machine: a release that returned nil clears it,
    and on a cleared handle [Release] and [Extend] answer LOCK_NOT_HELD and
    [Verify] answers false without touching the server. *)
Lemma Release_clears_handle {W S} `{Sv : RedisServer S} `{Cl : RedisClient W S} `{CoreErrorsOk}
    lock (w : W) lock' w' :
  Release lock w = ((None, lock'), w') →
  IsHeld lock' = false ∧
  (∃ e, Release lock' w' = ((Some e, lock'), w') ∧ IsLockNotHeld (Some e) = true) ∧
  (∀ ttl, ∃ e, Extend lock' ttl w' = ((Some e, lock'), w') ∧ IsLockNotHeld (Some e) = true) ∧
  Verify lock' w' = ((Ok false, lock'), w').
Proof.
  unfold Release at 1. destruct (negb (lk_acquired lock)); [done|].
  unfold go_script, mthen, sret. destruct (rc_send _ w) as [[n|e] w1].
  - destruct (n =? 0); [done|]. intros [= <- ->]. split_and!; [done|..|done].
    + eexists. split; [reflexivity|]. unfold IsLockNotHeld. by rewrite rd_IsCode_ERedis.
    + intros ttl. eexists. split; [reflexivity|]. unfold IsLockNotHeld. by rewrite rd_IsCode_ERedis.
  - intros Hf. exfalso. apply (f_equal (fst ∘ fst)) in Hf. simpl in Hf. by repeat case_match.
Qed.

Lemma Release_clears_handle_witness :
  let w := MemServer.mkWorld (MemServer.mkMem {[ "k" := mkEntry (RStr "a") (Some 9) ]} 0 0) 0 in
  let run := Release (mkLock "k" "a" Second true 0) w in
  run.1.1 = None ∧ IsHeld run.1.2 = false.
Proof.
  intros w run. split; [vm_compute; reflexivity|].
  refine (proj1 (Release_clears_handle (mkLock "k" "a" Second true 0) w run.1.2 run.2 _)).
  vm_compute. reflexivity.
Defined.

(** ** Behaviours worth knowing *)

(** SETNX is not idempotent: when the client sends an acquisition again because the
    reply to the first copy was lost, the second is refused although the key is
    held by the very owner that asks. *)
Lemma resent_acquire_refused {S} `{RedisServerOk S} (s : S) key owner ttl :
  srv_db s !! key = None → Millisecond ≤ ttl →
  ∃ s1 s2, srv_go (GoSetNX key owner ttl) s = (Ok true, s1) ∧
    srv_go (GoSetNX key owner ttl) s1 = (Ok false, s2) ∧ owner_at s2 key = Some owner.
Proof.
  intros Hk Ht. destruct (go_SETNX_free s key owner ttl Hk Ht) as (s1 & Hs1 & Hdb1 & _).
  assert (srv_db s1 !! key = Some (mkEntry (RStr owner) (Some (srv_now s + Milliseconds ttl)))) as Hk1
    by (rewrite Hdb1; apply lookup_insert_eq).
  destruct (go_SETNX_held s1 key owner ttl _ Hk1 Ht) as (s2 & Hs2 & Hdb2 & _).
  exists s1, s2. split_and!; [done..|]. apply owner_at_held. rewrite Hdb2. eauto.
Qed.
