(* ===== verification/LockProgress.v ===== *)
(** * redis/lock.go: waiting out a holder that crashed

    The retry loop of [AcquireWithRetryAndTTL] against a key whose holder never
    releases it: the key expires on the server while the loop sleeps. *)

From Stdlib Require Import ZArith Lia.
From S2P Require Import Prelude GoLib GoErrors RedisErrors RedisServer Lock.

Open Scope go_scope.

(** Nobody else takes locks: keys are read, and expire. *)
Definition nobody (o : string) : Prop := False.

Section Expiry.
Context {S : Type} `{RedisServerOk S}.

(** The key is free, or still held until [exp]. *)
Definition free_or_held (s : S) (key : string) (exp : Z) : Prop :=
  srv_db s !! key = None ∨ ∃ v, srv_db s !! key = Some (mkEntry v (Some exp)).

Lemma nobody_steps_sub (s s' : S) k e :
  rtc (lock_step nobody) s s' → srv_db s' !! k = Some e → srv_db s !! k = Some e.
Proof.
  induction 1 as [|s s1 s' Hstep _ IH]; [done|]. intros Hk. apply IH in Hk.
  apply lock_step_effect in Hstep as [(d & Hd & ->)|[[_ <-]|(_ & ? & ? & [] & _)]]; [|done].
  by eapply srv_elapse_sub.
Qed.

Lemma free_or_held_steps (s s' : S) key exp :
  rtc (lock_step nobody) s s' → free_or_held s key exp → free_or_held s' key exp.
Proof.
  intros Hsteps Hs. destruct (srv_db s' !! key) as [e|] eqn:Hk; [|by left].
  apply (nobody_steps_sub _ _ _ _ Hsteps) in Hk as Hk0. destruct Hs as [Hs|[v Hs]]; [congruence|].
  right. exists v. unfold free_or_held. by simplify_eq.
Qed.

Lemma free_after_expiry (s : S) key exp : free_or_held s key exp → exp < srv_now s → srv_db s !! key = None.
Proof. intros [Hs|[v Hs]] Hexp; [done|]. apply srv_live in Hs. lia. Qed.
End Expiry.

Section Progress.
Context {W S : Type} `{RedisServerOk S}.
Context `{Cl : RedisClient W S} `{!RedisClientOk W S (rtc (lock_step nobody))} `{CoreErrorsOk}.

Lemma rd_fail_not_LockFailed {A} err e : @rd_fail _ A err = Err e → IsLockFailed (Some e) = false.
Proof.
  unfold rd_fail. destruct (FromRedisError (Some err)) as [d|] eqn:Hd; intros [= <-].
  - unfold IsLockFailed. rewrite rd_IsCode_ERedis. apply bool_decide_eq_false.
    intros Hc. apply FromRedisError_code in Hd. rewrite Hc in Hd. set_solver.
  - unfold FromRedisError in Hd. by repeat case_match.
Qed.

(** An attempt refused by the server found the key taken, and so it was before the
    expiry. *)
Lemma AcquireWithTTL_refused l resource ttl exp (w : W) r w' :
  Millisecond ≤ ttl → free_or_held (rc_server w) (lockKey l resource) exp →
  AcquireWithTTL l resource ttl w = (r, w') →
  (∃ lock, r = Ok lock ∧ lk_key lock = lockKey l resource) ∨
  (∃ e, r = Err e ∧ IsLockFailed (Some e) = false) ∨
  (∃ e, r = Err e) ∧ free_or_held (rc_server w') (lockKey l resource) exp ∧
    srv_now (rc_server w) ≤ exp ∧ srv_now (rc_server w) ≤ srv_now (rc_server w').
Proof.
  intros Hm Hk. unfold AcquireWithTTL, mthen at 1. destruct (generateOwner w) as [o w1] eqn:Ho.
  apply generateOwner_others in Ho. unfold go_cmd, mthen, sret.
  destruct (rc_send _ w1) as [[[|]|e] w2] eqn:Hs.
  - destruct (rc_now w2) as [now w3]. intros [= <- <-]. left. eauto.
  - intros [= <- <-]. right. right. split; [eauto|].
    apply rc_send_ok in Hs as (s & s' & Hs1 & Hset & Hs2).
    assert (rtc (lock_step nobody) (rc_server w) s) as Hws by (by trans (rc_server w1)).
    assert (srv_now s ≤ exp ∧ srv_now s' = srv_now s ∧ srv_db s' = srv_db s) as (Hexp & Hnow & Hdb).
    { destruct (free_or_held_steps _ _ _ _ Hws Hk) as [Hf|[v Hh]].
      - by destruct (runs_result _ _ _ _ _ _ (go_SETNX_free s _ o ttl Hf Hm) Hset).
      - destruct (runs_result _ _ _ _ _ _ (go_SETNX_held s _ o ttl _ Hh Hm) Hset) as (_ & ? & ?).
        split; [by eapply srv_live|done]. }
    assert (free_or_held s' (lockKey l resource) exp) as Hk'.
    { unfold free_or_held. rewrite Hdb. by eapply free_or_held_steps. }
    split; [by eapply free_or_held_steps|]. apply lock_steps_now in Hws, Hs2. lia.
  - intros Hf. right. left. destruct (rd_fail e) as [a|e'] eqn:He; [by apply rd_fail_not_ok in He|].
    exists e'. apply rd_fail_not_LockFailed in He. split; [congruence|done].
Qed.

(** Sleeping takes at least as long on the server's clock. *)
Definition sleeps_on_server (d : Z) : Prop :=
  ∀ w : W, srv_now (rc_server w) + Milliseconds d ≤ srv_now (rc_server (rc_sleep d w).2).

(** Rounds that outlast the expiry do not end in LOCK_FAILED. *)
Lemma acquire_loop_live l resource ttl exp rounds last (w : W) :
  Millisecond ≤ ttl → sleeps_on_server (lr_retryDelay l) →
  free_or_held (rc_server w) (lockKey l resource) exp → (0 < rounds)%nat →
  exp < srv_now (rc_server w) + (Z.of_nat rounds - 1) * Milliseconds (lr_retryDelay l) →
  match (acquire_loop l resource ttl rounds last w).1 with
  | Ok lock => lk_key lock = lockKey l resource
  | Err e => IsLockFailed (Some e) = false
  end.
Proof.
  intros Hm Hsleep. revert last w. induction rounds as [|rounds IH]; intros last w Hk Hr Hexp; [lia|].
  cbn [acquire_loop]. unfold mthen at 1. destruct (AcquireWithTTL l resource ttl w) as [r w1] eqn:Ha.
  apply (AcquireWithTTL_refused _ _ _ exp) in Ha
    as [(lock & -> & Hlock)|[(e & -> & He)|([e ->] & Hk1 & Hlive & Hnow)]]; [done| | |done|done].
  { rewrite He. done. }
  destruct (IsLockFailed (Some e)) eqn:He; cbn [negb]; [|done].
  unfold mthen at 1. destruct (rc_ctx_err w1) as [[c|] w2] eqn:Hc.
  { unfold IsLockFailed. simpl. rewrite rd_IsCode_ERedis. unfold rd_Wrap. done. }
  apply rc_ctx_err_ok in Hc. unfold mthen. destruct (rc_sleep (lr_retryDelay l) w2) as [[] w3] eqn:Hs.
  pose proof (Hsleep w2) as Hs2. rewrite Hs in Hs2. cbn [snd] in Hs2. apply rc_sleep_ok in Hs.
  pose proof (lock_steps_now _ _ _ Hc). pose proof (lock_steps_now _ _ _ Hs).
  apply IH; [by do 2 (eapply free_or_held_steps; [done|])| |]; destruct rounds as [|rounds]; lia.
Qed.
End Progress.

(** ** Properties *)

(** C16: a lock whose holder crashed is not lost: when the key is held until [exp] and
    nobody else takes it, a retry loop that sleeps past [exp] never ends in
    LOCK_FAILED: it returns a lock on the resource's key unless a request fails
    or the context ends. *)
Theorem AcquireWithRetry_live {W S} `{RedisServerOk S}
    `{Cl : RedisClient W S} `{!RedisClientOk W S (rtc (lock_step nobody))} `{CoreErrorsOk}
    l resource ttl o exp (w : W) :
  Millisecond ≤ ttl → 0 ≤ lr_retryDelay l → sleeps_on_server (lr_retryDelay l) →
  held (rc_server w) (lockKey l resource) o exp →
  exp < srv_now (rc_server w) + (lr_retryCount l - 1) * Milliseconds (lr_retryDelay l) →
  match (AcquireWithRetryAndTTL l resource ttl w).1 with
  | Ok lock => lk_key lock = lockKey l resource
  | Err e => IsLockFailed (Some e) = false
  end.
Proof.
  intros Hm Hdelay Hsleep Hheld Hexp. apply srv_live in Hheld as Hlive.
  assert (0 ≤ Milliseconds (lr_retryDelay l)) as Hms by (apply Z.quot_pos; [done|unfold Millisecond; lia]).
  assert (0 < lr_retryCount l) as Hcount by nia.
  apply (acquire_loop_live _ _ _ exp); [done|done|right; eauto|lia|]. by rewrite Z2Nat.id by lia.
Qed.

(** A holder with 300 ms left, and ten attempts 100 ms apart. *)
Lemma AcquireWithRetry_live_witness :
  let l := NewLocker [WithLockRetryCount 10; WithLockRetryDelay (100 * Millisecond)] in
  let w := MemServer.mkWorld (MemServer.mkMem {[ "lock:r" := mkEntry (RStr "a") (Some 300) ]} 0 0) 0 in
  let run := AcquireWithRetryAndTTL l "r" DefaultLockTTL w in
  ∃ lock, run.1 = Ok lock ∧ lk_key lock = "lock:r".
Proof.
  intros l w run. destruct run.1 as [lock|e] eqn:Hrun; [|vm_compute in Hrun; discriminate].
  exists lock. split; [reflexivity|].
  assert (RedisClientOk MemServer.world MemServer.mem (rtc (lock_step nobody))) as Hcl.
  { apply MemServer.client_ok; [intros s; apply rtc_refl|].
    intros s d Hd. apply rtc_once. by constructor. }
  pose proof (AcquireWithRetry_live l "r" DefaultLockTTL "a" 300 w) as Hlive.
  unfold run in Hrun. rewrite Hrun in Hlive. apply Hlive.
  - vm_compute. discriminate.
  - vm_compute. discriminate.
  - intros w0. simpl. lia.
  - vm_compute. reflexivity.
  - vm_compute. reflexivity.
Defined.
