(* ===== verification/RateLimit.v ===== *)
(** * redis/ratelimit.go: fixed-window and sliding-window rate limiting

    The two Lua scripts are computations over the server state [S]; their
    arguments arrive as strings, their numbers are doubles ([dbl]).  The Go
    methods are computations over the caller's world [W]; log output is not
    modelled. *)

From Stdlib Require Import ZArith Lia.
From S2P Require Import Prelude GoLib GoErrors RedisErrors RedisServer.

Open Scope go_scope.

(** ** Configuration *)

Definition DefaultRateLimitWindow : Z := Minute.
Definition DefaultRateLimitMax : Z := 100.

Record RateLimitResult := mkRateLimitResult {
  Allowed : bool;
  Remaining : Z;
  ResetAt : Z;
  Total : Z
}.

Record RateLimiter := mkRateLimiter {
  rl_keyPrefix : string;
  rl_window : Z;
  rl_maxReqs : Z;
  rl_burst : Z
}.

Definition RateLimiterOption : Type := RateLimiter → RateLimiter.

Definition WithRateLimitKeyPrefix (prefix : string) : RateLimiterOption :=
  λ r, mkRateLimiter prefix (rl_window r) (rl_maxReqs r) (rl_burst r).
Definition WithRateLimitWindow (window : Z) : RateLimiterOption :=
  λ r, mkRateLimiter (rl_keyPrefix r) window (rl_maxReqs r) (rl_burst r).
Definition WithRateLimitMax (maxReqs : Z) : RateLimiterOption :=
  λ r, mkRateLimiter (rl_keyPrefix r) (rl_window r) maxReqs (rl_burst r).
Definition WithRateLimitBurst (burst : Z) : RateLimiterOption :=
  λ r, mkRateLimiter (rl_keyPrefix r) (rl_window r) (rl_maxReqs r) burst.

Definition NewRateLimiter (opts : list RateLimiterOption) : RateLimiter :=
  fold_left (λ r opt, opt r) opts
    (mkRateLimiter "ratelimit" DefaultRateLimitWindow DefaultRateLimitMax 0).

Definition UserRateLimiter (maxReqs window : Z) (opts : list RateLimiterOption) : RateLimiter :=
  NewRateLimiter ([WithRateLimitKeyPrefix "ratelimit:user"; WithRateLimitMax maxReqs;
                   WithRateLimitWindow window] ++ opts).
Definition IPRateLimiter (maxReqs window : Z) (opts : list RateLimiterOption) : RateLimiter :=
  NewRateLimiter ([WithRateLimitKeyPrefix "ratelimit:ip"; WithRateLimitMax maxReqs;
                   WithRateLimitWindow window] ++ opts).

Definition rateLimitKey (r : RateLimiter) (identifier : string) : string :=
  rl_keyPrefix r +:+ ":" +:+ identifier.

(** [r.maxReqs + r.burst] in [int64]. *)
Definition maxAllowed (r : RateLimiter) : Z := wrap64 (rl_maxReqs r + rl_burst r).

(** ** Scripts *)

Section Scripts.
Context {S : Type} `{RedisServer S}.

Definition script_error : goerror :=
  EForeign "ERR Error running script: attempt to perform arithmetic on a nil value" [].
Definition not_an_integer : goerror := EForeign "ERR value is not an integer or out of range" [].

(** [tonumber]; a nil result is used in arithmetic at once, which aborts. *)
Definition tonumber (s : string) : Lua S Z :=
  match lua_tonumber s with
  | Some z => lret z
  | None => sret (Err script_error)
  end.

(** A number passed to [redis.call] is printed with 17 significant digits, so from
    10^17 on it is no longer an integer for the server. *)
Definition int_arg (z : Z) : Lua S Z :=
  if Z.abs z <? 10 ^ 17 then lret z else sret (Err not_an_integer).

(** The script of [AllowN]: [{allowed, remaining, ttl, max}]. *)
Definition allow_script (key argv1 argv2 argv3 : string) : Lua S (Z * Z * Z * Z) :=
  let~ max := tonumber argv1 in
  let~ window := tonumber argv2 in
  let~ n := tonumber argv3 in
  let~ value := srv_lua (LGet key) in
  let is_new_window := match value with None => true | Some _ => false end in
  let~ current := match value with None => lret 0 | Some v => tonumber v end in
  let remaining := dbl (max - current) in
  let~ outcome :=
    (if dbl (current + n) <=? max then
       let~ arg := int_arg n in
       let~ _ := srv_lua (LIncrBy key arg) in
       let~ _ := if is_new_window
                 then (let~ ms := int_arg window in srv_lua (LPExpire key ms))
                 else lret 0 in
       lret (1, dbl (dbl (max - current) - n))
     else lret (0, remaining)) in
  let '(allowed, remaining) := outcome in
  let~ ttl := srv_lua (LPTTL key) in
  let ttl := if ttl <? 0 then window else ttl in
  lret (allowed, remaining, ttl, max).

(** [for i = 1, n do redis.call("ZADD", ...) end]. *)
Fixpoint zadd_loop (key : string) (now_ms : Z) (idxs : list Z) : Lua S () :=
  match idxs with
  | [] => lret tt
  | i :: rest =>
      let~ rnd := (let! r := lua_random 1000000 in lret r) in
      let~ _ := srv_lua (LZAdd key now_ms
                  (lua_tostring now_ms +:+ ":" +:+ lua_tostring i +:+ ":" +:+ lua_tostring rnd)) in
      zadd_loop key now_ms rest
  end.

(** The script of [SlidingWindowAllowN]. *)
Definition sliding_script (key argv1 argv2 argv3 argv4 : string) : Lua S (Z * Z * Z * Z) :=
  let~ max := tonumber argv1 in
  let~ window_ms := tonumber argv2 in
  let~ now_ms := tonumber argv3 in
  let~ n := tonumber argv4 in
  let min_time := dbl (now_ms - window_ms) in
  let~ _ := srv_lua (LZRemRangeByScore key 0 min_time) in
  let~ current := srv_lua (LZCard key) in
  let remaining := dbl (max - current) in
  let~ outcome :=
    (if dbl (current + n) <=? max then
       let~ _ := zadd_loop key now_ms (seqZ 1 n) in
       let~ ms := int_arg window_ms in
       let~ _ := srv_lua (LPExpire key ms) in
       lret (1, dbl (dbl (max - current) - n))
     else lret (0, remaining)) in
  let '(allowed, remaining) := outcome in
  let~ oldest := srv_lua (LZOldest key) in
  let reset_ms := match oldest with
                  | Some (_, score) =>
                      let r := dbl (dbl (score + window_ms) - now_ms) in if r <? 0 then 0 else r
                  | None => window_ms
                  end in
  lret (allowed, remaining, reset_ms, max).
End Scripts.

(** ** Operations *)

Section Operations.
Context {W S : Type} `{Sv : RedisServer S} `{Cl : RedisClient W S} `{CoreErrors}.

Definition AllowN (r : RateLimiter) (identifier : string) (n : Z)
    : M W (result RateLimitResult goerror) :=
  let key := rateLimitKey r identifier in
  let windowMs := Milliseconds (rl_window r) in
  let! res := go_script (allow_script key (itoa (maxAllowed r)) (itoa windowMs) (itoa n)) in
  match res with
  | Err err => sret (rd_fail err)
  | Ok (allowedVal, remaining, ttlMs, total) =>
      let! now := rc_now in
      sret (Ok (mkRateLimitResult (allowedVal =? 1) remaining (now + wrap64 (ttlMs * Millisecond)) total))
  end.

Definition Allow (r : RateLimiter) (identifier : string) : M W (result RateLimitResult goerror) :=
  AllowN r identifier 1.

Definition SlidingWindowAllowN (r : RateLimiter) (identifier : string) (n : Z)
    : M W (result RateLimitResult goerror) :=
  let key := rateLimitKey r (identifier +:+ ":sliding") in
  let! now := rc_now in
  let windowMs := Milliseconds (rl_window r) in
  let nowMs := now / Millisecond in
  let! res := go_script (sliding_script key (itoa (maxAllowed r)) (itoa windowMs) (itoa nowMs) (itoa n)) in
  match res with
  | Err err => sret (rd_fail err)
  | Ok (allowed, remaining, resetMs, total) =>
      sret (Ok (mkRateLimitResult (allowed =? 1) remaining (now + wrap64 (resetMs * Millisecond)) total))
  end.

Definition SlidingWindowAllow (r : RateLimiter) (identifier : string)
    : M W (result RateLimitResult goerror) :=
  SlidingWindowAllowN r identifier 1.

Definition Reset (r : RateLimiter) (identifier : string) : M W (option goerror) :=
  let key := rateLimitKey r identifier in
  let slidingKey := rateLimitKey r (identifier +:+ ":sliding") in
  let! x := rc_pipe (PCons (GoDel [key]) (PCons (GoDel [slidingKey]) PNil)) in
  let '(_, err) := x in
  sret (option_map ERedis (FromRedisError err)).

(** The counter and the reset time (ms) that [GetStatus] reads off the replies. *)
Definition status_current (get : result string goerror) : Z :=
  match get with
  | Ok val => match ParseInt val with Some parsed => parsed | None => 0 end
  | Err _ => 0
  end.

Definition status_ttlMs (r : RateLimiter) (ttl : result Z goerror) : Z :=
  match ttl with
  | Ok ttl => if 0 <? ttl then Milliseconds ttl else Milliseconds (rl_window r)
  | Err _ => Milliseconds (rl_window r)
  end.

Definition GetStatus (r : RateLimiter) (identifier : string) : M W (result RateLimitResult goerror) :=
  let key := rateLimitKey r identifier in
  let! x := rc_pipe (PCons (GoGet key) (PCons (GoPTTL key) PNil)) in
  let '((getCmd, (ttlCmd, _)), err) := x in
  let known := match err with None => true | Some e => errors_Is e redis_Nil end in
  if known then
    let current := status_current getCmd in
    let ttlMs := status_ttlMs r ttlCmd in
    let remaining := wrap64 (maxAllowed r - current) in
    let remaining := if remaining <? 0 then 0 else remaining in
    let! now := rc_now in
    sret (Ok (mkRateLimitResult (0 <? remaining) remaining (now + wrap64 (ttlMs * Millisecond))
                (maxAllowed r)))
  else sret (match FromRedisError err with Some e => Err (ERedis e) | None => Err redis_nil end).
End Operations.

(** ** Lemmas: the fixed-window script *)

Section FixedWindow.
Context {S : Type} `{RedisServerOk S}.

(** Numbers small enough for exact arithmetic on doubles. *)
Definition small (z : Z) : Prop := Z.abs z ≤ 2 ^ 51.

(** The key's counter is [c]: absent, or a number with the expiry [ex]. *)
Definition counts (db : gmap string entry) (key : string) (c : Z) (ex : option Z) : Prop :=
  match ex with
  | None => db !! key = None ∧ c = 0
  | Some t => db !! key = Some (mkEntry (RStr (itoa c)) (Some t))
  end.

(** A state known by its database and its clock. *)
Definition at_db (db : gmap string entry) (now : Z) (s : S) : Prop := srv_db s = db ∧ srv_now s = now.

(** [m], from any state with this database and clock. *)
Definition runs_at {A} (m : M S A) (db : gmap string entry) (now : Z) (a : A) (db' : gmap string entry) : Prop :=
  ∀ s, at_db db now s → runs m s a db'.

Lemma runs_at_bind {A B} (m : Lua S A) (k : A → Lua S B) db now a db1 b db2 :
  runs_at m db now (Ok a) db1 → runs_at (k a) db1 now b db2 → runs_at (lbind m k) db now b db2.
Proof.
  intros Hm Hk s Hs. eapply runs_lbind; [by apply Hm|]. destruct Hs as [_ <-].
  intros s' Hdb Hnow. by apply Hk.
Qed.

Lemma runs_at_ret {A} (a : A) db now : runs_at (lret a) db now (Ok a) db.
Proof. intros s [<- _]. by apply runs_lret. Qed.

Lemma runs_at_tonumber z db now : small z → runs_at (tonumber (itoa z)) db now (Ok z) db.
Proof.
  intros Hz. unfold small in Hz. unfold tonumber.
  rewrite lua_tonumber_itoa by (unfold in_int64, two63; lia).
  rewrite dbl_small by lia. apply runs_at_ret.
Qed.

Lemma runs_at_int_arg z db now : small z → runs_at (int_arg z) db now (Ok z) db.
Proof.
  intros Hz. unfold small in Hz. unfold int_arg.
  destruct (Z.ltb_spec (Z.abs z) (10 ^ 17)); [apply runs_at_ret|lia].
Qed.

Lemma runs_at_PTTL key v t db now :
  db !! key = Some (mkEntry v (Some t)) → runs_at (srv_lua (LPTTL key)) db now (Ok (t - now)) db.
Proof. intros Hk s [<- <-]. pose proof (lua_PTTL_spec s key) as Hp. by rewrite Hk in Hp. Qed.

Lemma runs_at_PTTL_none key db now :
  db !! key = None → runs_at (srv_lua (LPTTL key)) db now (Ok (-2)) db.
Proof. intros Hk s [<- <-]. pose proof (lua_PTTL_spec s key) as Hp. by rewrite Hk in Hp. Qed.

Lemma small_add a b : small a → small b → dbl (a + b) = a + b.
Proof. unfold small. intros. apply dbl_small. lia. Qed.

Lemma small_sub a b : small a → small b → dbl (a - b) = a - b.
Proof. unfold small. intros. apply dbl_small. lia. Qed.

Lemma runs_at_GET_none key db now :
  db !! key = None → runs_at (srv_lua (LGet key)) db now (Ok None) db.
Proof. intros Hk s [<- <-]. by apply lua_GET_none. Qed.

Lemma runs_at_GET_str key v x db now :
  db !! key = Some (mkEntry (RStr v) x) → runs_at (srv_lua (LGet key)) db now (Ok (Some v)) db.
Proof. intros Hk s [<- <-]. by eapply lua_GET_str. Qed.

Lemma runs_at_INCRBY_none key n db now :
  db !! key = None → small n →
  runs_at (srv_lua (LIncrBy key n)) db now (Ok n) (<[key := mkEntry (RStr (itoa n)) None]> db).
Proof.
  intros Hk Hn s [<- <-]. apply lua_INCRBY_none; [done|]. unfold small, in_int64, two63 in *. lia.
Qed.

Lemma runs_at_INCRBY_some key c n x db now :
  db !! key = Some (mkEntry (RStr (itoa c)) x) → small c → small n →
  runs_at (srv_lua (LIncrBy key n)) db now (Ok (c + n)) (<[key := mkEntry (RStr (itoa (c + n))) x]> db).
Proof.
  intros Hk Hc Hn s [<- <-].
  apply lua_INCRBY_some; [done|unfold small, in_int64, two63 in *; lia..].
Qed.

Lemma runs_at_PEXPIRE key e e' ms db now :
  0 < ms → e_val e = e_val e' → e_exp e' = Some (now + ms) →
  runs_at (srv_lua (LPExpire key ms)) (<[key := e]> db) now (Ok 1) (<[key := e']> db).
Proof.
  intros Hms Hv Hx s [Hdb Hnow].
  replace (<[key := e']> db) with (<[key := e']> (<[key := e]> db)) by apply insert_insert_eq.
  rewrite <-Hdb. destruct e' as [v x]. simpl in *. rewrite Hx, <-Hv, <-Hnow. apply lua_PEXPIRE_pos; [|done].
  rewrite Hdb. apply lookup_insert_eq.
Qed.

(** The replies of the script. *)
Definition allow_reply (max window n c now : Z) (ex : option Z) : Z * Z * Z * Z :=
  let t := match ex with Some t => t | None => now + window end in
  if c + n <=? max then (1, max - c - n, t - now, max)
  else (0, max - c, t - now, max).

Definition allow_db (key : string) (max window n c now : Z) (ex : option Z) (db : gmap string entry)
    : gmap string entry :=
  let t := match ex with Some t => t | None => now + window end in
  if c + n <=? max then <[key := mkEntry (RStr (itoa (c + n))) (Some t)]> db else db.

Lemma allow_script_runs_at db now key max window n c ex :
  counts db key c ex → small max → small window → small n → small c → 0 < window →
  (∀ t, ex = Some t → now ≤ t) →
  runs_at (allow_script key (itoa max) (itoa window) (itoa n)) db now
    (Ok (allow_reply max window n c now ex)) (allow_db key max window n c now ex db).
Proof.
  intros Hc Hmax Hw Hn Hsc Hpos Hlive. unfold allow_script, allow_reply, allow_db.
  do 3 (eapply runs_at_bind; [by apply runs_at_tonumber|]).
  assert (∀ t, now ≤ t → t - now <? 0 = false) as Httl by (intros; apply Z.ltb_ge; lia).
  destruct ex as [t|]; simpl in Hc; [|destruct Hc as [Hc ->]].
  - eapply runs_at_bind; [by eapply runs_at_GET_str|].
    eapply runs_at_bind; [by apply runs_at_tonumber|].
    rewrite (small_add c n), (small_sub max c) by done.
    destruct (Z.leb_spec (c + n) max) as [Hle|Hgt].
    + eapply runs_at_bind.
      { eapply runs_at_bind; [by apply runs_at_int_arg|].
        eapply runs_at_bind; [by eapply runs_at_INCRBY_some|].
        eapply runs_at_bind; [apply runs_at_ret|]. apply runs_at_ret. }
      eapply runs_at_bind; [eapply runs_at_PTTL, lookup_insert_eq|].
      rewrite Httl by auto. rewrite (dbl_small (max - c - n)) by (unfold small in *; lia).
      apply runs_at_ret.
    + eapply runs_at_bind; [apply runs_at_ret|].
      eapply runs_at_bind; [by eapply runs_at_PTTL|]. rewrite Httl by auto. apply runs_at_ret.
  - eapply runs_at_bind; [by eapply runs_at_GET_none|].
    eapply runs_at_bind; [apply runs_at_ret|].
    rewrite (small_add 0 n), (small_sub max 0) by done. replace (now + window - now) with window by lia.
    destruct (Z.leb_spec (0 + n) max) as [Hle|Hgt].
    + eapply runs_at_bind.
      { eapply runs_at_bind; [by apply runs_at_int_arg|].
        eapply runs_at_bind; [by eapply runs_at_INCRBY_none|].
        eapply runs_at_bind.
        { eapply runs_at_bind; [by apply runs_at_int_arg|].
          by apply (runs_at_PEXPIRE _ _ (mkEntry (RStr (itoa n)) (Some (now + window)))). }
        apply runs_at_ret. }
      eapply runs_at_bind; [eapply runs_at_PTTL, lookup_insert_eq|].
      replace (now + window - now) with window by lia.
      destruct (Z.ltb_spec window 0); [lia|].
      rewrite (dbl_small (max - 0 - n)) by (unfold small in *; lia). apply runs_at_ret.
    + eapply runs_at_bind; [apply runs_at_ret|].
      eapply runs_at_bind; [by eapply runs_at_PTTL_none|]. apply runs_at_ret.
Qed.

Lemma allow_script_runs s key max window n c ex :
  counts (srv_db s) key c ex → small max → small window → small n → small c → 0 < window →
  runs (run_script (allow_script key (itoa max) (itoa window) (itoa n))) s
    (Ok (allow_reply max window n c (srv_now s) ex)) (allow_db key max window n c (srv_now s) ex (srv_db s)).
Proof.
  intros Hc Hmax Hw Hn Hsc Hpos. apply runs_script. intros s1 Hdb1 Hnow1.
  apply (allow_script_runs_at (srv_db s) (srv_now s)); try done.
  intros t ->. by eapply srv_live.
Qed.
(** ** Specification: what a window grants *)

(** What the script's reply grants of the [n] requests asked for. *)
Definition granted (n : Z) (r : result (Z * Z * Z * Z) goerror) : Z :=
  match r with
  | Ok (allowed, _, _, _) => if allowed =? 1 then n else 0
  | Err _ => 0
  end.

(** One step of any client or of time, with what it grants under [key]: the script
    of an [AllowN] call for this key with a count [0 ≤ n] (the code does not check
    the sign; a negative one refills the window, [negative_n_refills]), time
    passing, and anything that leaves the key alone; the server's clock does not
    run backwards. *)
Inductive limiter_step (key : string) (max window : Z) : S → Z → S → Prop :=
| WinElapse s d : 0 ≤ d → limiter_step key max window s 0 (srv_elapse d s)
| WinAllow s n r s' :
    0 ≤ n → small n → srv_now s ≤ srv_now s' →
    run_script (allow_script key (itoa max) (itoa window) (itoa n)) s = (r, s') →
    limiter_step key max window s (granted n r) s'
| WinOther s s' :
    srv_now s ≤ srv_now s' → srv_db s' !! key = srv_db s !! key →
    limiter_step key max window s 0 s'.

Inductive limiter_run (key : string) (max window : Z) : S → Z → S → Prop :=
| WinNil s : limiter_run key max window s 0 s
| WinCons s g s1 total s' :
    limiter_step key max window s g s1 → limiter_run key max window s1 total s' →
    limiter_run key max window s (g + total) s'.

(** [total] requests were granted in the window that began at [t0] or later. *)
Definition window_inv (key : string) (max window t0 : Z) (s : S) (total : Z) : Prop :=
  0 ≤ total ≤ Z.max 0 max ∧
  ∃ ex, counts (srv_db s) key total ex ∧ (∀ t, ex = Some t → t0 + window ≤ t).

Lemma allow_step_inv key max window t0 s total n r s' :
  small max → small window → 0 < window → 0 ≤ n → small n → t0 ≤ srv_now s →
  window_inv key max window t0 s total →
  run_script (allow_script key (itoa max) (itoa window) (itoa n)) s = (r, s') →
  srv_now s' = srv_now s ∧ window_inv key max window t0 s' (total + granted n r).
Proof.
  intros Hmax Hw Hpos Hn0 Hn Ht0 ((Hlo & Hhi) & ex & Hc & Hex) Hr.
  assert (small total) as Htot by (unfold small in *; lia).
  destruct (runs_result _ _ _ _ _ _ (allow_script_runs s key max window n total ex Hc Hmax Hw Hn Htot Hpos) Hr)
    as (-> & Hdb & Hnow).
  split; [done|]. unfold window_inv. rewrite Hdb. unfold allow_reply, allow_db, granted.
  destruct (Z.leb_spec (total + n) max); simpl.
  - split; [lia|]. exists (Some (match ex with Some t => t | None => srv_now s + window end)).
    split; [apply lookup_insert_eq|]. intros t [= <-]. destruct ex; [by apply Hex|lia].
  - rewrite Z.add_0_r. eauto.
Qed.

Lemma limiter_run_now key max window s total s' :
  limiter_run key max window s total s' → srv_now s ≤ srv_now s'.
Proof.
  induction 1 as [|s g s1 total s' Hstep _ IH]; [lia|].
  destruct Hstep; [rewrite srv_elapse_now in IH; lia|lia..].
Qed.

Lemma counts_elapse d s key c ex t1 :
  0 ≤ d → counts (srv_db s) key c ex → (∀ t, ex = Some t → t1 ≤ t) → srv_now s + d < t1 →
  counts (srv_db (srv_elapse d s)) key c ex.
Proof.
  intros Hd Hc Hex Hlt. destruct ex as [t|]; simpl in *.
  - apply srv_elapse_keeps; [done..|]. intros t' [= <-]. specialize (Hex t eq_refl). lia.
  - destruct Hc as [Hc ->]. split; [|done].
    destruct (srv_db (srv_elapse d s) !! key) as [e|] eqn:He; [|done].
    apply srv_elapse_sub in He; [congruence|done].
Qed.

Lemma limiter_run_inv key max window t0 s total g s' :
  small max → small window → 0 < window → t0 ≤ srv_now s →
  limiter_run key max window s g s' → srv_now s' < t0 + window →
  window_inv key max window t0 s total → window_inv key max window t0 s' (total + g).
Proof.
  intros Hmax Hw Hpos Ht0 Hrun. revert total Ht0.
  induction Hrun as [s|s g s1 g' s' Hstep Hrun IH]; intros total Ht0 Hend Hinv.
  { by rewrite Z.add_0_r. }
  pose proof (limiter_run_now _ _ _ _ _ _ Hrun) as Hmono. rewrite Z.add_assoc.
  destruct Hstep as [s d Hd|s n r s1 Hn0 Hn Hnow Hr|s s1 Hnow Hkey].
  - rewrite srv_elapse_now in *. rewrite Z.add_0_r. apply IH; [lia|done|].
    destruct Hinv as (Hb & ex & Hc & Hex). split; [done|]. exists ex. split; [|done].
    apply (counts_elapse _ _ _ _ _ (t0 + window)); [done..|lia].
  - destruct (allow_step_inv _ _ _ _ _ _ _ _ _ Hmax Hw Hpos Hn0 Hn Ht0 Hinv Hr) as [Heq Hinv'].
    apply IH; [lia|done|done].
  - rewrite Z.add_0_r. apply IH; [lia|done|]. destruct Hinv as (Hb & ex & Hc & Hex).
    split; [done|]. exists ex. split; [|done]. unfold counts in *. by rewrite Hkey.
Qed.
End FixedWindow.

(** ** Properties *)

(** C14: the fixed-window script, on every counter state: with [c] requests counted
    it grants [n] exactly when [c + n] is within the maximum; it then counts them,
    starts the window (expiry [now + window]) only if the key was absent and
    otherwise keeps the expiry, and replies the remainder after them; refused
    requests change nothing and reply the remainder; the reset time is the key's
    remaining time to live, or a whole window when there is none. *)
Theorem allow_script_spec {S} `{RedisServerOk S} (s : S) key max window n c ex :
  counts (srv_db s) key c ex → small max → small window → small n → small c → 0 < window →
  let t := match ex with Some t => t | None => srv_now s + window end in
  let script := run_script (allow_script key (itoa max) (itoa window) (itoa n)) in
  if c + n <=? max then
    runs script s (Ok (1, max - c - n, t - srv_now s, max))
      (<[key := mkEntry (RStr (itoa (c + n))) (Some t)]> (srv_db s))
  else runs script s (Ok (0, max - c, t - srv_now s, max)) (srv_db s).
Proof.
  intros Hc Hmax Hw Hn Hsc Hpos.
  pose proof (allow_script_runs s key max window n c ex Hc Hmax Hw Hn Hsc Hpos) as Hr.
  unfold allow_reply, allow_db in Hr. by destruct (c + n <=? max).
Qed.

Lemma allow_script_spec_witness :
  let s := MemServer.mkMem {[ "k" := mkEntry (RStr "99") (Some 60000) ]} 10000 0 in
  counts (srv_db s) "k" 99 (Some 60000) ∧
  runs (run_script (allow_script "k" (itoa 100) (itoa 60000) (itoa 1))) s (Ok (1, 0, 50000, 100))
    (<[ "k" := mkEntry (RStr (itoa 100)) (Some 60000) ]> (srv_db s)).
Proof.
  intros s. assert (counts (srv_db s) "k" 99 (Some 60000)) as Hc by (vm_compute; reflexivity).
  split; [exact Hc|].
  refine (allow_script_spec s "k" 100 60000 1 99 (Some 60000) Hc _ _ _ _ _);
    try (vm_compute; discriminate). reflexivity.
Defined.

(** The interleavings of the specification from an absent key. *)
Lemma limiter_run_bound {S} `{RedisServerOk S} (s s' : S) key max window total :
  small max → small window → 0 < window → srv_db s !! key = None →
  limiter_run key max window s total s' → srv_now s' < srv_now s + window →
  0 ≤ total ≤ Z.max 0 max.
Proof.
  intros Hmax Hw Hpos Hk Hrun Hend.
  assert (window_inv key max window (srv_now s) s 0) as Hinv.
  { split; [lia|]. exists None. by split. }
  by destruct (limiter_run_inv _ _ _ _ _ 0 _ _ Hmax Hw Hpos (Z.le_refl _) Hrun Hend Hinv) as [? _].
Qed.

(** An answered [AllowN] ran its script once, and [Allowed] is the script's grant. *)
Lemma AllowN_script {W S} `{RedisServer S} (others : S → S → Prop)
    `{Cl : RedisClient W S} `{!RedisClientOk W S others} `{CoreErrors}
    (r : RateLimiter) identifier n (w : W) res w' :
  AllowN r identifier n w = (Ok res, w') →
  ∃ s q s', others (rc_server w) s ∧
    run_script (allow_script (rateLimitKey r identifier) (itoa (maxAllowed r))
      (itoa (Milliseconds (rl_window r))) (itoa n)) s = (Ok q, s') ∧
    granted n (Ok q) = (if Allowed res then n else 0) ∧
    Allowed res = (q.1.1.1 =? 1) ∧ Remaining res = q.1.1.2 ∧ Total res = q.2.
Proof.
  unfold AllowN, go_script, mthen, sret.
  destruct (rc_send _ w) as [[[[[a rem] ttl] tot]|e] w1] eqn:Hs;
    [|intros Hf; apply (f_equal fst) in Hf; by apply rd_fail_not_ok in Hf].
  destruct (rc_now w1) as [t w2]. intros [= <- _].
  apply rc_send_ok in Hs as (s & s' & Hs1 & Hs & _). by exists s, (a, rem, ttl, tot), s'.
Qed.



(** [AllowN] reports the script's decision on the counter it found: at some
    moment of the call the key held a count [c], the request was allowed exactly
    when [c + n] was within [maxReqs + burst], and [Remaining] and [Total] are that
    moment's. *)
Lemma AllowN_decides {W S} `{RedisServerOk S} (others : S → S → Prop)
    `{Cl : RedisClient W S} `{!RedisClientOk W S others} `{CoreErrorsOk}
    (r : RateLimiter) identifier n (w : W) res w' :
  small (maxAllowed r) → small (Milliseconds (rl_window r)) → small n → 0 < Milliseconds (rl_window r) →
  AllowN r identifier n w = (Ok res, w') →
  ∃ s, others (rc_server w) s ∧
    ∀ c ex, counts (srv_db s) (rateLimitKey r identifier) c ex → small c →
      Allowed res = (c + n <=? maxAllowed r) ∧ Total res = maxAllowed r ∧
      Remaining res = maxAllowed r - c - (if Allowed res then n else 0).
Proof.
  intros Hmax Hw Hn Hpos Hr.
  destruct (AllowN_script others _ _ _ _ _ _ Hr) as (s & q & s' & Hs1 & Hs & _ & Ha & Hrem & Htot).
  exists s. split; [done|]. intros c ex Hc Hsc.
  destruct (runs_result _ _ _ _ _ _ (allow_script_runs s _ _ _ n c ex Hc Hmax Hw Hn Hsc Hpos) Hs)
    as (Heq & _). unfold allow_reply in Heq. apply Ok_inj in Heq. rewrite Ha, Hrem, Htot, Heq.
  destruct (c + n <=? maxAllowed r); simpl; split_and!; (done || lia).
Qed.

Lemma AllowN_decides_witness :
  let r := NewRateLimiter [] in
  let run := AllowN r "u" 3 MemServer.start in
  ∃ res, run.1 = Ok res ∧ Allowed res = true ∧ Remaining res = 97.
Proof.
  intros r run. destruct run.1 as [res|e] eqn:Hrun; [|vm_compute in Hrun; discriminate].
  exists res. split; [reflexivity|].
  assert (run = (Ok res, run.2)) as Heq by (rewrite <-Hrun; apply surjective_pairing).
  assert (RedisClientOk MemServer.world MemServer.mem (λ _ _, True)) as Hcl
    by (apply MemServer.client_ok; [intros s; exact I|intros; exact I]).
  destruct (AllowN_decides (λ _ _, True) r "u" 3 MemServer.start res run.2) as (s & _ & Hs);
    [vm_compute; discriminate..|vm_compute; reflexivity|exact Heq|].
  clear Hs. vm_compute in Hrun. injection Hrun as <-. split; reflexivity.
Defined.



(** ** Behaviours worth knowing *)

(** The random part of a sorted-set member restarts with every script, so calls in
    the same millisecond write the same member: with a maximum of 2, six calls at
    time 0 are all allowed. *)
Lemma sliding_window_same_ms_unlimited :
  let r := NewRateLimiter [WithRateLimitMax 2] in
  let call := SlidingWindowAllow r "u" in
  let step (acc : list bool * MemServer.world) (_ : nat) :=
    let '(res, w) := call acc.2 in
    (acc.1 ++ [match res with Ok x => Allowed x | Err _ => false end], w) in
  (fold_left step (seq 0 6) ([], MemServer.start)).1 = repeat true 6.
Proof. vm_compute. reflexivity. Qed.

(** The sliding key of [u] is the fixed-window key of [u:sliding]. *)
Lemma sliding_key_collision :
  let r := NewRateLimiter [] in
  let w1 := (Allow r "u:sliding" MemServer.start).2 in
  match (SlidingWindowAllow r "u" w1).1 with Ok _ => False | Err _ => True end.
Proof. vm_compute. exact I. Qed.

(** [AllowN] does not check [n]: a negative count refills the window. *)
Lemma negative_n_refills :
  let r := NewRateLimiter [WithRateLimitMax 1] in
  let w1 := (Allow r "u" MemServer.start).2 in
  let w2 := (AllowN r "u" (-1) w1).2 in
  match (Allow r "u" w2).1 with Ok res => Allowed res = true | Err _ => False end.
Proof. vm_compute. reflexivity. Qed.
