(* ===== verification/SlidingWindow.v ===== *)
(** * redis/ratelimit.go: the sliding window

    The limit of [SlidingWindowAllowN]'s script ([RateLimit.sliding_script]): the
    sorted set under the key is a log of the grants of the last window.  A call
    reads its clock before it sends the script, so the time it carries may lie
    behind: with readings between [skew - lag] and [skew] ahead of the server's
    clock when the script runs, no interval of [window - lag] is granted more than
    the maximum, as long as no two grants carry the same millisecond.  For readings
    that do not lie behind ([lag = 0]) that is the whole window; a request that was
    held up does exceed it ([delayed_request_exceeds]). *)

From Stdlib Require Import ZArith Lia.
From S2P Require Import Prelude GoLib GoErrors RedisErrors RedisServer RateLimit.

Open Scope go_scope.

(** ** Sorted sets *)

Section ZSets.
Implicit Types m : gmap string Z.

(** The members with a score above [c]. *)
Definition above (c : Z) m : gmap string Z := filter (λ p, c < p.2) m.

Lemma above_size c m : (size (above c m) ≤ size m)%nat.
Proof. apply map_subseteq_size, map_filter_subseteq. Qed.

Lemma above_mono c m m' : m ⊆ m' → (size (above c m) ≤ size (above c m'))%nat.
Proof.
  intros Hm. apply map_subseteq_size, map_subseteq_spec. unfold above. intros k z.
  rewrite !map_lookup_filter_Some. intros [Hk Hz]. split; [by eapply lookup_weaken|done].
Qed.

(** A larger set whose new members are above [c] has as many more above [c]. *)
Lemma above_grows c m m' n :
  m ⊆ m' → size m' = (size m + n)%nat → (∀ k z, m' !! k = Some z → m !! k = Some z ∨ c < z) →
  size (above c m') = (size (above c m) + n)%nat.
Proof.
  intros Hsub Hsize Hnew.
  assert (∀ m0 : gmap string Z, size m0 = (size (above c m0) + size (filter (λ p, ¬ (c < p.2)%Z) m0))%nat) as Hsplit.
  { intros m0. unfold above. rewrite <-map_size_disj_union by apply map_disjoint_filter_complement.
    by rewrite map_filter_union_complement. }
  pose proof (Hsplit m) as H1. pose proof (Hsplit m') as H2.
  assert (filter (λ p, ¬ c < p.2) m' = filter (λ p, ¬ c < p.2) m) as Heq; [|rewrite Heq in H2; lia].
  apply map_eq. intros k. apply option_eq. intros z. rewrite !map_lookup_filter_Some. simpl.
  split; intros [Hk Hz]; (split; [|done]); [|by eapply lookup_weaken].
  by destruct (Hnew k z Hk).
Qed.

Lemma above_pruned lo c c' m :
  c ≤ c' → above c' (filter (λ p, ¬ (lo ≤ p.2 ≤ c)) m) = above c' m.
Proof.
  intros Hc. apply map_eq. intros k. apply option_eq. intros z. unfold above.
  rewrite !map_lookup_filter_Some. simpl. split; [tauto|]. intros [Hk Hz]. split_and!; [done|lia|done].
Qed.

Lemma as_zset_put k m x db :
  ∃ x', as_zset (put_zset k m x db !! k) = Some (m, x') ∧ (m ≠ ∅ → x' = x).
Proof.
  unfold put_zset. case_decide as Hm.
  - subst. exists None. by rewrite lookup_delete_eq.
  - exists x. by rewrite lookup_insert_eq.
Qed.

Lemma put_zset_put k m1 x1 m2 x2 db : put_zset k m2 x2 (put_zset k m1 x1 db) = put_zset k m2 x2 db.
Proof.
  unfold put_zset. case_decide; case_decide;
    by rewrite ?delete_delete_eq, ?delete_insert_eq, ?insert_delete_eq, ?insert_insert_eq.
Qed.

Lemma insert_put_zset k e m x db : <[k := e]> (put_zset k m x db) = <[k := e]> db.
Proof. unfold put_zset. case_decide; [apply insert_delete_eq|apply insert_insert_eq]. Qed.

(** The key holds exactly [m] (with the expiry [x], unless [m] is empty). *)
Definition zset_at (db : gmap string entry) k m x : Prop := put_zset k m x db = db.

Lemma zset_at_put k m x db : zset_at (put_zset k m x db) k m x.
Proof. apply put_zset_put. Qed.

Lemma zset_at_lookup db k m x :
  zset_at db k m x → db !! k = if decide (m = ∅) then None else Some (mkEntry (RZSet m) x).
Proof.
  unfold zset_at, put_zset. intros <-. case_decide; [apply lookup_delete_eq|apply lookup_insert_eq].
Qed.

Lemma zset_at_of_lookup db k m x :
  (db !! k = if decide (m = ∅) then None else Some (mkEntry (RZSet m) x)) → zset_at db k m x.
Proof.
  unfold zset_at, put_zset. case_decide; intros Hk; [by apply delete_id|by apply insert_id].
Qed.

Lemma zset_at_as db k m x : zset_at db k m x → ∃ x', as_zset (db !! k) = Some (m, x') ∧ (m ≠ ∅ → x' = x).
Proof. intros <-. apply as_zset_put. Qed.

(** Writing the same set with the expiry found there. *)
Lemma put_zset_same k m x x' db : (m ≠ ∅ → x' = x) → put_zset k m x' db = put_zset k m x db.
Proof. intros Hx. unfold put_zset. case_decide; [done|]. by rewrite Hx. Qed.
End ZSets.

(** ** One run of the script *)

(** The member the script writes for grant number [i] at time [t]. *)
Definition member (t i r : Z) : string := itoa t +:+ ":" +:+ itoa i +:+ ":" +:+ itoa r.

Lemma member_inj t i r t' i' r' : member t i r = member t' i' r' → t = t' ∧ i = i' ∧ r = r'.
Proof.
  intros Heq. apply colon_field_inj in Heq as [Ht Heq]; [|apply itoa_no_colon..].
  apply colon_field_inj in Heq as [Hi Hr]; [|apply itoa_no_colon..].
  unfold itoa in *. by simplify_eq.
Qed.

(** No member of [m] carries the time [t]. *)
Definition fresh_time (t : Z) (m : gmap string Z) : Prop := ∀ i r, member t i r ∉ dom m.

(** Numbers [tostring] prints in full. *)
Definition printable (z : Z) : Prop := Z.abs z < 10 ^ 14.

Section Script.
Context {S : Type} `{RedisServerOk S}.

(** [m], started in [s], ends with a result and a database such that [P]; the clock
    stands still. *)
Definition ends {A} (m : M S A) (s : S) (P : A → gmap string entry → Prop) : Prop :=
  ∃ a db', runs m s a db' ∧ P a db'.

Lemma ends_bind {A B} (m : Lua S A) (k : A → Lua S B) s (Q : A → gmap string entry → Prop) P :
  ends m s (λ r db, ∃ a, r = Ok a ∧ Q a db) →
  (∀ a s', Q a (srv_db s') → srv_now s' = srv_now s → ends (k a) s' P) →
  ends (lbind m k) s P.
Proof.
  intros (r & db1 & (s1 & Hm & Hdb & Hnow) & a & -> & HQ) Hk. rewrite <-Hdb in HQ.
  destruct (Hk a s1 HQ Hnow) as (b & db2 & (s2 & Hk2 & Hdb2 & Hnow2) & HP).
  exists b, db2. split; [|done]. exists s2. unfold lbind, mthen. rewrite Hm.
  split_and!; [done..|congruence].
Qed.

Lemma ends_runs {A B} (m : Lua S A) (k : A → Lua S B) s a db1 P :
  runs m s (Ok a) db1 →
  (∀ s', srv_db s' = db1 → srv_now s' = srv_now s → ends (k a) s' P) →
  ends (lbind m k) s P.
Proof.
  intros Hm Hk. apply (ends_bind m k s (λ b db, b = a ∧ db = db1)); [exists (Ok a), db1; eauto|].
  intros b s' [-> Hdb]. by apply Hk.
Qed.

Lemma ends_tonumber {B} z (k : Z → Lua S B) s P :
  small z → (∀ s', srv_db s' = srv_db s → srv_now s' = srv_now s → ends (k z) s' P) →
  ends (let~ x := tonumber (itoa z) in k x) s P.
Proof. intros Hz. eapply ends_runs. by apply (runs_at_tonumber z (srv_db s) (srv_now s)). Qed.

Lemma ends_ret {A} (a : A) s (P : result A goerror → gmap string entry → Prop) :
  P (Ok a) (srv_db s) → ends (lret a) s P.
Proof. intros HP. exists (Ok a), (srv_db s). split; [by apply runs_lret|done]. Qed.

(** The members written at [t] are new when nothing in the set carries [t];
    otherwise they may overwrite older ones. *)
Lemma zadd_loop_runs key t idxs m x db now (s : S) :
  at_db db now s → zset_at db key m x →
  printable t → Forall printable idxs → NoDup idxs →
  ∃ m' x', runs (zadd_loop key t idxs) s (Ok tt) (put_zset key m' x' db) ∧
    (idxs = [] ∨ m' ≠ ∅) ∧
    (∀ k z, m' !! k = Some z → m !! k = Some z ∨ z = t ∧ ∃ i r, k = member t i r) ∧
    ((∀ i r, i ∈ idxs → member t i r ∉ dom m) → m ⊆ m' ∧ size m' = (size m + length idxs)%nat).
Proof.
  intros Hs Hk Ht Hp. revert m x db s Hs Hk. induction Hp as [|i idxs Hi Hp IH]; intros m x db s Hs Hk Hnd.
  { exists m, x. destruct Hs as [<- <-]. split; [rewrite Hk; by apply runs_lret|].
    split_and!; [by left|eauto|]. intros _. split; [done|simpl; lia]. }
  apply NoDup_cons in Hnd as [Hni Hnd]. destruct Hs as [<- <-].
  destruct (lua_random_spec s 1000000 ltac:(lia)) as (r & (s1 & Hr & Hdb1 & Hnow1) & Hrange).
  assert (printable r) as Hpr by (unfold printable; lia).
  destruct (zset_at_as _ _ _ _ Hk) as (x1 & Hm & _). rewrite <-Hdb1 in Hm.
  destruct (lua_ZADD_spec s1 key m x1 t (member t i r) Hm) as (n0 & s2 & Hadd & Hdb2 & Hnow2).
  rewrite Hdb1 in Hdb2. set (m1 := <[member t i r := t]> m) in *.
  destruct (IH m1 x1 (srv_db s2) s2) as (m' & x' & (s3 & Hloop & Hdb3 & Hnow3) & Hne & Hmem & Hfresh'); [split; [done|congruence]| |done|].
  { rewrite Hdb2. apply zset_at_put. }
  exists m', x'. split; [|split; [|split]].
  - exists s3. split; [|split; [by rewrite Hdb3, Hdb2, put_zset_put|congruence]].
    cbn [zadd_loop]. unfold lbind, mthen, lret, sret. rewrite Hr, !lua_tostring_itoa by done.
    unfold member in Hadd. by rewrite Hadd.
  - right. destruct Hne as [->|?]; [|done]. destruct Hfresh' as [Hsub _]; [by intros j q Hj%not_elem_of_nil|].
    intros ->. assert (m1 !! member t i r = Some t) as Hin by apply lookup_insert_eq.
    by eapply (lookup_weaken _ ∅) in Hin; [rewrite lookup_empty in Hin|].
  - intros k z Hz. apply Hmem in Hz as [Hz|?]; [|by right]. unfold m1 in Hz.
    apply lookup_insert_Some in Hz as [[<- <-]|[_ Hz]]; [right; eauto|by left].
  - intros Hfresh. assert (m !! member t i r = None) as Hk0 by (apply not_elem_of_dom, Hfresh; set_solver).
    destruct Hfresh' as [Hsub Hsize].
    { intros j q Hj Hin. unfold m1 in Hin. rewrite dom_insert in Hin. apply elem_of_union in Hin as [Hin|Hin].
      + apply elem_of_singleton, member_inj in Hin as (_ & -> & _). done.
      + by apply (Hfresh j q); [set_solver|]. }
    split; [etrans; [by apply insert_subseteq|done]|].
    rewrite Hsize. unfold m1. rewrite map_size_insert_None by done. simpl. lia.
Qed.

(** The members inside the window that ends at [t]. *)
Definition in_window (t window : Z) (m : gmap string Z) : gmap string Z :=
  filter (λ p, ¬ (0 ≤ p.2 ≤ t - window)) m.

(** When the oldest member leaves the window, in milliseconds from [t]. *)
Definition reset_after (t window : Z) (m : gmap string Z) (reset : Z) : Prop :=
  m = ∅ ∧ reset = window ∨
  ∃ k z, m !! k = Some z ∧ map_Forall (λ _ z', z ≤ z') m ∧ reset = Z.max 0 (z + window - t).

(** What the script replies and leaves under the key, having found [m]. *)
Definition sliding_result (key : string) (max window t n now : Z) (m : gmap string Z) (x : option Z)
    (db : gmap string entry) (r : result (Z * Z * Z * Z) goerror) (db' : gmap string entry) : Prop :=
  let m1 := in_window t window m in
  let current := Z.of_nat (size m1) in
  if current + n <=? max then
    ∃ m2 reset, r = Ok (1, max - current - n, reset, max) ∧
      db' = <[key := mkEntry (RZSet m2) (Some (now + window))]> db ∧
      (∀ k z, m2 !! k = Some z → m1 !! k = Some z ∨ z = t ∧ ∃ i r, k = member t i r) ∧
      (fresh_time t m1 → m1 ⊆ m2 ∧ Z.of_nat (size m2) = current + n) ∧
      m2 ≠ ∅ ∧ reset_after t window m2 reset
  else
    ∃ reset, r = Ok (0, max - current, reset, max) ∧ db' = put_zset key m1 x db ∧
      reset_after t window m1 reset.

(** The end of the script: reading the oldest member. *)
Lemma ends_reset key m x (max window t allowed remaining : Z) (s : S) P :
  zset_at (srv_db s) key m x → map_Forall (λ _ z, small z) m → small window → printable t →
  (∀ reset, reset_after t window m reset → P (Ok (allowed, remaining, reset, max)) (srv_db s)) →
  ends (let~ oldest := srv_lua (LZOldest key) in
        let reset_ms := match oldest with
                        | Some (_, score) =>
                            let r := dbl (dbl (score + window) - t) in if r <? 0 then 0 else r
                        | None => window
                        end in
        lret (allowed, remaining, reset_ms, max)) s P.
Proof.
  intros Hk Hm Hw Ht HP. destruct (zset_at_as _ _ _ _ Hk) as (x' & Has & _).
  destruct (lua_ZOldest_spec _ _ _ _ Has) as (o & Hruns & Ho).
  eapply ends_runs; [done|]. intros s' Hdb Hnow. apply ends_ret. rewrite Hdb. apply HP.
  destruct o as [[k z]|]; [right|by left]. destruct Ho as [Hz Hleast]. exists k, z. split_and!; [done..|].
  pose proof (Hm k z Hz) as Hsz. unfold small, printable in *. simpl in Hsz.
  rewrite (dbl_small (z + window)) by lia. rewrite dbl_small by lia.
  destruct (Z.ltb_spec (z + window - t) 0); lia.
Qed.

(** The granting branch. *)
Lemma ends_grant key m1 x window t n (granted : Z * Z) (s : S) :
  zset_at (srv_db s) key m1 x → small window → 0 < window → 0 < n → printable n → printable t →
  ends (let~ _ := zadd_loop key t (seqZ 1 n) in
        let~ ms := int_arg window in
        let~ _ := srv_lua (LPExpire key ms) in
        lret granted) s
    (λ r db, ∃ a, r = Ok a ∧ a = granted ∧
       ∃ m2, db = <[key := mkEntry (RZSet m2) (Some (srv_now s + window))]> (srv_db s) ∧
         (∀ k z, m2 !! k = Some z → m1 !! k = Some z ∨ z = t ∧ ∃ i r, k = member t i r) ∧
         (fresh_time t m1 → m1 ⊆ m2 ∧ Z.of_nat (size m2) = Z.of_nat (size m1) + n) ∧ m2 ≠ ∅).
Proof.
  intros Hk Hw Hpos Hn Hpn Hpt.
  destruct (zadd_loop_runs key t (seqZ 1 n) m1 x (srv_db s) (srv_now s) s) as (m2 & x2 & Hloop & Hne & Hmem & Hfresh).
  - done.
  - done.
  - done.
  - apply Forall_forall. intros i Hi. apply elem_of_seqZ in Hi. unfold printable in *. lia.
  - apply NoDup_seqZ.
  - destruct Hne as [Hnil|Hne]; [by apply (f_equal length) in Hnil; rewrite length_seqZ in Hnil; simpl in Hnil; lia|].
    eapply ends_runs; [exact Hloop|]. intros s1 Hdb1 Hnow1.
    eapply ends_runs; [by apply (runs_at_int_arg window (srv_db s1) (srv_now s1))|]. intros s2 Hdb2 Hnow2.
    assert (srv_db s2 !! key = Some (mkEntry (RZSet m2) x2)) as Hkey.
    { rewrite Hdb2, Hdb1. rewrite (zset_at_lookup _ _ _ _ (zset_at_put key m2 x2 (srv_db s))). by rewrite decide_False. }
    eapply ends_runs; [by apply lua_PEXPIRE_pos|]. intros s3 Hdb3 Hnow3. apply ends_ret.
    exists granted. split_and!; [done..|]. exists m2. split_and!; [|done| |done].
    2: { intros Hf. destruct Hfresh as [? Hsize]; [by intros i r _; apply Hf|].
         rewrite length_seqZ in Hsize. split; [done|lia]. }
    rewrite Hdb3, Hnow2, Hnow1, Hdb2, Hdb1. simpl. unfold put_zset. rewrite decide_False by done.
    by rewrite insert_insert_eq.
Qed.

Lemma sliding_script_ends key max window t n m x (s : S) :
  zset_at (srv_db s) key m x → small max → small window → 0 < window → 0 < n → printable n → printable t →
  small (Z.of_nat (size m)) → map_Forall (λ _ z, small z) m →
  ends (sliding_script key (itoa max) (itoa window) (itoa t) (itoa n)) s
    (sliding_result key max window t n (srv_now s) m x (srv_db s)).
Proof.
  intros Hk Hmax Hw Hpos Hn Hpn Hpt Hsize Hscores.
  assert (small n ∧ small t) as [Hsn Hst] by (unfold small, printable in *; lia).
  unfold sliding_script, sliding_result. set (m1 := in_window t window m).
  assert (size m1 ≤ size m)%nat as Hle by apply map_subseteq_size, map_filter_subseteq.
  assert (m1 ⊆ m) as Hsub by apply map_filter_subseteq.
  assert (map_Forall (λ _ z, small z) m1) as Hscores1 by (intros k z Hz; eapply Hscores, lookup_weaken; eauto).
  apply ends_tonumber; [done|]. intros sa Hda Hna. apply ends_tonumber; [done|]. intros sb Hdb Hnb.
  apply ends_tonumber; [done|]. intros sc Hdc Hnc. apply ends_tonumber; [done|]. intros sd Hdd Hnd.
  rewrite (small_sub t window) by done.
  destruct (zset_at_as (srv_db sd) key m x) as (x' & Has & Hx'); [congruence|].
  destruct (lua_ZREMRANGE_spec sd key m x' 0 (t - window) Has) as [n0 Hrem]. fold (in_window t window m) in Hrem.
  fold m1 in Hrem. rewrite (put_zset_same _ m1 x) in Hrem by (intros Hne; apply Hx'; intros ->; by apply Hne, map_filter_empty).
  eapply ends_runs; [exact Hrem|]. intros se Hde Hne.
  assert (zset_at (srv_db se) key m1 x) as Hk1 by (rewrite Hde; apply zset_at_put).
  destruct (zset_at_as _ _ _ _ Hk1) as (x1 & Has1 & Hx1).
  eapply ends_runs; [by eapply lua_ZCARD_spec|]. intros sf Hdf Hnf.
  set (current := Z.of_nat (size m1)). assert (small current) as Hcur by (unfold small in *; lia).
  rewrite (small_add current n), (small_sub max current) by done.
  destruct (Z.leb_spec (current + n) max) as [Hfit|Hfull].
  - eapply ends_bind; [apply (ends_grant key m1 x); [by rewrite Hdf|done..]|].
    intros a sg (-> & m2 & Hdg & Hmem & Hnew & Hne2) Hng.
    apply (ends_reset key m2 (Some (srv_now sf + window))); [|..|done|done|].
    + apply zset_at_of_lookup. rewrite Hdg, decide_False by done. apply lookup_insert_eq.
    + intros k z Hz. apply Hmem in Hz as [Hz|[-> _]]; [by eapply Hscores1|done].
    + intros reset Hreset. exists m2, reset. rewrite dbl_small by (unfold small in *; lia).
      split_and!; [done| |done|done|done|done].
      rewrite Hdg, Hdf, Hde, insert_put_zset. congruence.
  - eapply ends_runs; [by apply runs_lret|]. intros sg Hdg Hng.
    apply (ends_reset key m1 x); [by rewrite Hdg|done..|]. intros reset Hreset.
    exists reset. split_and!; [done| |done]. congruence.
Qed.
End Script.

(** ** Specification: what any window grants *)

(** A log of grants, newest first: the time the client sent and the count. *)
Definition grants : Type := list (Z * Z).

Fixpoint granted_after (c : Z) (log : grants) : Z :=
  match log with
  | [] => 0
  | (t, n) :: log => (if c <? t then n else 0) + granted_after c log
  end.

(** Granted at times in [(lo, hi]]. *)
Fixpoint granted_in (lo hi : Z) (log : grants) : Z :=
  match log with
  | [] => 0
  | (t, n) :: log => (if (lo <? t) && (t <=? hi) then n else 0) + granted_in lo hi log
  end.

(** What a run of the script adds to the log. *)
Definition grant_of (t n : Z) (r : result (Z * Z * Z * Z) goerror) : grants :=
  match r with
  | Ok (allowed, _, _, _) => if allowed =? 1 then [(t, n)] else []
  | Err _ => []
  end.

Section Window.
Context {S : Type} `{RedisServerOk S}.

(** One step of any client or of time: the script of a [SlidingWindowAllowN] call for
    this key; time; and anything that leaves the key alone.  The script carries the
    time its client read before sending it: compared with the server's clock when
    the script runs it is at most [skew] ahead, and by how much less differs from
    call to call with the client's clock and the delay of the request, up to [lag];
    so requests may overtake each other. *)
Inductive sliding_step (key : string) (max window skew lag : Z) : S → grants → S → Prop :=
| SlElapse s d : 0 ≤ d → sliding_step key max window skew lag s [] (srv_elapse d s)
| SlAllow s t n r s' :
    srv_now s + skew - lag ≤ t ≤ srv_now s + skew → 0 < n → printable n → 0 ≤ t → printable t →
    run_script (sliding_script key (itoa max) (itoa window) (itoa t) (itoa n)) s = (r, s') →
    sliding_step key max window skew lag s (grant_of t n r) s'
| SlOther s s' :
    srv_now s ≤ srv_now s' → srv_db s' !! key = srv_db s !! key →
    sliding_step key max window skew lag s [] s'.

Inductive sliding_run (key : string) (max window skew lag : Z) (s : S) : grants → S → Prop :=
| SlNil : sliding_run key max window skew lag s [] s
| SlSnoc log s1 ev s2 :
    sliding_run key max window skew lag s log s1 → sliding_step key max window skew lag s1 ev s2 →
    sliding_run key max window skew lag s (ev ++ log) s2.

Lemma granted_after_mono c c' log :
  Forall (λ g, 0 < g.2) log → c ≤ c' → granted_after c' log ≤ granted_after c log.
Proof.
  intros Hlog Hc. induction Hlog as [|[t n] log Hn _ IH]; simpl in *; [lia|].
  destruct (Z.ltb_spec c t), (Z.ltb_spec c' t); lia.
Qed.

Lemma granted_after_none c log : Forall (λ g, g.1 ≤ c) log → granted_after c log = 0.
Proof.
  induction 1 as [|[t n] log Ht _ IH]; simpl in *; [done|]. destruct (Z.ltb_spec c t); lia.
Qed.

Lemma granted_in_after lo hi log :
  Forall (λ g, 0 < g.2) log → granted_in lo hi log ≤ granted_after lo log.
Proof.
  induction 1 as [|[t n] log Hn _ IH]; simpl in *; [lia|].
  destruct (Z.ltb_spec lo t), (Z.leb_spec t hi); simpl; lia.
Qed.

(** The sorted set [m] under the key accounts for every grant that can still be in
    a window. *)
Record sliding_inv (key : string) (max window skew : Z) (log : grants) (s : S)
    (m : gmap string Z) (x : option Z) : Prop := {
  si_at : zset_at (srv_db s) key m x;
  si_size : Z.of_nat (size m) ≤ Z.max 0 max;
  si_log : Forall (λ g, 0 < g.2) log;
  si_past : Forall (λ g, g.1 ≤ srv_now s + skew) log;
  si_members : ∀ k z, m !! k = Some z → z ∈ log.*1 ∧ printable z ∧ ∃ i r, k = member z i r;
  si_expiry : m ≠ ∅ → ∃ e, x = Some e ∧ Forall (λ g, g.1 + window ≤ e + skew) log;
  si_count c : srv_now s + skew - window ≤ c → granted_after c log ≤ Z.of_nat (size (above c m))
}.

(** Time passes and the key stays, or expires when its last window is over. *)
Lemma sliding_inv_later key max window skew log (s s' : S) m x :
  sliding_inv key max window skew log s m x → srv_now s ≤ srv_now s' →
  (srv_db s' !! key = srv_db s !! key ∨
   srv_db s' !! key = None ∧ (m ≠ ∅ → ∃ e, x = Some e ∧ e ≤ srv_now s')) →
  ∃ m' x', sliding_inv key max window skew log s' m' x'.
Proof.
  intros [Hat Hsize Hlog Hpast Hmem Hexp Hcount] Hnow Hkey.
  assert (Forall (λ g, g.1 ≤ srv_now s' + skew) log) as Hpast'
    by (eapply Forall_impl; [exact Hpast|simpl; lia]).
  destruct Hkey as [Hkey|[Hkey Hgone]].
  - exists m, x. constructor; try done; [|intros c Hc; apply Hcount; lia].
    apply zset_at_of_lookup. by rewrite Hkey, (zset_at_lookup _ _ _ _ Hat).
  - exists ∅, None. constructor; try done.
    + by apply zset_at_of_lookup.
    + rewrite map_size_empty. lia.
    + intros c Hc. etrans; [|apply Nat2Z.is_nonneg]. destruct (decide (m = ∅)) as [->|Hne].
      * specialize (Hcount c ltac:(lia)). etrans; [exact Hcount|]. pose proof (above_size c ∅).
        rewrite map_size_empty in *. lia.
      * destruct (Hexp Hne) as (e & Hx & He). destruct (Hgone Hne) as (e' & Hx' & He').
        rewrite granted_after_none; [lia|]. eapply Forall_impl; [exact He|]. simpl. intros g Hg.
        simplify_eq. lia.
Qed.

Lemma sliding_inv_elapse key max window skew log (s : S) d m x :
  0 ≤ d → sliding_inv key max window skew log s m x →
  ∃ m' x', sliding_inv key max window skew log (srv_elapse d s) m' x'.
Proof.
  intros Hd Hinv. eapply sliding_inv_later; [exact Hinv|rewrite srv_elapse_now; lia|].
  destruct (srv_db s !! key) as [e|] eqn:He.
  - destruct (srv_db (srv_elapse d s) !! key) as [e'|] eqn:He'.
    + left. apply srv_elapse_sub in He'; [congruence|done].
    + right. split; [done|]. intros Hne. pose proof (zset_at_lookup _ _ _ _ (si_at _ _ _ _ _ _ _ _ Hinv)) as Hl.
      rewrite decide_False, He in Hl by done. simplify_eq.
      destruct (si_expiry _ _ _ _ _ _ _ _ Hinv Hne) as (t & -> & _). exists t. split; [done|].
      rewrite srv_elapse_now. destruct (Z.le_gt_cases t (srv_now s + d)) as [|Hgt]; [done|].
      rewrite (srv_elapse_keeps d s key _ Hd He) in He'; [done|]. intros t' [= <-]. done.
  - left. destruct (srv_db (srv_elapse d s) !! key) as [e|] eqn:He'; [|done].
    apply srv_elapse_sub in He'; [congruence|done].
Qed.

Lemma sliding_run_script key max window t n m x (s : S) r s' :
  zset_at (srv_db s) key m x → small max → small window → 0 < window → 0 < n → printable n → printable t →
  small (Z.of_nat (size m)) → map_Forall (λ _ z, small z) m →
  run_script (sliding_script key (itoa max) (itoa window) (itoa t) (itoa n)) s = (r, s') →
  sliding_result key max window t n (srv_now s) m x (srv_db s) r (srv_db s') ∧ srv_now s' = srv_now s.
Proof.
  intros Hk Hmax Hw Hpos Hn Hpn Hpt Hsize Hscores Hr.
  destruct (lua_srand_runs s) as (s0 & Hs & Hdb0 & Hnow0). unfold run_script, mthen in Hr. rewrite Hs in Hr.
  rewrite <-Hdb0 in Hk.
  destruct (sliding_script_ends key max window t n m x s0 Hk Hmax Hw Hpos Hn Hpn Hpt Hsize Hscores)
    as (a & db' & Hruns & Hres).
  destruct (runs_result _ _ _ _ _ _ Hruns Hr) as (-> & -> & Hnow). rewrite Hdb0, Hnow0 in *. by split.
Qed.

(** Unless it is granted the time is in no member. *)
Lemma sliding_inv_fresh key max window skew log (s : S) m x t m1 :
  sliding_inv key max window skew log s m x → t ∉ log.*1 → m1 ⊆ m → fresh_time t m1.
Proof.
  intros Hinv Ht Hsub i r [z Hz]%elem_of_dom. eapply lookup_weaken in Hz; [|done].
  apply (si_members _ _ _ _ _ _ _ _ Hinv) in Hz as (Hin & _ & i' & r' & Heq).
  by apply member_inj in Heq as [-> _].
Qed.

Lemma sliding_inv_allow key max window skew lag log (s : S) m x t n r s' :
  sliding_inv key max window skew log s m x → small max → small window → 0 < window →
  srv_now s + skew - lag ≤ t ≤ srv_now s + skew → 0 < n → printable n → 0 ≤ t → printable t →
  run_script (sliding_script key (itoa max) (itoa window) (itoa t) (itoa n)) s = (r, s') →
  NoDup ((grant_of t n r ++ log).*1) →
  (∃ m' x', sliding_inv key max window skew (grant_of t n r ++ log) s' m' x') ∧
  (grant_of t n r = [] ∨ grant_of t n r = [(t, n)] ∧ n + granted_after (t + lag - window) log ≤ Z.max 0 max).
Proof.
  intros Hinv Hmax Hw Hpos Hlag Hn Hpn Ht Hpt Hr Hnd.
  pose proof Hinv as [Hat Hsize Hlog Hpast Hmem Hexp Hcount].
  assert (map_Forall (λ _ z, small z) m) as Hscores.
  { intros k z Hz. apply Hmem in Hz as (_ & Hp & _). unfold small, printable in *. lia. }
  apply (sliding_run_script _ _ _ _ _ m x) in Hr as [Hres Hnow]; [|unfold small in *; (done || lia)..].
  unfold sliding_result in Hres. set (m1 := in_window t window m) in *.
  assert (m1 ⊆ m) as Hsub by apply map_filter_subseteq.
  assert (size m1 ≤ size m)%nat as Hle by (by apply map_subseteq_size).
  assert (∀ c, srv_now s + skew - window ≤ c → granted_after c log ≤ Z.of_nat (size (above c m1))) as Hcount1.
  { intros c Hc. unfold m1, in_window. rewrite above_pruned by lia. by apply Hcount. }
  destruct (Z.leb_spec (Z.of_nat (size m1) + n) max) as [Hfit|Hfull].
  - destruct Hres as (m2 & reset & -> & Hdb & Hm2 & Hnew & Hne & _). cbn in Hnd |- *.
    apply NoDup_cons in Hnd as [Hnt _].
    destruct (Hnew (sliding_inv_fresh _ _ _ _ _ _ _ _ _ _ Hinv Hnt Hsub)) as [Hsub2 Hsize2]. split.
    + exists m2, (Some (srv_now s + window)). constructor.
      * apply zset_at_of_lookup. rewrite Hdb, decide_False by done. apply lookup_insert_eq.
      * lia.
      * by constructor.
      * rewrite Hnow. constructor; [simpl; lia|done].
      * intros k z Hz. apply Hm2 in Hz as [Hz|[-> Hmember]]; [|split_and!; [left|done|done]].
        eapply lookup_weaken, Hmem in Hz as (? & ? & ?); [|done]. split_and!; [by right|done..].
      * intros _. eexists. split; [done|]. constructor; [simpl; lia|].
        eapply Forall_impl; [exact Hpast|]. simpl. lia.
      * intros c Hc. rewrite Hnow in Hc. cbn [granted_after]. specialize (Hcount1 c ltac:(lia)).
        destruct (Z.ltb_spec c t).
        -- rewrite (above_grows c m1 m2 (Z.to_nat n)); [lia|done|lia|].
           intros k z Hz. apply Hm2 in Hz as [?|[-> _]]; [by left|by right].
        -- pose proof (above_mono c m1 m2 Hsub2). lia.
    + right. split; [done|]. specialize (Hcount1 (t + lag - window) ltac:(lia)).
      pose proof (above_size (t + lag - window) m1). lia.
  - destruct Hres as (reset & -> & Hdb & _). cbn in Hnd |- *. split; [|by left].
    exists m1, x. constructor; rewrite ?Hnow; try done; [by rewrite Hdb; apply zset_at_put|lia|..].
    + intros k z Hz. by eapply lookup_weaken, Hmem in Hz.
    + intros Hne. apply Hexp. intros ->. by apply Hne, map_filter_empty.
Qed.

(** A grant that fits at its own time fits in every interval of [len]. *)
Lemma granted_in_cons max len t n log :
  Forall (λ g, 0 < g.2) log → 0 < n →
  n + granted_after (t - len) log ≤ Z.max 0 max →
  (∀ T, granted_in (T - len) T log ≤ Z.max 0 max) →
  ∀ T, granted_in (T - len) T ((t, n) :: log) ≤ Z.max 0 max.
Proof.
  intros Hlog Hn Hfit IH T. cbn [granted_in].
  destruct (Z.ltb_spec (T - len) t), (Z.leb_spec t T); cbn [andb]; [|apply IH..].
  pose proof (granted_in_after (T - len) T log Hlog).
  pose proof (granted_after_mono (t - len) (T - len) log Hlog). lia.
Qed.

Lemma sliding_run_inv key max window skew lag (s s' : S) log :
  small max → small window → 0 < window → srv_db s !! key = None →
  sliding_run key max window skew lag s log s' → NoDup log.*1 →
  (∃ m x, sliding_inv key max window skew log s' m x) ∧
  ∀ T, granted_in (T - (window - lag)) T log ≤ Z.max 0 max.
Proof.
  intros Hmax Hw Hpos Hk. induction 1 as [|log s1 ev s2 Hrun IH Hstep]; intros Hnd.
  - split; [|simpl; lia]. exists ∅, None. constructor; try done.
    + by apply zset_at_of_lookup.
    + rewrite map_size_empty. lia.
  - destruct IH as [(m & x & Hinv) Hbound].
    { rewrite fmap_app in Hnd. by apply NoDup_app in Hnd as (_ & _ & Hnd). }
    destruct Hstep as [s1 d Hd|s1 t n r s2 Ht Hn Hpn Ht0 Hpt Hr|s1 s2 Hnow Hkey].
    + split; [|done]. by eapply sliding_inv_elapse.
    + destruct (sliding_inv_allow _ _ _ _ _ _ _ _ _ _ _ _ _ Hinv Hmax Hw Hpos Ht Hn Hpn Ht0 Hpt Hr Hnd)
        as [Hinv' [Hg|[Hg Hfit]]]; (split; [done|]); rewrite Hg; [done|].
      destruct Hinv. apply granted_in_cons; [done..| |done].
      by replace (t - (window - lag)) with (t + lag - window) by lia.
    + split; [|done]. eapply sliding_inv_later; [exact Hinv|done|by left].
Qed.
End Window.

(** ** Properties *)

(** An answered [SlidingWindowAllowN] ran its script once, with the time it had read
    before, and [Allowed] is the script's grant. *)
Lemma SlidingWindowAllowN_script {W S} `{RedisServer S} (others : S → S → Prop)
    `{Cl : RedisClient W S} `{!RedisClientOk W S others} `{CoreErrors}
    (r : RateLimiter) identifier n (w w' : W) res :
  let t := (rc_now w).1 / Millisecond in
  SlidingWindowAllowN r identifier n w = (Ok res, w') →
  ∃ s q s', others (rc_server (rc_now w).2) s ∧
    run_script (sliding_script (rateLimitKey r (identifier +:+ ":sliding")) (itoa (maxAllowed r))
      (itoa (Milliseconds (rl_window r))) (itoa t) (itoa n)) s = (Ok q, s') ∧
    grant_of t n (Ok q) = (if Allowed res then [(t, n)] else []).
Proof.
  unfold SlidingWindowAllowN, go_script, mthen, sret. destruct (rc_now w) as [now w1]. cbn [fst snd].
  destruct (rc_send _ w1) as [[[[[a rem] ttl] tot]|e] w2] eqn:Hs;
    [|intros Hf; apply (f_equal fst) in Hf; by apply rd_fail_not_ok in Hf].
  intros [= <- _]. apply rc_send_ok in Hs as (s & s' & Hs1 & Hs & _). by exists s, (a, rem, ttl, tot), s'.
Qed.



(** ** A request held up on its way *)

(** The script prunes by the time its request carries, which the client read before
    sending it: with a maximum of 2 per second, grants at 1 and 2 are pruned by a
    grant at 1002, and then a request that read its clock at 500 and was held up is
    granted too: three grants carry times of the first second. *)
Lemma delayed_request_exceeds :
  let call (t n : Z) := run_script (S := MemServer.mem) (sliding_script "k" (itoa 2) (itoa 1000) (itoa t) (itoa n)) in
  let s0 := MemServer.mkMem ∅ 1 0 in
  let s1 := (call 1 1 s0).2 in let s2 := srv_elapse 1 s1 in
  let s3 := (call 2 1 s2).2 in let s4 := srv_elapse 1000 s3 in
  let s5 := (call 1002 1 s4).2 in
  let log := grant_of 500 1 (call 500 1 s5).1 ++ grant_of 1002 1 (call 1002 1 s4).1 ++
             grant_of 2 1 (call 2 1 s2).1 ++ grant_of 1 1 (call 1 1 s0).1 in
  srv_now s5 = 1002 ∧ log.*1 = [500; 1002; 2; 1] ∧ granted_in 0 1000 log = 3.
Proof. vm_compute. done. Qed.
