(* ===== verification/Cache.v ===== *)
(** * redis/cache.go: the cache

    A Go byte slice is an [option string], [None] being nil.  Values of type [V] have
    their encoding ([Json]); the driver's byte conversion and its SCAN iterator are
    [CacheDriver].  Log output is not modelled. *)

From Stdlib Require Import ZArith Lia.
From S2P Require Import Prelude GoLib GoErrors RedisErrors RedisServer.

Open Scope go_scope.

(** What a reply's [Bytes()] makes of a string; [Scan(...).Iterator()], which sends
    the first SCAN, and the iterator's methods. *)
Class CacheDriver (W : Type) := {
  reply_bytes : string → option string;
  Iter : Type;
  scan_iterator : string → Z → M W Iter;
  iter_Next : Iter → M W (option string * Iter);
  iter_Err : Iter → option goerror
}.

(** [Bytes()] reinterprets the string's memory: a non-empty reply is its bytes; of an
    empty one it makes an empty or a nil slice. *)
Class CacheDriverOk (W : Type) `{CacheDriver W} : Prop := {
  reply_bytes_spec s : s ≠ "" → reply_bytes s = Some s;
  reply_bytes_empty : reply_bytes "" = Some "" ∨ reply_bytes "" = None
}.

Definition DefaultCacheTTL : Z := 15 * Minute.

Record Cache := mkCache {
  ca_defaultTTL : Z;
  ca_keyPrefix : string
}.

Definition CacheOption : Type := Cache → Cache.
Definition WithDefaultTTL (ttl : Z) : CacheOption := λ c, mkCache ttl (ca_keyPrefix c).
Definition WithKeyPrefix (prefix : string) : CacheOption := λ c, mkCache (ca_defaultTTL c) prefix.

Definition NewCache (opts : list CacheOption) : Cache :=
  fold_left (λ c opt, opt c) opts (mkCache DefaultCacheTTL "").

Definition prefixKey (c : Cache) (key : string) : string :=
  if decide (ca_keyPrefix c = "") then key else ca_keyPrefix c +:+ ":" +:+ key.

(** The bytes sent for a slice: nil is sent as the empty string. *)
Definition sent_bytes (value : option string) : string := default "" value.

Section Operations.
Context {W S : Type} `{Sv : RedisServer S} `{Cl : RedisClient W S} `{CoreErrors} `{Cd : CacheDriver W}.

(** [FromRedisError(err)] for a non-nil [err], as an error value. *)
Definition redis_error (err : goerror) : option goerror := option_map ERedis (FromRedisError (Some err)).

(** [Ok None] is a miss. *)
Definition Get (c : Cache) (key : string) : M W (result (option string) goerror) :=
  let! r := go_cmd (GoGet (prefixKey c key)) in
  match r with
  | Err err =>
      if IsNotFound (redis_error err) then sret (Ok None)
      else sret (rd_fail err)
  | Ok v => sret (Ok (reply_bytes v))
  end.

Definition SetWithTTL (c : Cache) (key : string) (value : option string) (ttl : Z) : M W (option goerror) :=
  let! r := go_cmd (GoSet (prefixKey c key) (sent_bytes value) ttl) in
  sret (match r with Ok _ => None | Err err => redis_error err end).

Definition Set_ (c : Cache) (key : string) (value : option string) : M W (option goerror) :=
  SetWithTTL c key value (ca_defaultTTL c).

Definition Delete (c : Cache) (keys : list string) : M W (option goerror) :=
  match keys with
  | [] => sret None
  | _ =>
      let! r := go_cmd (GoDel (map (prefixKey c) keys)) in
      sret (match r with Ok _ => None | Err err => redis_error err end)
  end.

Definition Exists (c : Cache) (key : string) : M W (result bool goerror) :=
  let! r := go_cmd (GoExists [prefixKey c key]) in
  sret (match r with Ok count => Ok (0 <? count) | Err err => rd_fail err end).

Definition GetOrSetWithTTL (c : Cache) (key : string) (ttl : Z)
    (compute : M W (result (option string) goerror)) : M W (result (option string) goerror) :=
  let! r := Get c key in
  match r with
  | Err err => sret (Err err)
  | Ok (Some value) => sret (Ok (Some value))
  | Ok None =>
      let! v := compute in
      match v with
      | Err err => sret (Err err)
      | Ok value =>
          let! _ := SetWithTTL c key value ttl in
          sret (Ok value)
      end
  end.

Definition GetOrSet (c : Cache) (key : string) (compute : M W (result (option string) goerror))
    : M W (result (option string) goerror) :=
  GetOrSetWithTTL c key (ca_defaultTTL c) compute.

(** ** JSON values; [dest] is passed in and out *)

Context {V : Type} `{Json V}.

Definition GetJSON (c : Cache) (key : string) (dest : V) : M W (result bool goerror * V) :=
  let! r := Get c key in
  match r with
  | Err err => sret (Err err, dest)
  | Ok None => sret (Ok false, dest)
  | Ok (Some data) =>
      match json_Unmarshal data dest with
      | (dest', Some err) =>
          sret (Err (ERedis (SerializationWrap "failed to unmarshal cached value" (Some err))), dest')
      | (dest', None) => sret (Ok true, dest')
      end
  end.

Definition SetJSONWithTTL (c : Cache) (key : string) (value : V) (ttl : Z) : M W (option goerror) :=
  match json_Marshal value with
  | Err err => sret (Some (ERedis (SerializationWrap "failed to marshal value for cache" (Some err))))
  | Ok data => SetWithTTL c key (Some data) ttl
  end.

Definition SetJSON (c : Cache) (key : string) (value : V) : M W (option goerror) :=
  SetJSONWithTTL c key value (ca_defaultTTL c).

Definition GetOrSetJSONWithTTL (c : Cache) (key : string) (ttl : Z) (dest : V)
    (compute : M W (result V goerror)) : M W (option goerror * V) :=
  let! g := GetJSON c key dest in
  let '(found, dest) := g in
  match found with
  | Err err => sret (Some err, dest)
  | Ok true => sret (None, dest)
  | Ok false =>
      let! v := compute in
      match v with
      | Err err => sret (Some err, dest)
      | Ok value =>
          let! _ := SetJSONWithTTL c key value ttl in
          match json_Marshal value with
          | Err err =>
              sret (Some (ERedis (SerializationWrap "failed to marshal computed value" (Some err))), dest)
          | Ok data =>
              match json_Unmarshal data dest with
              | (dest', Some err) =>
                  sret (Some (ERedis (SerializationWrap "failed to unmarshal computed value" (Some err))),
                        dest')
              | (dest', None) => sret (None, dest')
              end
          end
      end
  end.

Definition GetOrSetJSON (c : Cache) (key : string) (dest : V) (compute : M W (result V goerror))
    : M W (option goerror * V) :=
  GetOrSetJSONWithTTL c key (ca_defaultTTL c) dest compute.

(** ** Several keys *)

(** [for i, key := range keys { ... results[i] ... }]: a short reply panics. *)
Fixpoint mget_loop (keys : list string) (results : list (option string))
    (values : gmap string (option string)) : outcome (gmap string (option string)) string :=
  match keys, results with
  | [], _ => Returns values
  | _ :: _, [] => Panics "index out of range"
  | key :: keys, r :: results => mget_loop keys results (<[key := r]> values)
  end.

Definition MGet (c : Cache) (keys : list string)
    : M W (outcome (result (gmap string (option string)) goerror) string) :=
  match keys with
  | [] => sret (Returns (Ok ∅))
  | _ =>
      let! r := go_cmd (GoMGet (map (prefixKey c) keys)) in
      match r with
      | Err err => sret (Returns (rd_fail err))
      | Ok results =>
          sret (match mget_loop keys results ∅ with
                | Returns values => Returns (Ok values)
                | Panics p => Panics p
                end)
      end
  end.

(** [values] lists the map in the order the range loop visits it. *)
Definition MSetWithTTL (c : Cache) (values : list (string * option string)) (ttl : Z)
    : M W (option goerror) :=
  match values with
  | [] => sret None
  | _ =>
      let! x := rc_pipe (PMany (map (λ kv, GoSet (prefixKey c kv.1) (sent_bytes kv.2) ttl) values)) in
      sret (match x.2 with Some err => redis_error err | None => None end)
  end.

Definition MSet (c : Cache) (values : list (string * option string)) : M W (option goerror) :=
  MSetWithTTL c values (ca_defaultTTL c).

(** The scan loop of [DeleteByPattern]: [keysToDelete] and [deleted] are its
    variables; [None] when the fuel runs out before the iterator ends. *)
Fixpoint delete_loop (fuel : nat) (iter : Iter) (keysToDelete : list string) (deleted : Z)
    : M W (option (Z * option goerror * list string * Iter)) :=
  match fuel with
  | O => sret None
  | Datatypes.S fuel =>
      let! nx := iter_Next iter in
      let '(next, iter) := nx in
      match next with
      | None => sret (Some (deleted, None, keysToDelete, iter))
      | Some val =>
          let keysToDelete := keysToDelete ++ [val] in
          if 100 <=? Z.of_nat (length keysToDelete) then
            let! r := go_cmd (GoDel keysToDelete) in
            match r with
            | Err err => sret (Some (deleted, redis_error err, keysToDelete, iter))
            | Ok count => delete_loop fuel iter [] (deleted + count)
            end
          else delete_loop fuel iter keysToDelete deleted
      end
  end.

Definition DeleteByPattern (fuel : nat) (c : Cache) (pattern : string) : M W (option (Z * option goerror)) :=
  let! iter := scan_iterator (prefixKey c pattern) 100 in
  let! x := delete_loop fuel iter [] 0 in
  match x with
  | None => sret None
  | Some (deleted, Some err, _, _) => sret (Some (deleted, Some err))
  | Some (deleted, None, keysToDelete, iter) =>
      match iter_Err iter with
      | Some err => sret (Some (deleted, redis_error err))
      | None =>
          match keysToDelete with
          | [] => sret (Some (deleted, None))
          | _ =>
              let! r := go_cmd (GoDel keysToDelete) in
              match r with
              | Err err => sret (Some (deleted, redis_error err))
              | Ok count => sret (Some (deleted + count, None))
              end
          end
      end
  end.

Definition TTL (c : Cache) (key : string) : M W (result Z goerror) :=
  let! r := go_cmd (GoTTL (prefixKey c key)) in
  sret (match r with Ok ttl => Ok ttl | Err err => rd_fail err end).

Definition Expire (c : Cache) (key : string) (ttl : Z) : M W (result bool goerror) :=
  let! r := go_cmd (GoExpire (prefixKey c key) ttl) in
  sret (match r with Ok ok => Ok ok | Err err => rd_fail err end).
End Operations.

(** ** Key builder *)

Record KeyBuilder := mkKeyBuilder { kb_service : string }.

Definition NewKeyBuilder (service : string) : KeyBuilder := mkKeyBuilder service.
Definition Key (b : KeyBuilder) (entity id : string) : string :=
  kb_service b +:+ ":" +:+ entity +:+ ":" +:+ id.
Definition KeyWithParts (b : KeyBuilder) (parts : list string) : string :=
  match parts with
  | [] => kb_service b
  | _ => fold_left (λ result part, result +:+ (":" +:+ part)) parts (kb_service b)
  end.
Definition Pattern (b : KeyBuilder) (entity : string) : string := kb_service b +:+ ":" +:+ entity +:+ ":*".

(** ** Lemmas *)

(** What the others may do to a key that is not theirs: nothing until it expires. *)
Definition keeps {S} `{RedisServer S} (k : string) (s s' : S) : Prop :=
  srv_now s ≤ srv_now s' ∧
  ∀ e, srv_db s !! k = Some e → (∀ t, e_exp e = Some t → srv_now s' < t) → srv_db s' !! k = Some e.

(** Nobody adds keys. *)
Definition removes {S} `{RedisServer S} (s s' : S) : Prop :=
  ∀ k e, srv_db s' !! k = Some e → srv_db s !! k = Some e.

(** The documented guarantee of SCAN: a complete iteration returns every key that
    matches and is there from its start to its end, and iterations end.
    [scan_pending it k]: the iterator still owes [k] unless it disappears;
    [scan_left it] bounds the keys it still returns. *)
Class ScanOk (W S : Type) `{RedisServer S} `{RedisClient W S} `{CacheDriver W}
    (matches : string → string → Prop) := {
  scan_pending : Iter → string → Prop;
  scan_left : Iter → nat;
  scan_iterator_ok p n w it w' :
    scan_iterator p n w = (it, w') → removes (rc_server w) (rc_server w') ∧
    ∀ k, matches p k → srv_db (rc_server w') !! k = None ∨ scan_pending it k;
  iter_Next_Some it w v it' w' :
    iter_Next it w = ((Some v, it'), w') → removes (rc_server w) (rc_server w') ∧
    (scan_left it' < scan_left it)%nat ∧
    ∀ k, scan_pending it k → k = v ∨ scan_pending it' k ∨ srv_db (rc_server w') !! k = None;
  iter_Next_None it w it' w' :
    iter_Next it w = ((None, it'), w') → removes (rc_server w) (rc_server w') ∧
    (iter_Err it' = None → ∀ k, scan_pending it k → srv_db (rc_server w') !! k = None)
}.

Section Lemmas.
Context {W S : Type} `{RedisServerOk S} `{Cl : RedisClient W S} `{CoreErrorsOk}.

(** Only [redis.Nil] is a missing key. *)
Lemma IsNotFound_redis_error err : IsNotFound (redis_error err) = errors_Is err redis_Nil.
Proof.
  unfold redis_error, FromRedisError. destruct (errors_Is err redis_Nil).
  { cbn [option_map]. unfold IsNotFound. by rewrite rd_IsCode_ERedis. }
  repeat case_match; cbn [option_map]; unfold IsNotFound; by rewrite rd_IsCode_ERedis.
Qed.

Lemma keeps_trans k (s1 s2 s3 : S) : keeps k s1 s2 → keeps k s2 s3 → keeps k s1 s3.
Proof.
  intros [Hn1 Hk1] [Hn2 Hk2]. split; [lia|]. intros e He Ht. apply Hk2; [|done]. apply Hk1; [done|].
  intros t Hx. specialize (Ht t Hx). lia.
Qed.

Lemma removes_absent k (s s' : S) : removes s s' → srv_db s !! k = None → srv_db s' !! k = None.
Proof. intros Hr Hk. destruct (srv_db s' !! k) as [e|] eqn:He; [|done]. apply Hr in He. congruence. Qed.

Lemma redis_error_not_None err : redis_error err ≠ None.
Proof. unfold redis_error, FromRedisError. by repeat case_match. Qed.

(** A key written with a time to live, as seen at the end of the call. *)
Lemma go_SET_keeps `{!RedisClientOk W S (keeps k)} v ttl (w : W) w1 u :
  Millisecond ≤ ttl → go_cmd (GoSet k v ttl) w = (Ok u, w1) →
  ∃ exp, srv_now (rc_server w) + Milliseconds ttl ≤ exp ∧
    ∀ s, keeps k (rc_server w1) s → srv_now s < exp →
      srv_db s !! k = Some (mkEntry (RStr v) (Some exp)).
Proof.
  intros Hm Hs. apply rc_send_ok in Hs as (s & s' & [Hn1 _] & Hs & Hk2).
  destruct (runs_result _ _ _ _ _ _ (go_SET_ttl s k v ttl Hm) Hs) as (_ & Hdb & Hnow).
  exists (srv_now s + Milliseconds ttl). split; [lia|]. intros s2 Hk3 Hlt.
  assert (keeps k s' s2) as [_ Hk] by (by eapply keeps_trans).
  apply Hk; [rewrite Hdb; apply lookup_insert_eq|]. intros t [= <-]. done.
Qed.

(** Reading a key that holds a string. *)
Lemma go_GET_result `{!RedisClientOk W S (keeps k)} (w : W) r w1 v exp :
  go_cmd (GoGet k) w = (r, w1) →
  (∀ s, keeps k (rc_server w) s → srv_now s < exp → srv_db s !! k = Some (mkEntry (RStr v) (Some exp))) →
  srv_now (rc_server w1) < exp →
  r = Ok v ∨ ∃ e, r = Err e ∧ errors_Is e redis_Nil = false.
Proof.
  intros Hg Hh Hlt. destruct r as [x|e].
  - left. apply rc_send_ok in Hg as (s & s' & Hk1 & Hs & [Hn2 _]).
    assert (srv_now s' = srv_now s → srv_db s !! k = Some (mkEntry (RStr v) (Some exp))) as Hk
      by (intros; apply Hh; [done|lia]).
    destruct (srv_db s !! k) as [en|] eqn:He; [destruct (entry_cases en) as [(v' & x' & ->)|Hv]|].
    + destruct (runs_result _ _ _ _ _ _ (go_GET_str s k v' x' He) Hs) as (-> & _ & Hnow).
      specialize (Hk Hnow). congruence.
    + destruct (go_GET_other s k en He Hv) as (err & Herr & _).
      by destruct (runs_result _ _ _ _ _ _ Herr Hs).
    + by destruct (runs_result _ _ _ _ _ _ (go_GET_none s k He) Hs).
  - right. exists e. split; [done|].
    apply rc_send_err in Hg as [(s & s' & Hk1 & Hs & [Hn2 _])|[Hnil _]]; [|by apply Hnil].
    exfalso. assert (srv_now s' = srv_now s → srv_db s !! k = Some (mkEntry (RStr v) (Some exp))) as Hk
      by (intros; apply Hh; [done|lia]).
    destruct (srv_db s !! k) as [en|] eqn:He; [destruct (entry_cases en) as [(v' & x' & ->)|Hv]|].
    + by destruct (runs_result _ _ _ _ _ _ (go_GET_str s k v' x' He) Hs).
    + destruct (go_GET_other s k en He Hv) as (err & Herr & _).
      destruct (runs_result _ _ _ _ _ _ Herr Hs) as (_ & _ & Hnow). specialize (Hk Hnow). simplify_eq.
      by apply (Hv v).
    + destruct (runs_result _ _ _ _ _ _ (go_GET_none s k He) Hs) as (_ & _ & Hnow).
      specialize (Hk Hnow). congruence.
Qed.
End Lemmas.

Section ScanLemmas.
Context {W S : Type} `{RedisServerOk S} `{Cl : RedisClient W S} `{!RedisClientOk W S removes}.
Context `{CoreErrorsOk} `{CacheDriver W} {matches} `{!ScanOk W S matches}.

(** A successful deletion, seen at the end of the call. *)
Lemma go_DEL_absent ks (w : W) n w1 k :
  go_cmd (GoDel ks) w = (Ok n, w1) → k ∈ ks → srv_db (rc_server w1) !! k = None.
Proof.
  intros Hd Hin. apply rc_send_ok in Hd as (s & s' & _ & Hs & Hr).
  destruct (go_DEL_spec s ks) as [n' Hrun].
  destruct (runs_result _ _ _ _ _ _ Hrun Hs) as (_ & Hdb & _).
  apply (removes_absent k s'); [done|]. rewrite Hdb. apply map_lookup_filter_None. right.
  intros x _. by intros [].
Qed.

Lemma go_cmd_removes {A} (c : gocmd A) (w : W) r w1 k :
  (∀ s x s', srv_go c s = (x, s') → removes s s') →
  go_cmd c w = (r, w1) → srv_db (rc_server w) !! k = None → srv_db (rc_server w1) !! k = None.
Proof.
  intros Hc Hg Hk. destruct r as [a|e].
  - apply rc_send_ok in Hg as (s & s' & Hr1 & Hs & Hr2). apply Hc in Hs.
    by eapply removes_absent, removes_absent, removes_absent.
  - apply rc_send_err in Hg as [(s & s' & Hr1 & Hs & Hr2)|(_ & [Hr|(s & s' & r & Hr1 & Hs & Hr2)])].
    + apply Hc in Hs. by eapply removes_absent, removes_absent, removes_absent.
    + by eapply removes_absent.
    + apply Hc in Hs. by eapply removes_absent, removes_absent, removes_absent.
Qed.

Lemma go_DEL_removes ks (s : S) x s' : srv_go (GoDel ks) s = (x, s') → removes s s'.
Proof.
  intros Hs k e He. destruct (go_DEL_spec s ks) as [n Hrun].
  destruct (runs_result _ _ _ _ _ _ Hrun Hs) as (_ & Hdb & _). rewrite Hdb in He.
  by apply map_lookup_filter_Some in He as [He _].
Qed.

(** What the scan loop leaves: every collected or owed key is left for the final
    deletion or gone, and so stays every key that was gone. *)
Definition scan_done (pend : list string) (it : Iter) (w : W)
    (err : option goerror) (rest : list string) (it' : Iter) (w' : W) : Prop :=
  (∀ k, srv_db (rc_server w) !! k = None → srv_db (rc_server w') !! k = None) ∧
  (err = None → iter_Err it' = None → ∀ k, k ∈ pend ∨ scan_pending it k →
     k ∈ rest ∨ srv_db (rc_server w') !! k = None).

Lemma scan_done_step pend it (w : W) v it1 w1 pend2 w2 err rest it' w' :
  iter_Next it w = ((Some v, it1), w1) →
  (∀ k, srv_db (rc_server w1) !! k = None → srv_db (rc_server w2) !! k = None) →
  (∀ k, k ∈ pend ++ [v] → k ∈ pend2 ∨ srv_db (rc_server w2) !! k = None) →
  scan_done pend2 it1 w2 err rest it' w' → scan_done pend it w err rest it' w'.
Proof.
  intros Hn H12 Hp [Hkeep Hspec]. apply iter_Next_Some in Hn as (Hr & _ & Hown).
  split; [intros k Hk; apply Hkeep, H12; by eapply removes_absent|].
  assert (∀ k, k ∈ pend ++ [v] → err = None → iter_Err it' = None →
    k ∈ rest ∨ srv_db (rc_server w') !! k = None) as Hnew.
  { intros k Hk He Hi. destruct (Hp k Hk) as [Hk2|Hk2]; [|by right; apply Hkeep].
    apply Hspec; auto. }
  intros He Hi k [Hk|Hk]; [apply Hnew; set_solver|].
  destruct (Hown k Hk) as [->|[Hk1|Hk1]]; [apply Hnew; set_solver|apply Hspec; auto|].
  right. by apply Hkeep, H12.
Qed.

Lemma delete_loop_spec fuel it pend d (w : W) :
  (scan_left it < fuel)%nat →
  ∃ d' err rest it' w', delete_loop fuel it pend d w = (Some (d', err, rest, it'), w') ∧
    scan_done pend it w err rest it' w'.
Proof.
  revert it pend d w. induction fuel as [|fuel IH]; intros it pend d w Hf; [lia|].
  cbn [delete_loop]. unfold mthen at 1. destruct (iter_Next it w) as [[[v|] it1] w1] eqn:Hn.
  - pose proof (iter_Next_Some _ _ _ _ _ Hn) as (_ & Hlt & _).
    destruct (100 <=? Z.of_nat (length (pend ++ [v]))).
    + unfold mthen at 1. destruct (go_cmd (GoDel (pend ++ [v])) w1) as [[n|e] w2] eqn:Hd.
      * destruct (IH it1 [] (d + n) w2) as (d' & err & rest & it' & w' & Heq & Hs); [lia|].
        rewrite Heq. exists d', err, rest, it', w'. split; [done|]. eapply scan_done_step; [done|..|done].
        { intros k Hk. by eapply go_cmd_removes; [apply go_DEL_removes|..]. }
        intros k Hk. right. by eapply go_DEL_absent.
      * eexists _, _, _, _, _. split; [reflexivity|].
        split; [|by intros He; apply redis_error_not_None in He].
        intros k Hk. eapply go_cmd_removes; [apply go_DEL_removes|done|].
        apply iter_Next_Some in Hn as (Hr & _). by eapply removes_absent.
    + destruct (IH it1 (pend ++ [v]) d w1) as (d' & err & rest & it' & w' & Heq & Hs); [lia|].
      rewrite Heq. exists d', err, rest, it', w'. split; [done|]. eapply scan_done_step; eauto.
  - apply iter_Next_None in Hn as [Hr Hend]. exists d, None, pend, it1, w1. split; [done|].
    split; [intros k Hk; by eapply removes_absent|]. intros _ Hi k [Hk|Hk]; auto.
Qed.
End ScanLemmas.

(** ** A concrete driver *)

(** Patterns with [*] and [?]. *)
Fixpoint glob (p : string) : string → bool :=
  match p with
  | EmptyString => λ s, match s with EmptyString => true | _ => false end
  | String a p =>
      if decide (a = "*"%char) then
        fix any s := glob p s || match s with EmptyString => false | String _ r => any r end
      else λ s,
        match s with
        | EmptyString => false
        | String b r => bool_decide (a = "?"%char ∨ a = b) && glob p r
        end
  end.

(** On the in-memory server; a scan takes the keys it returns when it starts. *)
Module MemDriver.
#[global] Instance driver : CacheDriver MemServer.world := {
  reply_bytes s := if decide (s = "") then None else Some s;
  Iter := list string;
  scan_iterator p _ w :=
    (filter (λ k, glob p k = true) (map_to_list (srv_db (rc_server w))).*1, w);
  iter_Next it w := (match it with [] => (None, []) | k :: r => (Some k, r) end, w);
  iter_Err _ := None
}.

#[global] Instance driver_ok : CacheDriverOk MemServer.world.
Proof. constructor; simpl; [|by right]. intros s Hs. by destruct (decide (s = "")). Qed.

Lemma client_keeps k : RedisClientOk MemServer.world MemServer.mem (keeps k).
Proof.
  apply MemServer.client_ok.
  - intros s. split; [lia|auto].
  - intros s d Hd. split; [rewrite srv_elapse_now; lia|]. intros e He Ht.
    apply srv_elapse_keeps; [done..|]. rewrite srv_elapse_now in Ht. done.
Qed.

Lemma client_removes : RedisClientOk MemServer.world MemServer.mem removes.
Proof.
  apply MemServer.client_ok.
  - intros s k e He. exact He.
  - intros s d Hd k e He. by eapply srv_elapse_sub.
Qed.

#[global] Program Instance scan_ok :
    ScanOk MemServer.world MemServer.mem (λ p k, glob p k = true) := {
  scan_pending it k := k ∈ it;
  scan_left it := length it
}.
Next Obligation.
  intros p n w it w' [= <- <-]. split; [by intros k e He|]. intros k Hk.
  destruct (srv_db (rc_server w) !! k) as [e|] eqn:He; [right|by left].
  apply list_elem_of_filter. split; [done|]. apply list_elem_of_fmap.
  exists (k, e). split; [done|]. by apply elem_of_map_to_list.
Qed.
Next Obligation.
  intros it w v it' w' Hn. destruct it as [|x it]; [done|]. injection Hn as <- <- <-.
  split; [by intros k e He|]. split; [simpl; lia|]. intros k Hk. set_solver.
Qed.
Next Obligation.
  intros it w it' w' Hn. destruct it as [|x it]; [|done]. injection Hn as <- <-.
  split; [by intros k e He|]. intros _ k Hk. by apply not_elem_of_nil in Hk.
Qed.
End MemDriver.

(** ** Properties *)

(** C27: a value stored with a time to live is read back: if [SetWithTTL] returned nil
    and a later [Get] of the same key ends, without an error, before the time to
    live has run out, it returns the stored bytes, whatever the other clients do to
    other keys; only an empty (or nil) value may come back as nil, which [Get]
    documents as a miss. *)
Theorem Cache_set_get {W S} `{RedisServerOk S} (c : Cache) key
    `{Cl : RedisClient W S} `{!RedisClientOk W S (keeps (prefixKey c key))} `{CoreErrorsOk}
    `{CacheDriverOk W} value ttl (w w1 w2 w3 : W) r :
  Millisecond ≤ ttl →
  SetWithTTL c key value ttl w = (None, w1) →
  keeps (prefixKey c key) (rc_server w1) (rc_server w2) →
  Get c key w2 = (Ok r, w3) →
  srv_now (rc_server w3) < srv_now (rc_server w) + Milliseconds ttl →
  r = Some (sent_bytes value) ∨ sent_bytes value = "" ∧ r = None.
Proof.
  intros Hm Hset Hk Hget Hlt. unfold SetWithTTL, mthen, sret in Hset.
  destruct (go_cmd _ w) as [[u|e] w1'] eqn:Hs; [|by apply (f_equal fst) in Hset; apply redis_error_not_None in Hset].
  injection Hset as ->. destruct (go_SET_keeps _ _ _ _ _ Hm Hs) as (exp & Hexp & Hh).
  unfold Get, mthen, sret in Hget. destruct (go_cmd _ w2) as [x w3'] eqn:Hg.
  assert (w3' = w3) as ->.
  { destruct x as [?|e]; [congruence|]. destruct (IsNotFound (redis_error e)); congruence. }
  destruct (go_GET_result _ _ _ (sent_bytes value) exp Hg) as [->|(e & -> & He)].
  - intros s Hks Hs'. apply Hh; [by eapply keeps_trans|done].
  - lia.
  - injection Hget as <-. destruct (decide (sent_bytes value = "")) as [Hv|Hv].
    + rewrite Hv. destruct (reply_bytes_empty (W := W)) as [->| ->]; [by left|by right].
    + left. by apply reply_bytes_spec.
  - rewrite IsNotFound_redis_error, He in Hget.
    apply (f_equal fst) in Hget. by apply rd_fail_not_ok in Hget.
Qed.

Lemma Cache_set_get_witness :
  let c := NewCache [WithKeyPrefix "p"] in
  let w1 := (SetWithTTL c "k" (Some "v") Minute MemServer.start).2 in
  let run := Get c "k" w1 in
  run.1 = Ok (Some "v") ∧ ∀ r, run.1 = Ok r → r = Some "v".
Proof.
  intros c w1 run. split; [vm_compute; reflexivity|]. intros r Hr.
  pose proof (MemDriver.client_keeps (prefixKey c "k")) as Hcl.
  destruct (Cache_set_get c "k" (Some "v") Minute MemServer.start w1 w1 run.2 r) as [Heq|[Hv _]].
  - vm_compute. discriminate.
  - vm_compute. reflexivity.
  - split; [apply Z.le_refl|]. intros e He _. exact He.
  - rewrite <-Hr. apply surjective_pairing.
  - vm_compute. reflexivity.
  - exact Heq.
  - vm_compute in Hv. discriminate.
Defined.

(** With a driver that makes a nil slice of an empty reply a stored empty value reads
    as a miss, although the key exists, and [GetOrSet] computes it again. *)
Lemma empty_value_reads_as_miss :
  let c := NewCache [] in
  let w1 := (SetWithTTL c "k" (Some "") Minute MemServer.start).2 in
  (Get c "k" w1).1 = Ok None ∧ (Exists c "k" w1).1 = Ok true ∧
  (GetOrSetWithTTL c "k" Minute (sret (Ok (Some "new"))) w1).1 = Ok (Some "new").
Proof. vm_compute. done. Qed.

(** C30: [DeleteByPattern] ends (fuel above the number of keys its scan returns is
    enough) and, when it reports no error and nobody else adds keys meanwhile, no
    key that matches the prefixed pattern is left on the server: full batches of
    100 during the scan and the rest after it, none lost between them. *)
Theorem DeleteByPattern_removes {W S} `{RedisServerOk S}
    `{Cl : RedisClient W S} `{!RedisClientOk W S removes} `{CoreErrorsOk}
    `{CacheDriver W} {matches} `{!ScanOk W S matches} (c : Cache) pattern fuel (w : W) :
  (scan_left (scan_iterator (prefixKey c pattern) 100 w).1 < fuel)%nat →
  ∃ deleted err w', DeleteByPattern fuel c pattern w = (Some (deleted, err), w') ∧
    (err = None → ∀ k, matches (prefixKey c pattern) k → srv_db (rc_server w') !! k = None).
Proof.
  unfold DeleteByPattern, mthen at 1. destruct (scan_iterator _ 100 w) as [it0 w0] eqn:Hi. simpl. intros Hf.
  apply scan_iterator_ok in Hi as [_ Hall].
  destruct (delete_loop_spec fuel it0 [] 0 w0 Hf) as (d & err & rest & it & w1 & Heq & Hkeep & Hspec).
  assert (err = None → iter_Err it = None → ∀ k, matches (prefixKey c pattern) k →
    k ∈ rest ∨ srv_db (rc_server w1) !! k = None) as Hleft.
  { intros He Hi k Hk. destruct (Hall k Hk) as [Hn|Hp]; [right; auto|auto]. }
  unfold mthen at 1. rewrite Heq. destruct err as [err|].
  { exists d, (Some err), w1. by split. }
  destruct (iter_Err it) as [e|].
  { exists d, (redis_error e), w1. split; [done|]. intros He. by apply redis_error_not_None in He. }
  destruct rest as [|x rest].
  { exists d, None, w1. split; [done|]. intros _ k Hk. destruct (Hleft eq_refl eq_refl k Hk); set_solver. }
  unfold mthen. destruct (go_cmd (GoDel (x :: rest)) w1) as [[n|e] w2] eqn:Hd.
  - exists (d + n), None, w2. split; [done|]. intros _ k Hk.
    destruct (Hleft eq_refl eq_refl k Hk) as [Hin|Hg]; [by eapply go_DEL_absent|].
    by eapply go_cmd_removes; [apply go_DEL_removes|..].
  - exists d, (redis_error e), w2. split; [done|]. intros He. by apply redis_error_not_None in He.
Qed.

Lemma DeleteByPattern_removes_witness :
  let c := NewCache [WithKeyPrefix "p"] in
  let v := mkEntry (RStr "v") None in
  let w := MemServer.mkWorld
    (MemServer.mkMem (<["p:k1" := v]> (<["p:k2" := v]> {[ "q:k1" := v ]})) 0 0) 0 in
  let run := DeleteByPattern 3 c "k*" w in
  run.1 = Some (2, None) ∧ srv_db (rc_server run.2) !! "q:k1" = Some v ∧
  srv_db (rc_server run.2) !! "p:k1" = None.
Proof.
  intros c v w run. split; [vm_compute; reflexivity|]. split; [vm_compute; reflexivity|].
  pose proof MemDriver.client_removes.
  destruct (DeleteByPattern_removes c "k*" 3 w) as (d & err & w' & Hr & Hspec).
  - vm_compute. repeat constructor.
  - assert (run.1 = Some (d, err)) as H1 by (unfold run; rewrite Hr; reflexivity).
    assert (run.2 = w') as -> by (unfold run; rewrite Hr; reflexivity).
    apply Hspec; [|reflexivity].
    assert (run.1 = Some (2, None)) as H2 by (vm_compute; reflexivity). rewrite H2 in H1.
    injection H1 as _ <-. reflexivity.
Defined.
