(* ===== verification/RateReset.v ===== *)
(** * redis/ratelimit.go: what [Reset] gives back

    [Reset] deletes the fixed-window counter and the sliding-window set of an
    identifier.  While nobody else adds keys the identifier then has its whole
    quota again. *)

From Stdlib Require Import ZArith Lia.
From S2P Require Import Prelude GoLib GoErrors RedisErrors RedisServer RateLimit.
From S2P Require Cache.

Open Scope go_scope.

Abbreviation removes := Cache.removes.

Section Deletes.
Context {S : Type} `{RedisServerOk S}.

Lemma removes_trans (s1 s2 s3 : S) : removes s1 s2 → removes s2 s3 → removes s1 s3.
Proof. intros H12 H23 k e He. by apply H12, H23. Qed.

(** DEL leaves none of its keys. *)
Lemma go_DEL_gone ks (s : S) r s' k :
  srv_go (GoDel ks) s = (r, s') → k ∈ ks → srv_db s' !! k = None.
Proof.
  intros Hdel Hk. destruct (go_DEL_spec s ks) as [n Hrun].
  destruct (runs_result _ _ _ _ _ _ Hrun Hdel) as (_ & -> & _).
  apply map_lookup_filter_None. right. intros e _ Hno. by apply Hno.
Qed.

Lemma pipe_DEL_DEL a b (s : S) x s' :
  pipe_runs removes (PCons (GoDel [a]) (PCons (GoDel [b]) PNil)) s x s' →
  srv_db s' !! a = None ∧ srv_db s' !! b = None.
Proof.
  intros (s1 & s2 & _ & Ha & s3 & s4 & Hr1 & Hb & Hr3). split.
  - apply (Cache.removes_absent a s2); [|by eapply go_DEL_gone, list_elem_of_singleton].
    eapply removes_trans, removes_trans; [exact Hr1| |exact Hr3]. by eapply Cache.go_DEL_removes.
  - apply (Cache.removes_absent b s4); [done|]. by eapply go_DEL_gone, list_elem_of_singleton.
Qed.
End Deletes.

(** The decision on an absent counter, and on one that expires meanwhile. *)
Lemma AllowN_absent {W S} `{RedisServerOk S}
    `{Cl : RedisClient W S} `{!RedisClientOk W S removes} `{CoreErrorsOk}
    (r : RateLimiter) identifier n (w : W) w' res :
  small (maxAllowed r) → small (Milliseconds (rl_window r)) → small n → 0 < Milliseconds (rl_window r) →
  srv_db (rc_server w) !! rateLimitKey r identifier = None →
  AllowN r identifier n w = (Ok res, w') →
  Allowed res = (n <=? maxAllowed r) ∧ Total res = maxAllowed r ∧
  Remaining res = maxAllowed r - (if Allowed res then n else 0).
Proof.
  intros Hmax Hw Hn Hpos Hk Hallow.
  destruct (AllowN_decides removes r identifier n w res w' Hmax Hw Hn Hpos Hallow) as (s & Hs & Hdec).
  destruct (Hdec 0 None) as (Ha & Ht & Hr); [|done|].
  - split; [by apply (Cache.removes_absent _ (rc_server w))|done].
  - split_and!; [done..|]. rewrite Hr. lia.
Qed.

(** ** Properties *)

(** C22: [Reset] restores the quota: when it returns nil and nobody else adds keys,
    neither window of the identifier has any state left, and a following [AllowN]
    that gets an answer is granted exactly when its [n] is within
    [maxReqs + burst], which it then leaves diminished by [n]. *)
Theorem Reset_restores_quota {W S} `{RedisServerOk S}
    `{Cl : RedisClient W S} `{!RedisClientOk W S removes} `{CoreErrorsOk}
    (r : RateLimiter) identifier n (w w1 w2 w3 : W) res :
  small (maxAllowed r) → small (Milliseconds (rl_window r)) → small n → 0 < Milliseconds (rl_window r) →
  Reset r identifier w = (None, w1) →
  removes (rc_server w1) (rc_server w2) →
  AllowN r identifier n w2 = (Ok res, w3) →
  srv_db (rc_server w1) !! rateLimitKey r identifier = None ∧
  srv_db (rc_server w1) !! rateLimitKey r (identifier +:+ ":sliding") = None ∧
  Allowed res = (n <=? maxAllowed r) ∧ Total res = maxAllowed r ∧
  Remaining res = maxAllowed r - (if Allowed res then n else 0).
Proof.
  intros Hmax Hw Hn Hpos Hreset Hrem Hallow.
  assert (srv_db (rc_server w1) !! rateLimitKey r identifier = None ∧
          srv_db (rc_server w1) !! rateLimitKey r (identifier +:+ ":sliding") = None) as [Ha Hb].
  { revert Hreset. unfold Reset, mthen, sret. destruct (rc_pipe _ w) as [[x [e|]] w1'] eqn:Hp; intros Hf.
    - apply (f_equal fst) in Hf. by apply Cache.redis_error_not_None in Hf.
    - injection Hf as ->. apply rc_pipe_ok in Hp as [_ Hruns]. by eapply pipe_DEL_DEL. }
  split_and!; [done..| | |];
    destruct (AllowN_absent r identifier n w2 w3 res) as (? & ? & ?); try done;
    by apply (Cache.removes_absent _ (rc_server w1)).
Qed.

(** The quota of 2 is used up, reset, and granted again. *)
Lemma Reset_restores_quota_witness :
  let r := NewRateLimiter [WithRateLimitMax 2] in
  let w := (AllowN r "u" 2 MemServer.start).2 in
  let w1 := (Reset r "u" w).2 in
  rmap Allowed (AllowN r "u" 1 w).1 = Ok false ∧ (Reset r "u" w).1 = None ∧
  ∃ res, (AllowN r "u" 2 w1).1 = Ok res ∧ Allowed res = true ∧ Remaining res = 0.
Proof.
  intros r w w1. split; [vm_compute; reflexivity|].
  assert ((Reset r "u" w).1 = None) as Hreset by (vm_compute; reflexivity). split; [exact Hreset|].
  assert (∃ res, (AllowN r "u" 2 w1).1 = Ok res) as [res Hres] by (eexists; vm_compute; reflexivity).
  exists res. split; [exact Hres|]. pose proof Cache.MemDriver.client_removes.
  destruct (Reset_restores_quota r "u" 2 w w1 w1 (AllowN r "u" 2 w1).2 res) as (_ & _ & Ha & _ & Hrem).
  1-3: vm_compute; discriminate.
  - reflexivity.
  - rewrite <-Hreset. apply surjective_pairing.
  - intros k e He. exact He.
  - rewrite <-Hres. apply surjective_pairing.
  - rewrite Hrem, Ha. split; reflexivity.
Defined.
