(* ===== verification/CacheValues.v ===== *)
(** * redis/cache.go: computing on a miss, and several keys at once

    [GetOrSet] against a key that is alive, and the round trip of [MSet] and
    [MGet], whatever the other clients do to other keys. *)

From Stdlib Require Import ZArith Lia.
From S2P Require Import Prelude GoLib GoErrors RedisErrors RedisServer Cache.

Open Scope go_scope.

Lemma prefixKey_inj c k k' : prefixKey c k = prefixKey c k' → k = k'.
Proof.
  unfold prefixKey. case_decide; [done|]. intros Heq.
  apply string_app_inj_l in Heq as [_ Heq]; [|done]. by apply string_app_inj_l in Heq as [_ Heq].
Qed.

(** The keys of a [KeyBuilder] are not injective in their parts. *)
Lemma Key_ambiguous b : Key b "a:b" "c" = Key b "a" "b:c".
Proof. done. Qed.

(** ** The loop of [MGet] *)

Lemma mget_loop_spec (f : string → option string) keys values :
  ∃ m, mget_loop keys (map f keys) values = Returns m ∧
    ∀ k, m !! k = if decide (k ∈ keys) then Some (f k) else values !! k.
Proof.
  revert values. induction keys as [|key keys IH]; intros values; cbn [mget_loop map].
  { exists values. split; [done|]. intros k. by rewrite decide_False by apply not_elem_of_nil. }
  destruct (IH (<[key := f key]> values)) as (m & Hm & Hl). exists m. split; [done|]. intros k. rewrite Hl.
  destruct (decide (k ∈ keys)) as [Hin|Hni], (decide (k ∈ key :: keys)) as [Hin'|Hni']; [done|set_solver| |].
  - assert (k = key) as -> by set_solver. apply lookup_insert_eq.
  - apply lookup_insert_ne. set_solver.
Qed.

(** ** The pipeline of [MSet] *)

Section Pipeline.
Context {S : Type} `{RedisServerOk S}.
Context (c : Cache) (ttl : Z).

Definition set_cmd (kv : string * option string) : gocmd () := GoSet (prefixKey c kv.1) (sent_bytes kv.2) ttl.

(** The other clients leave these keys alone until they expire. *)
Definition keeps_all (keys : list string) (s s' : S) : Prop := ∀ k, k ∈ keys → keeps (prefixKey c k) s s'.

Lemma set_cmds_keep keys values k (s : S) x s' :
  k ∈ keys → k ∉ values.*1 → pipe_runs (keeps_all keys) (PMany (map set_cmd values)) s x s' →
  keeps (prefixKey c k) s s'.
Proof.
  intros Hk. revert s x. induction values as [|kv values IH]; intros s [|r x] Hno; try done.
  { intros Hr. by apply Hr. }
  intros (s1 & s2 & H1 & Hset & Hrest). rewrite fmap_cons in Hno. apply not_elem_of_cons in Hno as [Hne Hno].
  apply (keeps_trans _ s s1); [by apply H1|]. apply (keeps_trans _ s1 s2); [|by eapply IH].
  split; [by rewrite (go_clock _ _ _ _ Hset)|]. intros e He _. rewrite (go_frame _ _ _ _ _ Hset); [done|].
  simpl. rewrite list_elem_of_singleton. intros Heq. by apply prefixKey_inj in Heq.
Qed.

Lemma set_cmds_store keys values k v (s : S) x s' :
  Millisecond ≤ ttl → NoDup values.*1 → (∀ k, k ∈ values.*1 → k ∈ keys) → (k, v) ∈ values →
  pipe_runs (keeps_all keys) (PMany (map set_cmd values)) s x s' →
  ∃ exp, srv_now s + Milliseconds ttl ≤ exp ∧
    ∀ s2, keeps (prefixKey c k) s' s2 → srv_now s2 < exp →
      srv_db s2 !! prefixKey c k = Some (mkEntry (RStr (sent_bytes v)) (Some exp)).
Proof.
  intros Hm. revert s x. induction values as [|kv values IH]; intros s [|r x] Hnd Hkeys Hin; try done.
  { by apply not_elem_of_nil in Hin. }
  intros (s1 & s2 & H1 & Hset & Hrest). rewrite fmap_cons in *. apply NoDup_cons in Hnd as [Hno Hnd].
  assert (k ∈ keys) as Hk.
  { apply Hkeys. change k with (k, v).1. rewrite <-fmap_cons. by apply list_elem_of_fmap_2. }
  destruct (H1 k Hk) as [Hn1 _]. apply elem_of_cons in Hin as [<-|Hin].
  - destruct (runs_result _ _ _ _ _ _ (go_SET_ttl s1 _ _ ttl Hm) Hset) as (_ & Hdb & Hnow).
    exists (srv_now s1 + Milliseconds ttl). split; [lia|]. intros s3 H3 Hlt.
    apply (set_cmds_keep keys _ k) in Hrest; [|done..].
    destruct (keeps_trans _ _ _ _ Hrest H3) as [_ Hkeep]. apply Hkeep.
    + rewrite Hdb. apply lookup_insert_eq.
    + by intros t [= <-].
  - destruct (IH s2 x) as (exp & Hexp & Hh); [done|set_solver|done..|].
    exists exp. split; [|done]. rewrite (go_clock _ _ _ _ Hset) in Hexp. lia.
Qed.
End Pipeline.

(** ** Properties *)

(** C28: [MSet] and [MGet] are a round trip: after [MSetWithTTL] of a map with
    distinct keys returned nil, an [MGet] of its keys that answers before the time
    to live has run out finds every value (a nil slice as an empty one), whatever
    the other clients do to other keys; the lookup loop never runs out of
    replies. *)
Theorem MSet_then_MGet {W S} `{RedisServerOk S} `{Cl : RedisClient W S} `{CoreErrorsOk} (c : Cache)
    values ttl (w w1 w2 w3 : W) r :
  RedisClientOk W S (keeps_all c values.*1) →
  Millisecond ≤ ttl → NoDup values.*1 →
  MSetWithTTL c values ttl w = (None, w1) → keeps_all c values.*1 (rc_server w1) (rc_server w2) →
  MGet c values.*1 w2 = (r, w3) → srv_now (rc_server w3) < srv_now (rc_server w) + Milliseconds ttl →
  (∃ m, r = Returns (Ok m) ∧ ∀ k v, (k, v) ∈ values → m !! k = Some (Some (sent_bytes v))) ∨
  (∃ e, r = Returns (Err e)).
Proof.
  intros Hcl Hm Hnd Hset H12 Hget Hlt. destruct values as [|kv values].
  { left. exists ∅. unfold MGet, sret in Hget. simpl in Hget. injection Hget as <- _. split; [done|].
    by intros k v ?%not_elem_of_nil. }
  unfold MSetWithTTL, mthen, sret in Hset. set (l := kv :: values) in *.
  change (map _ l) with (map (set_cmd c ttl) l) in Hset.
  destruct (rc_pipe (PMany (map (set_cmd c ttl) l)) w) as [[x [e|]] w1'] eqn:Hp; cbn [snd] in Hset;
    [by apply (f_equal fst), redis_error_not_None in Hset|].
  injection Hset as ->. apply rc_pipe_ok in Hp as [_ Hruns].
  unfold MGet, mthen, sret in Hget. change (l.*1) with (kv.1 :: values.*1) in Hget at 1. cbv beta iota in Hget.
  destruct (go_cmd (GoMGet _) w2) as [[results|e] w3'] eqn:Hg.
  2: { right. injection Hget as <- _. destruct (rd_fail e) as [y|e'] eqn:He; [by apply rd_fail_not_ok in He|eauto]. }
  left. apply rc_send_ok in Hg as (s & s' & H2s & Hg & Hs3).
  destruct (runs_result _ _ _ _ _ _ (go_MGET_spec s _) Hg) as (Hres & _ & Hnow). apply Ok_inj in Hres as ->.
  rewrite map_map in Hget. change (kv.1 :: values.*1) with l.*1 in *.
  destruct (mget_loop_spec (λ k, str_at (srv_db s) (prefixKey c k)) l.*1 ∅) as (m & Hloop & Hl).
  rewrite Hloop in Hget. injection Hget as <- ->. exists m. split; [done|]. intros k v Hin.
  assert (k ∈ l.*1) as Hk by (change k with (k, v).1; by apply list_elem_of_fmap_2).
  destruct (set_cmds_store c ttl l.*1 l k v _ _ _ Hm Hnd (λ k H, H) Hin Hruns) as (exp & Hexp & Hh).
  rewrite Hl, decide_True by done. unfold str_at. rewrite (Hh s); [done|..].
  - eapply keeps_trans; [by apply H12|by apply H2s].
  - destruct (Hs3 k Hk) as [? _]. lia.
Qed.

Lemma MSet_then_MGet_witness :
  let c := NewCache [WithKeyPrefix "p"] in
  let values := [("a", Some "1"); ("b", None); ("c", Some "3")] in
  let w1 := (MSetWithTTL c values Minute MemServer.start).2 in
  let run := MGet c values.*1 w1 in
  ∃ m, run.1 = Returns (Ok m) ∧ m !! "c" = Some (Some "3") ∧ m !! "b" = Some (Some "").
Proof.
  intros c values w1 run.
  assert (RedisClientOk MemServer.world MemServer.mem (keeps_all c values.*1)) as Hcl.
  { apply MemServer.client_ok.
    - intros s k _. split; [lia|auto].
    - intros s d Hd k _. split; [rewrite srv_elapse_now; lia|]. intros e He Ht.
      apply srv_elapse_keeps; [done..|]. rewrite srv_elapse_now in Ht. done. }
  destruct run.1 as [[m|e]|p] eqn:Hrun; [|vm_compute in Hrun; discriminate..].
  exists m. split; [reflexivity|].
  destruct (MSet_then_MGet c values Minute MemServer.start w1 w1 run.2 run.1 Hcl) as [(m' & Hr & Hm)|[e He]].
  - vm_compute. discriminate.
  - apply (bool_decide_unpack (NoDup values.*1)). vm_compute. exact I.
  - vm_compute. reflexivity.
  - intros k _. split; [apply Z.le_refl|]. intros e He _. exact He.
  - apply surjective_pairing.
  - vm_compute. reflexivity.
  - rewrite Hrun in Hr. injection Hr as <-. split; apply (Hm _ (Some "3")) || apply (Hm _ None); set_solver.
  - rewrite Hrun in He. discriminate.
Defined.


