(* ===== verification/Session.v ===== *)
(** * redis/session.go: the session store

    A [Session]'s [Data] is of a type [any] the caller chooses; [encoding/json] of
    sessions is the parameter [Json].  Times are nanoseconds.  The clean-up
    goroutines of [ListByUserID] and [Count] are returned as a value (the index key
    and the ids to remove) and run by [cleanup].  Log output is not modelled. *)

From Stdlib Require Import ZArith Lia.
From S2P Require Import Prelude GoLib GoErrors RedisErrors RedisServer Cache.

Open Scope go_scope.

Definition DefaultSessionTTL : Z := 30 * 24 * Hour.

Record Session (any : Type) := mkSession {
  ID : string;
  UserID : string;
  DeviceID : string;
  DeviceInfo : string;
  IPAddress : string;
  CreatedAt : Z;
  LastActive : Z;
  ExpiresAt : Z;
  Data : any
}.
Arguments mkSession {any}.
Arguments ID {any}.
Arguments UserID {any}.
Arguments DeviceID {any}.
Arguments DeviceInfo {any}.
Arguments IPAddress {any}.
Arguments CreatedAt {any}.
Arguments LastActive {any}.
Arguments ExpiresAt {any}.
Arguments Data {any}.

Record SessionStore := mkSessionStore {
  ss_keyPrefix : string;
  ss_defaultTTL : Z
}.

Definition SessionStoreOption : Type := SessionStore → SessionStore.
Definition WithSessionKeyPrefix (prefix : string) : SessionStoreOption :=
  λ s, mkSessionStore prefix (ss_defaultTTL s).
Definition WithSessionDefaultTTL (ttl : Z) : SessionStoreOption :=
  λ s, mkSessionStore (ss_keyPrefix s) ttl.

Definition NewSessionStore (opts : list SessionStoreOption) : SessionStore :=
  fold_left (λ s opt, opt s) opts (mkSessionStore "session" DefaultSessionTTL).

Definition sessionKey (s : SessionStore) (sessionID : string) : string :=
  ss_keyPrefix s +:+ ":" +:+ sessionID.
Definition userSessionsKey (s : SessionStore) (userID : string) : string :=
  ss_keyPrefix s +:+ ":user:sessions:" +:+ userID.

(** Options are functions on the session under construction. *)
Definition SessionCreateOption (any : Type) : Type := Session any → Session any.

Definition WithDeviceID {any} (deviceID : string) : SessionCreateOption any := λ s,
  mkSession (ID s) (UserID s) deviceID (DeviceInfo s) (IPAddress s) (CreatedAt s) (LastActive s)
    (ExpiresAt s) (Data s).
Definition WithDeviceInfo {any} (deviceInfo : string) : SessionCreateOption any := λ s,
  mkSession (ID s) (UserID s) (DeviceID s) deviceInfo (IPAddress s) (CreatedAt s) (LastActive s)
    (ExpiresAt s) (Data s).
Definition WithIPAddress {any} (ip : string) : SessionCreateOption any := λ s,
  mkSession (ID s) (UserID s) (DeviceID s) (DeviceInfo s) ip (CreatedAt s) (LastActive s)
    (ExpiresAt s) (Data s).
Definition WithSessionData {any} (data : any) : SessionCreateOption any := λ s,
  mkSession (ID s) (UserID s) (DeviceID s) (DeviceInfo s) (IPAddress s) (CreatedAt s) (LastActive s)
    (ExpiresAt s) data.

Definition set_LastActive {any} (t : Z) (s : Session any) : Session any :=
  mkSession (ID s) (UserID s) (DeviceID s) (DeviceInfo s) (IPAddress s) (CreatedAt s) t
    (ExpiresAt s) (Data s).
Definition set_ExpiresAt {any} (t : Z) (s : Session any) : Session any :=
  mkSession (ID s) (UserID s) (DeviceID s) (DeviceInfo s) (IPAddress s) (CreatedAt s) (LastActive s)
    t (Data s).

Section Operations.
Context {W S : Type} `{Sv : RedisServer S} `{Cl : RedisClient W S} `{CoreErrors}.
Context {any : Type} (nil_any : any) `{Js : Json (Session any)}.

(** [var session Session]. *)
Definition zero_session : Session any := mkSession "" "" "" "" "" 0 0 0 nil_any.

Definition generateSessionID : M W (result string goerror) :=
  let! b := rc_rand_Read 32 in
  sret (match b with
        | Ok b => Ok (hex_EncodeToString b)
        | Err err => Err (EForeign ("failed to generate secure session ID: " +:+ Error_text err) [])
        end).

Definition CreateWithTTL (s : SessionStore) (userID : string) (ttl : Z)
    (opts : list (SessionCreateOption any)) : M W (result (Session any) goerror) :=
  if ttl <=? 0 then sret (Err (EForeign "invalid TTL: must be greater than zero" []))
  else
    let! id := generateSessionID in
    match id with
    | Err err => sret (Err err)
    | Ok sessionID =>
        let! now := rc_now in
        let session := fold_left (λ sess opt, opt sess) opts
          (mkSession sessionID userID "" "" "" now now (now + ttl) nil_any) in
        match json_Marshal session with
        | Err err => sret (Err (ERedis (SerializationWrap "failed to marshal session" (Some err))))
        | Ok data =>
            let indexKey := userSessionsKey s userID in
            let! cur := go_cmd (GoTTL indexKey) in
            match cur with
            | Err err => sret (rd_fail err)
            | Ok currentTTL =>
                let indexTTL := if (0 <? currentTTL) && (ttl <? currentTTL) then currentTTL else ttl in
                let! x := rc_pipe (PCons (GoSet (sessionKey s (ID session)) data ttl)
                                  (PCons (GoSAdd indexKey (ID session))
                                  (PCons (GoExpire indexKey indexTTL) PNil))) in
                sret (match x.2 with Some err => rd_fail err | None => Ok session end)
            end
        end
    end.

Definition Create (s : SessionStore) (userID : string) (opts : list (SessionCreateOption any))
    : M W (result (Session any) goerror) :=
  CreateWithTTL s userID (ss_defaultTTL s) opts.

(** [update]: the encoding is taken before an expired [ExpiresAt] is renewed; the
    caller's session is the second component. *)
Definition update (s : SessionStore) (session : Session any) : M W (option goerror * Session any) :=
  match json_Marshal session with
  | Err err => sret (Some (ERedis (SerializationWrap "failed to marshal session" (Some err))), session)
  | Ok data =>
      let! now := rc_now in
      let ttl := ExpiresAt session - now in
      let! p := (if ttl <=? 0 then
                   let! now2 := rc_now in
                   sret (ss_defaultTTL s, set_ExpiresAt (now2 + ss_defaultTTL s) session)
                 else sret (ttl, session)) in
      let '(ttl, session) := p in
      let! r := go_cmd (GoSet (sessionKey s (ID session)) data ttl) in
      sret (match r with Ok _ => None | Err err => redis_error err end, session)
  end.

Definition Update (s : SessionStore) (session : Session any) : M W (option goerror * Session any) :=
  let! now := rc_now in
  update s (set_LastActive now session).

Definition GetWithTouch (s : SessionStore) (sessionID : string) (touch : bool)
    : M W (result (Session any) goerror) :=
  let! r := go_cmd (GoGet (sessionKey s sessionID)) in
  match r with
  | Err err =>
      if IsNotFound (redis_error err) then sret (Err (ERedis (NotFound "session not found")))
      else sret (rd_fail err)
  | Ok data =>
      match json_Unmarshal data zero_session with
      | (_, Some err) =>
          sret (Err (ERedis (SerializationWrap "failed to unmarshal session" (Some err))))
      | (session, None) =>
          if touch then
            let! now := rc_now in
            let! u := update s (set_LastActive now session) in
            sret (Ok u.2)
          else sret (Ok session)
      end
  end.

Definition Get (s : SessionStore) (sessionID : string) : M W (result (Session any) goerror) :=
  GetWithTouch s sessionID true.

Definition Delete (s : SessionStore) (sessionID : string) : M W (option goerror) :=
  let! g := GetWithTouch s sessionID false in
  match g with
  | Err err => sret (if IsNotFound (Some err) then None else Some err)
  | Ok session =>
      let! x := rc_pipe (PCons (GoDel [sessionKey s sessionID])
                        (PCons (GoSRem (userSessionsKey s (UserID session)) [sessionID]) PNil)) in
      sret (match x.2 with Some err => redis_error err | None => None end)
  end.

Definition DeleteByUserID (s : SessionStore) (userID : string) : M W (result Z goerror) :=
  let indexKey := userSessionsKey s userID in
  let! r := go_cmd (GoSMembers indexKey) in
  match r with
  | Err err => sret (rd_fail err)
  | Ok [] => sret (Ok 0)
  | Ok sessionIDs =>
      let! d := go_cmd (GoDel (map (sessionKey s) sessionIDs ++ [indexKey])) in
      sret (match d with Ok deleted => Ok deleted | Err err => rd_fail err end)
  end.

(** The goroutine that removes stale ids from the index, best effort. *)
Definition cleanup (job : string * list string) : M W () :=
  let! _ := go_cmd (GoSRem job.1 job.2) in sret tt.

Definition cleanup_of (indexKey : string) (expiredIDs : list string) : option (string * list string) :=
  match expiredIDs with [] => None | _ => Some (indexKey, expiredIDs) end.

(** The loop of [ListByUserID] over the replies and their ids. *)
Fixpoint list_loop (ids : list string) (results : list (option string))
    (sessions : list (Session any)) (expired : list string) : list (Session any) * list string :=
  match ids, results with
  | id :: ids, result :: results =>
      match result with
      | None => list_loop ids results sessions (expired ++ [id])
      | Some data =>
          match json_Unmarshal data zero_session with
          | (_, Some _) => list_loop ids results sessions expired
          | (session, None) => list_loop ids results (sessions ++ [session]) expired
          end
      end
  | _, _ => (sessions, expired)
  end.

Definition ListByUserID (s : SessionStore) (userID : string)
    : M W (result (list (Session any)) goerror * option (string * list string)) :=
  let indexKey := userSessionsKey s userID in
  let! r := go_cmd (GoSMembers indexKey) in
  match r with
  | Err err => sret (rd_fail err, None)
  | Ok [] => sret (Ok [], None)
  | Ok sessionIDs =>
      let! m := go_cmd (GoMGet (map (sessionKey s) sessionIDs)) in
      match m with
      | Err err => sret (rd_fail err, None)
      | Ok results =>
          let '(sessions, expiredIDs) := list_loop sessionIDs results [] [] in
          sret (Ok sessions, cleanup_of indexKey expiredIDs)
      end
  end.

Definition Exists (s : SessionStore) (sessionID : string) : M W (result bool goerror) :=
  let! r := go_cmd (GoExists [sessionKey s sessionID]) in
  sret (match r with Ok count => Ok (0 <? count) | Err err => rd_fail err end).

Definition Extend (s : SessionStore) (sessionID : string) (ttl : Z) : M W (option goerror) :=
  let! g := GetWithTouch s sessionID false in
  match g with
  | Err err => sret (Some err)
  | Ok session =>
      let! now := rc_now in
      let! now2 := rc_now in
      let! u := update s (set_LastActive now2 (set_ExpiresAt (now + ttl) session)) in
      match u with
      | (Some err, _) => sret (Some err)
      | (None, session) =>
          let indexKey := userSessionsKey s (UserID session) in
          let! cur := go_cmd (GoTTL indexKey) in
          match cur with
          | Err err => sret (redis_error err)
          | Ok currentTTL =>
              if (currentTTL <? 0) || (currentTTL <? ttl) then
                let! e := go_cmd (GoExpire indexKey ttl) in
                sret (match e with Ok _ => None | Err err => redis_error err end)
              else sret None
          end
      end
  end.

(** The loop of [Count]: [cmd.Val()] of a failed command is 0. *)
Fixpoint count_loop (ids : list string) (cmds : list (result Z goerror)) (count : Z)
    (expired : list string) : Z * list string :=
  match ids, cmds with
  | id :: ids, cmd :: cmds =>
      let val := match cmd with Ok v => v | Err _ => 0 end in
      if 0 <? val then count_loop ids cmds (count + 1) expired
      else count_loop ids cmds count (expired ++ [id])
  | _, _ => (count, expired)
  end.

Definition Count (s : SessionStore) (userID : string)
    : M W (result Z goerror * option (string * list string)) :=
  let indexKey := userSessionsKey s userID in
  let! r := go_cmd (GoSMembers indexKey) in
  match r with
  | Err err => sret (rd_fail err, None)
  | Ok [] => sret (Ok 0, None)
  | Ok sessionIDs =>
      let! x := rc_pipe (PMany (map (λ id, GoExists [sessionKey s id]) sessionIDs)) in
      match x.2 with
      | Some err => sret (rd_fail err, None)
      | None =>
          let '(count, expiredIDs) := count_loop sessionIDs x.1 0 [] in
          sret (Ok count, cleanup_of indexKey expiredIDs)
      end
  end.
End Operations.

(** ** Lemmas *)

(** Encoding then decoding yields the session up to [canon] (JSON forgets the Go
    type of [Data]). *)
Class SessionJsonOk {any : Type} (nil_any : any) `{Json (Session any)} (canon : Session any → Session any)
    : Prop := {
  unmarshal_marshal x d : json_Marshal x = Ok d → json_Unmarshal d (zero_session nil_any) = (canon x, None)
}.

(** Options that leave the generated id alone. *)
Definition keeps_ID {any} (opts : list (SessionCreateOption any)) : Prop :=
  Forall (λ opt, ∀ x, ID (opt x) = ID x) opts.

Lemma fold_options_ID {any} (opts : list (SessionCreateOption any)) x :
  keeps_ID opts → ID (fold_left (λ sess opt, opt sess) opts x) = ID x.
Proof.
  intros Ho. revert x. induction Ho as [|opt opts Hopt _ IH]; intros x; [done|].
  simpl. by rewrite IH, Hopt.
Qed.

(** A hexadecimal id never names an index key. *)
Lemma hex_not_index s id userID :
  all_bytes is_hex_digit id = true → sessionKey s id ≠ userSessionsKey s userID.
Proof.
  unfold sessionKey, userSessionsKey. intros Hid Heq.
  apply string_app_inj_l in Heq as [_ Heq]; [|done].
  rewrite <-(string_app_nil_l id) in Heq.
  assert (":" +:+ ("" +:+ id) = ":" +:+ ("user:sessions:" +:+ userID)) as Heq' by exact Heq.
  apply string_app_inj_l in Heq' as [_ Heq']; [|done].
  rewrite string_app_nil_l in Heq'. subst id. by rewrite all_bytes_app in Hid.
Qed.

Section Lemmas.
Context {W S : Type} `{RedisServerOk S} `{Cl : RedisClient W S} `{CoreErrorsOk}.

Lemma go_cmd_keeps {A} k (c : gocmd A) (s s' : S) r :
  srv_go c s = (r, s') → k ∉ gocmd_keys c → keeps k s s'.
Proof.
  intros Hc Hk. split; [by rewrite (go_clock _ _ _ _ Hc)|].
  intros e He _. by rewrite (go_frame _ _ _ _ _ Hc Hk).
Qed.

(** A successful creation wrote the encoded session under its key. *)
Lemma pipe_set_first k v ttl {B} (p : pipe B) (s : S) x s' :
  Millisecond ≤ ttl →
  (∀ s1 y s2, pipe_runs (keeps k) p s1 y s2 → keeps k s1 s2) →
  pipe_runs (keeps k) (PCons (GoSet k v ttl) p) s x s' →
  ∃ exp, srv_now s + Milliseconds ttl ≤ exp ∧
    ∀ s2, keeps k s' s2 → srv_now s2 < exp → srv_db s2 !! k = Some (mkEntry (RStr v) (Some exp)).
Proof.
  intros Hm Hp (s1 & s2 & [Hn1 _] & Hset & Hrest). apply Hp in Hrest.
  destruct (runs_result _ _ _ _ _ _ (go_SET_ttl s1 k v ttl Hm) Hset) as (_ & Hdb & Hnow).
  exists (srv_now s1 + Milliseconds ttl). split; [lia|]. intros s3 Hk3 Hlt.
  assert (keeps k s2 s3) as [_ Hk] by (by eapply keeps_trans).
  apply Hk; [rewrite Hdb; apply lookup_insert_eq|]. intros t [= <-]. done.
Qed.

Lemma pipe_cons_keeps {A B} k (c : gocmd A) (p : pipe B) (s : S) x s' :
  k ∉ gocmd_keys c →
  (∀ s1 y s2, pipe_runs (keeps k) p s1 y s2 → keeps k s1 s2) →
  pipe_runs (keeps k) (PCons c p) s x s' → keeps k s s'.
Proof.
  intros Hk Hp (s1 & s2 & Hk1 & Hc & Hrest). apply Hp in Hrest.
  apply (keeps_trans k s s1); [done|]. apply (keeps_trans k s1 s2); [by eapply go_cmd_keeps|done].
Qed.

Lemma Create_writes {any : Type} (nil_any : any) `{Js : Json (Session any)}
    (st : SessionStore) userID ttl opts (w : W) sess w1 :
  RedisClientOk W S (keeps (sessionKey st (ID sess))) →
  Millisecond ≤ ttl → keeps_ID opts →
  CreateWithTTL nil_any st userID ttl opts w = (Ok sess, w1) →
  ∃ data exp, json_Marshal sess = Ok data ∧ srv_now (rc_server w) + Milliseconds ttl ≤ exp ∧
    ∀ s, keeps (sessionKey st (ID sess)) (rc_server w1) s → srv_now s < exp →
      srv_db s !! sessionKey st (ID sess) = Some (mkEntry (RStr data) (Some exp)).
Proof.
  intros Hcl Hm Hopts. unfold CreateWithTTL. destruct (Z.leb_spec ttl 0); [done|].
  unfold generateSessionID, mthen at 1 2, sret at 1.
  destruct (rc_rand_Read 32 w) as [[b|e0] wa] eqn:Hr; [|done].
  apply rc_rand_Read_ok in Hr as [[Ha _] Hb]. destruct (Hb b eq_refl) as [_ Hbytes].
  unfold mthen at 1. destruct (rc_now wa) as [now wb] eqn:Hnow. apply rc_now_ok in Hnow as [Hnb _].
  set (sess0 := fold_left (λ sess opt, opt sess) opts
    (mkSession (hex_EncodeToString b) userID "" "" "" now now (now + ttl) nil_any)).
  assert (ID sess0 = hex_EncodeToString b) as Hid by (by unfold sess0; rewrite fold_options_ID).
  destruct (json_Marshal sess0) as [data|e] eqn:Hj; [|done].
  unfold mthen at 1. destruct (go_cmd (GoTTL _) wb) as [[cur|e] wc] eqn:Ht;
    [|unfold sret; intros Hf; apply (f_equal fst) in Hf; by apply rd_fail_not_ok in Hf].
  apply rc_send_ok in Ht as (sa & sb & [Hn1 _] & Ht & [Hn2 _]).
  rewrite (go_clock _ _ _ _ Ht) in Hn2.
  unfold mthen, sret. destruct (rc_pipe _ wc) as [[x err] wd] eqn:Hp. cbn [snd].
  destruct err as [e|]; [intros Hf; apply (f_equal fst) in Hf; by apply rd_fail_not_ok in Hf|].
  intros [= <- <-]. apply rc_pipe_ok in Hp as [_ Hruns].
  assert (sessionKey st (ID sess0) ∉ [userSessionsKey st userID]) as Hne.
  { rewrite Hid, list_elem_of_singleton. by apply hex_not_index, hex_all_digits. }
  apply pipe_set_first in Hruns as (exp & Hexp & Hh); [|done|].
  - exists data, exp. split_and!; [done|lia|done].
  - intros s1 y s2 Hr. refine (pipe_cons_keeps _ (GoSAdd (userSessionsKey st userID) _) _ _ _ _ Hne _ Hr).
    intros s3 y' s4 Hr'. refine (pipe_cons_keeps _ (GoExpire (userSessionsKey st userID) _) _ _ _ _ Hne _ Hr').
    intros s5 y'' s6 Hr''. exact Hr''.
Qed.
End Lemmas.

(** ** Properties *)

(** C24: a created session can be read back: after [CreateWithTTL] succeeded with
    options that leave the generated id alone, and before its time to live has run
    out, [GetWithTouch] without touch returns the same session as JSON keeps it,
    or an error that is not "not found": the index commands of the pipeline
    cannot disturb the session's key, because a hexadecimal id never names an
    index. *)
Theorem Create_then_get {W S} `{RedisServerOk S} `{Cl : RedisClient W S} `{CoreErrorsOk}
    {any : Type} (nil_any : any) `{Js : Json (Session any)} canon `{!SessionJsonOk nil_any canon}
    (st : SessionStore) userID ttl opts (w w1 w2 w3 : W) sess r :
  RedisClientOk W S (keeps (sessionKey st (ID sess))) →
  Millisecond ≤ ttl → keeps_ID opts →
  CreateWithTTL nil_any st userID ttl opts w = (Ok sess, w1) →
  keeps (sessionKey st (ID sess)) (rc_server w1) (rc_server w2) →
  GetWithTouch nil_any st (ID sess) false w2 = (r, w3) →
  srv_now (rc_server w3) < srv_now (rc_server w) + Milliseconds ttl →
  r = Ok (canon sess) ∨ ∃ e, r = Err e ∧ IsNotFound (Some e) = false.
Proof.
  intros Hcl Hm Hopts Hcreate Hk Hget Hlt.
  destruct (Create_writes nil_any st userID ttl opts w sess w1 Hcl Hm Hopts Hcreate)
    as (data & exp & Hj & Hexp & Hh).
  unfold GetWithTouch, mthen at 1, sret in Hget.
  destruct (go_cmd _ w2) as [x w3'] eqn:Hg.
  assert (w3' = w3) as ->.
  { destruct x as [d|e]; [destruct (json_Unmarshal d _) as [y [e|]]; congruence|].
    destruct (IsNotFound (redis_error e)); congruence. }
  destruct (go_GET_result _ _ _ data exp Hg) as [->|(e & -> & He)].
  - intros s Hks Hs'. apply Hh; [by eapply keeps_trans|done].
  - lia.
  - left. rewrite (unmarshal_marshal _ _ Hj) in Hget. congruence.
  - right. rewrite IsNotFound_redis_error, He in Hget. injection Hget as <-. clear Hg.
    pose proof (IsNotFound_redis_error e) as Hn. rewrite He in Hn. unfold redis_error in Hn.
    unfold rd_fail. destruct (FromRedisError (Some e)) as [d|] eqn:Hd; [eauto|].
    exfalso. by apply (redis_error_not_None e); unfold redis_error; rewrite Hd.
Qed.

Section DeleteLemmas.
Context {W S : Type} `{RedisServerOk S} `{Cl : RedisClient W S} `{!RedisClientOk W S removes}.
Context `{CoreErrorsOk}.

(** A reply [redis.Nil] means that the key was absent, and so it stays. *)
Lemma go_GET_nil k (w : W) e w1 :
  go_cmd (GoGet k) w = (Err e, w1) → errors_Is e redis_Nil = true →
  srv_db (rc_server w1) !! k = None.
Proof.
  intros Hg He. apply rc_send_err in Hg as [(s & s' & _ & Hs & Hr)|[Hno _]]; [|by rewrite Hno in He].
  apply (removes_absent k s'); [done|].
  destruct (srv_db s !! k) as [en|] eqn:Hk; [destruct (entry_cases en) as [(v & x & ->)|Hv]|].
  - by destruct (runs_result _ _ _ _ _ _ (go_GET_str s k v x Hk) Hs).
  - destruct (go_GET_other s k en Hk Hv) as (err & Herr & Hno).
    destruct (runs_result _ _ _ _ _ _ Herr Hs) as ([= ->] & _). by rewrite Hno in He.
  - destruct (runs_result _ _ _ _ _ _ (go_GET_none s k Hk) Hs) as (_ & Hdb & _). by rewrite Hdb.
Qed.

(** The pipeline [DEL k; c] for a command [c] on another key. *)
Lemma pipe_del_absent {A} k (c : gocmd A) (s : S) x s' :
  k ∉ gocmd_keys c → pipe_runs removes (PCons (GoDel [k]) (PCons c PNil)) s x s' →
  srv_db s' !! k = None.
Proof.
  intros Hk (s1 & s2 & _ & Hdel & s3 & s4 & Hr1 & Hc & Hr2).
  destruct (go_DEL_spec s1 [k]) as [n Hrun].
  destruct (runs_result _ _ _ _ _ _ Hrun Hdel) as (_ & Hdb & _).
  apply (removes_absent k s4); [exact Hr2|]. rewrite (go_frame _ _ _ _ _ Hc Hk).
  apply (removes_absent k s2); [done|]. rewrite Hdb. apply map_lookup_filter_None. right.
  intros y _ Hy. apply Hy. set_solver.
Qed.

Lemma pipe_srem_removes {A} ik id (c : gocmd A) (s : S) x s' ms y :
  pipe_runs removes (PCons c (PCons (GoSRem ik [id]) PNil)) s x s' →
  srv_db s' !! ik = Some (mkEntry (RSet ms) y) → id ∉ ms.
Proof.
  intros (s1 & s2 & _ & _ & s3 & s4 & _ & Hrem & Hr) Hk%Hr. pose proof (go_SREM_spec s3 ik [id]) as Hspec.
  destruct (as_set (srv_db s3 !! ik)) as [[ms3 z]|] eqn:Hset; destruct Hspec as [n Hrun];
    destruct (runs_result _ _ _ _ _ _ Hrun Hrem) as (_ & Hdb & _); rewrite Hdb in Hk.
  - unfold put_set in Hk. case_decide; [by rewrite lookup_delete_eq in Hk|].
    rewrite lookup_insert_eq in Hk. simplify_eq. set_solver.
  - by rewrite Hk in Hset.
Qed.

Lemma rd_fail_code {A} err e (H3 : errors_Is err redis_Nil = false) :
  @rd_fail _ A err = Err e → IsNotFound (Some e) = false.
Proof.
  intros Hf. pose proof (IsNotFound_redis_error err) as Hn. rewrite H3 in Hn.
  unfold redis_error, rd_fail in *. destruct (FromRedisError (Some err)) eqn:Hd; [by injection Hf as <-|].
  exfalso. apply (redis_error_not_None err). unfold redis_error. by rewrite Hd.
Qed.
End DeleteLemmas.

(** ** A concrete encoding *)

(** Sessions without data, encoded as the bits of a number through [Countable]. *)
Module Codec.
Definition fields (s : Session ()) : list string * list Z :=
  ([ID s; UserID s; DeviceID s; DeviceInfo s; IPAddress s], [CreatedAt s; LastActive s; ExpiresAt s]).

Fixpoint bits (p : positive) : string :=
  match p with
  | xH => ""
  | xO p => String "0" (bits p)
  | xI p => String "1" (bits p)
  end.

Fixpoint of_bits (s : string) : positive :=
  match s with
  | EmptyString => xH
  | String a r => if decide (a = "1"%char) then xI (of_bits r) else xO (of_bits r)
  end.

Lemma of_bits_bits p : of_bits (bits p) = p.
Proof. induction p as [p IH|p IH|]; simpl; by rewrite ?IH. Qed.

#[global] Instance codec : Json (Session ()) := {
  json_Marshal s := Ok (bits (encode (fields s)));
  json_Unmarshal d dest :=
    match decode (of_bits d) with
    | Some ([i; u; dv; f; a], [c; l; e]) => (mkSession i u dv f a c l e tt, None)
    | _ => (dest, Some (EForeign "invalid character" []))
    end
}.

#[global] Instance codec_ok : SessionJsonOk tt id.
Proof.
  constructor. intros x d [= <-]. unfold json_Unmarshal, codec.
  rewrite of_bits_bits, countable.decode_encode. by destruct x as [? ? ? ? ? ? ? ? []].
Qed.
End Codec.

(** C40: a deleted session is gone: when [Delete] of a hexadecimal id returns nil and
    no other client writes keys meanwhile, the server holds no session under that
    id, whether it was there before or not; and if the session could be read, the
    index of the user it names does not list the id any more. *)
Theorem Delete_removes {W S} `{RedisServerOk S}
    `{Cl : RedisClient W S} `{!RedisClientOk W S removes} `{CoreErrorsOk}
    {any : Type} (nil_any : any) `{Js : Json (Session any)} (st : SessionStore) id (w w' : W) :
  all_bytes is_hex_digit id = true →
  Delete nil_any st id w = (None, w') →
  srv_db (rc_server w') !! sessionKey st id = None ∧
  ∀ sess, (GetWithTouch nil_any st id false w).1 = Ok sess →
    ∀ ms x, srv_db (rc_server w') !! userSessionsKey st (UserID sess) = Some (mkEntry (RSet ms) x) → id ∉ ms.
Proof.
  intros Hid. unfold Delete, GetWithTouch, mthen, sret.
  destruct (go_cmd _ w) as [[data|e] w1] eqn:Hg.
  - destruct (json_Unmarshal data _) as [sess [e|]].
    { intros Hf. apply (f_equal fst) in Hf. cbn [fst] in Hf. unfold IsNotFound in Hf.
      by rewrite rd_IsCode_ERedis in Hf. }
    destruct (rc_pipe _ w1) as [[x [e|]] w2] eqn:Hp; cbn [snd]; intros Hf;
      [by apply (f_equal fst) in Hf; apply redis_error_not_None in Hf|].
    injection Hf as ->. apply rc_pipe_ok in Hp as [_ Hruns]. split.
    + refine (pipe_del_absent _ (GoSRem (userSessionsKey st (UserID sess)) [id]) _ _ _ _ Hruns).
      apply not_elem_of_cons. split; [by apply hex_not_index|apply not_elem_of_nil].
    + intros sess' [= <-] ms y. by eapply pipe_srem_removes.
  - rewrite IsNotFound_redis_error. destruct (errors_Is e redis_Nil) eqn:He.
    + intros Hf. assert (w1 = w') as <- by (by apply (f_equal snd) in Hf). split; [by eapply go_GET_nil|done].
    + destruct (rd_fail e) as [y|err] eqn:Hr; [by apply rd_fail_not_ok in Hr|].
      rewrite (rd_fail_code e err He Hr). by intros Hf; apply (f_equal fst) in Hf.
Qed.

Lemma Create_then_get_witness :
  let st := NewSessionStore [] in
  let run := CreateWithTTL tt st "u1" Hour [WithDeviceID "d"] MemServer.start in
  ∃ sess, run.1 = Ok sess ∧
    ((GetWithTouch tt st (ID sess) false run.2).1 = Ok sess ∨
     ∃ e, (GetWithTouch tt st (ID sess) false run.2).1 = Err e ∧ IsNotFound (Some e) = false).
Proof.
  intros st run. destruct run.1 as [sess|e] eqn:Hrun; [|vm_compute in Hrun; discriminate].
  exists sess. split; [reflexivity|].
  assert (run = (Ok sess, run.2)) as Heq by (rewrite <-Hrun; apply surjective_pairing).
  refine (Create_then_get tt id st "u1" Hour [WithDeviceID "d"] MemServer.start run.2 run.2
    (GetWithTouch tt st (ID sess) false run.2).2 sess _ _ _ _ Heq _ (surjective_pairing _) _).
  - apply MemDriver.client_keeps.
  - vm_compute. discriminate.
  - constructor; [reflexivity|constructor].
  - split; [apply Z.le_refl|]. intros e He _. exact He.
  - vm_compute in Hrun. injection Hrun as <-. vm_compute. reflexivity.
Defined.

(** The user has another session, so the index stays. *)
Lemma Delete_removes_witness :
  let st := NewSessionStore [] in
  let w0 := (CreateWithTTL tt st "u1" Hour [] MemServer.start).2 in
  let w := (CreateWithTTL tt st "u1" Hour [] w0).2 in
  let id := hex_EncodeToString (repeat 1 32) in
  let run := Delete tt st id w in
  let ids := match srv_db (rc_server run.2) !! userSessionsKey st "u1" with
             | Some (mkEntry (RSet ms) _) => ms | _ => ∅ end in
  srv_db (rc_server w) !! sessionKey st id ≠ None ∧ run.1 = None ∧
  srv_db (rc_server run.2) !! sessionKey st id = None ∧ size ids = 1%nat ∧ id ∉ ids.
Proof.
  intros st w0 w id run ids. split; [vm_compute; discriminate|].
  assert (run.1 = None) as Hrun by (vm_compute; reflexivity). split; [exact Hrun|].
  pose proof MemDriver.client_removes.
  pose proof (eq_trans (surjective_pairing run) (f_equal (λ a, (a, run.2)) Hrun)) as Heq.
  destruct (Delete_removes tt st id w run.2 eq_refl Heq) as [Hgone Hidx].
  split; [exact Hgone|]. split; [vm_compute; reflexivity|].
  destruct (result_Ok (GetWithTouch tt st id false w).1 (λ sess, UserID sess = "u1")) as (sess & Hg & Hu);
    [vm_compute; reflexivity|].
  specialize (Hidx sess Hg). rewrite Hu in Hidx.
  assert (srv_db (rc_server run.2) !! userSessionsKey st "u1" = Some (mkEntry (RSet ids) (Some 3600000))) as Hk
    by (vm_compute; reflexivity).
  exact (Hidx ids _ Hk).
Defined.

(** ** Behaviours worth knowing *)

(** The touch of a [Get] that read the session before a concurrent [Delete] writes
    it back. *)
Lemma touch_resurrects :
  let st := NewSessionStore [] in
  let '(r, w1) := CreateWithTTL tt st "u1" Hour [] MemServer.start in
  match r with
  | Ok sess =>
      let w2 := (Delete tt st (ID sess) w1).2 in
      let w3 := (update st sess w2).2 in
      (Exists st (ID sess) w2).1 = Ok false ∧ (Exists st (ID sess) w3).1 = Ok true
  | Err _ => False
  end.
Proof. vm_compute. by split. Qed.

(** [update] of an expired session renews the caller's [ExpiresAt] after encoding:
    the stored session keeps the old one. *)
Lemma update_stores_old_expiry :
  let st := NewSessionStore [] in
  let sess := mkSession "id" "u1" "" "" "" 0 0 (-5) tt in
  let '((err, sess'), w1) := update st sess MemServer.start in
  err = None ∧ ExpiresAt sess' = DefaultSessionTTL ∧
  match (GetWithTouch tt st "id" false w1).1 with
  | Ok stored => ExpiresAt stored = -5
  | Err _ => False
  end.
Proof. vm_compute. by split_and!. Qed.

(** [DeleteByUserID] counts the index key among the deleted sessions. *)
Lemma DeleteByUserID_counts_index :
  let st := NewSessionStore [] in
  let w := (CreateWithTTL tt st "u1" Hour [] MemServer.start).2 in
  (DeleteByUserID st "u1" w).1 = Ok 2.
Proof. vm_compute. reflexivity. Qed.
