(* ===== verification/SessionIndex.v ===== *)
(** * redis/session.go: the index of a user's sessions

    [CreateWithTTL] adds the session's id to a set under the user's index key;
    [ListByUserID], [Count] and [DeleteByUserID] read it.  The file relates the
    index to the session keys, for other clients that may add sessions of the same
    user and extend the index but neither remove this session's id nor cut the
    index's life below a bound.  An index the user has already may expire earlier
    than the new session: the creation extends it. *)

From Stdlib Require Import ZArith Lia.
From S2P Require Import Prelude GoLib GoErrors RedisErrors RedisServer Cache Session.

Open Scope go_scope.

(** ** Runs with fewer assumptions on the others *)

Section Monotone.
Context {W S : Type} `{RedisServer S} `{Cl : RedisClient W S}.
Implicit Types R : S → S → Prop.

Lemma pipe_runs_mono R R' {A} (p : pipe A) s x s' :
  (∀ s1 s2, R s1 s2 → R' s1 s2) → pipe_runs R p s x s' → pipe_runs R' p s x s'.
Proof.
  intros HR. revert s. induction p as [|A B c p IH|A cs]; intros s.
  - apply HR.
  - intros (s1 & s2 & ? & ? & ?). exists s1, s2. eauto.
  - revert s x. induction cs as [|c cs IHcs]; intros s [|r x]; try done; [apply HR|].
    intros (s1 & s2 & ? & ? & ?). exists s1, s2. split_and!; [by apply HR|done|by apply IHcs].
Qed.

Lemma RedisClientOk_mono R R' :
  (∀ s1 s2, R s1 s2 → R' s1 s2) → RedisClientOk W S R → RedisClientOk W S R'.
Proof.
  intros HR Hok. destruct Hok as [Hsend Herr Hpipe Hnow Htime Hsleep Hctx Hrand]. constructor.
  - intros A m w a w' Hm. destruct (Hsend A m w a w' Hm) as (s & s' & ? & ? & ?).
    exists s, s'. auto.
  - intros A m w e w' Hm.
    destruct (Herr A m w e w' Hm) as [(s & s' & ? & ? & ?)|[Hno [?|(s & s' & r & ? & ? & ?)]]]; 
      [left; exists s, s'; auto|right; auto|right]. split; [done|]. right. exists s, s', r. auto.
  - intros A p w x w' Hp. destruct (Hpipe A p w x w' Hp) as [? ?]. split; [done|by eapply pipe_runs_mono].
  - intros. by eapply HR, Hnow.
  - intros. by eapply HR, Htime.
  - intros. by eapply HR, Hsleep.
  - intros. by eapply HR, Hctx.
  - intros n w r w' Hr. destruct (Hrand n w r w' Hr). eauto.
Qed.
End Monotone.

(** Each command of a pipeline ran at some moment of it. *)
Lemma pipe_many_rel {S} `{RedisServer S} (R : S → S → Prop) {A} (cs : list (gocmd A)) s x s' :
  Transitive R → (∀ c s r s', c ∈ cs → srv_go c s = (r, s') → R s s') →
  pipe_runs R (PMany cs) s x s' → R s s'.
Proof.
  intros HT. revert s x. induction cs as [|c cs IH]; intros s [|r x] Hcs; try done.
  intros (s1 & s2 & Hs1 & Hc & Hrest). trans s1; [done|]. trans s2; [eapply Hcs; [|done]; set_solver|].
  eapply IH; [|done]. intros c' s3 r' s4 Hc'. apply Hcs. set_solver.
Qed.

Lemma pipe_many_at {S} `{RedisServer S} (R : S → S → Prop) {A} (cs : list (gocmd A)) s x s' :
  Transitive R → (∀ c s r s', c ∈ cs → srv_go c s = (r, s') → R s s') →
  pipe_runs R (PMany cs) s x s' →
  length x = length cs ∧
  ∀ i c, cs !! i = Some c → ∃ r s1 s2, x !! i = Some r ∧ R s s1 ∧ srv_go c s1 = (r, s2) ∧ R s2 s'.
Proof.
  intros HT. revert s x. induction cs as [|c0 cs IH]; intros s [|r0 x] Hcs Hruns; try done.
  assert (∀ c s r s', c ∈ cs → srv_go c s = (r, s') → R s s') as Hcs'
    by (intros c s1 r s2 Hc; apply Hcs; set_solver).
  destruct Hruns as (s1 & s2 & Hs1 & Hc0 & Hrest).
  destruct (IH s2 x) as [Hlen IHi]; [done..|]. split; [simpl; congruence|].
  intros [|i] c Hi; simplify_eq/=.
  - exists r0, s1, s2. split_and!; [done..|]. by eapply pipe_many_rel.
  - destruct (IHi i c Hi) as (r & s3 & s4 & ? & ? & ? & ?). exists r, s3, s4. split_and!; [done| |done..].
    trans s1; [done|]. trans s2; [|done]. eapply Hcs; [|done]. set_solver.
Qed.

(** ** The index of a user *)

Section Index.
Context {S : Type} `{RedisServerOk S}.

(** The entry does not expire before [B]. *)
Definition lasts (e : entry) (B : Z) : Prop := ∀ t, e_exp e = Some t → B ≤ t.

(** [e'] does not expire before [e]. *)
Definition outlasts (e e' : entry) : Prop :=
  ∀ t', e_exp e' = Some t' → ∃ t, e_exp e = Some t ∧ t ≤ t'.

Lemma lasts_outlasts e e' B : outlasts e e' → lasts e B → lasts e' B.
Proof. intros He Hl t' Ht'. destruct (He t' Ht') as (t & Ht & ?). specialize (Hl t Ht). lia. Qed.

Lemma lasts_mono e B B' : B' ≤ B → lasts e B → lasts e B'.
Proof. intros HB Hl t Ht. specialize (Hl t Ht). lia. Qed.

(** The index, if there is one, does not expire before [B]. *)
Definition index_lasts (ik : string) (B : Z) (s : S) : Prop := ∀ e, srv_db s !! ik = Some e → lasts e B.

Definition indexed (ik id : string) (s : S) : Prop :=
  ∃ ms x, srv_db s !! ik = Some (mkEntry (RSet ms) x) ∧ id ∈ ms.

(** The index found in [s'] lasts until [B], or as long as the one in [s] did; and
    before [B] nobody removes [id] from an index that has not run out. *)
Definition index_safe (ik id : string) (B : Z) (s s' : S) : Prop :=
  srv_now s ≤ srv_now s' ∧
  (∀ e', srv_db s' !! ik = Some e' → lasts e' B ∨ ∃ e, srv_db s !! ik = Some e ∧ outlasts e e') ∧
  (index_lasts ik (srv_now s' + 1) s → indexed ik id s → srv_now s' < B → indexed ik id s').

Lemma index_lasts_safe ik id B C s s' :
  index_safe ik id B s s' → C ≤ B → index_lasts ik C s → index_lasts ik C s'.
Proof.
  intros (_ & He & _) HC Hl e' Hk. destruct (He e' Hk) as [?|(e & Hs & Ho)]; [by eapply lasts_mono|].
  by eapply lasts_outlasts, Hl.
Qed.

Lemma indexed_safe ik id B C s s' :
  index_safe ik id B s s' → index_lasts ik C s → indexed ik id s → srv_now s' < C → srv_now s' < B →
  indexed ik id s'.
Proof. intros (_ & _ & Hi) Hl Hin HC HB. apply Hi; [|done..]. intros e Hk. eapply lasts_mono, Hl, Hk. lia. Qed.

#[export] Instance index_safe_trans ik id B : Transitive (index_safe ik id B).
Proof.
  intros s1 s2 s3 H12 H23. pose proof H12 as (Hn1 & He1 & _). pose proof H23 as (Hn2 & He2 & _).
  split_and!; [lia| |].
  - intros e3 Hk. destruct (He2 e3 Hk) as [?|(e2 & Hk2 & Ho2)]; [by left|].
    destruct (He1 e2 Hk2) as [Hl|(e1 & Hk1 & Ho1)]; [left; by eapply lasts_outlasts|].
    right. exists e1. split; [done|]. intros t3 Ht3. destruct (Ho2 t3 Ht3) as (t2 & Ht2 & ?).
    destruct (Ho1 t2 Ht2) as (t1 & ? & ?). exists t1. split; [done|lia].
  - intros Hl Hin Hlt. eapply (indexed_safe _ _ _ (srv_now s3 + 1)); [exact H23| | |lia|done].
    + eapply index_lasts_safe; [exact H12|lia|done].
    + eapply (indexed_safe _ _ _ (srv_now s3 + 1)); [exact H12|done..|lia|lia].
Qed.

Lemma index_safe_same ik id B (s s' : S) :
  srv_now s' = srv_now s → srv_db s' !! ik = srv_db s !! ik → index_safe ik id B s s'.
Proof.
  intros Hn Hk. split_and!; [lia| |].
  - intros e. rewrite Hk. intros He. right. exists e. split; [done|]. intros t Ht. by exists t.
  - intros _ (ms & x & Hms & Hin) _. exists ms, x. by rewrite Hk.
Qed.

Lemma go_cmd_index_safe {A} ik id B (c : gocmd A) (s s' : S) r :
  srv_go c s = (r, s') → ik ∉ gocmd_keys c → index_safe ik id B s s'.
Proof. intros Hc Hk. apply index_safe_same; [by eapply go_clock|by eapply go_frame]. Qed.

Lemma runs_index_safe {A} ik id B (m : M S A) (s s' : S) r r' :
  m s = (r, s') → runs m s r' (srv_db s) → index_safe ik id B s s'.
Proof.
  intros Hm Hr. destruct (runs_result _ _ _ _ _ _ Hr Hm) as (_ & Hdb & Hnow).
  apply index_safe_same; [done|by rewrite Hdb].
Qed.

Lemma index_safe_elapse ik id B (s : S) d : 0 ≤ d → index_safe ik id B s (srv_elapse d s).
Proof.
  intros Hd. split_and!; [rewrite srv_elapse_now; lia| |].
  - intros e He. right. exists e. split; [by eapply srv_elapse_sub|]. intros t Ht. by exists t.
  - intros Hl (ms & x & Hk & Hin) Hlt. exists ms, x. split; [|done]. apply srv_elapse_keeps; [done..|].
    intros t Hx. specialize (Hl _ Hk t Hx). rewrite srv_elapse_now in Hl. lia.
Qed.

(** Adding [id] to the index keeps its expiry. *)
Lemma go_SADD_indexed ik id C (s s' : S) n :
  index_lasts ik C s → srv_go (GoSAdd ik id) s = (Ok n, s') →
  index_lasts ik C s' ∧ indexed ik id s' ∧ srv_now s' = srv_now s.
Proof.
  intros Hl Hc. pose proof (go_SADD_spec s ik id) as Hspec.
  destruct (as_set (srv_db s !! ik)) as [[ms x]|] eqn:Hset.
  - destruct Hspec as [n' Hr]. destruct (runs_result _ _ _ _ _ _ Hr Hc) as (_ & Hdb & Hnow).
    assert (srv_db s' !! ik = Some (mkEntry (RSet (ms ∪ {[id]})) x)) as Hk.
    { rewrite Hdb. unfold put_set. rewrite decide_False by set_solver. apply lookup_insert_eq. }
    split_and!; [|exists (ms ∪ {[id]}), x; split; [done|set_solver]|done].
    intros e He t Ht. rewrite Hk in He. injection He as <-. simpl in Ht. subst x.
    destruct (srv_db s !! ik) as [[[] y]|] eqn:Hi; simplify_eq/=. by apply (Hl _ Hi t).
  - destruct Hspec as [e Hr]. by destruct (runs_result _ _ _ _ _ _ Hr Hc).
Qed.

(** Extending it. *)
Lemma go_EXPIRE_indexed ik id B (s s' : S) ttl r :
  indexed ik id s → Second ≤ ttl → B ≤ srv_now s + 1000 * Z.quot ttl Second →
  srv_go (GoExpire ik ttl) s = (r, s') →
  index_lasts ik B s' ∧ indexed ik id s' ∧ srv_now s' = srv_now s.
Proof.
  intros (ms & x & Hk & Hin) Hs HB Hc.
  destruct (runs_result _ _ _ _ _ _ (go_EXPIRE_some s ik _ ttl Hk Hs) Hc) as (_ & Hdb & Hnow).
  assert (srv_db s' !! ik = Some (mkEntry (RSet ms) (Some (srv_now s + 1000 * Z.quot ttl Second)))) as Hk'
    by (rewrite Hdb; apply lookup_insert_eq).
  split_and!; [|by eexists _, _|done].
  intros e He t Ht. rewrite Hk' in He. injection He as <-. injection Ht as <-. done.
Qed.
End Index.

(** What the others may do: nothing to the session's key until it expires, and
    nothing against its entry in the index. *)
Definition session_others {S} `{RedisServer S} (sk ik id : string) (B : Z) (s s' : S) : Prop :=
  keeps sk s s' ∧ index_safe ik id B s s'.

(** ** Creation *)

Section Creation.
Context {W S : Type} `{RedisServerOk S} `{Cl : RedisClient W S} `{CoreErrorsOk}.
Context {any : Type} (nil_any : any) `{Js : Json (Session any)}.

Lemma Create_indexes (st : SessionStore) userID ttl opts (w : W) sess w1 B :
  let ik := userSessionsKey st userID in
  RedisClientOk W S (index_safe ik (ID sess) B) →
  Second ≤ ttl → keeps_ID opts → B ≤ srv_now (rc_server w) + 1000 * Z.quot ttl Second →
  index_lasts ik (srv_now (rc_server w1) + 1) (rc_server w) →
  CreateWithTTL nil_any st userID ttl opts w = (Ok sess, w1) → srv_now (rc_server w1) < B →
  index_lasts ik B (rc_server w1) ∧ indexed ik (ID sess) (rc_server w1).
Proof.
  intros ik Hcl Hm Hopts HB Hlast. unfold CreateWithTTL. destruct (Z.leb_spec ttl 0); [done|].
  unfold generateSessionID, mthen at 1 2, sret at 1.
  destruct (rc_rand_Read 32 w) as [[b|e0] wa] eqn:Hr; [|done].
  apply rc_rand_Read_ok in Hr as [Ha Hb]. destruct (Hb b eq_refl) as [_ Hbytes].
  unfold mthen at 1. destruct (rc_now wa) as [now wb] eqn:Hnow. apply rc_now_ok in Hnow as Hb'.
  set (sess0 := fold_left (λ sess opt, opt sess) opts
    (mkSession (hex_EncodeToString b) userID "" "" "" now now (now + ttl) nil_any)).
  assert (ID sess0 = hex_EncodeToString b) as Hid by (by unfold sess0; rewrite fold_options_ID).
  destruct (json_Marshal sess0) as [data|e] eqn:Hj; [|done].
  unfold mthen at 1. destruct (go_cmd (GoTTL _) wb) as [[cur|e] wc] eqn:Ht;
    [|unfold sret; intros Hf; apply (f_equal fst) in Hf; by apply rd_fail_not_ok in Hf].
  apply rc_send_ok in Ht as (sa & sb & Hn1 & Ht & Hn2).
  destruct (go_TTL_spec sa ik) as [t Htr]. apply (runs_index_safe ik (ID sess) B _ _ _ _ _ Ht) in Htr.
  assert (index_safe ik (ID sess) B (rc_server w) (rc_server wc)) as Hwc
    by (trans (rc_server wa); [done|]; trans (rc_server wb); [done|]; trans sa; [done|]; by trans sb).
  unfold mthen, sret. destruct (rc_pipe _ wc) as [[x err] wd] eqn:Hp. cbn [snd].
  destruct err as [e|]; [intros Hf; apply (f_equal fst) in Hf; by apply rd_fail_not_ok in Hf|].
  intros [= <- <-] Hlt.
  apply rc_pipe_ok in Hp as [(_ & [n Hn] & _) (s1 & s2 & Hp1 & Hset & s3 & s4 & Hp2 & Hadd & s5 & s6 & Hp3 & Hexp & Hp4)].
  match type of Hexp with srv_go (GoExpire _ ?t) _ = _ => set (indexTTL := t) in Hexp end.
  assert (ttl ≤ indexTTL) as Httl.
  { unfold indexTTL. destruct ((0 <? cur) && (ttl <? cur)) eqn:Hc; [|lia].
    apply andb_true_iff in Hc as [_ Hc%Z.ltb_lt]. lia. }
  assert (Z.quot ttl Second ≤ Z.quot indexTTL Second) as Hq by (apply Z.quot_le_mono; [done|lia]).
  apply (go_cmd_index_safe ik (ID sess0) B) in Hset; [|simpl; rewrite Hid, list_elem_of_singleton;
    intros Heq; by apply (hex_not_index st (hex_EncodeToString b) userID); [apply hex_all_digits|]].
  assert (index_safe ik (ID sess0) B (rc_server w) s3) as Hws3
    by (trans (rc_server wc); [done|]; trans s1; [done|]; by trans s2).
  rewrite Hn in Hadd. pose proof Hws3 as [Hnws3 _]. pose proof Hp3 as [Hn45 _]. pose proof Hp4 as [Hn67 _].
  set (C := srv_now (rc_server wd) + 1) in *. assert (C ≤ B) as HC by lia.
  apply (index_lasts_safe _ _ _ C _ _ Hws3 HC) in Hlast.
  destruct (go_SADD_indexed ik (ID sess0) C s3 s4 n Hlast Hadd) as (Hl4 & Hi4 & Hnow4).
  pose proof (go_clock _ _ _ _ Hexp) as Hn56.
  apply (indexed_safe _ _ _ C _ _ Hp3 Hl4) in Hi4; [|lia..].
  destruct (go_EXPIRE_indexed ik (ID sess0) B s5 s6 indexTTL _ Hi4 ltac:(lia) ltac:(lia) Hexp) as (Hl6 & Hi6 & _).
  split; [by eapply index_lasts_safe|by eapply indexed_safe].
Qed.
End Creation.

(** ** The loops over the replies *)

Section Loops.
Context {any : Type} (nil_any : any) `{Js : Json (Session any)}.

(** What [ListByUserID] makes of one reply. *)
Definition decoded (reply : option string) : option (Session any) :=
  data ← reply;
  match json_Unmarshal data (zero_session nil_any) with
  | (session, None) => Some session
  | (_, Some _) => None
  end.

Lemma list_loop_spec (f : string → option string) ids sessions expired :
  list_loop nil_any ids (map f ids) sessions expired =
  (sessions ++ omap (λ id, decoded (f id)) ids, expired ++ filter (λ id, f id = None) ids).
Proof.
  revert sessions expired. induction ids as [|id ids IH]; intros sessions expired; simpl.
  { by rewrite !app_nil_r. }
  rewrite filter_cons. unfold decoded at 1. destruct (f id) as [data|]; simpl.
  - destruct (json_Unmarshal data _) as [session [e|]]; rewrite IH; [done|by rewrite <-app_assoc].
  - rewrite IH. by rewrite <-app_assoc.
Qed.

(** A reply [Count] takes for a live session. *)
Definition counts_live (cmd : result Z goerror) : bool :=
  match cmd with Ok v => 0 <? v | Err _ => false end.

Lemma count_loop_spec ids cmds count expired :
  length cmds = length ids →
  count_loop ids cmds count expired =
  (count + Z.of_nat (length (filter (λ p, counts_live p.2 = true) (zip ids cmds))),
   expired ++ (filter (λ p, counts_live p.2 = false) (zip ids cmds)).*1).
Proof.
  revert cmds count expired. induction ids as [|id ids IH]; intros [|cmd cmds] count expired Hlen;
    simplify_eq/=; [by rewrite Z.add_0_r, app_nil_r|].
  transitivity (if counts_live cmd then count_loop ids cmds (count + 1) expired
                else count_loop ids cmds count (expired ++ [id])); [by destruct cmd|].
  rewrite !filter_cons. simpl. destruct (counts_live cmd) eqn:Hc; rewrite IH by done.
  - rewrite decide_True, decide_False by done. simpl. f_equal. lia.
  - rewrite decide_False, decide_True by done. simpl. by rewrite <-app_assoc.
Qed.
End Loops.

(** ** Reading the index *)

Section Reading.
Context {W S : Type} `{RedisServerOk S} `{Cl : RedisClient W S} `{CoreErrorsOk}.
Context {any : Type} (nil_any : any) `{Js : Json (Session any)}.
Context (sk ik id : string) (B : Z) `{!RedisClientOk W S (session_others sk ik id B)}.

#[export] Instance session_others_trans : Transitive (session_others (S := S) sk ik id B).
Proof.
  intros s1 s2 s3 [Hk1 Hi1] [Hk2 Hi2]. split; [by eapply keeps_trans|by etrans].
Qed.

(** A command that changes nothing. *)
Lemma runs_session_others {A} (m : M S A) (s s' : S) r r' :
  m s = (r, s') → runs m s r' (srv_db s) → session_others sk ik id B s s'.
Proof.
  intros Hm Hr. split; [|by eapply runs_index_safe].
  destruct (runs_result _ _ _ _ _ _ Hr Hm) as (_ & Hdb & Hnow). split; [lia|]. intros e. by rewrite Hdb.
Qed.

(** A successful reading request, and the moment it was executed. *)
Lemma read_at {A} (c : gocmd A) (w : W) a w' :
  (∀ s : S, ∃ r, runs (srv_go c) s r (srv_db s)) → go_cmd c w = (Ok a, w') →
  ∃ s s', session_others sk ik id B (rc_server w) s ∧ srv_go c s = (Ok a, s') ∧ srv_db s' = srv_db s ∧
    session_others sk ik id B s (rc_server w').
Proof.
  intros Hread Hc. apply rc_send_ok in Hc as (s & s' & Hs1 & Hc & Hs2). exists s, s'.
  destruct (Hread s) as [r Hr]. split_and!; [done..| |].
  - by destruct (runs_result _ _ _ _ _ _ Hr Hc) as (_ & ? & _).
  - trans s'; [by eapply runs_session_others|done].
Qed.

Lemma SMEMBERS_reads k (s : S) : ∃ r, runs (srv_go (GoSMembers k)) s r (srv_db s).
Proof.
  pose proof (go_SMEMBERS_spec s k) as Hs. destruct (as_set (srv_db s !! k)) as [[ms x]|].
  - destruct Hs as (l & Hr & _). eauto.
  - destruct Hs as [e Hr]. eauto.
Qed.

(** The index lists [id] once. *)
Lemma SMEMBERS_indexed (w : W) l w' :
  (srv_now (rc_server w) < B → index_lasts ik B (rc_server w) ∧ indexed ik id (rc_server w)) →
  srv_now (rc_server w') < B →
  go_cmd (GoSMembers ik) w = (Ok l, w') →
  id ∈ l ∧ NoDup l ∧ session_others sk ik id B (rc_server w) (rc_server w').
Proof.
  intros Hidx Hlt Hc. apply (read_at (GoSMembers ik)) in Hc as (s & s' & Hs1 & Hc & _ & Hs2); [|apply SMEMBERS_reads].
  destruct Hidx as [Hl Hi]; [destruct Hs1 as [[? _] _], Hs2 as [[? _] _]; lia|].
  assert (indexed ik id s) as (ms & x & Hk & Hin).
  { eapply (indexed_safe _ _ _ B); [apply Hs1|done|done|destruct Hs2 as [[? _] _]; lia..]. }
  pose proof (go_SMEMBERS_spec s ik) as Hspec. rewrite Hk in Hspec. simpl in Hspec.
  destruct Hspec as (l' & Hr & Hnd & Hset). destruct (runs_result _ _ _ _ _ _ Hr Hc) as ([= ->] & _).
  split; [|split; [done|by etrans]]. apply (elem_of_list_to_set (C := gset string)). by rewrite Hset.
Qed.

(** The session's key holds its encoding as long as the bound is not reached. *)
Definition stored (data : string) (s0 : S) : Prop :=
  ∀ s, keeps sk s0 s → srv_now s < B → ∃ x, srv_db s !! sk = Some (mkEntry (RStr data) x).

Lemma stored_later data (s0 s : S) : stored data s0 → session_others sk ik id B s0 s → stored data s.
Proof. intros Hd [Hk _] s2 Hk2 Hlt. apply Hd; [by eapply keeps_trans|done]. Qed.

Lemma List_finds (st : SessionStore) userID data session (w : W) l job w' :
  sk = sessionKey st id → ik = userSessionsKey st userID →
  (srv_now (rc_server w) < B → index_lasts ik B (rc_server w) ∧ indexed ik id (rc_server w)) →
  stored data (rc_server w) →
  json_Unmarshal data (zero_session nil_any) = (session, None) →
  ListByUserID nil_any st userID w = ((Ok l, job), w') → srv_now (rc_server w') < B →
  session ∈ l ∧ ∀ k ids, job = Some (k, ids) → id ∉ ids.
Proof.
  intros Hsk Hik Hidx Hst Hj Hlist Hlt. unfold ListByUserID, mthen at 1, sret in Hlist. rewrite <-Hik in Hlist.
  destruct (go_cmd (GoSMembers ik) w) as [[ids|e] w1] eqn:Hm;
    [|apply (f_equal (fst ∘ fst)) in Hlist; by apply rd_fail_not_ok in Hlist].
  destruct ids as [|id0 ids0].
  { injection Hlist as <- <- <-. apply SMEMBERS_indexed in Hm as [Hin _]; [|done..].
    by apply not_elem_of_nil in Hin. }
  set (ids := id0 :: ids0) in *. unfold mthen in Hlist.
  destruct (go_cmd (GoMGet _) w1) as [[results|e] w2] eqn:Hg;
    [|apply (f_equal (fst ∘ fst)) in Hlist; by apply rd_fail_not_ok in Hlist].
  destruct (list_loop nil_any ids results [] []) as [sessions expired] eqn:Hloop.
  injection Hlist as <- <- ->.
  apply read_at in Hg as (s & s' & Hs1 & Hg & _ & Hs2); [|intros s; eexists; apply go_MGET_spec].
  destruct (runs_result _ _ _ _ _ _ (go_MGET_spec s _) Hg) as ([= ->] & _ & _).
  apply SMEMBERS_indexed in Hm as (Hin & _ & Hw1); [|done|destruct Hs1 as [[? _] _], Hs2 as [[? _] _]; lia].
  destruct (Hst s) as [x Hx].
  { eapply keeps_trans; [apply Hw1|apply Hs1]. }
  { destruct Hs2 as [[? _] _]. lia. }
  rewrite map_map in Hloop. change (_ :: map _ ids0) with (map (λ i, str_at (srv_db s) (sessionKey st i)) ids) in Hloop.
  rewrite list_loop_spec in Hloop.
  apply pair_equal_spec in Hloop as [<- <-]. rewrite !app_nil_l.
  assert (str_at (srv_db s) (sessionKey st id) = Some data) as Hstr by (unfold str_at; by rewrite <-Hsk, Hx).
  split.
  - apply list_elem_of_omap. exists id. split; [done|]. unfold decoded. rewrite Hstr. simpl. by rewrite Hj.
  - intros k ids' Hjob. unfold cleanup_of in Hjob. simpl in Hjob.
    destruct (filter _ ids) as [|e es] eqn:Hf; [done|]. injection Hjob as _ <-. rewrite <-Hf.
    intros Hbad. apply list_elem_of_filter in Hbad as [Hbad _]. by rewrite Hstr in Hbad.
Qed.

Lemma Count_finds (st : SessionStore) userID data (w : W) n job w' :
  sk = sessionKey st id → ik = userSessionsKey st userID →
  (srv_now (rc_server w) < B → index_lasts ik B (rc_server w) ∧ indexed ik id (rc_server w)) →
  stored data (rc_server w) →
  Count st userID w = ((Ok n, job), w') → srv_now (rc_server w') < B →
  1 ≤ n ∧ ∀ k ids, job = Some (k, ids) → id ∉ ids.
Proof.
  intros Hsk Hik Hidx Hst Hcount Hlt. unfold Count, mthen at 1, sret in Hcount. rewrite <-Hik in Hcount.
  destruct (go_cmd (GoSMembers ik) w) as [[ids|e] w1] eqn:Hm;
    [|apply (f_equal (fst ∘ fst)) in Hcount; by apply rd_fail_not_ok in Hcount].
  destruct ids as [|id0 ids0].
  { injection Hcount as <- <- <-. apply SMEMBERS_indexed in Hm as [Hin _]; [|done..].
    by apply not_elem_of_nil in Hin. }
  set (ids := id0 :: ids0) in *. unfold mthen in Hcount.
  destruct (rc_pipe _ w1) as [[x [e|]] w2] eqn:Hp; cbn [snd] in Hcount;
    [apply (f_equal (fst ∘ fst)) in Hcount; by apply rd_fail_not_ok in Hcount|].
  apply rc_pipe_ok in Hp as [_ Hruns].
  assert (∀ (c : gocmd Z) s r s', c ∈ map (λ i, GoExists [sessionKey st i]) ids → srv_go c s = (r, s') →
    session_others sk ik id B s s') as Hreads.
  { intros c s r s' Hc Hgo. apply list_elem_of_In, in_map_iff in Hc as (i & <- & _).
    eapply runs_session_others; [done|apply go_EXISTS_spec]. }
  pose proof (pipe_many_rel _ _ _ _ _ _ Hreads Hruns) as Hw12.
  apply (pipe_many_at _ _ _ _ _ _ Hreads) in Hruns as [Hlen Hat].
  cbn [fst] in Hcount. destruct (count_loop ids x 0 []) as [count expired] eqn:Hloop.
  injection Hcount as <- <- ->. rewrite length_map in Hlen.
  apply SMEMBERS_indexed in Hm as (Hin & Hnd & Hw1); [|done|destruct Hw12 as [[? _] _]; lia].
  apply list_elem_of_lookup in Hin as [i Hi'].
  destruct (Hat i (GoExists [sessionKey st id])) as (r & s1 & s2 & Hr & Hs1 & Hex & Hs2).
  { by rewrite list_lookup_fmap, Hi'. }
  destruct (runs_result _ _ _ _ _ _ (go_EXISTS_spec s1 _) Hex) as (-> & _ & Hnow).
  destruct (Hst s1) as [y Hy].
  { eapply keeps_trans; [apply Hw1|apply Hs1]. }
  { destruct Hs2 as [[? _] _]. lia. }
  assert (counts_live (Ok (Z.of_nat (length (filter (λ k, is_Some (srv_db s1 !! k)) [sessionKey st id])))) = true)
    as Hlive by (rewrite filter_cons, <-Hsk, Hy; by rewrite decide_True by eauto).
  rewrite count_loop_spec in Hloop by done. apply pair_equal_spec in Hloop as [<- <-]. rewrite app_nil_l.
  assert (zip ids x !! i = Some (id, Ok (Z.of_nat (length (filter (λ k, is_Some (srv_db s1 !! k)) [sessionKey st id])))))
    as Hzip by (apply lookup_zip_with_Some; eauto).
  split.
  - assert (length (filter (λ p, counts_live p.2 = true) (zip ids x)) ≠ 0%nat) as Hne; [|lia].
    intros Hnil%nil_length_inv. eapply (filter_nil_not_elem_of _ _ _ Hnil); [|by eapply list_elem_of_lookup_2]. done.
  - intros k ids' Hjob. unfold cleanup_of in Hjob.
    destruct (filter _ (zip ids x)).*1 as [|e es] eqn:Hf; [done|]. injection Hjob as _ <-. rewrite <-Hf.
    intros Hbad. apply list_elem_of_fmap in Hbad as ([id' r'] & Heq & Hbad). simpl in Heq. subst id'.
    apply list_elem_of_filter in Hbad as [Hdead Hbad]. apply list_elem_of_lookup in Hbad as [j Hj].
    apply lookup_zip_with_Some in Hj as (a & b & [= <- <-] & Hj1 & Hj2).
    assert (i = j) as <- by (by eapply NoDup_lookup).
    rewrite Hj2 in Hr. apply (inj Some) in Hr. cbn [snd] in Hdead. rewrite Hr in Hdead. congruence.
Qed.
End Reading.

Lemma whole_seconds ttl : 0 ≤ ttl → 1000 * Z.quot ttl Second ≤ Milliseconds ttl.
Proof.
  intros Ht. unfold Milliseconds, Second, Millisecond. rewrite !Z.quot_div_nonneg by lia. dlia.
Qed.

(** ** Properties *)

(** C25: a created session is found through its user's index: after [CreateWithTTL]
    succeeded, and until a bound [B] within its time to live in whole seconds (the
    precision of EXPIRE), [ListByUserID] returns the session and [Count] counts
    it, and neither schedules its id for removal from the index, as long as the
    other clients neither remove this id nor give the index an expiry before [B]
    that is earlier than the one it had (an index they create lasts until [B]).
    The user may have an index already that would expire long before [B]: it is
    extended, provided it does not expire during the creation itself. *)
Theorem Create_then_list {W S} `{RedisServerOk S} `{Cl : RedisClient W S} `{CoreErrorsOk}
    {any : Type} (nil_any : any) `{Js : Json (Session any)} canon `{!SessionJsonOk nil_any canon}
    (st : SessionStore) userID ttl opts (w w1 w2 w3 : W) sess B :
  let sk := sessionKey st (ID sess) in
  let ik := userSessionsKey st userID in
  RedisClientOk W S (session_others sk ik (ID sess) B) →
  Second ≤ ttl → keeps_ID opts →
  B ≤ srv_now (rc_server w) + 1000 * Z.quot ttl Second →
  (∀ e t, srv_db (rc_server w) !! ik = Some e → e_exp e = Some t → srv_now (rc_server w1) < t) →
  CreateWithTTL nil_any st userID ttl opts w = (Ok sess, w1) →
  session_others sk ik (ID sess) B (rc_server w1) (rc_server w2) → srv_now (rc_server w3) < B →
  (∀ l job, ListByUserID nil_any st userID w2 = ((Ok l, job), w3) →
     canon sess ∈ l ∧ ∀ k ids, job = Some (k, ids) → ID sess ∉ ids) ∧
  (∀ n job, Count st userID w2 = ((Ok n, job), w3) →
     1 ≤ n ∧ ∀ k ids, job = Some (k, ids) → ID sess ∉ ids).
Proof.
  intros sk ik Hcl Hs Hopts HB Hold Hcreate H12 Hlt.
  assert (index_lasts ik (srv_now (rc_server w1) + 1) (rc_server w)) as Hlast
    by (intros e He t Ht; specialize (Hold e t He Ht); lia).
  assert (RedisClientOk W S (keeps sk)) as Hclk by (eapply RedisClientOk_mono; [|exact Hcl]; by intros ?? []).
  assert (RedisClientOk W S (index_safe ik (ID sess) B)) as Hcli
    by (eapply RedisClientOk_mono; [|exact Hcl]; by intros ?? []).
  assert (Millisecond ≤ ttl) as Hm by (unfold Second in Hs; unfold Millisecond in *; lia).
  destruct (Create_writes nil_any st userID ttl opts w sess w1 Hclk Hm Hopts Hcreate)
    as (data & exp & Hj & Hexp & Hh). fold sk in Hh.
  pose proof (whole_seconds ttl ltac:(unfold Millisecond in Hm; lia)) as Hw.
  assert (stored sk B data (rc_server w2)) as Hst.
  { intros s Hk Hnow. exists (Some exp). apply Hh; [|lia]. eapply keeps_trans; [apply H12|done]. }
  pose proof (unmarshal_marshal _ _ Hj) as Hdec. destruct H12 as [[Hn12 _] Hi12].
  assert (srv_now (rc_server w2) < B → index_lasts ik B (rc_server w2) ∧ indexed ik (ID sess) (rc_server w2)) as Hidx2.
  { intros Hnow. destruct (Create_indexes nil_any st userID ttl opts w sess w1 B Hcli Hs Hopts HB Hlast Hcreate ltac:(lia))
      as [Hl1 Hi1]. split; [by eapply index_lasts_safe|by eapply indexed_safe]. }
  split; intros x job Hrun.
  - by apply (List_finds nil_any sk ik (ID sess) B st userID data (canon sess) w2 x job w3).
  - by apply (Count_finds sk ik (ID sess) B st userID data w2 x job w3).
Qed.

Lemma session_others_elapse sk ik id B (s : MemServer.mem) d :
  0 ≤ d → session_others sk ik id B s (srv_elapse d s).
Proof.
  intros Hd. split; [|by apply index_safe_elapse].
  split; [rewrite srv_elapse_now; lia|]. intros e He Ht.
  apply srv_elapse_keeps; [done..|]. rewrite srv_elapse_now in Ht. done.
Qed.

Lemma session_others_client sk ik id B :
  RedisClientOk MemServer.world MemServer.mem (session_others sk ik id B).
Proof.
  apply MemServer.client_ok; [|apply session_others_elapse].
  intros s. split; [split; [lia|auto]|by apply index_safe_same].
Qed.

(** The user has a session, and an index, of two seconds when a session of an hour is
    created; three seconds later the latter is listed. *)
Lemma Create_then_list_witness :
  let st := NewSessionStore [] in
  let w := (CreateWithTTL tt st "u1" (2 * Second) [] MemServer.start).2 in
  let run := CreateWithTTL tt st "u1" Hour [WithDeviceID "d"] w in
  let w2 := (rc_sleep (3 * Second) run.2).2 in
  let listed := ListByUserID tt st "u1" w2 in
  let counted := Count st "u1" w2 in
  ∃ sess l n job job', run.1 = Ok sess ∧ listed.1 = (Ok l, job) ∧ counted.1 = (Ok n, job') ∧
    sess ∈ l ∧ 1 ≤ n.
Proof.
  intros st w run w2 listed counted.
  destruct run.1 as [sess|e] eqn:Hrun; [|vm_compute in Hrun; discriminate].
  destruct listed.1 as [[l|e] job] eqn:Hlist; [|vm_compute in Hlist; discriminate].
  destruct counted.1 as [[n|e] job'] eqn:Hcount; [|vm_compute in Hcount; discriminate].
  assert (run = (Ok sess, run.2)) as Heq by (rewrite <-Hrun; apply surjective_pairing).
  assert ((srv_db (rc_server w) !! userSessionsKey st "u1") ≫= e_exp = Some 2000) as Hexp
    by (vm_compute; reflexivity).
  assert (srv_now (rc_server run.2) = 0) as Hnow by (vm_compute; reflexivity).
  assert (∀ e t, srv_db (rc_server w) !! userSessionsKey st "u1" = Some e → e_exp e = Some t →
    srv_now (rc_server run.2) < t) as Hold.
  { intros e t He Ht. rewrite He in Hexp. change (e_exp e = Some 2000) in Hexp.
    rewrite Ht in Hexp. injection Hexp as ->. rewrite Hnow. reflexivity. }
  assert (rc_server w2 = srv_elapse 3000 (rc_server run.2)) as Hw2 by (vm_compute; reflexivity).
  exists sess, l, n, job, job'. split_and!; [reflexivity..| |].
  all: pose proof (λ w3, Create_then_list tt id st "u1" Hour [WithDeviceID "d"] w run.2 w2 w3 sess 3600000
    (session_others_client _ _ _ _)) as Hthm.
  - assert (listed = ((Ok l, job), listed.2)) as Hl by (rewrite <-Hlist; apply surjective_pairing).
    refine (proj1 (proj1 (Hthm listed.2 _ _ _ Hold Heq _ _) l job Hl)).
    + vm_compute. discriminate.
    + constructor; [reflexivity|constructor].
    + vm_compute. discriminate.
    + rewrite Hw2. apply session_others_elapse. discriminate.
    + vm_compute. reflexivity.
  - assert (counted = ((Ok n, job'), counted.2)) as Hl by (rewrite <-Hcount; apply surjective_pairing).
    refine (proj1 (proj2 (Hthm counted.2 _ _ _ Hold Heq _ _) n job' Hl)).
    + vm_compute. discriminate.
    + constructor; [reflexivity|constructor].
    + vm_compute. discriminate.
    + rewrite Hw2. apply session_others_elapse. discriminate.
    + vm_compute. reflexivity.
Defined.



(** ** Behaviours worth knowing *)

(** The index expires in whole seconds, cut down: half a second before the end of a
    session of 1.999 seconds the session is alive and its user has none. *)
Lemma index_expires_first :
  let st := NewSessionStore [] in
  let run := CreateWithTTL tt st "u1" (1999 * Millisecond) [] MemServer.start in
  let w := (rc_sleep (1500 * Millisecond) run.2).2 in
  match run.1 with
  | Ok sess => (Exists st (ID sess) w).1 = Ok true ∧ (ListByUserID tt st "u1" w).1 = (Ok [], None)
  | Err _ => False
  end.
Proof. vm_compute. by split. Qed.

(** A client whose pipelines are overtaken by [act]. *)
Definition overtaken {W S} `{RedisClient W S} (act : M W ()) : RedisClient W S := {|
  rc_server := rc_server;
  rc_send A m := rc_send m;
  rc_pipe A p := let! _ := act in rc_pipe p;
  rc_now := rc_now;
  rc_time_String := rc_time_String;
  rc_sleep := rc_sleep;
  rc_ctx_err := rc_ctx_err;
  rc_rand_Read := rc_rand_Read
|}.

(** Reading the index's time to live and setting it are separate requests: a
    creation with a short time to live that overlaps one with a long time to live
    cuts the index down, and the long session is no longer listed. *)
Lemma overlapping_creations_cut_index :
  let st := NewSessionStore [] in
  let long := CreateWithTTL tt st "u1" Hour [] in
  let act : M MemServer.world () := λ w, (tt, (long w).2) in
  let w := (CreateWithTTL (Cl := overtaken act) tt st "u1" (2 * Second) [] MemServer.start).2 in
  let w := (rc_sleep (3 * Second) w).2 in
  (Exists st (hex_EncodeToString (repeat 2 32)) w).1 = Ok true ∧
  (ListByUserID tt st "u1" w).1 = (Ok [], None).
Proof. vm_compute. by split. Qed.
