(* ===== verification/RedisTyping.v ===== *)
(** * The errors of the redis package are [redis.Error] values

    Callers of the package branch on error codes, so every error should be a
    [redis.Error] whose core code is the one of its redis code.  [ErrorsIn] says
    which error values a result carries, for the shapes of results that occur;
    [only P m] says that the errors of a computation satisfy [P], wherever it
    starts and whatever the driver answers. *)

From S2P Require Import Prelude GoLib GoErrors RedisErrors RedisServer RedisClient.
From S2P Require Lock RateLimit Cache Session.

Open Scope go_scope.

(** ** The errors a result carries *)

Class ErrorsIn (A : Type) := all_errors : (goerror → Prop) → A → Prop.

#[export] Instance errors_in_error : ErrorsIn (option goerror) := λ P o,
  match o with Some e => P e | None => True end.
#[export] Instance errors_in_result {A} : ErrorsIn (result A goerror) := λ P r,
  match r with Err e => P e | Ok _ => True end.
#[export] Instance errors_in_first {A B} `{ErrorsIn A} : ErrorsIn (A * B) := λ P x, all_errors P x.1.
#[export] Instance errors_in_count : ErrorsIn (Z * option goerror) | 0 := λ P x, all_errors P x.2.
#[export] Instance errors_in_outcome {A Panic} `{ErrorsIn A} : ErrorsIn (outcome A Panic) := λ P o,
  match o with Returns a => all_errors P a | Panics _ => True end.
#[export] Instance errors_in_fuel : ErrorsIn (option (Z * option goerror)) := λ P o,
  match o with Some x => all_errors P x | None => True end.

Definition only {W A} `{ErrorsIn A} (P : goerror → Prop) (m : M W A) : Prop := ∀ w, all_errors P (m w).1.

Lemma only_ret {W A} `{ErrorsIn A} P (a : A) : all_errors P a → only P (sret (W := W) a).
Proof. by intros Ha w. Qed.

Lemma only_bind {W A B} `{ErrorsIn B} P (m : M W A) (k : A → M W B) :
  (∀ a, only P (k a)) → only P (mthen m k).
Proof. intros Hk w. unfold mthen. destruct (m w) as [a w1]. apply Hk. Qed.

(** With what is known of the first half, whose errors may be passed on. *)
Lemma only_after {W A B} `{ErrorsIn B} P (Q : A → Prop) (m : M W A) (k : A → M W B) :
  (∀ w, Q (m w).1) → (∀ a, Q a → only P (k a)) → only P (mthen m k).
Proof.
  intros Hm Hk w. unfold mthen. specialize (Hm w). destruct (m w) as [a w1]. by apply Hk.
Qed.

Lemma only_then {W A B} `{ErrorsIn A} `{ErrorsIn B} P Q (m : M W A) (k : A → M W B) :
  only Q m → (∀ a, all_errors Q a → only P (k a)) → only P (mthen m k).
Proof. apply only_after. Qed.

Lemma only_mono {W A} P Q (m : M W (result A goerror)) :
  (∀ e, P e → Q e) → only P m → only Q m.
Proof. intros HPQ Hm w. specialize (Hm w). destruct (m w).1; [done|by apply HPQ]. Qed.

(** ** Typed errors *)

(** The invariant of [redis.Error]: the embedded core error has the core code of
    the redis code. *)
Definition typed (e : goerror) : Prop :=
  ∃ r, e = ERedis r ∧ app_Code (rd_AppError r) = rd_CoreCode (rd_Error_Code r).

Section Typed.
Context `{CoreErrorsOk}.

Lemma typed_New code m : typed (ERedis (rd_New code m)).
Proof. eexists. split; [done|]. simpl. by rewrite core_New_spec. Qed.

Lemma typed_Wrap code m cause : typed (ERedis (rd_Wrap code m cause)).
Proof. eexists. split; [done|]. simpl. by rewrite core_Wrap_spec. Qed.

Lemma typed_From o : all_errors typed (option_map ERedis (FromRedisError o)).
Proof.
  destruct o as [e|]; [|done]. unfold FromRedisError.
  repeat case_match; simplify_eq/=; apply typed_New || apply typed_Wrap.
Qed.

Lemma typed_redis_error e : all_errors typed (Cache.redis_error e).
Proof. apply typed_From. Qed.

Lemma typed_fail {A} e : all_errors typed (rd_fail (A := A) e).
Proof.
  pose proof (typed_From (Some e)) as Hf. unfold rd_fail.
  destruct (FromRedisError (Some e)) as [d|] eqn:Hd; [exact Hf|].
  exfalso. revert Hd. simpl. by repeat case_match.
Qed.
End Typed.

(** The shapes in which an operation returns. *)
Section Shapes.
Context (P : goerror → Prop).

Lemma all_Err {A} e : P e → all_errors P (Err (A := A) e).
Proof. done. Qed.
Lemma all_Some e : P e → all_errors P (Some e).
Proof. done. Qed.
Lemma all_first {A B} `{ErrorsIn A} (a : A) (b : B) : all_errors P a → all_errors P (a, b).
Proof. done. Qed.
Lemma all_count n (o : option goerror) : all_errors P o → all_errors P (Some (n : Z, o)).
Proof. done. Qed.
Lemma all_Returns {A Panic} `{ErrorsIn A} (a : A) :
  all_errors P a → all_errors P (Returns (P := Panic) a).
Proof. done. Qed.
End Shapes.

Create HintDb typed_errors.
#[export] Hint Resolve typed_New typed_Wrap typed_From typed_redis_error typed_fail : typed_errors.
#[export] Hint Resolve all_Err all_Some all_first all_count all_Returns : typed_errors.
#[export] Hint Extern 1 (all_errors _ _) => exact I : typed_errors.
#[export] Hint Extern 1 (typed (ERedis (_ _))) =>
  progress unfold LockFailed, LockNotHeld, NotFound, SerializationWrap : typed_errors.

(** Walk through a body: binds, returns and case distinctions. *)
Ltac walk :=
  intros;
  repeat first
    [ apply only_ret; solve [eauto with typed_errors]
    | apply only_bind; intros ?
    | case_match; simplify_eq/= ].

Section Operations.
Context {W S : Type} `{Sv : RedisServer S} `{Cl : RedisClient W S} `{CoreErrorsOk}.

Lemma Ping_typed : only typed (Ping (W := W)).
Proof. unfold Ping. walk. Qed.

Lemma AcquireWithTTL_typed l resource ttl : only typed (Lock.AcquireWithTTL l resource ttl (W := W)).
Proof. unfold Lock.AcquireWithTTL. walk. Qed.

Lemma AcquireWithRetryAndTTL_typed l resource ttl :
  only typed (Lock.AcquireWithRetryAndTTL l resource ttl (W := W)).
Proof.
  unfold Lock.AcquireWithRetryAndTTL. generalize (@None goerror).
  induction (Z.to_nat (Lock.lr_retryCount l)) as [|n IH]; intros last; simpl; [walk|].
  eapply only_then; [apply AcquireWithTTL_typed|]. intros [lock|e] He; walk. apply IH.
Qed.

Lemma TryAcquireWithTTL_typed l resource ttl : only typed (Lock.TryAcquireWithTTL l resource ttl (W := W)).
Proof.
  unfold Lock.TryAcquireWithTTL. eapply only_then; [apply AcquireWithTTL_typed|].
  intros [lock|e] He; walk.
Qed.
Lemma Release_typed lock : only typed (Lock.Release lock (W := W)).
Proof. unfold Lock.Release. walk. Qed.

Lemma Extend_typed lock ttl : only typed (Lock.Extend lock ttl (W := W)).
Proof. unfold Lock.Extend. walk. Qed.

Lemma Verify_typed lock : only typed (Lock.Verify lock (W := W)).
Proof. unfold Lock.Verify. walk. Qed.

Lemma lock_TTL_typed lock : only typed (Lock.TTL lock (W := W)).
Proof. unfold Lock.TTL. walk. Qed.

Lemma WithLockAndTTL_typed {Panic} P l resource ttl (fn : M W (outcome (option goerror) Panic)) :
  only P fn → only (λ e, typed e ∨ P e) (Lock.WithLockAndTTL l resource ttl fn).
Proof.
  intros Hfn. unfold Lock.WithLockAndTTL. eapply only_then; [apply AcquireWithRetryAndTTL_typed|].
  intros [lock|e] He; [|apply only_ret; by left].
  eapply only_then; [exact Hfn|]. intros out Hout. apply only_bind. intros _. apply only_ret.
  destruct out as [[e|]|]; [by right|done..].
Qed.

Lemma AllowN_typed r i n : only typed (RateLimit.AllowN r i n (W := W)).
Proof. unfold RateLimit.AllowN. walk. Qed.

Lemma SlidingWindowAllowN_typed r i n : only typed (RateLimit.SlidingWindowAllowN r i n (W := W)).
Proof. unfold RateLimit.SlidingWindowAllowN. walk. Qed.

Lemma Reset_typed r i : only typed (RateLimit.Reset r i (W := W)).
Proof. unfold RateLimit.Reset. walk. Qed.

Lemma GetStatus_typed r i : only typed (RateLimit.GetStatus r i (W := W)).
Proof. unfold RateLimit.GetStatus. walk. Qed.

(** *** Cache *)

Context `{Cd : Cache.CacheDriver W} {V : Type} `{Js : Json V}.
Implicit Types c : Cache.Cache.

Lemma cache_Get_typed c k : only typed (Cache.Get c k (W := W)).
Proof. unfold Cache.Get. walk. Qed.

Lemma SetWithTTL_typed c k v ttl : only typed (Cache.SetWithTTL c k v ttl (W := W)).
Proof. unfold Cache.SetWithTTL. walk. Qed.

Lemma cache_Delete_typed c ks : only typed (Cache.Delete c ks (W := W)).
Proof. unfold Cache.Delete. walk. Qed.

Lemma cache_Exists_typed c k : only typed (Cache.Exists c k (W := W)).
Proof. unfold Cache.Exists. walk. Qed.

Lemma cache_TTL_typed c k : only typed (Cache.TTL c k (W := W)).
Proof. unfold Cache.TTL. walk. Qed.

Lemma Expire_typed c k ttl : only typed (Cache.Expire c k ttl (W := W)).
Proof. unfold Cache.Expire. walk. Qed.

Lemma GetJSON_typed c k (dest : V) : only typed (Cache.GetJSON c k dest (W := W)).
Proof.
  unfold Cache.GetJSON. eapply only_then; [apply cache_Get_typed|]. intros [o|e] He; walk.
Qed.

Lemma SetJSONWithTTL_typed c k (v : V) ttl : only typed (Cache.SetJSONWithTTL c k v ttl (W := W)).
Proof. unfold Cache.SetJSONWithTTL. walk. Qed.

Lemma MGet_typed c ks : only typed (Cache.MGet c ks (W := W)).
Proof. unfold Cache.MGet. walk. Qed.

Lemma MSetWithTTL_typed c kvs ttl : only typed (Cache.MSetWithTTL c kvs ttl (W := W)).
Proof. unfold Cache.MSetWithTTL. walk. Qed.

Lemma GetOrSetWithTTL_typed P c k ttl (compute : M W (result (option string) goerror)) :
  only P compute → only (λ e, typed e ∨ P e) (Cache.GetOrSetWithTTL c k ttl compute).
Proof.
  intros Hc. unfold Cache.GetOrSetWithTTL. eapply only_then; [apply cache_Get_typed|].
  intros [[v|]|e] He; [by apply only_ret| |apply only_ret; by left].
  eapply only_then; [exact Hc|]. intros [v|e] He'; [|apply only_ret; by right].
  apply only_bind. intros _. by apply only_ret.
Qed.

Lemma GetOrSetJSONWithTTL_typed P c k ttl (dest : V) (compute : M W (result V goerror)) :
  only P compute → only (λ e, typed e ∨ P e) (Cache.GetOrSetJSONWithTTL c k ttl dest compute).
Proof.
  intros Hc. unfold Cache.GetOrSetJSONWithTTL. eapply only_then; [apply GetJSON_typed|].
  intros [[[]|e] d] He; [by apply only_ret| |apply only_ret; by left].
  eapply only_then; [exact Hc|]. intros [v|e] He'; [|apply only_ret; by right].
  apply only_bind. intros _. repeat case_match; apply only_ret; try done; left; apply typed_Wrap.
Qed.

Lemma delete_loop_typed fuel iter ks n w :
  match (Cache.delete_loop fuel iter ks n w).1 with
  | Some (_, o, _, _) => all_errors typed o
  | None => True
  end.
Proof.
  revert iter ks n w. induction fuel as [|fuel IH]; intros iter ks n w; simpl; [done|].
  unfold mthen at 1. destruct (Cache.iter_Next iter w) as [[[v|] it] w2]; [|done].
  destruct (100 <=? _); [|apply IH]. unfold mthen. destruct (go_cmd _ w2) as [[k|e] w3]; [apply IH|].
  apply typed_redis_error.
Qed.

Lemma DeleteByPattern_typed fuel c pattern : only typed (Cache.DeleteByPattern fuel c pattern (W := W)).
Proof.
  unfold Cache.DeleteByPattern. apply only_bind. intros iter.
  apply (only_after _ (λ x, match x with Some (_, o, _, _) => all_errors typed o | None => True end));
    [apply delete_loop_typed|].
  intros [[[[n [e|]] ks] it]|] Hx; [by apply only_ret| |by apply only_ret]. walk.
Qed.

(** *** Sessions *)

Context {any : Type} (nil_any : any) `{Jses : Json (Session.Session any)}.

Lemma update_typed s (x : Session.Session any) : only typed (Session.update s x (W := W)).
Proof. unfold Session.update. walk. Qed.

Lemma GetWithTouch_typed s id touch : only typed (Session.GetWithTouch nil_any s id touch (W := W)).
Proof. unfold Session.GetWithTouch. walk. Qed.

(** Two errors are no [redis.Error]: a rejected time to live and a failure of the
    random source. *)
Lemma CreateWithTTL_typed s userID ttl opts :
  only (λ e, typed e ∨ ∃ text, e = EForeign text [])
    (Session.CreateWithTTL nil_any s userID ttl opts (W := W)).
Proof.
  assert (∀ m : M W (result (Session.Session any) goerror),
    only typed m → only (λ e, typed e ∨ ∃ text, e = EForeign text []) m) as Hmono.
  { intros m. apply only_mono. by left. }
  unfold Session.CreateWithTTL. case_match; [apply only_ret; right; eauto|].
  eapply (only_then _ (λ e, ∃ text, e = EForeign text [])).
  { unfold Session.generateSessionID. apply only_bind. intros [b|e]; apply only_ret; [done|]. by eexists. }
  intros [id|e] He; [|apply only_ret; by right]. apply Hmono. walk.
Qed.

Lemma session_Delete_typed s id : only typed (Session.Delete nil_any s id (W := W)).
Proof.
  unfold Session.Delete. eapply only_then; [apply GetWithTouch_typed|]. intros [x|e] He; walk.
Qed.

Lemma DeleteByUserID_typed s userID : only typed (Session.DeleteByUserID s userID (W := W)).
Proof. unfold Session.DeleteByUserID. walk. Qed.

Lemma ListByUserID_typed s userID : only typed (Session.ListByUserID nil_any s userID (W := W)).
Proof. unfold Session.ListByUserID. walk. Qed.

Lemma session_Exists_typed s id : only typed (Session.Exists s id (W := W)).
Proof. unfold Session.Exists. walk. Qed.

Lemma session_Extend_typed s id ttl : only typed (Session.Extend nil_any s id ttl (W := W)).
Proof.
  unfold Session.Extend. eapply only_then; [apply GetWithTouch_typed|].
  intros [x|e] He; [|by apply only_ret]. apply only_bind; intros now. apply only_bind; intros now2.
  eapply only_then; [apply update_typed|]. intros [[e|] y] He'; walk.
Qed.

Lemma Count_typed s userID : only typed (Session.Count s userID (W := W)).
Proof. unfold Session.Count. walk. Qed.
End Operations.

(** Take a conjunction of statements on operations apart. *)
Ltac each_op := repeat match goal with |- _ ∧ _ => split | |- ∀ _, _ => intro end.

(** ** Properties *)

(** C35: every error the redis package returns is a [redis.Error] with the core code
    of its redis code, so that the code checks and the mapping to core errors see
    through it.  Errors of a caller's callback are passed on as they are;
    [CreateWithTTL] alone has two plain errors of its own, for a time to live that
    is not positive and for a failing random source. *)
Theorem redis_errors_typed {W S : Type} `{RedisServer S} `{RedisClient W S} `{CoreErrorsOk}
    `{Cache.CacheDriver W} {V : Type} `{Json V} {any : Type} (nil_any : any)
    `{Json (Session.Session any)} {Panic : Type} (P : goerror → Prop) :
  let or_callback e := typed e ∨ P e in
  only typed (Ping (W := W)) ∧
  (* locks *)
  (∀ l k ttl, only typed (Lock.AcquireWithTTL l k ttl (W := W)) ∧
     only typed (Lock.AcquireWithRetryAndTTL l k ttl (W := W)) ∧
     only typed (Lock.TryAcquireWithTTL l k ttl (W := W)) ∧
     ∀ fn : M W (outcome (option goerror) Panic), only P fn → only or_callback (Lock.WithLockAndTTL l k ttl fn)) ∧
  (∀ lock ttl, only typed (Lock.Release lock (W := W)) ∧ only typed (Lock.Extend lock ttl (W := W)) ∧
     only typed (Lock.Verify lock (W := W)) ∧ only typed (Lock.TTL lock (W := W))) ∧
  (* rate limits *)
  (∀ r k n, only typed (RateLimit.AllowN r k n (W := W)) ∧
     only typed (RateLimit.SlidingWindowAllowN r k n (W := W)) ∧
     only typed (RateLimit.Reset r k (W := W)) ∧ only typed (RateLimit.GetStatus r k (W := W))) ∧
  (* cache *)
  (∀ c k v ttl, only typed (Cache.Get c k (W := W)) ∧ only typed (Cache.SetWithTTL c k v ttl (W := W)) ∧
     only typed (Cache.Exists c k (W := W)) ∧ only typed (Cache.TTL c k (W := W)) ∧
     only typed (Cache.Expire c k ttl (W := W)) ∧
     ∀ compute, only P compute → only or_callback (Cache.GetOrSetWithTTL c k ttl compute (W := W))) ∧
  (∀ c k (v : V) ttl, only typed (Cache.GetJSON c k v (W := W)) ∧
     only typed (Cache.SetJSONWithTTL c k v ttl (W := W)) ∧
     ∀ compute, only P compute → only or_callback (Cache.GetOrSetJSONWithTTL c k ttl v compute (W := W))) ∧
  (∀ c ks kvs ttl fuel pattern, only typed (Cache.Delete c ks (W := W)) ∧ only typed (Cache.MGet c ks (W := W)) ∧
     only typed (Cache.MSetWithTTL c kvs ttl (W := W)) ∧
     only typed (Cache.DeleteByPattern fuel c pattern (W := W))) ∧
  (* sessions *)
  (∀ s id touch ttl (x : Session.Session any),
     only typed (Session.GetWithTouch nil_any s id touch (W := W)) ∧
     only typed (Session.update s x (W := W)) ∧ only typed (Session.Delete nil_any s id (W := W)) ∧
     only typed (Session.Exists s id (W := W)) ∧ only typed (Session.Extend nil_any s id ttl (W := W))) ∧
  (∀ s userID ttl opts,
     only (λ e, typed e ∨ ∃ text, e = EForeign text [])
       (Session.CreateWithTTL nil_any s userID ttl opts (W := W)) ∧
     only typed (Session.ListByUserID nil_any s userID (W := W)) ∧
     only typed (Session.Count s userID (W := W)) ∧ only typed (Session.DeleteByUserID s userID (W := W))).
Proof.
  intros or_callback. each_op; eauto using
    Ping_typed, AcquireWithTTL_typed, AcquireWithRetryAndTTL_typed, TryAcquireWithTTL_typed,
    WithLockAndTTL_typed, Release_typed, Extend_typed, Verify_typed, lock_TTL_typed,
    AllowN_typed, SlidingWindowAllowN_typed, Reset_typed, GetStatus_typed,
    cache_Get_typed, SetWithTTL_typed, cache_Exists_typed, cache_TTL_typed, Expire_typed,
    GetOrSetWithTTL_typed, GetJSON_typed, SetJSONWithTTL_typed, GetOrSetJSONWithTTL_typed,
    cache_Delete_typed, MGet_typed, MSetWithTTL_typed, DeleteByPattern_typed.
  all: eauto using update_typed, GetWithTouch_typed, CreateWithTTL_typed, session_Delete_typed,
    DeleteByUserID_typed, ListByUserID_typed, session_Exists_typed, session_Extend_typed, Count_typed.
Qed.

Lemma redis_errors_typed_witness :
  let s := Session.NewSessionStore [] in
  CoreErrorsOk (H := simple_core) ∧
  ∃ e, (Session.GetWithTouch tt s "missing" false MemServer.start).1 = Err e ∧ typed e.
Proof.
  intros s. split; [apply _|].
  destruct (redis_errors_typed (W := MemServer.world) (V := Session.Session ()) (Panic := ()) tt (λ _, False))
    as (_ & _ & _ & _ & _ & _ & _ & Hs & _).
  destruct (Hs s "missing" false 0 (Session.zero_session tt)) as (Hg & _).
  specialize (Hg MemServer.start). eexists. split; [vm_compute; reflexivity|].
  vm_compute in Hg. exact Hg.
Defined.
